(* ===== verification/_CoqProject ===== *)
-Q . S2P
Prelude.v
Fnv.v
StdMap.v
Codec.v
WireTypes.v
WireCodec.v
CoreMessages.v
Floats.v
ConfigTypes.v
ConfigCodec.v
ConfigMessages.v
Discovery.v
Advertiser.v
Validation.v
TelemetryValidation.v
MediaValidation.v
ControlValidation.v
Framing.v
SendQueue.v
SocketWrite.v
RuntimeCommon.v
Authority.v
Session.v
Runtime.v
Concurrency.v
Capi.v
DiscoveryCapi.v
Handshake.v
