(* ===== verification/Prelude.v ===== *)
(** * YunLink: a verification development

    YunLink is a C++ library with which endpoints (ground stations, vehicles) exchange
    typed messages over TCP.  An [Envelope] is encoded into a frame; a [Runtime] keeps
    connections, sessions with their negotiated profiles, optional lossy lanes and
    authority leases; it queues outgoing frames by quality of service and dispatches
    incoming ones to its subscribers.  This library models that program, from the bytes
    on the wire to the interleaving of its threads, with the discovery of endpoints over
    UDP, the configuration service's codec and the validators of the profiles.

    ** Parts and files

    - [Prelude]: bytes, integers of fixed width, tactics and hint databases.
    - [StdMap]: [std::map], an ordered map with its iteration order.
    - [Fnv]: FNV-1a, which both checksums of the program use, and its inverse.
    - [Floats]: [double] and [float] as bit patterns, with [std::isfinite], comparisons
      and arithmetic from the Standard Library's [SpecFloat].
    - [Codec]: byte writers and readers, and what it means that a reader inverts a
      writer.
    - [WireTypes]: include/yunlink/core/wire_v2.hpp and src/core/wire_v2.cpp.
    - [WireCodec]: [WireCodec::encode] and [decode] (src/core/wire_v2_codec.cpp).
    - [CoreMessages]: the payloads of src/core/core_messages_v2.cpp over the Writer and
      Reader of core_messages_v2_internal.hpp.
    - [ConfigTypes], [ConfigCodec], [ConfigMessages]: the configuration service
      (semantic/configuration/service_types.hpp, binary_codec_io.hpp,
      configuration_service/codec_io.hpp and codec.cpp, core_messages_v2_configuration.cpp).
    - [Discovery], [Advertiser]: the discovery datagrams with their tag, and the responder
      thread (src/discovery).
    - [Validation], [TelemetryValidation], [MediaValidation], [ControlValidation]: the
      validators under src/profiles, over records of the protobuf messages they check.
    - [Framing]: how frames are cut out of a TCP stream (io/runtime_receive.cpp) and how
      an overflowing buffer is recovered (runtime_network.cpp).
    - [SendQueue], [SocketWrite]: the queues of a connection and the writes of its send
      thread (runtime_network.cpp).
    - [RuntimeCommon]: the shared state [Runtime::Impl] (runtime_internal.hpp,
      runtime_v2.hpp) and its helpers (runtime_common.cpp).
    - [Authority]: leases on entities (authority.cpp).
    - [Session]: handshake, lanes, dispatch, loss of a peer (session.cpp).
    - [Runtime]: the API, connections, start and stop, and one pass of each thread
      (runtime_api.cpp, runtime.cpp).
    - [Concurrency]: the runtime as a system of critical sections.
    - [Capi], [DiscoveryCapi]: the C interface over the runtime and over discovery
      (include/yunlink/c/yunlink_v2.h, src/c/v2).
    - [Handshake]: two runtimes joined by the bytes of their connection.

    The runtime files are under src/runtime/v2.  A C++ function is a definition of the
    same name.  A method that changes the runtime takes and returns [Impl]; a method
    that takes the mutex several times is the composition of one function per critical
    section.  Pointers to connections are handles into a heap, [std::map] is [stdmap],
    hash maps are [gmap], [size_t] and the fixed-width integers are [Z] with their
    wrap-around written out.  Reads outside a buffer are [None], and theorems show that
    they do not happen; only through the views of the C interface a caller can make them
    happen.

    ** What the theorems show

    - The wire format: decoding an encoded envelope gives it back whatever follows it;
      an accepted frame is the encoding of what it decodes to, up to reserved fields;
      decoding is total on all bytes; changing one byte of a frame is always detected.
    - The payloads: core messages and session payloads have exactly one encoding, or
      one up to the order of map entries.  For the twenty configuration messages a
      [contract] says what the encoder accepts, that decoding inverts it and that the
      decoder accepts nothing else.
    - Discovery: queries have one encoding per secret, replies decode to what their
      format carries, and an accepted reply is, byte by byte, the layout [reply_image] of
      a valid advertisement with its attributes in some order; single-byte changes are
      detected; the responder answers exactly the queries of its secret, numbers its
      replies without gap, and keeps its multicast memberships in step with the
      interfaces; in every interleaving of the statements of [start] and [stop] with the
      thread, the thread has its socket and a call can come to its end.
    - Validators: each theorem states a validator's verdict as a declarative condition on
      the message (numbers by their exact value); keys and paths are equivalent to
      grammars over their segments; every rejection is explained.
    - The stream: any cutting of valid frames into reads delivers them in order, any
      bytes leave the buffer within its bound, and after garbage the receiver finds the
      next frame.
    - The queues: exact byte accounting within the bound, a reserve for control frames,
      strict priority, first in first out for reliable frames, only lossy frames are
      dropped, one frame per latest-value key; writes end, and never interleave frames.
    - Authority: where no expired lease is in the way the lease table refines an
      abstract lock ([lock_spec]) that says for each request the answer, the holder
      after it and the time at which the lease runs out; actions reach subscribers only
      for the holder.
    - Sessions: negotiation is symmetric and gives only what both sides offered; the
      state machine moves only as stated; a message meets exactly one verdict
      ([judged]), which says what is answered, what is emitted and what the state is
      afterwards; the loss of a peer removes exactly what [drop_control_peer] lists.
    - Sending: [send_correct] is the table of what a send returns for every reason and
      of where the frame goes.
    - Handshake: once one side opens a session, the bytes the two sides exchange,
      however they are cut into reads, make the session active on both with profiles
      negotiated from the two configurations; where the two offers meet what each side
      requires, each has all it requires ([usable]).  The code itself does not look at
      the required profiles ([required_profiles_ignored]).
    - Concurrency: in every state that any interleaving of sections reaches the
      sessions, the leases, the connections and the queues satisfy their invariants.
      [operation_sections] relates the operations of [Runtime] to the sections.
    - The C interface: events can be published again from their views; publishing checks
      enumerators and pointers and then is [publish] on the values the views are of;
      character arrays and buffers are never overrun; discovery's accessors rebuild an
      advertisement.
    - Findings: theorems marked (finding) show on the model where the code does not do
      what it means to.

    ** Fuel

    [drain] and [recover_receive_overflow] get one unit per byte of the buffer, and are
    [None] should it run out: [receive_chunk_bounded] shows that it never does, because
    each pass shortens the buffer;
    [make_room_loop] one per queued frame; [write_loop] one per byte and permitted
    retry ([write_frame_chunks_terminates]); [close_peer] one per filed connection
    ([close_peer_terminates]); [path_loop] one per byte of the path
    ([path_loop_spec]).

    ** What is not modelled

    Sockets, threads and clocks are arguments: what a read returns, what [write_some]
    takes, how a connection attempt ends, what [make_address] accepts.  Event handlers
    are tokens and an event is recorded with the tokens that receive it, so a handler
    that calls back into the runtime is another operation of [Concurrency].  In the
    runtime, joining a thread is the step in which that thread ends.  Of protobuf,
    [ByteSizeLong] is a parameter and parsing and serialization are left out.  Behind a
    pointer of the C interface is what can be read there; a function that is given a view
    whose length exceeds its data, which is undefined behaviour, is [None].  The Rust and
    Python bindings, which call the C interface, the tests and the tools are not
    modelled. *)

From Stdlib Require Import ZArith Lia String Ascii Strings.Byte.
From stdpp Require Import base gmap strings list.
Local Open Scope Z_scope.

(** ** Notations and hint databases *)

Declare Scope yunlink_scope.
Delimit Scope yunlink_scope with yl.

(** [std::vector<uint8_t>]. *)
Abbreviation Bytes := (list byte).

(** [std::vector::size()] and [std::string::size()], as the [size_t] the code
    compares with. *)
Abbreviation vsize l := (Z.of_nat (length l)).
Abbreviation ssize s := (Z.of_nat (String.length s)).

Create HintDb yunlink discriminated.
Create HintDb codec discriminated.
Create Rewrite HintDb bytes.

(** ** Tactics shared by the development *)

(** Splits every boolean conjunction and comparison of the context. *)
Ltac bool_hyps :=
  repeat match goal with
  | H : (_ && _)%bool = true |- _ => apply andb_true_iff in H; destruct H
  | H : (_ || _)%bool = false |- _ => apply orb_false_iff in H; destruct H
  | H : negb _ = true |- _ => apply negb_true_iff in H
  | H : negb _ = false |- _ => apply negb_false_iff in H
  | H : (_ <=? _) = true |- _ => apply Z.leb_le in H
  | H : (_ <=? _) = false |- _ => apply Z.leb_gt in H
  | H : (_ <? _) = true |- _ => apply Z.ltb_lt in H
  | H : (_ <? _) = false |- _ => apply Z.ltb_ge in H
  | H : (_ =? _) = true |- _ => apply Z.eqb_eq in H
  | H : (_ =? _) = false |- _ => apply Z.eqb_neq in H
  | H : bool_decide _ = true |- _ => apply bool_decide_eq_true in H
  | H : bool_decide _ = false |- _ => apply bool_decide_eq_false in H
  end.

(** Proves a boolean goal built from comparisons. *)
Ltac bool_solve :=
  repeat match goal with
  | |- (_ && _)%bool = true => apply andb_true_iff; split
  | |- (_ <=? _) = true => apply Z.leb_le
  | |- (_ <? _) = true => apply Z.ltb_lt
  | |- (_ <? _) = false => apply Z.ltb_ge
  | |- (_ <=? _) = false => apply Z.leb_gt
  | |- (_ =? _) = true => apply Z.eqb_eq
  | |- (_ =? _) = false => apply Z.eqb_neq
  | |- negb _ = true => apply negb_true_iff
  | |- bool_decide _ = true => apply bool_decide_eq_true
  | |- bool_decide _ = false => apply bool_decide_eq_false
  end; try assumption; try lia; try done.

(** Destructs the scrutinee of the first conditional of the goal. *)
Ltac case_if :=
  match goal with
  | |- context [if ?b then _ else _] => destruct b eqn:?
  end.

(** The same in a hypothesis. *)
Ltac case_if_in H :=
  match type of H with
  | context [if ?b then _ else _] => destruct b eqn:?
  end.

(** ** Fixed-width unsigned integers

    A [w]-bit unsigned integer is a [Z]; [uint w] is the wrap-around of a
    conversion to it and [in_uint w] its range. *)

Definition uint (w v : Z) : Z := v mod 2 ^ w.
Definition in_uint (w v : Z) : bool := (0 <=? v) && (v <? 2 ^ w).

Abbreviation uint8 := (uint 8).
Abbreviation uint16 := (uint 16).
Abbreviation uint32 := (uint 32).
Abbreviation uint64 := (uint 64).

(** [UINT16_MAX], [UINT32_MAX]. *)
Definition uint16_max : Z := 65535.
Definition uint32_max : Z := 4294967295.

(** The conversion of a [w]-bit unsigned integer to a signed one. *)
Definition sint (w v : Z) : Z :=
  if v <? 2 ^ (w - 1) then v else v - 2 ^ w.
Definition in_sint (w v : Z) : bool := (- 2 ^ (w - 1) <=? v) && (v <? 2 ^ (w - 1)).

Lemma in_uint_range w v : in_uint w v = true ↔ 0 <= v < 2 ^ w.
Proof. unfold in_uint. rewrite andb_true_iff, Z.leb_le, Z.ltb_lt. done. Qed.

Lemma uint_in_range w v : 0 <= w → in_uint w (uint w v) = true.
Proof.
  intros. apply in_uint_range, Z.mod_pos_bound, Z.pow_pos_nonneg; lia.
Qed.

Lemma uint_small w v : in_uint w v = true → uint w v = v.
Proof. intros ?%in_uint_range. by apply Z.mod_small. Qed.

Lemma sint_uint w v : 0 < w → in_sint w v = true → sint w (uint w v) = v.
Proof.
  intros Hw. unfold in_sint, sint, uint. rewrite andb_true_iff, Z.leb_le, Z.ltb_lt.
  pose proof (Z.pow_pos_nonneg 2 (w - 1) ltac:(lia) ltac:(lia)).
  replace (2 ^ w) with (2 * 2 ^ (w - 1)) by (rewrite <- Z.pow_succ_r by lia; f_equal; lia).
  intros Hv. destruct (Z.le_gt_cases 0 v).
  - rewrite Z.mod_small by lia. by destruct (Z.ltb_spec v (2 ^ (w - 1))); [|lia].
  - replace (v mod (2 * 2 ^ (w - 1))) with (v + 2 * 2 ^ (w - 1)).
    + destruct (Z.ltb_spec (v + 2 * 2 ^ (w - 1)) (2 ^ (w - 1))); lia.
    + apply (Z.mod_unique _ _ (-1)); lia.
Qed.

Lemma uint_sint w v :
  0 < w → in_uint w v = true → in_sint w (sint w v) = true ∧ uint w (sint w v) = v.
Proof.
  intros Hw Hv%in_uint_range. unfold in_sint, sint, uint.
  pose proof (Z.pow_pos_nonneg 2 (w - 1) ltac:(lia) ltac:(lia)).
  assert (E : 2 ^ w = 2 * 2 ^ (w - 1))
    by (rewrite <- Z.pow_succ_r by lia; f_equal; lia).
  rewrite E in *. rewrite andb_true_iff, Z.leb_le, Z.ltb_lt.
  destruct (Z.ltb_spec v (2 ^ (w - 1))); split; try lia.
  - apply Z.mod_small; lia.
  - symmetry. apply (Z.mod_unique _ _ (-1)); lia.
Qed.

#[export] Hint Resolve uint_in_range : yunlink.
#[export] Hint Rewrite uint_small using done : bytes.

(** ** Bytes *)

#[export] Instance byte_eq_decision : EqDecision byte := Byte.byte_eq_dec.

(** [static_cast<uint8_t>(v)]. *)
Definition byte_of (v : Z) : byte :=
  default Byte.x00 (Byte.of_N (Z.to_N (uint8 v))).

(** The value of a [uint8_t]. *)
Definition val (b : byte) : Z := Z.of_N (Byte.to_N b).

Lemma val_range b : 0 <= val b < 256.
Proof. unfold val. pose proof (Byte.to_N_bounded b). lia. Qed.

Lemma val_byte_of v : val (byte_of v) = uint8 v.
Proof.
  unfold val, byte_of, uint. change (2 ^ 8) with 256.
  pose proof (Z.mod_pos_bound v 256 ltac:(lia)).
  destruct (Byte.of_N (Z.to_N (v mod 256))) as [b|] eqn:E; simpl.
  - apply Byte.to_of_N in E. rewrite E. lia.
  - apply Byte.of_N_None_iff in E. lia.
Qed.

Lemma val_inj a b : val a = val b → a = b.
Proof.
  unfold val. intros E%N2Z.inj.
  pose proof (Byte.of_to_N a). pose proof (Byte.of_to_N b). congruence.
Qed.

Lemma byte_of_val b : byte_of (val b) = b.
Proof.
  apply val_inj. rewrite val_byte_of. apply Z.mod_small, val_range.
Qed.

#[export] Hint Rewrite val_byte_of byte_of_val : bytes.

(** ** Little- and big-endian integers

    The loops of the codecs: [write_le shift n v] pushes the [n] bytes
    [v >> shift], [v >> (shift + 8)], ... and [read_le shift value bs] ORs the
    bytes of [bs] into [value], each shifted 8 bits more than the last.
    [write_be] and [read_be] run the shifts downwards. *)

Fixpoint write_le (shift : Z) (n : nat) (v : Z) : Bytes :=
  match n with
  | O => []
  | S n => byte_of (v ≫ shift) :: write_le (shift + 8) n v
  end.

Fixpoint read_le (shift value : Z) (bs : Bytes) : Z :=
  match bs with
  | [] => value
  | b :: bs => read_le (shift + 8) (Z.lor value (val b ≪ shift)) bs
  end.

Fixpoint write_be (n : nat) (v : Z) : Bytes :=
  match n with
  | O => []
  | S n => byte_of (v ≫ (8 * Z.of_nat n)) :: write_be n v
  end.

Fixpoint read_be (value : Z) (bs : Bytes) : Z :=
  match bs with
  | [] => value
  | b :: bs => read_be (Z.lor value (val b ≪ (8 * Z.of_nat (length bs)))) bs
  end.

(** The number a list of bytes denotes, least significant byte first. *)
Fixpoint le_value (bs : Bytes) : Z :=
  match bs with
  | [] => 0
  | b :: bs => val b + 256 * le_value bs
  end.

Lemma length_write_le shift n v : length (write_le shift n v) = n.
Proof. revert shift; induction n; simpl; auto. Qed.

Lemma length_write_be n v : length (write_be n v) = n.
Proof. induction n; simpl; auto. Qed.

#[export] Hint Rewrite length_write_le length_write_be : bytes.

Lemma lor_disjoint a b n :
  0 <= n → 0 <= a < 2 ^ n → Z.lor a (b ≪ n) = a + 2 ^ n * b.
Proof.
  intros Hn Ha. rewrite Z.shiftl_mul_pow2 by lia.
  replace (2 ^ n * b) with (b * 2 ^ n) by lia.
  symmetry. rewrite <- Z.lxor_lor.
  - apply Z.add_nocarry_lxor. apply Z.bits_inj'. intros i Hi.
    rewrite Z.land_spec, Z.bits_0. destruct (Z.lt_ge_cases i n).
    + rewrite Z.mul_pow2_bits_low by lia. apply andb_false_r.
    + rewrite <- (Z.mod_small a (2 ^ n)), Z.mod_pow2_bits_high by lia. done.
  - apply Z.bits_inj'. intros i Hi.
    rewrite Z.land_spec, Z.bits_0. destruct (Z.lt_ge_cases i n).
    + rewrite Z.mul_pow2_bits_low by lia. apply andb_false_r.
    + rewrite <- (Z.mod_small a (2 ^ n)), Z.mod_pow2_bits_high by lia. done.
Qed.

Lemma le_value_range bs : 0 <= le_value bs < 2 ^ (8 * vsize bs).
Proof.
  induction bs as [|b bs IH]; simpl; [lia|].
  pose proof (val_range b).
  replace (8 * Z.of_nat (S (length bs))) with (8 + 8 * vsize bs) by lia.
  rewrite Z.pow_add_r by lia. lia.
Qed.

Lemma read_le_spec bs shift value :
  0 <= shift → 0 <= value < 2 ^ shift →
  read_le shift value bs = value + 2 ^ shift * le_value bs.
Proof.
  revert shift value. induction bs as [|b bs IH]; intros shift value Hs Hv; simpl.
  { lia. }
  pose proof (val_range b).
  rewrite lor_disjoint by lia. rewrite IH; rewrite ?Z.pow_add_r by lia; nia.
Qed.

Lemma le_value_write_le n shift v :
  0 <= shift → le_value (write_le shift n v) = (v ≫ shift) mod 2 ^ (8 * Z.of_nat n).
Proof.
  revert shift. induction n as [|n IH]; intros shift Hs; cbn [write_le le_value].
  { rewrite Z.mod_1_r. done. }
  rewrite val_byte_of, IH by lia. rewrite !Z.shiftr_div_pow2 by lia.
  replace (8 * Z.of_nat (S n)) with (8 + 8 * Z.of_nat n) by lia.
  rewrite !Z.pow_add_r by lia. rewrite <- Z.div_div by lia.
  rewrite (Z.rem_mul_r (v / 2 ^ shift) (2 ^ 8) (2 ^ (8 * Z.of_nat n))) by lia.
  done.
Qed.

Lemma write_le_le_value_shift bs shift v :
  0 <= shift → v ≫ shift = le_value bs →
  write_le shift (length bs) v = bs.
Proof.
  revert shift v. induction bs as [|b bs IH]; intros shift v Hs Hv; simpl; [done|].
  simpl in Hv. pose proof (val_range b). f_equal.
  - apply val_inj. rewrite val_byte_of, Hv. unfold uint. change (2 ^ 8) with 256.
    rewrite (Z.mul_comm 256), Z.mod_add, Z.mod_small by lia. done.
  - apply IH; [lia|]. rewrite <- Z.shiftr_shiftr by lia. rewrite Hv.
    rewrite Z.shiftr_div_pow2 by lia. change (2 ^ 8) with 256.
    rewrite (Z.mul_comm 256), Z.div_add, Z.div_small by lia. lia.
Qed.

(** The little-endian loops are inverse to each other. *)
Lemma read_write_le_mod n v :
  read_le 0 0 (write_le 0 n v) = uint (8 * Z.of_nat n) v.
Proof.
  rewrite read_le_spec by lia. rewrite le_value_write_le, Z.shiftr_0_r by lia.
  unfold uint. lia.
Qed.

Lemma read_write_le n v :
  in_uint (8 * Z.of_nat n) v = true → read_le 0 0 (write_le 0 n v) = v.
Proof. intros. by rewrite read_write_le_mod, uint_small. Qed.

Lemma write_read_le bs : write_le 0 (length bs) (read_le 0 0 bs) = bs.
Proof.
  apply write_le_le_value_shift; [lia|].
  rewrite read_le_spec by lia. rewrite Z.shiftr_0_r. lia.
Qed.

Lemma read_le_range bs : 0 <= read_le 0 0 bs < 2 ^ (8 * vsize bs).
Proof. rewrite read_le_spec by lia. pose proof (le_value_range bs). lia. Qed.

(** The big-endian loops are the little-endian ones on the reversed bytes. *)
Lemma write_le_snoc n shift v :
  write_le shift (S n) v =
  write_le shift n v ++ [byte_of (v ≫ (shift + 8 * Z.of_nat n))].
Proof.
  revert shift. induction n as [|n IH]; intros shift.
  { simpl. by rewrite Z.add_0_r. }
  change (write_le shift (S (S n)) v)
    with (byte_of (v ≫ shift) :: write_le (shift + 8) (S n) v).
  rewrite IH. cbn [write_le app].
  replace (shift + 8 + 8 * Z.of_nat n) with (shift + 8 * Z.of_nat (S n)) by lia.
  done.
Qed.

Lemma write_be_rev n v : write_be n v = reverse (write_le 0 n v).
Proof.
  induction n as [|n IH]; [done|].
  rewrite write_le_snoc, reverse_snoc, <- IH. simpl. done.
Qed.

Lemma le_value_app bs1 bs2 :
  le_value (bs1 ++ bs2) = le_value bs1 + 2 ^ (8 * vsize bs1) * le_value bs2.
Proof.
  induction bs1 as [|b bs1 IH]; simpl; [lia|]. rewrite IH.
  replace (8 * Z.of_nat (S (length bs1))) with (8 + 8 * vsize bs1) by lia.
  rewrite Z.pow_add_r by lia. lia.
Qed.

Lemma read_be_spec bs value :
  value mod 2 ^ (8 * vsize bs) = 0 →
  read_be value bs = value + le_value (reverse bs).
Proof.
  revert value. induction bs as [|b bs IH]; intros value Hv; simpl.
  { change (reverse []) with (@nil byte). simpl. lia. }
  pose proof (val_range b).
  pose proof (Z.pow_pos_nonneg 2 (8 * vsize bs) ltac:(lia) ltac:(lia)).
  assert (Hlor : Z.lor value (val b ≪ (8 * vsize bs))
                 = value + 2 ^ (8 * vsize bs) * val b).
  { apply Z.mod_divide in Hv; [|simpl; lia]. destruct Hv as [k ->].
    simpl length. replace (8 * Z.of_nat (S (length bs))) with (8 * vsize bs + 8) by lia.
    rewrite Z.pow_add_r by lia.
    replace (k * (2 ^ (8 * vsize bs) * 2 ^ 8)) with ((k * 2 ^ 8) * 2 ^ (8 * vsize bs)) by lia.
    rewrite <- Z.shiftl_mul_pow2 by lia. rewrite <- Z.shiftl_lor.
    rewrite Z.lor_comm, <- (Z.shiftl_mul_pow2 k 8) by lia.
    rewrite lor_disjoint by (change (2 ^ 8) with 256; lia).
    rewrite !Z.shiftl_mul_pow2 by lia. lia. }
  rewrite Hlor, IH.
  - rewrite reverse_cons, le_value_app. rewrite length_reverse. simpl. lia.
  - simpl length in Hv.
    replace (8 * Z.of_nat (S (length bs))) with (8 * vsize bs + 8) in Hv by lia.
    rewrite Z.pow_add_r in Hv by lia.
    apply Z.mod_divide in Hv; [|lia]. destruct Hv as [k ->].
    apply Z.mod_divide; [lia|]. exists (k * 2 ^ 8 + val b). lia.
Qed.

Lemma read_write_be n v :
  in_uint (8 * Z.of_nat n) v = true → read_be 0 (write_be n v) = v.
Proof.
  intros Hv%in_uint_range. rewrite read_be_spec by (apply Z.mod_0_l; lia).
  rewrite write_be_rev, reverse_involutive, le_value_write_le by lia.
  rewrite Z.shiftr_0_r, Z.mod_small by lia. lia.
Qed.

Lemma read_be_range bs : 0 <= read_be 0 bs < 2 ^ (8 * vsize bs).
Proof.
  rewrite read_be_spec by (apply Z.mod_0_l; lia).
  pose proof (le_value_range (reverse bs)) as H. rewrite length_reverse in H. lia.
Qed.

Lemma write_read_be bs : write_be (length bs) (read_be 0 bs) = bs.
Proof.
  rewrite write_be_rev, read_be_spec by (apply Z.mod_0_l; lia).
  rewrite <- (length_reverse bs), (write_le_le_value_shift (reverse bs)).
  - apply reverse_involutive.
  - lia.
  - rewrite Z.shiftr_0_r. lia.
Qed.
