(* ===== verification/Fnv.v ===== *)
(** * Fnv: one step of FNV-1a is reversible

    The wire checksum and the discovery tag are FNV-1a hashes of 32 and of 64 bits: a
    fold of [(hash ^ byte) * prime] modulo [2 ^ w].  The prime is odd, so every step is a
    bijection of the [w]-bit integers, for a fixed hash different bytes give different
    results, and the hash before a step can be computed from the hash after it. *)

From Stdlib Require Import ZArith Lia Strings.Byte.
From stdpp Require Import base list.
From S2P Require Import Prelude.
Local Open Scope Z_scope.

(** A prime and its inverse modulo [2 ^ w]. *)
Class FnvPrime (w p q : Z) : Prop := {
  fnv_width : 8 <= w;
  fnv_inverse : (p * q) mod 2 ^ w = 1;
}.

Definition fnv_step (w p hash : Z) (b : byte) : Z := uint w (Z.lxor hash (val b) * p).
Definition fnv_unstep (w q hash : Z) (b : byte) : Z := Z.lxor (uint w (hash * q)) (val b).

Lemma lxor_range w h b :
  8 <= w → in_uint w h = true → in_uint w (Z.lxor h (val b)) = true.
Proof.
  intros Hw Hh%in_uint_range. apply in_uint_range. pose proof (val_range b).
  pose proof (Z.pow_le_mono_r 2 8 w ltac:(lia) Hw).
  split; [apply Z.lxor_nonneg; lia|].
  destruct (Z.eq_dec (Z.lxor h (val b)) 0) as [->|Hne]; [lia|].
  assert (0 <= Z.lxor h (val b)) by (apply Z.lxor_nonneg; lia).
  apply Z.log2_lt_pow2; [lia|].
  eapply Z.le_lt_trans; [apply Z.log2_lxor; lia|].
  apply Z.max_lub_lt.
  - destruct (Z.eq_dec h 0) as [->|]; [cbn; lia|]. apply Z.log2_lt_pow2; lia.
  - destruct (Z.eq_dec (val b) 0) as [->|]; [cbn; lia|]. apply Z.log2_lt_pow2; lia.
Qed.

Lemma lxor_cancel a c : Z.lxor (Z.lxor a c) c = a.
Proof. by rewrite Z.lxor_assoc, Z.lxor_nilpotent, Z.lxor_0_r. Qed.

Section fnv.
Context {w p q : Z} `{!FnvPrime w p q}.

Lemma fnv_pow_pos : 0 < 2 ^ w.
Proof. pose proof fnv_width. apply Z.pow_pos_nonneg; lia. Qed.

Lemma fnv_step_range h b : in_uint w (fnv_step w p h b) = true.
Proof. pose proof fnv_width. apply uint_in_range. lia. Qed.

Lemma fnv_unstep_range h b : in_uint w (fnv_unstep w q h b) = true.
Proof. pose proof fnv_width. apply lxor_range; [lia|]. apply uint_in_range. lia. Qed.

Lemma uint_mul_inverse x a b :
  (a * b) mod 2 ^ w = 1 → in_uint w x = true → uint w (uint w (x * a) * b) = x.
Proof.
  pose proof fnv_pow_pos. intros Hab Hx%uint_small. rewrite <- Hx at 2. unfold uint.
  rewrite Z.mul_mod_idemp_l by lia.
  rewrite <- Z.mul_assoc, <- Z.mul_mod_idemp_r, Hab by lia. by rewrite Z.mul_1_r.
Qed.

Lemma fnv_unstep_step h b :
  in_uint w h = true → fnv_unstep w q (fnv_step w p h b) b = h.
Proof.
  pose proof fnv_width. intros Hh. unfold fnv_unstep, fnv_step.
  rewrite uint_mul_inverse by (apply fnv_inverse || by apply lxor_range; [lia|]).
  apply lxor_cancel.
Qed.

Lemma fnv_step_unstep h b :
  in_uint w h = true → fnv_step w p (fnv_unstep w q h b) b = h.
Proof.
  intros Hh. unfold fnv_unstep, fnv_step. rewrite lxor_cancel.
  apply uint_mul_inverse; [|done]. rewrite Z.mul_comm. apply fnv_inverse.
Qed.

Lemma fnv_step_inj_hash h h' b :
  in_uint w h = true → in_uint w h' = true →
  fnv_step w p h b = fnv_step w p h' b → h = h'.
Proof.
  intros Hh Hh' E. rewrite <- (fnv_unstep_step h b), <- (fnv_unstep_step h' b) by done.
  by rewrite E.
Qed.

Lemma fnv_step_inj_byte h b b' :
  in_uint w h = true → fnv_step w p h b = fnv_step w p h b' → b = b'.
Proof.
  pose proof fnv_width. intros Hh E. unfold fnv_step in E.
  apply (f_equal (λ x, uint w (x * q))) in E.
  rewrite !uint_mul_inverse in E by (apply fnv_inverse || by apply lxor_range; [lia|]).
  apply val_inj. rewrite <- (lxor_cancel (val b) h), <- (lxor_cancel (val b') h).
  by rewrite !(Z.lxor_comm _ h), E.
Qed.

(** *** Folds *)
Lemma fnv_fold_range l h : in_uint w h = true → in_uint w (foldl (fnv_step w p) h l) = true.
Proof. revert h. induction l; intros h Hh; [done|]. apply IHl, fnv_step_range. Qed.

(** The hash before [l], from the hash after it. *)
Definition fnv_back (hash : Z) (l : Bytes) : Z := foldr (λ b h, fnv_unstep w q h b) hash l.

Lemma fnv_back_range l h : in_uint w h = true → in_uint w (fnv_back h l) = true.
Proof. induction l; intros Hh; [done|]. apply fnv_unstep_range. Qed.

Lemma fnv_back_fold l h :
  in_uint w h = true → fnv_back (foldl (fnv_step w p) h l) l = h.
Proof.
  revert h. induction l as [|b l IH]; intros h Hh; [done|]. cbn.
  rewrite IH by apply fnv_step_range. by apply fnv_unstep_step.
Qed.

Lemma fnv_fold_inj l h h' :
  in_uint w h = true → in_uint w h' = true →
  foldl (fnv_step w p) h l = foldl (fnv_step w p) h' l → h = h'.
Proof.
  intros Hh Hh' E. rewrite <- (fnv_back_fold l h), <- (fnv_back_fold l h') by done.
  by rewrite E.
Qed.

(** Changing one byte changes the hash. *)
Lemma fnv_single_byte h pre b b' post :
  in_uint w h = true → b ≠ b' →
  foldl (fnv_step w p) h (pre ++ b :: post) ≠ foldl (fnv_step w p) h (pre ++ b' :: post).
Proof.
  intros Hh Hne E. rewrite !foldl_app in E. cbn [foldl] in E.
  apply fnv_fold_inj in E; try apply fnv_step_range.
  by apply fnv_step_inj_byte in E; [|apply fnv_fold_range].
Qed.
End fnv.
