(* ===== verification/StdMap.v ===== *)
(** * std::map: ordered maps

    [stdmap K A] models [std::map<K, A>]: an association list sorted strictly by
    key, so that [map_to_list] yields the entries in iteration order.  The type
    is an instance of stdpp's [FinMap], so lookups, insertions, deletions,
    filters and [simplify_map_eq] apply to it as they do to [gmap]. *)

From Stdlib Require Import ZArith Lia String Ascii.
From Stdlib Require Import Eqdep_dec.
From stdpp Require Import base gmap strings list fin_maps.
From S2P Require Import Prelude.

(** ** Key orders

    The three-way comparison [std::less] induces on the key type. *)

Class KeyOrder (K : Type) := {
  key_compare : K → K → comparison;
  key_compare_eq a b : key_compare a b = Eq ↔ a = b;
  key_compare_antisym a b : key_compare b a = CompOpp (key_compare a b);
  key_compare_trans a b c :
    key_compare a b = Lt → key_compare b c = Lt → key_compare a c = Lt;
}.

#[export] Instance comparison_eq_dec : EqDecision comparison.
Proof. solve_decision. Defined.

#[export] Instance key_eq_decision `{KeyOrder K} : EqDecision K | 100.
Proof.
  intros a b. destruct (key_compare a b) eqn:E.
  - left. by apply key_compare_eq.
  - right. intros ->. assert (key_compare b b = Eq) by by apply key_compare_eq. congruence.
  - right. intros ->. assert (key_compare b b = Eq) by by apply key_compare_eq. congruence.
Defined.

Lemma key_compare_refl `{KeyOrder K} (k : K) : key_compare k k = Eq.
Proof. by apply key_compare_eq. Qed.

Lemma key_compare_gt `{KeyOrder K} (a b : K) :
  key_compare a b = Gt ↔ key_compare b a = Lt.
Proof. rewrite (key_compare_antisym a b). by destruct (key_compare a b). Qed.

#[export] Instance Z_key_order : KeyOrder Z.
Proof.
  refine {| key_compare := Z.compare |}.
  - apply Z.compare_eq_iff.
  - intros. by rewrite Z.compare_antisym.
  - intros a b c. rewrite !Z.compare_lt_iff. lia.
Defined.

Lemma string_compare_trans (a b c : string) :
  String.compare a b = Lt → String.compare b c = Lt → String.compare a c = Lt.
Proof.
  revert b c. induction a as [|x a IH]; intros [|y b] [|z c]; simpl; try done.
  unfold Ascii.compare.
  destruct (N.compare_spec (N_of_ascii x) (N_of_ascii y)) as [E1|E1|E1];
    destruct (N.compare_spec (N_of_ascii y) (N_of_ascii z)) as [E2|E2|E2]; try done;
    intros H1 H2.
  - rewrite E1, E2, N.compare_refl. eauto.
  - rewrite E1. by apply N.compare_lt_iff in E2 as ->.
  - rewrite <- E2. by apply N.compare_lt_iff in E1 as ->.
  - assert (N_of_ascii x < N_of_ascii z)%N as ->%N.compare_lt_iff by lia. done.
Qed.

Lemma string_compare_refl (a : string) : String.compare a a = Eq.
Proof.
  induction a as [|x a IH]; [done|]. simpl. unfold Ascii.compare.
  by rewrite N.compare_refl.
Qed.

#[export] Instance string_key_order : KeyOrder string.
Proof.
  refine {| key_compare := String.compare |}.
  - intros a b. split; [apply String.compare_eq_iff|].
    intros ->. apply string_compare_refl.
  - intros. apply String.compare_antisym.
  - apply string_compare_trans.
Defined.

(** [std::pair] compares lexicographically. *)
#[export] Instance prod_key_order `{KeyOrder A, KeyOrder B} : KeyOrder (A * B).
Proof.
  refine {| key_compare p q :=
    match key_compare p.1 q.1 with Eq => key_compare p.2 q.2 | c => c end |}.
  - intros [a b] [c d]; simpl. destruct (key_compare a c) eqn:E.
    + apply key_compare_eq in E as ->. rewrite key_compare_eq. naive_solver.
    + split; [done|]. intros [= -> ->]. by rewrite key_compare_refl in E.
    + split; [done|]. intros [= -> ->]. by rewrite key_compare_refl in E.
  - intros [a b] [c d]; simpl. rewrite (key_compare_antisym a c).
    destruct (key_compare a c); simpl; [apply key_compare_antisym|done|done].
  - intros [a1 b1] [a2 b2] [a3 b3]; simpl. intros H1 H2.
    destruct (key_compare a1 a2) eqn:E1, (key_compare a2 a3) eqn:E2; try done.
    + apply key_compare_eq in E1 as ->. rewrite E2.
      by eapply key_compare_trans.
    + apply key_compare_eq in E1 as ->. by rewrite E2.
    + apply key_compare_eq in E2 as ->. by rewrite E1.
    + by rewrite (key_compare_trans _ _ _ E1 E2).
Defined.

(** ** Sorted association lists *)

Section sorted_list.
Context `{KeyOrder K}.

Fixpoint al_lookup {A} (k : K) (l : list (K * A)) : option A :=
  match l with
  | [] => None
  | (k', v) :: l =>
    match key_compare k k' with
    | Lt => None
    | Eq => Some v
    | Gt => al_lookup k l
    end
  end.

Fixpoint al_alter {A} (f : option A → option A) (k : K) (l : list (K * A)) :
    list (K * A) :=
  match l with
  | [] => match f None with Some v => [(k, v)] | None => [] end
  | (k', v') :: l' =>
    match key_compare k k' with
    | Lt => match f None with Some v => (k, v) :: l | None => l end
    | Eq => match f (Some v') with Some v => (k', v) :: l' | None => l' end
    | Gt => (k', v') :: al_alter f k l'
    end
  end.

Fixpoint al_omap {A B} (f : A → option B) (l : list (K * A)) : list (K * B) :=
  match l with
  | [] => []
  | (k, v) :: l =>
    match f v with Some w => (k, w) :: al_omap f l | None => al_omap f l end
  end.

(** [k] lies strictly before every key of [l]. *)
Fixpoint al_below {A} (k : K) (l : list (K * A)) : bool :=
  match l with
  | [] => true
  | (k', _) :: l => match key_compare k k' with Lt => al_below k l | _ => false end
  end.

Fixpoint al_sorted {A} (l : list (K * A)) : bool :=
  match l with
  | [] => true
  | (k, _) :: l => al_below k l && al_sorted l
  end.

Lemma al_below_trans {A} k k' (l : list (K * A)) :
  key_compare k k' = Lt → al_below k' l = true → al_below k l = true.
Proof.
  induction l as [|[k0 v0] l IH]; [done|]; simpl; intros E Hb.
  destruct (key_compare k' k0) eqn:E0; try done.
  rewrite (key_compare_trans k k' k0); auto.
Qed.

Lemma al_lookup_below {A} k (l : list (K * A)) :
  al_below k l = true → al_lookup k l = None.
Proof.
  destruct l as [|[k' v] l]; [done|]; simpl.
  by destruct (key_compare k k').
Qed.

Lemma al_below_alter {A} (f : option A → option A) k k' l :
  key_compare k k' = Lt → al_below k l = true → al_below k (al_alter f k' l) = true.
Proof.
  intros E. induction l as [|[k0 v0] l IH]; simpl; intros Hb.
  - destruct (f None); simpl; [by rewrite E|done].
  - destruct (key_compare k k0) eqn:E0; try done.
    destruct (key_compare k' k0) eqn:E1.
    + destruct (f (Some v0)); simpl; [by rewrite E0|done].
    + destruct (f None); simpl; rewrite ?E, E0; done.
    + simpl. rewrite E0. auto.
Qed.

Lemma al_sorted_alter {A} (f : option A → option A) k l :
  al_sorted l = true → al_sorted (al_alter f k l) = true.
Proof.
  induction l as [|[k' v'] l IH]; simpl; intros Hs.
  { destruct (f None); done. }
  apply andb_true_iff in Hs as [Hb Hs]. destruct (key_compare k k') eqn:E.
  - destruct (f (Some v')); simpl; [by rewrite Hb, Hs|done].
  - destruct (f None); simpl; rewrite ?E, Hb, Hs; simpl; [|done].
    by rewrite (al_below_trans k k').
  - simpl. rewrite IH by done. rewrite al_below_alter; [done| |done].
    by apply key_compare_gt.
Qed.

Lemma al_below_omap {A B} (f : A → option B) k l :
  al_below k l = true → al_below k (al_omap f l) = true.
Proof.
  induction l as [|[k' v'] l IH]; [done|]; simpl.
  destruct (key_compare k k') eqn:E; try done.
  intros Hb. destruct (f v'); simpl; rewrite ?E; auto.
Qed.

Lemma al_sorted_omap {A B} (f : A → option B) l :
  al_sorted l = true → al_sorted (al_omap f l) = true.
Proof.
  induction l as [|[k' v'] l IH]; [done|]; simpl.
  intros [Hb Hs]%andb_true_iff. destruct (f v'); simpl; auto.
  by rewrite al_below_omap, IH.
Qed.

Lemma al_lookup_alter {A} (f : option A → option A) k l :
  al_sorted l = true → al_lookup k (al_alter f k l) = f (al_lookup k l).
Proof.
  induction l as [|[k' v'] l IH]; simpl; intros Hs.
  { destruct (f None); simpl; by rewrite ?key_compare_refl. }
  apply andb_true_iff in Hs as [Hb Hs]. destruct (key_compare k k') eqn:E.
  - apply key_compare_eq in E as ->. destruct (f (Some v')); simpl.
    + by rewrite key_compare_refl.
    + by apply al_lookup_below.
  - destruct (f None); simpl; by rewrite ?key_compare_refl, ?E.
  - simpl. rewrite E. auto.
Qed.

Lemma al_lookup_alter_ne {A} (f : option A → option A) k j l :
  k ≠ j → al_sorted l = true → al_lookup j (al_alter f k l) = al_lookup j l.
Proof.
  intros Hne. assert (key_compare j k ≠ Eq) as Hjk.
  { intros E%key_compare_eq. congruence. }
  induction l as [|[k' v'] l IH]; simpl; intros Hs.
  { destruct (f None); simpl; [|done]. by destruct (key_compare j k). }
  apply andb_true_iff in Hs as [Hb Hs]. destruct (key_compare k k') eqn:E.
  - apply key_compare_eq in E as ->. destruct (f (Some v')); simpl.
    + by destruct (key_compare j k').
    + destruct (key_compare j k') eqn:E'; try done.
      by apply al_lookup_below, (al_below_trans j k').
  - destruct (f None); simpl; [|done]. destruct (key_compare j k) eqn:E'; try done.
    by rewrite (key_compare_trans j k k').
  - simpl. destruct (key_compare j k'); auto.
Qed.

Lemma al_lookup_omap {A B} (f : A → option B) k l :
  al_sorted l = true → al_lookup k (al_omap f l) = al_lookup k l ≫= f.
Proof.
  induction l as [|[k' v'] l IH]; [done|]; simpl.
  intros [Hb Hs]%andb_true_iff. destruct (key_compare k k') eqn:E.
  - apply key_compare_eq in E as ->. simpl. destruct (f v'); simpl.
    + by rewrite key_compare_refl.
    + apply al_lookup_below, al_below_omap. done.
  - destruct (f v'); simpl; [by rewrite E|].
    apply al_lookup_below, al_below_omap, (al_below_trans k k'); done.
  - destruct (f v'); simpl; [rewrite E|]; auto.
Qed.

Lemma al_ext {A} (l1 l2 : list (K * A)) :
  al_sorted l1 = true → al_sorted l2 = true →
  (∀ k, al_lookup k l1 = al_lookup k l2) → l1 = l2.
Proof.
  revert l2. induction l1 as [|[k1 v1] l1 IH]; intros [|[k2 v2] l2]; simpl.
  - done.
  - intros _ _ E. specialize (E k2). simpl in E. by rewrite key_compare_refl in E.
  - intros _ _ E. specialize (E k1). simpl in E. by rewrite key_compare_refl in E.
  - intros [Hb1 Hs1]%andb_true_iff [Hb2 Hs2]%andb_true_iff E.
    assert (k1 = k2 ∧ v1 = v2) as [-> ->].
    { pose proof (E k1) as E1. pose proof (E k2) as E2. simpl in E1, E2.
      rewrite key_compare_refl in E1, E2.
      destruct (key_compare k1 k2) eqn:Ek.
      - apply key_compare_eq in Ek as ->. naive_solver.
      - done.
      - apply key_compare_gt in Ek. by rewrite Ek in E2. }
    f_equal. apply IH; [done..|]. intros k. specialize (E k). simpl in E.
    destruct (key_compare k k2) eqn:Ek; try done.
    + apply key_compare_eq in Ek as ->. by rewrite !al_lookup_below.
    + rewrite !al_lookup_below; eauto using al_below_trans.
Qed.

Lemma al_alter_below {A} k (v : A) l :
  al_below k l = true → al_alter (λ _, Some v) k l = (k, v) :: l.
Proof.
  destruct l as [|[k' v'] l]; [done|]; simpl. by destruct (key_compare k k').
Qed.
End sorted_list.

(** ** The map type *)

(** A proof of a boolean equation that reduces to [eq_refl] whenever the boolean
    computes to [true], so that maps built by different operations compare equal
    under [vm_compute]. *)
Definition minimize_true {b : bool} (p : b = true) : b = true :=
  match Bool.bool_dec b true with
  | left e => e
  | right n => match n p with end
  end.

Record stdmap (K : Type) `{KeyOrder K} (A : Type) := mk_stdmap {
  sm_entries : list (K * A);
  sm_sorted : al_sorted sm_entries = true;
}.
Arguments mk_stdmap {_ _ _} _ _.
Arguments sm_entries {_ _ _} _.
Arguments sm_sorted {_ _ _} _.

Section stdmap.
Context `{KeyOrder K}.

Lemma stdmap_eq {A} (m1 m2 : stdmap K A) :
  sm_entries m1 = sm_entries m2 → m1 = m2.
Proof.
  destruct m1 as [l1 p1], m2 as [l2 p2]; simpl. intros ->.
  f_equal. apply UIP_dec, Bool.bool_dec.
Qed.

#[export] Instance stdmap_eq_dec `{EqDecision A} : EqDecision (stdmap K A).
Proof.
  intros m1 m2. destruct (decide (sm_entries m1 = sm_entries m2)) as [E|E].
  - left. by apply stdmap_eq.
  - right. by intros ->.
Defined.

#[export] Instance stdmap_empty {A} : Empty (stdmap K A) := mk_stdmap [] eq_refl.
#[export] Instance stdmap_lookup {A} : Lookup K A (stdmap K A) :=
  λ k m, al_lookup k (sm_entries m).
#[export] Instance stdmap_partial_alter {A} : PartialAlter K A (stdmap K A) :=
  λ f k m, mk_stdmap (al_alter f k (sm_entries m))
    (minimize_true (al_sorted_alter f k _ (sm_sorted m))).
#[export] Instance stdmap_omap : OMap (stdmap K) := λ A B f m,
  mk_stdmap (al_omap f (sm_entries m))
    (minimize_true (al_sorted_omap f _ (sm_sorted m))).
#[export] Instance stdmap_fmap : FMap (stdmap K) := λ A B f,
  omap (λ x, Some (f x)).
#[export] Instance stdmap_fold {A} : MapFold K A (stdmap K A) := λ B f b m,
  foldr (λ p, f p.1 p.2) b (sm_entries m).
#[export] Instance stdmap_merge : Merge (stdmap K) := λ A B C f m1 m2,
  foldr (λ p m, partial_alter (λ _, diag_None f (m1 !! p.1) (m2 !! p.1)) p.1 m)
    (foldr (λ p m, partial_alter (λ _, diag_None f (m1 !! p.1) (m2 !! p.1)) p.1 m)
       ∅ (sm_entries m1))
    (sm_entries m2).

Lemma stdmap_lookup_partial_alter {A} f k j (m : stdmap K A) :
  partial_alter f k m !! j = if decide (k = j) then f (m !! k) else m !! j.
Proof.
  destruct (decide (k = j)) as [<-|].
  - apply al_lookup_alter, sm_sorted.
  - by apply al_lookup_alter_ne, sm_sorted.
Qed.

Lemma stdmap_lookup_fold_alter {A B} (g : K → option B) (l : list (K * A)) m k :
  foldr (λ p m, partial_alter (λ _, g p.1) p.1 m) m l !! k
  = if decide (k ∈ l.*1) then g k else (m : stdmap K B) !! k.
Proof.
  induction l as [|[k' v'] l IH]; simpl; [done|].
  rewrite stdmap_lookup_partial_alter, IH.
  destruct (decide (k' = k)) as [->|].
  - rewrite decide_True by set_solver. done.
  - destruct (decide (k ∈ l.*1)).
    + by rewrite decide_True by set_solver.
    + by rewrite decide_False by set_solver.
Qed.

Lemma stdmap_lookup_not_in {A} (m : stdmap K A) k :
  k ∉ (sm_entries m).*1 → m !! k = None.
Proof.
  unfold lookup, stdmap_lookup. generalize (sm_entries m).
  induction l as [|[k' v'] l IH]; [done|]; simpl. intros Hk.
  destruct (key_compare k k') eqn:E.
  - apply key_compare_eq in E as ->. set_solver.
  - done.
  - apply IH. set_solver.
Qed.

#[export] Instance stdmap_fin_map : FinMap K (stdmap K).
Proof.
  split.
  - intros A m1 m2 E. apply stdmap_eq, al_ext; auto using sm_sorted.
  - done.
  - intros. apply al_lookup_alter, sm_sorted.
  - intros. by apply al_lookup_alter_ne; [|apply sm_sorted].
  - intros A B f m k. unfold fmap, stdmap_fmap. trans (m !! k ≫= λ x, Some (f x)).
    + apply al_lookup_omap, sm_sorted.
    + by destruct (m !! k).
  - intros. apply al_lookup_omap, sm_sorted.
  - intros A B C f m1 m2 k. unfold merge, stdmap_merge.
    rewrite (stdmap_lookup_fold_alter (λ k, diag_None f (m1 !! k) (m2 !! k))).
    destruct (decide _) as [|H2]; [done|].
    rewrite (stdmap_lookup_fold_alter (λ k, diag_None f (m1 !! k) (m2 !! k))).
    destruct (decide _) as [|H1]; [done|].
    by rewrite (stdmap_lookup_not_in m1), (stdmap_lookup_not_in m2).
  - done.
  - intros A P Hemp Hins [l Hs]. revert Hs.
    induction l as [|[k v] l IH]; intros Hs.
    + by replace (mk_stdmap [] Hs) with (∅ : stdmap K A) by by apply stdmap_eq.
    + pose proof Hs as Hs'. simpl in Hs'. apply andb_true_iff in Hs' as [Hb Hl].
      replace (mk_stdmap ((k, v) :: l) Hs) with (<[k:=v]> (mk_stdmap l Hl)).
      2:{ apply stdmap_eq. by apply al_alter_below. }
      apply Hins; [by apply al_lookup_below| |done].
      intros A' B f g b x'. unfold map_fold, stdmap_fold; simpl.
      rewrite al_alter_below; [done|].
      by apply al_below_omap.
Qed.
End stdmap.

(** ** Iteration order and construction *)

Section iteration.
Context `{KeyOrder K}.

(** [map_to_list] is the iteration order of the map. *)
Lemma stdmap_to_list {A} (m : stdmap K A) : map_to_list m = sm_entries m.
Proof.
  unfold map_to_list, map_fold, stdmap_fold.
  induction (sm_entries m) as [|[k v] l IH]; [done|]. simpl. by rewrite IH.
Qed.

(** The entry after [k] in the order of the map: where the iterator that
    [erase] returns points to. *)
Definition successor {A} (k : K) (m : stdmap K A) : option (K * A) :=
  snd <$> list_find (λ entry, key_compare k entry.1 = Lt) (map_to_list m).

Lemma successor_Some {A} (k k' : K) (v : A) (m : stdmap K A) :
  successor k m = Some (k', v) → m !! k' = Some v ∧ key_compare k k' = Lt ∧ k' ≠ k.
Proof.
  unfold successor. destruct (list_find _ _) as [[i [k2 v2]]|] eqn:E; [|done].
  intros [= -> ->]. apply list_find_Some in E as (Hi & Hlt & _). split_and!; [|done|].
  - apply elem_of_map_to_list. by eapply list_elem_of_lookup_2.
  - intros ->. cbn in Hlt. by rewrite key_compare_refl in Hlt.
Qed.

(** [values->emplace(k, v).second]: the map with the entry added, or nothing
    when the key is taken. *)
Definition emplace {A} (k : K) (v : A) (m : stdmap K A) : option (stdmap K A) :=
  match m !! k with
  | Some _ => None
  | None => Some (<[k:=v]> m)
  end.

Fixpoint emplace_all {A} (l : list (K * A)) (m : stdmap K A) : option (stdmap K A) :=
  match l with
  | [] => Some m
  | (k, v) :: l => emplace k v m ≫= emplace_all l
  end.

Lemma al_below_last {A} (l : list (K * A)) k v :
  al_sorted (l ++ [(k, v)]) = true →
  al_sorted l = true ∧ al_lookup k l = None
    ∧ al_alter (λ _, Some v) k l = l ++ [(k, v)].
Proof.
  induction l as [|[k0 v0] l IH]; [done|]. intros Hs.
  cbn [app al_sorted] in Hs. apply andb_true_iff in Hs as [Hb Hs].
  destruct (IH Hs) as (Hl & Hk & Ha). simpl.
  assert (key_compare k0 k = Lt ∧ al_below k0 l = true) as [E Hb'].
  { clear -Hb. induction l as [|[k1 v1] l IH]; simpl in *.
    - by destruct (key_compare k0 k).
    - destruct (key_compare k0 k1); naive_solver. }
  rewrite Hb', Hl. apply key_compare_gt in E. by rewrite E, Ha.
Qed.

(** Emplacing the entries of a map in order rebuilds it. *)
Lemma emplace_all_entries {A} (l1 l2 : list (K * A)) Hs1 Hs2 :
  emplace_all l2 (mk_stdmap l1 Hs1) = Some (mk_stdmap (l1 ++ l2) Hs2).
Proof.
  revert l1 Hs1 Hs2. induction l2 as [|[k v] l2 IH]; intros l1 Hs1 Hs2; simpl.
  { f_equal. apply stdmap_eq. simpl. by rewrite app_nil_r. }
  assert (Hs3 : al_sorted (l1 ++ [(k, v)]) = true).
  { clear -Hs2. induction l1 as [|[k1 v1] l1 IH]; [done|].
    cbn [app al_sorted] in *. apply andb_true_iff in Hs2 as [Hb Hs2].
    rewrite (IH Hs2), andb_true_r. clear -Hb.
    induction l1 as [|[k2 v2] l1 IH]; simpl in *; destruct (key_compare _ _); auto. }
  destruct (al_below_last _ _ _ Hs3) as (_ & Hk & Ha).
  unfold emplace, lookup, stdmap_lookup; simpl. rewrite Hk. simpl.
  replace (<[k:=v]> (mk_stdmap l1 Hs1)) with (mk_stdmap (l1 ++ [(k, v)]) Hs3).
  2:{ apply stdmap_eq. simpl. by rewrite <- Ha. }
  assert (Hs4 : al_sorted ((l1 ++ [(k, v)]) ++ l2) = true) by by rewrite <- app_assoc.
  rewrite (IH _ _ Hs4). f_equal. apply stdmap_eq. simpl. by rewrite <- app_assoc.
Qed.

Lemma emplace_all_to_list {A} (m : stdmap K A) :
  emplace_all (map_to_list m) ∅ = Some m.
Proof.
  rewrite stdmap_to_list. destruct m as [l Hs]. simpl.
  apply (emplace_all_entries [] l eq_refl Hs).
Qed.
End iteration.
