(* ===== verification/Codec.v ===== *)
(** * Codec: byte readers and writers

    The reader and writer state every codec of the repository uses, as two small
    monads, with the compositional predicates the codec theorems are stated with.

    - A writer is a [Bytes] buffer and a validity flag; every write appends and
      may clear the flag.  [emits f ok bs] says what [f] appends and whether it
      keeps the flag.
    - A reader is a read-only buffer and a cursor.  A read that fails makes the
      whole decode fail in every codec, so it has no resulting state here.
      [parses p bs v] says that [p] consumes exactly [bs] wherever it stands in
      the buffer and returns [v]; [reads p Q] that whatever [p] accepts satisfies
      [Q] together with the bytes it was read from, and that [p] stays inside the
      buffer.
    - [codec R write read wf] combines the two for the two halves of one codec. *)

From Stdlib Require Import ZArith Lia String Ascii Strings.Byte.
From stdpp Require Import base gmap strings list fin_maps.
From S2P Require Import Prelude StdMap.
Local Open Scope Z_scope.

(** ** Strings as byte sequences *)

Abbreviation bytes_of := String.list_byte_of_string.
Abbreviation string_of := String.string_of_list_byte.

Lemma length_bytes_of s : length (bytes_of s) = String.length s.
Proof.
  unfold String.list_byte_of_string. rewrite length_map.
  induction s; simpl; auto.
Qed.

Lemma length_string_of bs : String.length (string_of bs) = length bs.
Proof.
  rewrite <- length_bytes_of. by rewrite list_byte_of_string_of_list_byte.
Qed.

#[export] Hint Rewrite length_bytes_of length_string_of
  string_of_list_byte_of_string list_byte_of_string_of_list_byte : bytes.

Lemma bytes_of_inj s t : bytes_of s = bytes_of t → s = t.
Proof.
  intros E. rewrite <- (string_of_list_byte_of_string s), E.
  apply string_of_list_byte_of_string.
Qed.

(** ** Writers *)

Record Writer := mkWriter {
  wr_data : Bytes;
  wr_valid : bool;
}.

Definition writer := Writer → Writer.

Definition w_seq (f g : writer) : writer := λ w, g (f w).
Definition w_nop : writer := λ w, w.
Definition w_bytes (bs : Bytes) : writer :=
  λ w, mkWriter (wr_data w ++ bs) (wr_valid w).
Definition w_invalidate : writer := λ w, mkWriter (wr_data w) false.
Definition w_for {A} (f : A → writer) (l : list A) : writer :=
  λ w, foldl (λ w x, f x w) w l.

(** [Writer::take], [build_payload]: nothing once the flag is cleared. *)
Definition w_run (f : writer) : Bytes :=
  let w := f (mkWriter [] true) in
  if wr_valid w then wr_data w else [].

Notation "f ;;; g" := (w_seq f g) (at level 62, right associativity) : yunlink_scope.
Open Scope yunlink_scope.

(** [f] appends [bs] and keeps the flag exactly when [ok]. *)
Definition emits (f : writer) (ok : bool) (bs : Bytes) : Prop :=
  ∀ w, f w = mkWriter (wr_data w ++ bs) (wr_valid w && ok).

Lemma emits_nop : emits w_nop true [].
Proof. intros [d v]. unfold w_nop. simpl. by rewrite app_nil_r, andb_true_r. Qed.

Lemma emits_bytes bs : emits (w_bytes bs) true bs.
Proof. intros [d v]. unfold w_bytes. simpl. by rewrite andb_true_r. Qed.

Lemma emits_invalidate : emits w_invalidate false [].
Proof. intros [d v]. unfold w_invalidate. simpl. by rewrite app_nil_r, andb_false_r. Qed.

Lemma emits_seq f g ok1 ok2 bs1 bs2 :
  emits f ok1 bs1 → emits g ok2 bs2 → emits (f ;;; g) (ok1 && ok2) (bs1 ++ bs2).
Proof.
  intros Hf Hg [d v]. unfold w_seq. rewrite Hf, Hg. simpl.
  by rewrite app_assoc, andb_assoc.
Qed.

Lemma emits_if (b : bool) f g ok1 ok2 bs1 bs2 :
  emits f ok1 bs1 → emits g ok2 bs2 →
  emits (if b then f else g) (if b then ok1 else ok2) (if b then bs1 else bs2).
Proof. destruct b; auto. Qed.

Lemma emits_for {A} (f : A → writer) ok enc l :
  (∀ x, emits (f x) (ok x) (enc x)) →
  emits (w_for f l) (forallb ok l) (concat (enc <$> l)).
Proof.
  intros Hf. unfold w_for. induction l as [|x l IH]; intros w.
  { exact (emits_nop w). }
  simpl. rewrite IH, Hf. simpl. by rewrite app_assoc, andb_assoc.
Qed.

Lemma emits_run f ok bs : emits f ok bs → w_run f = if ok then bs else [].
Proof. intros Hf. unfold w_run. cbv zeta. rewrite !Hf. by destruct ok. Qed.

Lemma emits_ext f ok bs ok' bs' :
  emits f ok bs → ok = ok' → bs = bs' → emits f ok' bs'.
Proof. by intros ? -> ->. Qed.

(** ** Readers *)

Record Reader := mkReader {
  rd_data : Bytes;
  rd_cursor : nat;
}.

Definition reader (A : Type) := Reader → option (A * Reader).

#[export] Instance reader_ret : MRet reader := λ A x r, Some (x, r).
#[export] Instance reader_bind : MBind reader := λ A B f p r,
  match p r with
  | Some (x, r) => f x r
  | None => None
  end.

(** A condition of the decoder: the read fails when it does not hold. *)
Definition check (b : bool) : reader unit := λ r, if b then Some (tt, r) else None.

(** [cursor + n > data.size()] fails; otherwise the next [n] bytes. *)
Definition take_bytes (n : Z) : reader Bytes := λ r,
  if Z.of_nat (rd_cursor r) + n <=? vsize (rd_data r) then
    let n := Z.to_nat n in
    Some (take n (drop (rd_cursor r) (rd_data r)),
          mkReader (rd_data r) (rd_cursor r + n))
  else None.

(** [done()]. *)
Definition at_end : reader bool := λ r,
  Some (Z.of_nat (rd_cursor r) =? vsize (rd_data r), r).

(** The counted loop of a list read: [n] values in order. *)
Fixpoint r_times {A} (n : nat) (p : reader A) : reader (list A) :=
  match n with
  | O => mret []
  | S n => x ← p; xs ← r_times n p; mret (x :: xs)
  end.

(** [decode_all], [parse_payload]: the whole payload, with nothing left over. *)
Definition r_run {A} (p : reader A) (bs : Bytes) : option A :=
  match p (mkReader bs 0) with
  | Some (x, r) =>
    if Z.of_nat (rd_cursor r) =? vsize (rd_data r) then Some x else None
  | None => None
  end.

(** *** Reading back what was written *)

Definition parses {A} (p : reader A) (bs : Bytes) (v : A) : Prop :=
  ∀ pre post,
    p (mkReader (pre ++ bs ++ post) (length pre))
    = Some (v, mkReader (pre ++ bs ++ post) (length pre + length bs)).

Lemma parses_ret {A} (v : A) : parses (mret v) [] v.
Proof. intros pre post. simpl. unfold mret, reader_ret. by rewrite Nat.add_0_r. Qed.

Lemma parses_bind {A B} (p : reader A) (f : A → reader B) bs1 bs2 x y :
  parses p bs1 x → parses (f x) bs2 y → parses (p ≫= f) (bs1 ++ bs2) y.
Proof.
  intros Hp Hf pre post. unfold mbind, reader_bind.
  rewrite <- app_assoc, Hp.
  specialize (Hf (pre ++ bs1) post). rewrite <- app_assoc, length_app in Hf.
  rewrite Hf, length_app. by rewrite Nat.add_assoc.
Qed.

Lemma parses_check {B} b (f : () → reader B) bs y :
  b = true → parses (f tt) bs y → parses (check b ≫= f) bs y.
Proof. intros -> Hf. exact Hf. Qed.

(** A final read whose result is only repackaged. *)
Lemma parses_last {A B} (p : reader A) (f : A → reader B) bs x y :
  parses p bs x → parses (f x) [] y → parses (p ≫= f) bs y.
Proof. intros Hp Hf. rewrite <- (app_nil_r bs). by eapply parses_bind. Qed.

Lemma parses_if {A} (b : bool) (p q : reader A) bs v :
  (b = true → parses p bs v) → (b = false → parses q bs v) →
  parses (if b then p else q) bs v.
Proof. destruct b; auto. Qed.

Lemma parses_take n bs : n = vsize bs → parses (take_bytes n) bs bs.
Proof.
  intros -> pre post. unfold take_bytes. simpl.
  rewrite !length_app.
  replace (_ <=? _) with true by (symmetry; apply Z.leb_le; lia).
  rewrite Nat2Z.id, drop_app_length, take_app_length. done.
Qed.

Lemma parses_times {A} (p : reader A) enc l :
  (∀ x, x ∈ l → parses p (enc x) x) →
  parses (r_times (length l) p) (concat (enc <$> l)) l.
Proof.
  induction l as [|x l IH]; intros Hp; simpl; [apply parses_ret|].
  eapply parses_bind; [apply Hp; set_solver|].
  eapply parses_last; [apply IH; set_solver|]. apply parses_ret.
Qed.

Lemma parses_run {A} (p : reader A) bs v : parses p bs v → r_run p bs = Some v.
Proof.
  intros Hp. specialize (Hp [] []). simpl in Hp. rewrite app_nil_r in Hp.
  unfold r_run. rewrite Hp. simpl. by rewrite Z.eqb_refl.
Qed.

(** *** What an accepted payload guarantees *)

(** Whenever [p] accepts, the bytes [bs] it moved the cursor over and its result
    [v] satisfy [Q bs v], and the cursor stays inside the buffer. *)
Definition reads {A} (p : reader A) (Q : Bytes → A → Prop) : Prop :=
  ∀ r v r', p r = Some (v, r') → (rd_cursor r <= length (rd_data r))%nat →
    ∃ bs, drop (rd_cursor r) (rd_data r) = bs ++ drop (rd_cursor r') (rd_data r)
    ∧ rd_data r' = rd_data r
    ∧ (rd_cursor r <= rd_cursor r' <= length (rd_data r))%nat ∧ Q bs v.

Lemma reads_ret {A} (Q : Bytes → A → Prop) v : Q [] v → reads (mret v) Q.
Proof. intros HQ r ? ? [= -> ->] ?. exists []. auto. Qed.

Lemma reads_bind {A B} (p : reader A) (f : A → reader B) (P : Bytes → A → Prop) Q :
  reads p P → (∀ bs x, P bs x → reads (f x) (λ bs' v, Q (bs ++ bs') v)) →
  reads (p ≫= f) Q.
Proof.
  intros Hp Hf r v r'. unfold mbind, reader_bind.
  destruct (p r) as [[x r1]|] eqn:E; [|done]. intros E' Hc.
  destruct (Hp _ _ _ E Hc) as (bs & Hbs & Hd & Hc1 & Hx).
  destruct (Hf bs x Hx _ _ _ E') as (bs' & Hbs' & Hd' & Hc2 & Hv); [rewrite Hd; lia|].
  rewrite Hd in *. exists (bs ++ bs'). rewrite Hbs, Hbs', app_assoc.
  repeat split; try done; lia.
Qed.

Lemma reads_check {B} b (f : () → reader B) Q :
  (b = true → reads (f tt) Q) → reads (check b ≫= f) Q.
Proof.
  intros Hf r v r'. unfold mbind, reader_bind, check. destruct b; [|done].
  by apply Hf.
Qed.

Lemma reads_mono {A} (p : reader A) (P Q : Bytes → A → Prop) :
  reads p P → (∀ bs v, P bs v → Q bs v) → reads p Q.
Proof.
  intros Hp HPQ r v r' E Hc. destruct (Hp _ _ _ E Hc) as (bs & ? & ? & ? & ?).
  exists bs. auto.
Qed.

(** The bytes a reader moved over are determined by the cursor, so what is known of them
    adds up. *)
Lemma reads_and {A} (p : reader A) (P Q : Bytes → A → Prop) :
  reads p P → reads p Q → reads p (λ bs v, P bs v ∧ Q bs v).
Proof.
  intros HP HQ r v r' E Hc. destruct (HP _ _ _ E Hc) as (bs & Hbs & Hd & Hcur & ?).
  destruct (HQ _ _ _ E Hc) as (bs' & Hbs' & _ & _ & ?).
  assert (bs = bs') as <- by (rewrite Hbs in Hbs'; by apply app_inv_tail in Hbs').
  by exists bs.
Qed.

Lemma reads_fail {A} (Q : Bytes → A → Prop) (p : reader A) :
  (∀ r, p r = None) → reads p Q.
Proof. intros Hp r v r'. by rewrite Hp. Qed.

Lemma reads_take n : 0 <= n → reads (take_bytes n) (λ bs v, v = bs ∧ vsize bs = n).
Proof.
  intros Hn r v r'. unfold take_bytes. case_if; [|done]. intros [= <- <-] Hc.
  bool_hyps. eexists. simpl. rewrite <- drop_drop, take_drop.
  rewrite length_take, length_drop. repeat split; lia.
Qed.

(** How the bytes a reader accepted relate to the bytes a writer would produce. *)
Class ByteRel (R : relation Bytes) := {
  rel_refl bs : R bs bs;
  rel_app bs1 bs2 bs1' bs2' : R bs1 bs1' → R bs2 bs2' → R (bs1 ++ bs2) (bs1' ++ bs2');
}.

#[export] Instance eq_byte_rel : ByteRel eq.
Proof. by split; intros; subst. Qed.

#[export] Instance Permutation_byte_rel : ByteRel (≡ₚ).
Proof. split; [done|]. intros. by f_equiv. Qed.

Lemma reads_times {A} R `{!ByteRel R} n (p : reader A) (P : A → Prop) enc :
  reads p (λ bs v, P v ∧ R bs (enc v)) →
  reads (r_times n p) (λ bs l, length l = n ∧ Forall P l ∧ R bs (concat (enc <$> l))).
Proof.
  intros Hp. induction n as [|n IH]; simpl.
  { apply reads_ret. repeat split; [by constructor|apply rel_refl]. }
  eapply reads_bind; [done|]. intros bs x [Hx HR].
  eapply reads_bind; [done|]. intros bs' xs (Hl & Hxs & HR').
  apply reads_ret. rewrite app_nil_r. split; [by f_equal/=|].
  split; [by constructor|]. by apply rel_app.
Qed.

Lemma reads_run {A} (p : reader A) Q bs v :
  reads p Q → r_run p bs = Some v → Q bs v.
Proof.
  intros Hp. unfold r_run. destruct (p _) as [[x r]|] eqn:E; [|done].
  case_if; [|done]. intros [= ->]. bool_hyps.
  destruct (Hp _ _ _ E) as (bs' & Hbs & Hd & _ & HQ); [simpl; lia|].
  simpl in *. rewrite Hd in *. simpl in *. rewrite drop_0, drop_ge, app_nil_r in Hbs by lia.
  by subst.
Qed.

(** ** Codecs

    A writer that behaves as [emits] describes has one output. *)

Definition output (f : writer) : Bytes := wr_data (f (mkWriter [] true)).
Definition valid (f : writer) : bool := wr_valid (f (mkWriter [] true)).
Definition writes (f : writer) : Prop := emits f (valid f) (output f).

#[global] Arguments output : simpl never.
#[global] Arguments valid : simpl never.
#[global] Arguments w_seq : simpl never.

Lemma emits_output f ok bs : emits f ok bs → output f = bs ∧ valid f = ok.
Proof. intros Hf. unfold output, valid. by rewrite Hf. Qed.

Lemma emits_writes f ok bs : emits f ok bs → writes f.
Proof. intros Hf. unfold writes. by destruct (emits_output _ _ _ Hf) as [-> ->]. Qed.

Lemma writes_seq f g : writes f → writes g → writes (f ;;; g).
Proof. intros Hf Hg. eapply emits_writes, emits_seq; eassumption. Qed.

Lemma output_seq f g : writes f → writes g → output (f ;;; g) = output f ++ output g.
Proof. intros Hf Hg. eapply emits_output, emits_seq; eassumption. Qed.

Lemma valid_seq f g : writes f → writes g → valid (f ;;; g) = valid f && valid g.
Proof. intros Hf Hg. eapply emits_output, emits_seq; eassumption. Qed.

Lemma writes_for {A} (f : A → writer) l : (∀ x, writes (f x)) → writes (w_for f l).
Proof. intros Hf. eapply emits_writes, emits_for, Hf. Qed.

Lemma output_for {A} (f : A → writer) l :
  (∀ x, writes (f x)) → output (w_for f l) = concat ((output ∘ f) <$> l).
Proof. intros Hf. eapply (proj1 (emits_output _ _ _ (emits_for _ _ _ _ Hf))). Qed.

Lemma valid_for {A} (f : A → writer) l :
  (∀ x, writes (f x)) → valid (w_for f l) = forallb (valid ∘ f) l.
Proof. intros Hf. eapply (proj2 (emits_output _ _ _ (emits_for _ _ _ _ Hf))). Qed.

Lemma writes_run f : writes f → w_run f = if valid f then output f else [].
Proof. apply emits_run. Qed.

Lemma writes_nop : writes w_nop.
Proof. eapply emits_writes, emits_nop. Qed.

Lemma writes_bytes bs : writes (w_bytes bs).
Proof. eapply emits_writes, emits_bytes. Qed.

Lemma writes_invalidate : writes w_invalidate.
Proof. eapply emits_writes, emits_invalidate. Qed.

Lemma writes_if (b : bool) f g : writes f → writes g → writes (if b then f else g).
Proof. by destruct b. Qed.

Lemma output_bytes bs : output (w_bytes bs) = bs.
Proof. done. Qed.

#[export] Hint Resolve writes_seq writes_nop writes_bytes writes_invalidate
  writes_if : codec.

(** [write] and [read] are the two halves of a codec for the values that satisfy
    [wf]: what is written reads back, and what is accepted satisfies [wf] and was
    spelled out by bytes that relate by [R] to what [write] produces.  [R] is
    equality for a canonical format, and [≡ₚ] for one that carries maps, whose
    entries the reader takes in any order. *)
Record codec {A} (R : relation Bytes) (write : A → writer) (read : reader A)
    (wf : A → bool) : Prop := {
  codec_writes v : writes (write v);
  codec_valid v : wf v = true → valid (write v) = true;
  codec_parses v : wf v = true → parses read (output (write v)) v;
  codec_reads : reads read (λ bs v, wf v = true ∧ R bs (output (write v)));
}.

Lemma codec_weaken {A} R `{!ByteRel R} (write : A → writer) (read : reader A) wf :
  codec eq write read wf → codec R write read wf.
Proof.
  intros []. split; auto. eapply reads_mono; [done|]. intros bs v [? ->].
  split; [done|apply rel_refl].
Qed.

(** The whole-payload functions of a codec are inverse to each other. *)
Lemma codec_roundtrip {A} R (write : A → writer) (read : reader A) wf v :
  codec R write read wf → wf v = true → r_run read (w_run (write v)) = Some v.
Proof.
  intros Hc Hv. rewrite writes_run by apply Hc. rewrite (codec_valid _ _ _ _ Hc) by done.
  by apply parses_run, Hc.
Qed.

Lemma codec_sound {A} R (write : A → writer) (read : reader A) wf bs v :
  codec R write read wf → r_run read bs = Some v →
  wf v = true ∧ R bs (w_run (write v)).
Proof.
  intros Hc Hr. destruct (reads_run _ _ _ _ (codec_reads _ _ _ _ Hc) Hr) as [Hv HR].
  rewrite writes_run by apply Hc. by rewrite (codec_valid _ _ _ _ Hc).
Qed.

(** A canonical codec accepts exactly the encodings of well-formed values. *)
Lemma codec_iff {A} (write : A → writer) (read : reader A) wf bs v :
  codec eq write read wf →
  r_run read bs = Some v ↔ wf v = true ∧ bs = w_run (write v).
Proof.
  intros Hc. split; [by apply codec_sound|].
  intros [Hv ->]. by eapply codec_roundtrip.
Qed.
