(* ===== verification/WireTypes.v ===== *)
(** * WireTypes: the provider-neutral protocol contract

    The data of [include/yunlink/core/wire_v2.hpp] and the functions of
    [src/core/wire_v2.cpp]: identifiers, type references, target selectors and
    the envelope. *)

From Stdlib Require Import ZArith Lia String Ascii Strings.Byte.
From stdpp Require Import base gmap strings list fin_maps.
From S2P Require Import Prelude StdMap Codec.
Local Open Scope Z_scope.

(** ** Constants *)

Definition kProtocolMajor : Z := 2.
Definition kHeaderVersion : Z := 2.
Definition kSchemaVersion : Z := 2.
Definition kMaxUidBytes : Z := 128.
Definition kMaxTypeNameBytes : Z := 256.
Definition kMaxProfileIdBytes : Z := 128.
Definition kMaxPayloadBytes : Z := 16 * 1024 * 1024.

(** ** Enumerations, with the [uint8_t] each value is on the wire *)

Inductive ErrorCode :=
  | kOk | kInvalidArgument | kEncodeError | kDecodeError | kChecksumMismatch
  | kInvalidHeader | kProtocolMismatch | kTimeout | kUnauthorized | kRejected
  | kNotFound | kConflict | kUnsupported | kInternal.

Definition ErrorCode_value (c : ErrorCode) : Z :=
  match c with
  | kOk => 0 | kInvalidArgument => 1 | kEncodeError => 2 | kDecodeError => 3
  | kChecksumMismatch => 4 | kInvalidHeader => 5 | kProtocolMismatch => 6
  | kTimeout => 7 | kUnauthorized => 8 | kRejected => 9 | kNotFound => 10
  | kConflict => 11 | kUnsupported => 12 | kInternal => 13
  end.

Inductive MessageFamily :=
  | FamilySession | FamilyAuthority | FamilyEntityDirectory | FamilyStream
  | FamilyAction | FamilyRpc | FamilyConfiguration | FamilyLog | FamilyBulk.

Definition MessageFamily_value (f : MessageFamily) : Z :=
  match f with
  | FamilySession => 1 | FamilyAuthority => 2 | FamilyEntityDirectory => 3
  | FamilyStream => 4 | FamilyAction => 5 | FamilyRpc => 6
  | FamilyConfiguration => 7 | FamilyLog => 8 | FamilyBulk => 9
  end.

(** [static_cast<MessageFamily>], on the values [valid_family] lets through. *)
Definition MessageFamily_cast (v : Z) : MessageFamily :=
  match v with
  | 1 => FamilySession | 2 => FamilyAuthority | 3 => FamilyEntityDirectory
  | 4 => FamilyStream | 5 => FamilyAction | 6 => FamilyRpc
  | 7 => FamilyConfiguration | 8 => FamilyLog | _ => FamilyBulk
  end.

Inductive QosClass := kReliableOrdered | kReliableLatest | kBestEffort | kBulk.

Definition QosClass_value (q : QosClass) : Z :=
  match q with
  | kReliableOrdered => 1 | kReliableLatest => 2 | kBestEffort => 3 | kBulk => 4
  end.

Definition QosClass_cast (v : Z) : QosClass :=
  match v with
  | 1 => kReliableOrdered | 2 => kReliableLatest | 3 => kBestEffort | _ => kBulk
  end.

Inductive TargetScope := ScopeEndpoint | ScopeEntity | ScopeGroup | ScopeBroadcast.

Definition TargetScope_value (s : TargetScope) : Z :=
  match s with
  | ScopeEndpoint => 1 | ScopeEntity => 2 | ScopeGroup => 3 | ScopeBroadcast => 4
  end.

Definition TargetScope_cast (v : Z) : TargetScope :=
  match v with
  | 1 => ScopeEndpoint | 2 => ScopeEntity | 3 => ScopeGroup | _ => ScopeBroadcast
  end.

Inductive Availability :=
  | AvailabilityUnknown | AvailabilityOnline | AvailabilityDegraded
  | AvailabilityOffline.

Definition Availability_value (a : Availability) : Z :=
  match a with
  | AvailabilityUnknown => 0 | AvailabilityOnline => 1
  | AvailabilityDegraded => 2 | AvailabilityOffline => 3
  end.

Definition Availability_cast (v : Z) : Availability :=
  match v with
  | 0 => AvailabilityUnknown | 1 => AvailabilityOnline
  | 2 => AvailabilityDegraded | _ => AvailabilityOffline
  end.

Inductive ActionPhase :=
  | PhaseReceived | PhaseAccepted | PhaseRunning | PhaseSucceeded | PhaseFailed
  | PhaseCancelled | PhaseExpired.

Definition ActionPhase_value (p : ActionPhase) : Z :=
  match p with
  | PhaseReceived => 1 | PhaseAccepted => 2 | PhaseRunning => 3
  | PhaseSucceeded => 4 | PhaseFailed => 5 | PhaseCancelled => 6
  | PhaseExpired => 7
  end.

Definition ActionPhase_cast (v : Z) : ActionPhase :=
  match v with
  | 1 => PhaseReceived | 2 => PhaseAccepted | 3 => PhaseRunning
  | 4 => PhaseSucceeded | 5 => PhaseFailed | 6 => PhaseCancelled
  | _ => PhaseExpired
  end.

#[export] Instance ErrorCode_eq_dec : EqDecision ErrorCode.
Proof. solve_decision. Defined.
#[export] Instance MessageFamily_eq_dec : EqDecision MessageFamily.
Proof. solve_decision. Defined.
#[export] Instance QosClass_eq_dec : EqDecision QosClass.
Proof. solve_decision. Defined.
#[export] Instance TargetScope_eq_dec : EqDecision TargetScope.
Proof. solve_decision. Defined.
#[export] Instance Availability_eq_dec : EqDecision Availability.
Proof. solve_decision. Defined.
#[export] Instance ActionPhase_eq_dec : EqDecision ActionPhase.
Proof. solve_decision. Defined.

(** ** Structures *)

Record TypeRef := mkTypeRef {
  tr_profile_id : string;
  tr_major : Z;
  tr_minor : Z;
  tr_type_name : string;
}.

Definition is_core (t : TypeRef) : bool :=
  bool_decide (tr_profile_id t = "yunlink.core"%string).

Record ProfileDescriptor := mkProfileDescriptor {
  pd_profile_id : string;
  pd_major : Z;
  pd_minor : Z;
  pd_schema_digest : string;
}.

Record SourceIdentity := mkSourceIdentity {
  src_endpoint_uid : string;
  src_entity_uid : string;
}.

Record TargetSelector := mkTargetSelector {
  ts_scope : TargetScope;
  ts_uids : list string;
}.

Record SecurityContext := mkSecurityContext {
  sec_key_epoch : Z;
  sec_auth_tag : Bytes;
}.

Record Envelope := mkEnvelope {
  env_protocol_major : Z;
  env_header_version : Z;
  env_flags : Z;
  env_header_len : Z;
  env_payload_len : Z;
  env_qos_class : QosClass;
  env_family : MessageFamily;
  env_operation : Z;
  env_schema_version : Z;
  env_session_id : Z;
  env_message_id : Z;
  env_correlation_id : Z;
  env_source : SourceIdentity;
  env_target : TargetSelector;
  env_type : TypeRef;
  env_created_at_ms : Z;
  env_ttl_ms : Z;
  env_payload : Bytes;
  env_security : SecurityContext;
  env_checksum : Z;
}.

Record EntityDescriptor := mkEntityDescriptor {
  ent_uid : string;
  ent_kind : string;
  ent_display_name : string;
  ent_hardware_id : string;
  ent_attributes : stdmap string string;
  ent_capabilities : list string;
  ent_availability : Availability;
}.

#[export] Instance TypeRef_eq_dec : EqDecision TypeRef.
Proof. solve_decision. Defined.
#[export] Instance ProfileDescriptor_eq_dec : EqDecision ProfileDescriptor.
Proof. solve_decision. Defined.
#[export] Instance SourceIdentity_eq_dec : EqDecision SourceIdentity.
Proof. solve_decision. Defined.
#[export] Instance TargetSelector_eq_dec : EqDecision TargetSelector.
Proof. solve_decision. Defined.
#[export] Instance SecurityContext_eq_dec : EqDecision SecurityContext.
Proof. solve_decision. Defined.
#[export] Instance Envelope_eq_dec : EqDecision Envelope.
Proof. solve_decision. Defined.
#[export] Instance EntityDescriptor_eq_dec : EqDecision EntityDescriptor.
Proof. solve_decision. Defined.

(** The default member initialisers of [Envelope]. *)
Definition default_Envelope : Envelope := {|
  env_protocol_major := kProtocolMajor;
  env_header_version := kHeaderVersion;
  env_flags := 0;
  env_header_len := 0;
  env_payload_len := 0;
  env_qos_class := kReliableOrdered;
  env_family := FamilySession;
  env_operation := 0;
  env_schema_version := kSchemaVersion;
  env_session_id := 0;
  env_message_id := 0;
  env_correlation_id := 0;
  env_source := mkSourceIdentity EmptyString EmptyString;
  env_target := mkTargetSelector ScopeBroadcast [];
  env_type := mkTypeRef EmptyString 0 0 EmptyString;
  env_created_at_ms := 0;
  env_ttl_ms := 0;
  env_payload := [];
  env_security := mkSecurityContext 0 [];
  env_checksum := 0;
|}.

(** ** src/core/wire_v2.cpp *)

Definition contains (values : list string) (value : string) : bool :=
  existsb (λ v, bool_decide (v = value)) values.

Definition target (scope : TargetScope) (uid : string) : TargetSelector :=
  mkTargetSelector scope [uid].

Definition target_endpoint (uid : string) : TargetSelector := target ScopeEndpoint uid.
Definition target_entity (uid : string) : TargetSelector := target ScopeEntity uid.
Definition target_group (uid : string) : TargetSelector := target ScopeGroup uid.
Definition target_broadcast : TargetSelector := mkTargetSelector ScopeBroadcast [].

(** [TargetSelector::matches]. *)
Definition matches (t : TargetSelector) (endpoint_uid : string)
    (entity_uids group_uids : list string) : bool :=
  match ts_scope t with
  | ScopeBroadcast => bool_decide (ts_uids t = [])
  | ScopeEndpoint =>
    if bool_decide (ts_uids t = []) then false else contains (ts_uids t) endpoint_uid
  | ScopeEntity =>
    if bool_decide (ts_uids t = []) then false
    else existsb (contains entity_uids) (ts_uids t)
  | ScopeGroup =>
    if bool_decide (ts_uids t = []) then false
    else existsb (contains group_uids) (ts_uids t)
  end.

(** [std::isalnum] in the "C" locale. *)
Definition isalnum (ch : Z) : bool :=
  ((48 <=? ch) && (ch <=? 57)) || ((65 <=? ch) && (ch <=? 90))
  || ((97 <=? ch) && (ch <=? 122)).

(** The characters of a UID: alphanumerics, [.] [_] [:] and [-]. *)
Definition uid_char (ch : Z) : bool :=
  isalnum ch || (ch =? 46) || (ch =? 95) || (ch =? 58) || (ch =? 45).

Definition valid_uid (value : string) : bool :=
  if bool_decide (value = EmptyString) || (ssize value >? kMaxUidBytes) then false
  else forallb (λ b, uid_char (val b)) (bytes_of value).

Definition valid_profile_id (value : string) : bool :=
  valid_uid value && (ssize value <=? kMaxProfileIdBytes).

Definition valid_type_ref (value : TypeRef) : bool :=
  valid_profile_id (tr_profile_id value)
  && negb (bool_decide (tr_type_name value = EmptyString))
  && (ssize (tr_type_name value) <=? kMaxTypeNameBytes) && (0 <? tr_major value).

(** ** Facts the other components use *)
Lemma MessageFamily_cast_value f : MessageFamily_cast (MessageFamily_value f) = f.
Proof. by destruct f. Qed.
Lemma QosClass_cast_value q : QosClass_cast (QosClass_value q) = q.
Proof. by destruct q. Qed.
Lemma TargetScope_cast_value s : TargetScope_cast (TargetScope_value s) = s.
Proof. by destruct s. Qed.
Lemma Availability_cast_value a : Availability_cast (Availability_value a) = a.
Proof. by destruct a. Qed.
Lemma ActionPhase_cast_value p : ActionPhase_cast (ActionPhase_value p) = p.
Proof. by destruct p. Qed.

#[export] Hint Rewrite MessageFamily_cast_value QosClass_cast_value
  TargetScope_cast_value Availability_cast_value ActionPhase_cast_value : bytes.

Lemma contains_spec values value : contains values value = true ↔ value ∈ values.
Proof.
  unfold contains. rewrite existsb_exists. setoid_rewrite bool_decide_eq_true.
  setoid_rewrite <- list_elem_of_In. naive_solver.
Qed.

Lemma valid_uid_length value :
  valid_uid value = true → 0 < ssize value <= kMaxUidBytes.
Proof.
  unfold valid_uid. destruct value as [|c s]; [done|].
  case_if; [done|]. intros _. bool_hyps. rewrite Z.gtb_ltb in *. bool_hyps.
  simpl String.length in *. lia.
Qed.

Lemma valid_type_ref_length t :
  valid_type_ref t = true →
  0 < ssize (tr_profile_id t) <= kMaxProfileIdBytes
  ∧ 0 < ssize (tr_type_name t) <= kMaxTypeNameBytes.
Proof.
  unfold valid_type_ref, valid_profile_id. intros. bool_hyps.
  repeat match goal with H : valid_uid _ = true |- _ => apply valid_uid_length in H end.
  destruct (tr_type_name t) eqn:E; [done|]. simpl String.length in *. lia.
Qed.
