(* ===== verification/WireCodec.v ===== *)
(** * WireCodec: the Wire v2 envelope codec

    [src/core/wire_v2_codec.cpp].  [encode] follows the C++ encoder statement by
    statement; the value of the system clock, which it reads only to fill a
    missing creation time, is its argument [now_millis].  [decode] runs in the
    option monad: [None] is a read outside the [len] bytes it was given, so that
    memory safety is the theorem that [decode] is never [None]; a frame the
    decoder rejects is a [DecodeResult] whose code is not [kOk]. *)

From Stdlib Require Import ZArith Lia String Ascii Strings.Byte.
From stdpp Require Import base gmap strings list fin_maps.
From S2P Require Import Prelude Fnv StdMap Codec WireTypes.
Local Open Scope Z_scope.

Definition kMagic0 : Z := 89.
Definition kMagic1 : Z := 76.
Definition kMagic2 : Z := 78.
Definition kMagic3 : Z := 75.
Definition kFixedHeaderSize : Z := 80.
Definition kTrailerSize : Z := 4.
Definition kMinEnvelopeSize : Z := kFixedHeaderSize + kTrailerSize.

(** ** Primitives *)

Definition append_u8 (value : Z) : writer := w_bytes [byte_of value].
Definition append_u16 (value : Z) : writer := w_bytes (write_le 0 2 value).
Definition append_u32 (value : Z) : writer := w_bytes (write_le 0 4 value).
Definition append_u64 (value : Z) : writer := w_bytes (write_le 0 8 value).
Definition append_text (value : string) : writer := w_bytes (bytes_of value).

(** A load through [data + off]; [None] when it is out of bounds. *)
Definition load_u8 (data : Bytes) (off : Z) : option Z := val <$> data !! Z.to_nat off.

Definition load (n : nat) (data : Bytes) (off : Z) : option Bytes :=
  if Z.of_nat n + off <=? vsize data then Some (take n (drop (Z.to_nat off) data))
  else None.

Definition read_u16 (data : Bytes) (off : Z) : option Z :=
  b0 ← load_u8 data off; b1 ← load_u8 data (off + 1);
  Some (Z.lor b0 (uint16 (b1 ≪ 8))).

Definition read_u32 (data : Bytes) (off : Z) : option Z :=
  bs ← load 4 data off; Some (read_le 0 0 bs).

Definition read_u64 (data : Bytes) (off : Z) : option Z :=
  bs ← load 8 data off; Some (read_le 0 0 bs).

Definition valid_family (value : Z) : bool :=
  (MessageFamily_value FamilySession <=? value)
  && (value <=? MessageFamily_value FamilyBulk).

Definition valid_qos (value : Z) : bool :=
  (QosClass_value kReliableOrdered <=? value) && (value <=? QosClass_value kBulk).

Definition valid_scope (value : Z) : bool :=
  (TargetScope_value ScopeEndpoint <=? value)
  && (value <=? TargetScope_value ScopeBroadcast).

(** [WireCodec::has_magic]; the loads are guarded by [len >= 4]. *)
Definition has_magic (data : Bytes) : bool :=
  match data with
  | b0 :: b1 :: b2 :: b3 :: _ =>
    (val b0 =? kMagic0) && (val b1 =? kMagic1) && (val b2 =? kMagic2)
    && (val b3 =? kMagic3)
  | _ => false
  end.

(** One step of the FNV-1a loop. *)
Definition fnv32_step (hash : Z) (b : byte) : Z :=
  uint32 (Z.lxor hash (val b) * 16777619).

(** [WireCodec::checksum]. *)
Definition checksum (data : Bytes) : Z := foldl fnv32_step 2166136261 data.

(** ** WireCodec::encode *)

Definition targets_bytes (uids : list string) : Z :=
  foldl (λ n uid, n + (2 + ssize uid)) 0 uids.

Definition variable_size (value : Envelope) : Z :=
  ssize (src_endpoint_uid (env_source value))
  + ssize (src_entity_uid (env_source value))
  + targets_bytes (ts_uids (env_target value))
  + vsize (sec_auth_tag (env_security value))
  + ssize (tr_profile_id (env_type value))
  + ssize (tr_type_name (env_type value)).

(** The [auto_fill_header] block. *)
Definition fill_header (now_millis : Z) (value : Envelope) : Envelope :=
  let created := if env_created_at_ms value =? 0 then now_millis
                 else env_created_at_ms value in
  {| env_protocol_major := env_protocol_major value;
     env_header_version := env_header_version value;
     env_flags := env_flags value;
     env_header_len := uint16 (kFixedHeaderSize + variable_size value);
     env_payload_len := uint32 (vsize (env_payload value));
     env_qos_class := env_qos_class value;
     env_family := env_family value;
     env_operation := env_operation value;
     env_schema_version := env_schema_version value;
     env_session_id := env_session_id value;
     env_message_id := if env_message_id value =? 0 then created
                       else env_message_id value;
     env_correlation_id := env_correlation_id value;
     env_source := env_source value;
     env_target := env_target value;
     env_type := env_type value;
     env_created_at_ms := created;
     env_ttl_ms := env_ttl_ms value;
     env_payload := env_payload value;
     env_security := env_security value;
     env_checksum := env_checksum value |}.

(** The fixed header, 80 bytes. *)
Definition write_header (value : Envelope) : writer :=
  append_u8 kMagic0 ;;; append_u8 kMagic1 ;;; append_u8 kMagic2 ;;;
  append_u8 kMagic3 ;;;
  append_u8 (env_protocol_major value) ;;;
  append_u8 (env_header_version value) ;;;
  append_u16 (env_flags value) ;;;
  append_u16 (env_header_len value) ;;;
  append_u32 (env_payload_len value) ;;;
  append_u8 (QosClass_value (env_qos_class value)) ;;;
  append_u8 (MessageFamily_value (env_family value)) ;;;
  append_u8 (env_operation value) ;;;
  append_u8 0 ;;;
  append_u16 (env_schema_version value) ;;;
  append_u64 (env_session_id value) ;;;
  append_u64 (env_message_id value) ;;;
  append_u64 (env_correlation_id value) ;;;
  append_u64 (env_created_at_ms value) ;;;
  append_u32 (env_ttl_ms value) ;;;
  append_u32 (sec_key_epoch (env_security value)) ;;;
  append_u16 (ssize (src_endpoint_uid (env_source value))) ;;;
  append_u16 (ssize (src_entity_uid (env_source value))) ;;;
  append_u16 (vsize (ts_uids (env_target value))) ;;;
  append_u16 (vsize (sec_auth_tag (env_security value))) ;;;
  append_u16 (ssize (tr_profile_id (env_type value))) ;;;
  append_u16 (ssize (tr_type_name (env_type value))) ;;;
  append_u8 (TargetScope_value (ts_scope (env_target value))) ;;;
  append_u8 0 ;;;
  append_u16 (tr_major (env_type value)) ;;;
  append_u16 (tr_minor (env_type value)) ;;;
  append_u16 0.

(** The variable part of the header. *)
Definition write_variable (value : Envelope) : writer :=
  append_text (src_endpoint_uid (env_source value)) ;;;
  append_text (src_entity_uid (env_source value)) ;;;
  w_for (λ uid, append_u16 (ssize uid) ;;; append_text uid)
    (ts_uids (env_target value)) ;;;
  w_bytes (sec_auth_tag (env_security value)) ;;;
  append_text (tr_profile_id (env_type value)) ;;;
  append_text (tr_type_name (env_type value)).

Definition encode (now_millis : Z) (input : Envelope) (auto_fill_header : bool) : Bytes :=
  let value := input in
  if negb (env_protocol_major value =? kProtocolMajor)
     || negb (env_header_version value =? kHeaderVersion)
     || negb (env_schema_version value =? kSchemaVersion)
     || negb (valid_uid (src_endpoint_uid (env_source value)))
     || (negb (bool_decide (src_entity_uid (env_source value) = EmptyString))
         && negb (valid_uid (src_entity_uid (env_source value))))
     || negb (valid_type_ref (env_type value))
     || (vsize (env_payload value) >? kMaxPayloadBytes)
     || (vsize (ts_uids (env_target value)) >? uint16_max)
  then []
  else if bool_decide (ts_scope (env_target value) = ScopeBroadcast)
       && negb (bool_decide (ts_uids (env_target value) = []))
  then []
  else if negb (bool_decide (ts_scope (env_target value) = ScopeBroadcast))
       && bool_decide (ts_uids (env_target value) = [])
  then []
  else if negb (forallb valid_uid (ts_uids (env_target value))) then []
  else
  let vs := variable_size value in
  if (vs >? uint16_max - kFixedHeaderSize)
     || (vsize (sec_auth_tag (env_security value)) >? uint16_max)
  then []
  else
  let value := if auto_fill_header then fill_header now_millis value else value in
  if negb (env_header_len value =? kFixedHeaderSize + vs)
     || negb (env_payload_len value =? vsize (env_payload value))
  then []
  else
  let out := w_run (write_header value ;;; write_variable value
                    ;;; w_bytes (env_payload value)) in
  w_run (w_bytes out ;;; append_u32 (checksum out)).

(** ** WireCodec::decode *)

Record DecodeResult := mkDecodeResult {
  dr_code : ErrorCode;
  dr_consumed : Z;
  dr_envelope : Envelope;
}.

(** A default [DecodeResult] with [code] and [consumed] set. *)
Definition reject (code : ErrorCode) (consumed : Z) : DecodeResult :=
  mkDecodeResult code consumed default_Envelope.

(** The lambda [read_text]: outer [None] is an out-of-bounds load, inner [None]
    its [return false].  The subtraction is on [size_t]. *)
Definition read_text (data : Bytes) (header_len cursor text_len : Z) :
    option (option (Bytes * Z)) :=
  if text_len >? uint64 (header_len - cursor) then Some None
  else bs ← load (Z.to_nat text_len) data cursor; Some (Some (bs, cursor + text_len)).

(** The loop over [target_count]. *)
Fixpoint read_targets (n : nat) (data : Bytes) (header_len cursor : Z) :
    option (option (list string * Z)) :=
  match n with
  | O => Some (Some ([], cursor))
  | S n =>
    if cursor + 2 >? header_len then Some None
    else
      uid_len ← read_u16 data cursor;
      t ← read_text data header_len (cursor + 2) uid_len;
      match t with
      | None => Some None
      | Some (uid, cursor) =>
        rest ← read_targets n data header_len cursor;
        match rest with
        | None => Some None
        | Some (uids, cursor) => Some (Some (string_of uid :: uids, cursor))
        end
      end
  end.

(** The checks on the decoded fields, in the order of the code. *)
Definition envelope_acceptable (value : Envelope) : bool :=
  valid_uid (src_endpoint_uid (env_source value))
  && (bool_decide (src_entity_uid (env_source value) = EmptyString)
      || valid_uid (src_entity_uid (env_source value)))
  && valid_type_ref (env_type value)
  && Bool.eqb (bool_decide (ts_scope (env_target value) = ScopeBroadcast))
       (bool_decide (ts_uids (env_target value) = []))
  && forallb valid_uid (ts_uids (env_target value)).

(** The variable part: the four texts, the targets and the tag. *)
Definition read_variable (data : Bytes) (header_len : Z) :
    option (option (string * string * list string * Bytes * string * string)) :=
  endpoint_len ← read_u16 data 60;
  entity_len ← read_u16 data 62;
  target_count ← read_u16 data 64;
  auth_len ← read_u16 data 66;
  profile_len ← read_u16 data 68;
  type_len ← read_u16 data 70;
  t1 ← read_text data header_len kFixedHeaderSize endpoint_len;
  match t1 with None => Some None | Some (endpoint, cursor) =>
  t2 ← read_text data header_len cursor entity_len;
  match t2 with None => Some None | Some (entity, cursor) =>
  t3 ← read_targets (Z.to_nat target_count) data header_len cursor;
  match t3 with None => Some None | Some (uids, cursor) =>
  t4 ← read_text data header_len cursor auth_len;
  match t4 with None => Some None | Some (auth, cursor) =>
  t5 ← read_text data header_len cursor profile_len;
  match t5 with None => Some None | Some (profile, cursor) =>
  t6 ← read_text data header_len cursor type_len;
  match t6 with None => Some None | Some (type_name, cursor) =>
  if negb (cursor =? header_len) then Some None
  else Some (Some (string_of endpoint, string_of entity, uids, auth,
                   string_of profile, string_of type_name))
  end end end end end end.

(** The fixed part of the header and the variable fields; the payload and the
    checksum are still those of a default [Envelope]. *)
Definition read_fixed (data : Bytes) (header_len payload_len : Z)
    (fields : string * string * list string * Bytes * string * string) :
    option Envelope :=
  let '(endpoint, entity, uids, auth, profile, type_name) := fields in
  major ← load_u8 data 4;
  version ← load_u8 data 5;
  flags ← read_u16 data 6;
  qos ← load_u8 data 14;
  family ← load_u8 data 15;
  operation ← load_u8 data 16;
  schema ← read_u16 data 18;
  session_id ← read_u64 data 20;
  message_id ← read_u64 data 28;
  correlation_id ← read_u64 data 36;
  created_at_ms ← read_u64 data 44;
  ttl_ms ← read_u32 data 52;
  key_epoch ← read_u32 data 56;
  scope ← load_u8 data 72;
  type_major ← read_u16 data 74;
  type_minor ← read_u16 data 76;
  Some {|
    env_protocol_major := major;
    env_header_version := version;
    env_flags := flags;
    env_header_len := header_len;
    env_payload_len := payload_len;
    env_qos_class := QosClass_cast qos;
    env_family := MessageFamily_cast family;
    env_operation := operation;
    env_schema_version := schema;
    env_session_id := session_id;
    env_message_id := message_id;
    env_correlation_id := correlation_id;
    env_source := mkSourceIdentity endpoint entity;
    env_target := mkTargetSelector (TargetScope_cast scope) uids;
    env_type := mkTypeRef profile type_major type_minor type_name;
    env_created_at_ms := created_at_ms;
    env_ttl_ms := ttl_ms;
    env_payload := [];
    env_security := mkSecurityContext key_epoch auth;
    env_checksum := 0 |}.

(** [value.payload.assign(...); value.checksum = ...]. *)
Definition with_payload (payload : Bytes) (checksum : Z) (value : Envelope) : Envelope :=
  {| env_protocol_major := env_protocol_major value;
     env_header_version := env_header_version value;
     env_flags := env_flags value;
     env_header_len := env_header_len value;
     env_payload_len := env_payload_len value;
     env_qos_class := env_qos_class value;
     env_family := env_family value;
     env_operation := env_operation value;
     env_schema_version := env_schema_version value;
     env_session_id := env_session_id value;
     env_message_id := env_message_id value;
     env_correlation_id := env_correlation_id value;
     env_source := env_source value;
     env_target := env_target value;
     env_type := env_type value;
     env_created_at_ms := env_created_at_ms value;
     env_ttl_ms := env_ttl_ms value;
     env_payload := payload;
     env_security := env_security value;
     env_checksum := checksum |}.

Definition decode (data : Bytes) (now_ms : Z) : option DecodeResult :=
  if vsize data <? kMinEnvelopeSize then Some (reject kDecodeError 0)
  else if negb (has_magic data) then Some (reject kInvalidHeader 0)
  else
  major ← load_u8 data 4;
  version ← load_u8 data 5;
  schema ← read_u16 data 18;
  if negb (major =? kProtocolMajor) || negb (version =? kHeaderVersion)
     || negb (schema =? kSchemaVersion)
  then Some (reject kProtocolMismatch 0)
  else
  header_len ← read_u16 data 8;
  payload_len ← read_u32 data 10;
  if (header_len <? kFixedHeaderSize) || (payload_len >? kMaxPayloadBytes)
  then Some (reject kDecodeError 0)
  else
  let total_len := header_len + payload_len + kTrailerSize in
  if vsize data <? total_len then Some (reject kDecodeError 0)
  else
  qos ← load_u8 data 14;
  family ← load_u8 data 15;
  scope ← load_u8 data 72;
  if negb (valid_qos qos) || negb (valid_family family) || negb (valid_scope scope)
  then Some (reject kDecodeError total_len)
  else
  fields ← read_variable data header_len;
  match fields with
  | None => Some (reject kDecodeError total_len)
  | Some fields =>
    value ← read_fixed data header_len payload_len fields;
    if negb (envelope_acceptable value) then Some (reject kDecodeError total_len)
    else
    wire_checksum ← read_u32 data (total_len - kTrailerSize);
    framed ← load (Z.to_nat (total_len - kTrailerSize)) data 0;
    if negb (wire_checksum =? checksum framed)
    then Some (reject kChecksumMismatch total_len)
    else
    payload ← load (Z.to_nat payload_len) data header_len;
    Some (mkDecodeResult kOk total_len (with_payload payload wire_checksum value))
  end.

(** ** Loads *)
Lemma load_spec n data off :
  0 <= off → Z.of_nat n + off <= vsize data →
  load n data off = Some (take n (drop (Z.to_nat off) data)).
Proof. intros. unfold load. case_if; [done|]. bool_hyps. lia. Qed.

Lemma load_app n l1 l2 off :
  0 <= off → Z.of_nat n + off <= vsize l1 → load n (l1 ++ l2) off = load n l1 off.
Proof.
  intros. rewrite !load_spec by (rewrite ?length_app; lia).
  rewrite drop_app_le by lia. rewrite take_app_le; [done|].
  rewrite length_drop. lia.
Qed.

Lemma load_middle pre t post :
  load (length t) (pre ++ t ++ post) (vsize pre) = Some t.
Proof.
  rewrite load_spec by (rewrite ?length_app; lia).
  by rewrite Nat2Z.id, drop_app_length, take_app_length.
Qed.

Lemma load_u8_app l1 l2 off :
  0 <= off < vsize l1 → load_u8 (l1 ++ l2) off = load_u8 l1 off.
Proof. intros. unfold load_u8. rewrite lookup_app_l by lia. done. Qed.

Lemma read_u16_app l1 l2 off :
  0 <= off → off + 1 < vsize l1 → read_u16 (l1 ++ l2) off = read_u16 l1 off.
Proof. intros. unfold read_u16. by rewrite !load_u8_app by lia. Qed.

Lemma read_u32_app l1 l2 off :
  0 <= off → off + 4 <= vsize l1 → read_u32 (l1 ++ l2) off = read_u32 l1 off.
Proof. intros. unfold read_u32. by rewrite load_app by lia. Qed.

Lemma read_u64_app l1 l2 off :
  0 <= off → off + 8 <= vsize l1 → read_u64 (l1 ++ l2) off = read_u64 l1 off.
Proof. intros. unfold read_u64. by rewrite load_app by lia. Qed.

(** The inline 16-bit read is the two-byte loop. *)
Lemma read_u16_load data off :
  0 <= off → read_u16 data off = bs ← load 2 data off; Some (read_le 0 0 bs).
Proof.
  intros Hoff. unfold read_u16, load_u8, load.
  destruct (Z.leb_spec (Z.of_nat 2 + off) (vsize data)) as [Hle|Hgt].
  - destruct (lookup_lt_is_Some_2 data (Z.to_nat off)) as [b0 H0]; [lia|].
    destruct (lookup_lt_is_Some_2 data (Z.to_nat (off + 1))) as [b1 H1]; [lia|].
    rewrite H0, H1. simpl. rewrite (drop_S _ _ _ H0).
    replace (Z.to_nat (off + 1)) with (S (Z.to_nat off)) in H1 by lia.
    rewrite (drop_S _ _ _ H1). simpl. rewrite Z.shiftl_0_r. do 2 f_equal.
    apply uint_small, in_uint_range. rewrite Z.shiftl_mul_pow2 by lia.
    pose proof (val_range b1). lia.
  - rewrite (lookup_ge_None_2 data (Z.to_nat (off + 1))) by lia.
    simpl. by destruct (_ <$> _).
Qed.

Lemma write_le_range bs n :
  length bs = n → in_uint (8 * Z.of_nat n) (read_le 0 0 bs) = true.
Proof. intros <-. apply in_uint_range, read_le_range. Qed.

(** ** The bytes of a frame *)

Definition header_bytes (v : Envelope) : Bytes :=
  wr_data (write_header v (mkWriter [] true)).
Definition variable_bytes (v : Envelope) : Bytes :=
  wr_data (write_variable v (mkWriter [] true)).
Definition frame_body (v : Envelope) : Bytes :=
  header_bytes v ++ variable_bytes v ++ env_payload v.
Definition frame (v : Envelope) : Bytes :=
  frame_body v ++ write_le 0 4 (checksum (frame_body v)).

(** The guards of [encode] before the header is filled. *)
Definition encodable (e : Envelope) : bool :=
  (env_protocol_major e =? kProtocolMajor)
  && (env_header_version e =? kHeaderVersion)
  && (env_schema_version e =? kSchemaVersion)
  && envelope_acceptable e
  && (vsize (env_payload e) <=? kMaxPayloadBytes)
  && (vsize (ts_uids (env_target e)) <=? uint16_max)
  && (variable_size e <=? uint16_max - kFixedHeaderSize).

(** Every integer field holds a value of its C++ type. *)
Definition envelope_typed (e : Envelope) : bool :=
  in_uint 8 (env_protocol_major e) && in_uint 8 (env_header_version e)
  && in_uint 16 (env_flags e) && in_uint 16 (env_header_len e)
  && in_uint 32 (env_payload_len e) && in_uint 8 (env_operation e)
  && in_uint 16 (env_schema_version e) && in_uint 64 (env_session_id e)
  && in_uint 64 (env_message_id e) && in_uint 64 (env_correlation_id e)
  && in_uint 16 (tr_major (env_type e)) && in_uint 16 (tr_minor (env_type e))
  && in_uint 64 (env_created_at_ms e) && in_uint 32 (env_ttl_ms e)
  && in_uint 32 (sec_key_epoch (env_security e)).

Lemma emits_append_u8 v : emits (append_u8 v) true [byte_of v].
Proof. apply emits_bytes. Qed.
Lemma emits_append_u16 v : emits (append_u16 v) true (write_le 0 2 v).
Proof. apply emits_bytes. Qed.
Lemma emits_append_u32 v : emits (append_u32 v) true (write_le 0 4 v).
Proof. apply emits_bytes. Qed.
Lemma emits_append_u64 v : emits (append_u64 v) true (write_le 0 8 v).
Proof. apply emits_bytes. Qed.
Lemma emits_append_text v : emits (append_text v) true (bytes_of v).
Proof. apply emits_bytes. Qed.

#[export] Hint Resolve emits_append_u8 emits_append_u16 emits_append_u32
  emits_append_u64 emits_append_text emits_bytes emits_seq emits_for : codec.

Definition target_bytes (uid : string) : Bytes :=
  write_le 0 2 (ssize uid) ++ bytes_of uid.

Lemma emits_header v : emits (write_header v) true (header_bytes v).
Proof.
  eapply emits_ext.
  { unfold write_header.
    repeat (eapply emits_seq; [solve [auto with codec]|]). auto with codec. }
  all: reflexivity.
Qed.

Lemma emits_variable v :
  emits (write_variable v) true (variable_bytes v)
  ∧ variable_bytes v =
    bytes_of (src_endpoint_uid (env_source v))
    ++ bytes_of (src_entity_uid (env_source v))
    ++ concat (target_bytes <$> ts_uids (env_target v))
    ++ sec_auth_tag (env_security v)
    ++ bytes_of (tr_profile_id (env_type v))
    ++ bytes_of (tr_type_name (env_type v)).
Proof.
  assert (Hf : emits (write_variable v)
    (true && (true && (forallb (λ _, true && true) (ts_uids (env_target v))
       && (true && (true && true)))))
    (bytes_of (src_endpoint_uid (env_source v))
    ++ bytes_of (src_entity_uid (env_source v))
    ++ concat (target_bytes <$> ts_uids (env_target v))
    ++ sec_auth_tag (env_security v)
    ++ bytes_of (tr_profile_id (env_type v))
    ++ bytes_of (tr_type_name (env_type v)))).
  { unfold write_variable. repeat apply emits_seq; auto with codec.
    apply emits_for. intros uid. unfold target_bytes. auto with codec. }
  assert (Hok : forallb (λ _ : string, true && true) (ts_uids (env_target v)) = true).
  { by apply forallb_forall. }
  rewrite Hok in Hf. simpl in Hf. unfold variable_bytes. split.
  - rewrite (Hf (mkWriter [] true)). simpl. exact Hf.
  - by rewrite (Hf (mkWriter [] true)).
Qed.

Lemma length_header_bytes v : length (header_bytes v) = 80%nat.
Proof. reflexivity. Qed.

Lemma targets_bytes_spec uids :
  targets_bytes uids = vsize (concat (target_bytes <$> uids)).
Proof.
  unfold targets_bytes. change (vsize (concat (target_bytes <$> uids)))
    with (0 + vsize (concat (target_bytes <$> uids))).
  generalize 0. induction uids as [|uid uids IH]; intros n; [simpl; lia|].
  cbn [foldl fmap list_fmap concat]. rewrite IH, length_app.
  unfold target_bytes at 2. rewrite length_app, length_write_le, length_bytes_of. lia.
Qed.

Lemma length_variable_bytes v : vsize (variable_bytes v) = variable_size v.
Proof.
  rewrite (proj2 (emits_variable v)). unfold variable_size.
  rewrite targets_bytes_spec, !length_app, !length_bytes_of. lia.
Qed.

Lemma checksum_range data : in_uint 32 (checksum data) = true.
Proof.
  destruct data as [|b data] using rev_ind; [done|].
  unfold checksum. rewrite foldl_snoc. by apply uint_in_range.
Qed.

Lemma variable_size_fill now e : variable_size (fill_header now e) = variable_size e.
Proof. done. Qed.

Lemma variable_size_nonneg e : 0 <= variable_size e.
Proof. rewrite <- length_variable_bytes. lia. Qed.

(** What [encode] builds once its guards have let the envelope through. *)
Lemma encode_frame v :
  w_run (w_bytes (w_run (write_header v ;;; write_variable v
                         ;;; w_bytes (env_payload v)))
         ;;; append_u32 (checksum (w_run (write_header v ;;; write_variable v
                         ;;; w_bytes (env_payload v))))) = frame v.
Proof.
  assert (w_run (write_header v ;;; write_variable v ;;; w_bytes (env_payload v))
          = frame_body v) as ->.
  { erewrite emits_run;
      [|eapply emits_seq; [apply emits_header|];
        eapply emits_seq; [apply emits_variable|apply emits_bytes]]. done. }
  erewrite emits_run; [|apply emits_seq; [apply emits_bytes|apply emits_append_u32]].
  done.
Qed.

(** The guards of [encode], in one condition. *)
Lemma encode_guards now e auto :
  encode now e auto =
  if encodable e then
    let v := if auto then fill_header now e else e in
    if negb (env_header_len v =? kFixedHeaderSize + variable_size e)
       || negb (env_payload_len v =? vsize (env_payload v))
    then [] else frame v
  else [].
Proof.
  unfold encode, encodable, envelope_acceptable. rewrite !Z.gtb_ltb, !Z.ltb_antisym.
  destruct (env_protocol_major e =? _); [|done].
  destruct (env_header_version e =? _); [|done].
  destruct (env_schema_version e =? _); [|done].
  destruct (valid_uid (src_endpoint_uid (env_source e))); [|done].
  set (b1 := bool_decide (src_entity_uid (env_source e) = EmptyString)).
  replace (negb b1 && negb (valid_uid (src_entity_uid (env_source e))))
    with (negb (b1 || valid_uid (src_entity_uid (env_source e))))
    by (destruct b1; simpl; rewrite ?negb_involutive; done).
  destruct (b1 || valid_uid (src_entity_uid (env_source e))); [|done].
  destruct (valid_type_ref (env_type e)); [|done].
  destruct (bool_decide (ts_scope (env_target e) = ScopeBroadcast)),
    (bool_decide (ts_uids (env_target e) = []));
    destruct (vsize (env_payload e) <=? kMaxPayloadBytes) eqn:Hp;
    destruct (vsize (ts_uids (env_target e)) <=? uint16_max);
    destruct (forallb valid_uid (ts_uids (env_target e)));
    cbn [negb andb orb Bool.eqb]; try done.
  all: destruct (variable_size e <=? _) eqn:Hv; cbn [negb andb orb]; try done.
  all: replace (vsize (sec_auth_tag (env_security e)) <=? uint16_max) with true
    by (symmetry; bool_hyps; apply Z.leb_le; unfold variable_size in Hv;
        pose proof (targets_bytes_spec (ts_uids (env_target e)));
        unfold uint16_max, kFixedHeaderSize in *; lia).
  all: cbn [negb]; by rewrite encode_frame.
Qed.

Lemma encode_spec now e :
  encode now e true = if encodable e then frame (fill_header now e) else [].
Proof.
  rewrite encode_guards. destruct (encodable e) eqn:He; [|done]. cbv zeta.
  unfold encodable in He. pose proof (variable_size_nonneg e). bool_hyps.
  unfold uint16_max, kFixedHeaderSize, kMaxPayloadBytes in *.
  cbn [env_header_len env_payload_len env_payload fill_header].
  rewrite !uint_small by (apply in_uint_range; unfold kFixedHeaderSize; lia).
  by rewrite !Z.eqb_refl.
Qed.

(** ** Reading the fixed header back *)
Lemma load_header_u8 v tl :
  load_u8 (header_bytes v ++ tl) 4 = Some (uint8 (env_protocol_major v))
  ∧ load_u8 (header_bytes v ++ tl) 5 = Some (uint8 (env_header_version v))
  ∧ load_u8 (header_bytes v ++ tl) 14 = Some (QosClass_value (env_qos_class v))
  ∧ load_u8 (header_bytes v ++ tl) 15 = Some (MessageFamily_value (env_family v))
  ∧ load_u8 (header_bytes v ++ tl) 16 = Some (uint8 (env_operation v))
  ∧ load_u8 (header_bytes v ++ tl) 72
    = Some (TargetScope_value (ts_scope (env_target v))).
Proof.
  assert (Hq : uint8 (QosClass_value (env_qos_class v)) = QosClass_value (env_qos_class v))
    by by destruct (env_qos_class v).
  assert (Hf : uint8 (MessageFamily_value (env_family v)) = MessageFamily_value (env_family v))
    by by destruct (env_family v).
  assert (Hs : uint8 (TargetScope_value (ts_scope (env_target v)))
               = TargetScope_value (ts_scope (env_target v)))
    by by destruct (ts_scope (env_target v)).
  rewrite <- Hq, <- Hf, <- Hs, <- !val_byte_of. repeat split.
Qed.

(** The 16-, 32- and 64-bit fields, by offset. *)
Lemma read_u16_header v tl off x :
  0 <= off → off + 2 <= 80 → load 2 (header_bytes v) off = Some (write_le 0 2 x) →
  read_u16 (header_bytes v ++ tl) off = Some (uint16 x).
Proof.
  intros Hoff Hoff' Hx. rewrite read_u16_load, load_app, Hx by
    (rewrite ?length_header_bytes; lia).
  cbn -[read_le write_le]. by rewrite read_write_le_mod.
Qed.

Lemma read_u32_header v tl off x :
  0 <= off → off + 4 <= 80 → load 4 (header_bytes v) off = Some (write_le 0 4 x) →
  read_u32 (header_bytes v ++ tl) off = Some (uint32 x).
Proof.
  intros Hoff Hoff' Hx. unfold read_u32. rewrite load_app, Hx by
    (rewrite ?length_header_bytes; lia).
  cbn -[read_le write_le]. by rewrite read_write_le_mod.
Qed.

Lemma read_u64_header v tl off x :
  0 <= off → off + 8 <= 80 → load 8 (header_bytes v) off = Some (write_le 0 8 x) →
  read_u64 (header_bytes v ++ tl) off = Some (uint64 x).
Proof.
  intros Hoff Hoff' Hx. unfold read_u64. rewrite load_app, Hx by
    (rewrite ?length_header_bytes; lia).
  cbn -[read_le write_le]. by rewrite read_write_le_mod.
Qed.

(** Reads one field of a frame that starts with [header_bytes]. *)
Ltac read_field :=
  match goal with
  | |- context [read_u16 (header_bytes ?v ++ ?tl) ?off] =>
    erewrite (read_u16_header v tl off) by (reflexivity || done || lia)
  | |- context [read_u32 (header_bytes ?v ++ ?tl) ?off] =>
    erewrite (read_u32_header v tl off) by (reflexivity || done || lia)
  | |- context [read_u64 (header_bytes ?v ++ ?tl) ?off] =>
    erewrite (read_u64_header v tl off) by (reflexivity || done || lia)
  | |- context [load_u8 (header_bytes ?v ++ ?tl) _] =>
    let E1 := fresh in let E2 := fresh in let E3 := fresh in
    let E4 := fresh in let E5 := fresh in let E6 := fresh in
    destruct (load_header_u8 v tl) as (E1 & E2 & E3 & E4 & E5 & E6);
    rewrite ?E1, ?E2, ?E3, ?E4, ?E5, ?E6; clear E1 E2 E3 E4 E5 E6
  end; cbn [mbind option_bind].

Lemma has_magic_header v tl : has_magic (header_bytes v ++ tl) = true.
Proof. reflexivity. Qed.


(** ** Reading the variable header back *)
Lemma read_text_middle header_len pre t post :
  vsize pre + vsize t <= header_len → header_len < 2 ^ 64 →
  read_text (pre ++ t ++ post) header_len (vsize pre) (vsize t)
  = Some (Some (t, vsize (pre ++ t))).
Proof.
  intros Hle Hlt. unfold read_text.
  rewrite uint_small by (apply in_uint_range; lia).
  rewrite Z.gtb_ltb. case_if; [bool_hyps; lia|].
  rewrite Nat2Z.id, load_middle, length_app, Nat2Z.inj_add. done.
Qed.

(** At a cursor given as a number. *)
Lemma read_text_at data header_len cursor n pre t post :
  data = pre ++ t ++ post → cursor = vsize pre → n = vsize t →
  cursor + n <= header_len → header_len < 2 ^ 64 →
  read_text data header_len cursor n = Some (Some (t, cursor + n)).
Proof.
  intros -> -> -> ??. rewrite read_text_middle by lia. do 3 f_equal.
  rewrite length_app. lia.
Qed.

Lemma read_targets_middle header_len pre uids post :
  forallb valid_uid uids = true →
  vsize pre + vsize (concat (target_bytes <$> uids)) <= header_len →
  header_len < 2 ^ 64 →
  read_targets (length uids) (pre ++ concat (target_bytes <$> uids) ++ post)
    header_len (vsize pre)
  = Some (Some (uids, vsize (pre ++ concat (target_bytes <$> uids)))).
Proof.
  revert pre. induction uids as [|uid uids IH]; intros pre Hv Hle Hlt.
  { simpl. by rewrite app_nil_r. }
  cbn [forallb] in Hv. apply andb_true_iff in Hv as [Huid Hv].
  apply valid_uid_length in Huid. unfold kMaxUidBytes in Huid.
  cbn [length fmap list_fmap concat] in *. rewrite length_app in Hle.
  assert (Ht : vsize (target_bytes uid) = 2 + ssize uid).
  { unfold target_bytes. rewrite length_app, length_write_le, length_bytes_of. lia. }
  cbn [read_targets]. rewrite Z.gtb_ltb. case_if; [bool_hyps; lia|].
  set (tl := concat (target_bytes <$> uids) ++ post).
  assert (Hdata : pre ++ (target_bytes uid ++ concat (target_bytes <$> uids)) ++ post
    = (pre ++ write_le 0 2 (ssize uid)) ++ bytes_of uid ++ tl).
  { unfold tl, target_bytes. by rewrite <- !app_assoc. }
  assert (Hpre : vsize pre + 2 = vsize (pre ++ write_le 0 2 (ssize uid))).
  { rewrite length_app, length_write_le. lia. }
  assert (Hlen : read_u16 (pre ++ (target_bytes uid ++ concat (target_bytes <$> uids))
                           ++ post) (vsize pre) = Some (ssize uid)).
  { rewrite read_u16_load by lia. rewrite Hdata, <- app_assoc.
    rewrite <- (length_write_le 0 2 (ssize uid)) at 1.
    rewrite load_middle. cbn -[read_le write_le].
    rewrite read_write_le; [done|]. apply in_uint_range. lia. }
  rewrite Hlen. cbn [mbind option_bind]. rewrite Hdata, Hpre.
  rewrite (read_text_at _ _ _ _ (pre ++ write_le 0 2 (ssize uid)) (bytes_of uid) tl);
    [|done|done|by rewrite length_bytes_of|rewrite <- Hpre; lia|done].
  cbn [mbind option_bind]. unfold tl.
  rewrite (app_assoc (pre ++ _) (bytes_of uid)).
  replace (vsize (pre ++ write_le 0 2 (ssize uid)) + ssize uid)
    with (vsize ((pre ++ write_le 0 2 (ssize uid)) ++ bytes_of uid))
    by (rewrite !length_app, length_bytes_of; lia).
  rewrite IH; [|done| |done].
  - cbn [mbind option_bind]. rewrite string_of_list_byte_of_string.
    unfold target_bytes. by rewrite <- !app_assoc.
  - rewrite !length_app, length_write_le, length_bytes_of. lia.
Qed.

(** The loop at a cursor given as a number. *)
Lemma read_targets_at data header_len cursor n pre uids post :
  data = pre ++ concat (target_bytes <$> uids) ++ post → cursor = vsize pre →
  n = length uids → forallb valid_uid uids = true →
  cursor + targets_bytes uids <= header_len → header_len < 2 ^ 64 →
  read_targets n data header_len cursor
  = Some (Some (uids, cursor + targets_bytes uids)).
Proof.
  intros -> -> -> ? Hle ?. rewrite targets_bytes_spec in *.
  rewrite read_targets_middle by done. do 3 f_equal.
  rewrite length_app. lia.
Qed.

(** The lengths and the variable part of a frame. *)
Lemma read_variable_frame v rest :
  encodable v = true →
  env_header_len v = kFixedHeaderSize + variable_size v →
  read_variable (header_bytes v ++ variable_bytes v ++ rest) (env_header_len v)
  = Some (Some (src_endpoint_uid (env_source v), src_entity_uid (env_source v),
                ts_uids (env_target v), sec_auth_tag (env_security v),
                tr_profile_id (env_type v), tr_type_name (env_type v))).
Proof.
  intros Hen Hhl. unfold encodable, envelope_acceptable, uint16_max in Hen. bool_hyps.
  unfold kFixedHeaderSize in *.
  unfold read_variable. repeat read_field.
  match goal with H : variable_size _ <= _ |- _ => rename H into Hvs end.
  unfold variable_size in *.
  pose proof (targets_bytes_spec (ts_uids (env_target v))) as Htb.
  rewrite !uint_small by (apply in_uint_range; lia).
  rewrite (proj2 (emits_variable v)), <- !app_assoc, Nat2Z.id.
  unfold kFixedHeaderSize.
  pose proof (length_header_bytes v) as Hh.
  assert (Hs : ∀ s, vsize (bytes_of s) = ssize s) by (intros; by rewrite length_bytes_of).
  set (h := header_bytes v) in *.
  set (ep := bytes_of (src_endpoint_uid (env_source v))).
  set (en := bytes_of (src_entity_uid (env_source v))).
  set (ts := concat (target_bytes <$> ts_uids (env_target v))) in *.
  set (au := sec_auth_tag (env_security v)) in *.
  set (pr := bytes_of (tr_profile_id (env_type v))).
  set (ty := bytes_of (tr_type_name (env_type v))).
  pose proof (Hs (src_endpoint_uid (env_source v))) as Hep. fold ep in Hep.
  pose proof (Hs (src_entity_uid (env_source v))) as Hn. fold en in Hn.
  pose proof (Hs (tr_profile_id (env_type v))) as Hpr. fold pr in Hpr.
  pose proof (Hs (tr_type_name (env_type v))) as Hty. fold ty in Hty.
  rewrite (read_text_at _ _ _ _ h ep (en ++ ts ++ au ++ pr ++ ty ++ rest));
    [cbn [mbind option_bind]|done|lia..].
  rewrite (read_text_at _ _ _ _ (h ++ ep) en (ts ++ au ++ pr ++ ty ++ rest));
    [cbn [mbind option_bind]|by rewrite <- ?app_assoc|rewrite ?length_app; lia..].
  rewrite (read_targets_at _ _ _ _ (h ++ ep ++ en) (ts_uids (env_target v)) (au ++ pr ++ ty ++ rest));
    [cbn [mbind option_bind]|by rewrite <- ?app_assoc|rewrite ?length_app; lia
    |done|done|lia..].
  rewrite (read_text_at _ _ _ _ (h ++ ep ++ en ++ ts) au (pr ++ ty ++ rest));
    [cbn [mbind option_bind]|by rewrite <- ?app_assoc|rewrite ?length_app; lia..].
  rewrite (read_text_at _ _ _ _ (h ++ ep ++ en ++ ts ++ au) pr (ty ++ rest));
    [cbn [mbind option_bind]|by rewrite <- ?app_assoc|rewrite ?length_app; lia..].
  rewrite (read_text_at _ _ _ _ (h ++ ep ++ en ++ ts ++ au ++ pr) ty rest);
    [cbn [mbind option_bind]|by rewrite <- ?app_assoc|rewrite ?length_app; lia..].
  case_if; [bool_hyps; lia|].
  unfold ep, en, pr, ty. by rewrite !string_of_list_byte_of_string.
Qed.

Lemma encodable_fill now e : encodable (fill_header now e) = encodable e.
Proof. reflexivity. Qed.

Lemma fill_header_lens now e :
  encodable e = true →
  env_header_len (fill_header now e) = kFixedHeaderSize + variable_size (fill_header now e)
  ∧ env_payload_len (fill_header now e) = vsize (env_payload e).
Proof.
  intros Hen. unfold encodable, kMaxPayloadBytes in Hen. bool_hyps.
  pose proof (variable_size_nonneg e).
  unfold uint16_max, kFixedHeaderSize in *. split.
  - rewrite variable_size_fill. apply uint_small, in_uint_range. unfold kFixedHeaderSize. lia.
  - apply uint_small, in_uint_range. lia.
Qed.

Lemma envelope_typed_fill now e :
  envelope_typed e = true → in_uint 64 now = true →
  envelope_typed (fill_header now e) = true.
Proof.
  unfold envelope_typed. intros He Hn. bool_hyps.
  repeat match goal with |- (_ && _)%bool = true => apply andb_true_iff; split end;
    try done;
    cbn [fill_header env_header_len env_payload_len env_message_id env_created_at_ms];
    try (apply uint_in_range; lia);
    destruct (env_message_id e =? 0), (env_created_at_ms e =? 0); try done.
Qed.

(** The fixed header decodes to the fields it was written from. *)
Lemma read_fixed_frame v tl :
  envelope_typed v = true →
  read_fixed (header_bytes v ++ tl) (env_header_len v) (env_payload_len v)
    (src_endpoint_uid (env_source v), src_entity_uid (env_source v),
     ts_uids (env_target v), sec_auth_tag (env_security v),
     tr_profile_id (env_type v), tr_type_name (env_type v))
  = Some (with_payload [] 0 v).
Proof.
  intros Ht. unfold envelope_typed in Ht. bool_hyps.
  unfold read_fixed. repeat read_field.
  rewrite !uint_small by done. unfold with_payload. do 2 f_equal.
  - by destruct (env_qos_class v).
  - by destruct (env_family v).
  - by destruct (env_source v).
  - by destruct (env_target v) as [[] ?].
  - by destruct (env_type v).
  - by destruct (env_security v).
Qed.

Lemma encodable_acceptable v :
  encodable v = true → envelope_acceptable (with_payload [] 0 v) = true.
Proof. unfold encodable. intros. bool_hyps. done. Qed.

Lemma length_frame_body v :
  vsize (frame_body v) = kFixedHeaderSize + variable_size v + vsize (env_payload v).
Proof.
  unfold frame_body, kFixedHeaderSize.
  rewrite !length_app, length_header_bytes, <- length_variable_bytes. lia.
Qed.

Lemma length_frame v :
  vsize (frame v) = kFixedHeaderSize + variable_size v + vsize (env_payload v) + kTrailerSize.
Proof.
  unfold frame. rewrite length_app, length_write_le.
  pose proof (length_frame_body v). unfold kTrailerSize. lia.
Qed.

Lemma read_u32_middle pre x post :
  in_uint 32 x = true →
  read_u32 (pre ++ write_le 0 4 x ++ post) (vsize pre) = Some x.
Proof.
  intros Hx. unfold read_u32.
  pose proof (load_middle pre (write_le 0 4 x) post) as Hl.
  rewrite length_write_le in Hl. rewrite Hl. cbn -[read_le write_le].
  by rewrite read_write_le.
Qed.

(** A well-formed frame followed by anything decodes to its envelope. *)
Lemma decode_frame v rest now :
  encodable v = true → envelope_typed v = true →
  env_header_len v = kFixedHeaderSize + variable_size v →
  env_payload_len v = vsize (env_payload v) →
  decode (frame v ++ rest) now
  = Some (mkDecodeResult kOk (vsize (frame v))
            (with_payload (env_payload v) (checksum (frame_body v)) v)).
Proof.
  intros Hen Hty Hhl Hpl.
  assert (Hdata : frame v ++ rest = header_bytes v ++ variable_bytes v
    ++ (env_payload v ++ write_le 0 4 (checksum (frame_body v)) ++ rest)).
  { unfold frame, frame_body. by rewrite <- !app_assoc. }
  pose proof (length_frame v) as Hlen. pose proof (length_frame_body v) as Hbody.
  pose proof (variable_size_nonneg v) as Hvs.
  assert (Hrv := read_variable_frame v
    (env_payload v ++ write_le 0 4 (checksum (frame_body v)) ++ rest) Hen Hhl).
  pose proof (encodable_acceptable v Hen) as Hacc.
  unfold encodable in Hen. bool_hyps. unfold kMinEnvelopeSize in *.
  pose proof Hty as Hty'. unfold envelope_typed in Hty'. bool_hyps.
  unfold decode. rewrite length_app, Nat2Z.inj_add.
  unfold kMinEnvelopeSize, kFixedHeaderSize, kTrailerSize in *.
  case_if; [bool_hyps; lia|].
  rewrite Hdata, has_magic_header. cbn [negb].
  repeat read_field. rewrite !uint_small by done.
  replace (env_protocol_major v =? _) with true by (symmetry; by apply Z.eqb_eq).
  replace (env_header_version v =? _) with true by (symmetry; by apply Z.eqb_eq).
  replace (env_schema_version v =? _) with true by (symmetry; by apply Z.eqb_eq).
  cbn [negb orb].
  replace (env_header_len v <? 80) with false by (symmetry; apply Z.ltb_ge; lia).
  rewrite Z.gtb_ltb.
  replace (kMaxPayloadBytes <? _) with false by (symmetry; apply Z.ltb_ge; lia).
  cbn [orb].
  case_if; [bool_hyps; lia|].
  replace (valid_qos _) with true by by destruct (env_qos_class v).
  replace (valid_family _) with true by by destruct (env_family v).
  replace (valid_scope _) with true by by destruct (ts_scope (env_target v)).
  cbn [negb orb]. rewrite Hrv. cbn [mbind option_bind].
  rewrite read_fixed_frame by done. cbn [mbind option_bind]. rewrite Hacc. cbn [negb].
  replace (env_header_len v + env_payload_len v + 4 - 4) with (vsize (frame_body v)) by lia.
  replace (read_u32 _ _) with (Some (checksum (frame_body v))).
  2: { rewrite <- Hdata. unfold frame. rewrite <- app_assoc. symmetry. apply read_u32_middle,
       checksum_range. }
  cbn [mbind option_bind].
  replace (load _ _ 0) with (Some (frame_body v)).
  2: { rewrite <- Hdata. unfold frame. rewrite <- app_assoc, Nat2Z.id. symmetry.
       apply (load_middle []). }
  cbn [mbind option_bind]. rewrite Z.eqb_refl. cbn [negb].
  replace (load _ _ _) with (Some (env_payload v)).
  2: { rewrite app_assoc, Hpl, Nat2Z.id, Hhl. symmetry.
       replace (80 + _) with (vsize (header_bytes v ++ variable_bytes v))
         by (rewrite length_app, Nat2Z.inj_add, length_variable_bytes, length_header_bytes; lia).
       apply load_middle. }
  cbn [mbind option_bind]. do 2 f_equal. lia.
Qed.


(** ** What an accepted frame consists of *)

(** The bytes [off, off + n) of a buffer. *)
Definition slice (off n : nat) (data : Bytes) : Bytes := take n (drop off data).

Lemma slice_split off n data :
  drop off data = slice off n data ++ drop (off + n) data.
Proof. unfold slice. by rewrite <- drop_drop, take_drop. Qed.

Lemma load_slice n data off bs :
  0 <= off → load n data off = Some bs →
  bs = slice (Z.to_nat off) n data ∧ length bs = n ∧ Z.of_nat n + off <= vsize data.
Proof.
  unfold load. case_if; [|done]. bool_hyps. intros ? [= <-].
  unfold slice. rewrite length_take, length_drop. repeat split; lia.
Qed.

Lemma load_is_Some n data off :
  Z.of_nat n + off <= vsize data → is_Some (load n data off).
Proof. intros. unfold load. case_if; [by eexists|]. bool_hyps. lia. Qed.

Lemma load_u8_slice data off x :
  load_u8 data off = Some x → in_uint 8 x = true ∧ slice (Z.to_nat off) 1 data = [byte_of x].
Proof.
  unfold load_u8. destruct (data !! _) as [b|] eqn:E; [|done]. intros [= <-]. split.
  - apply in_uint_range, val_range.
  - unfold slice. rewrite (drop_S _ _ _ E). simpl. by rewrite byte_of_val.
Qed.

Lemma load_u8_is_Some data off :
  0 <= off < vsize data → is_Some (load_u8 data off).
Proof.
  intros. unfold load_u8. rewrite fmap_is_Some. apply lookup_lt_is_Some_2. lia.
Qed.

Lemma read_le_slice n data off bs :
  0 <= off → load n data off = Some bs →
  in_uint (8 * Z.of_nat n) (read_le 0 0 bs) = true
  ∧ slice (Z.to_nat off) n data = write_le 0 n (read_le 0 0 bs).
Proof.
  intros Hoff Hl. destruct (load_slice _ _ _ _ Hoff Hl) as (-> & Hn & _).
  split; [by apply write_le_range|]. rewrite <- Hn at 2. by rewrite write_read_le.
Qed.

Lemma read_u16_slice data off x :
  0 <= off → read_u16 data off = Some x →
  in_uint 16 x = true ∧ slice (Z.to_nat off) 2 data = write_le 0 2 x.
Proof.
  intros Hoff. rewrite read_u16_load by done.
  destruct (load 2 data off) eqn:E; [|done]. intros [= <-].
  by apply (read_le_slice 2).
Qed.

Lemma read_u32_slice data off x :
  0 <= off → read_u32 data off = Some x →
  in_uint 32 x = true ∧ slice (Z.to_nat off) 4 data = write_le 0 4 x.
Proof.
  intros Hoff. unfold read_u32.
  destruct (load 4 data off) eqn:E; [|done]. intros [= <-].
  by apply (read_le_slice 4).
Qed.

Lemma read_u64_slice data off x :
  0 <= off → read_u64 data off = Some x →
  in_uint 64 x = true ∧ slice (Z.to_nat off) 8 data = write_le 0 8 x.
Proof.
  intros Hoff. unfold read_u64.
  destruct (load 8 data off) eqn:E; [|done]. intros [= <-].
  by apply (read_le_slice 8).
Qed.

Lemma read_u16_is_Some data off :
  0 <= off → off + 2 <= vsize data → is_Some (read_u16 data off).
Proof.
  intros. rewrite read_u16_load by done.
  destruct (load_is_Some 2 data off) as [? ->]; [lia|]. by eexists.
Qed.

Lemma read_u32_is_Some data off : off + 4 <= vsize data → is_Some (read_u32 data off).
Proof.
  intros. unfold read_u32. destruct (load_is_Some 4 data off) as [? ->]; [lia|]. by eexists.
Qed.

Lemma read_u64_is_Some data off : off + 8 <= vsize data → is_Some (read_u64 data off).
Proof.
  intros. unfold read_u64. destruct (load_is_Some 8 data off) as [? ->]; [lia|]. by eexists.
Qed.

Section bounded.
Context (data : Bytes) (header_len : Z).
Hypothesis Hlen : header_len <= vsize data.
Hypothesis Hsize : header_len < 2 ^ 64.

(** A text is read inside the header or refused. *)
Lemma read_text_spec cursor n :
  0 <= cursor <= header_len → 0 <= n →
  match read_text data header_len cursor n with
  | None => False
  | Some None => True
  | Some (Some (bs, c)) =>
    c = cursor + n ∧ c <= header_len ∧ vsize bs = n
    ∧ drop (Z.to_nat cursor) data = bs ++ drop (Z.to_nat c) data
  end.
Proof.
  intros Hc Hn. unfold read_text.
  rewrite uint_small by (apply in_uint_range; lia).
  rewrite Z.gtb_ltb. case_if; [done|]. bool_hyps.
  destruct (load_is_Some (Z.to_nat n) data cursor) as [bs Hbs]; [lia|].
  rewrite Hbs. cbn [mbind option_bind].
  destruct (load_slice _ _ _ _ (proj1 Hc) Hbs) as (-> & Hl & _).
  repeat split; try lia.
  replace (Z.to_nat (cursor + n)) with (Z.to_nat cursor + Z.to_nat n)%nat by lia.
  apply slice_split.
Qed.

(** The targets are read inside the header or refused. *)
Lemma read_targets_spec n cursor :
  0 <= cursor <= header_len →
  match read_targets n data header_len cursor with
  | None => False
  | Some None => True
  | Some (Some (uids, c)) =>
    cursor <= c <= header_len ∧ length uids = n
    ∧ drop (Z.to_nat cursor) data
      = concat (target_bytes <$> uids) ++ drop (Z.to_nat c) data
  end.
Proof.
  revert cursor. induction n as [|n IH]; intros cursor Hc; [simpl; repeat split; lia|].
  cbn [read_targets]. rewrite Z.gtb_ltb. case_if; [done|]. bool_hyps.
  destruct (read_u16_is_Some data cursor) as [x Hx]; [lia..|].
  rewrite Hx. cbn [mbind option_bind].
  destruct (read_u16_slice _ _ _ (proj1 Hc) Hx) as [Hr Hs].
  apply in_uint_range in Hr.
  pose proof (read_text_spec (cursor + 2) x ltac:(lia) ltac:(lia)) as Ht.
  destruct (read_text _ _ _ _) as [[[uid c]|]|]; [|done|done].
  destruct Ht as (Hcx & Hle & Hl & Hd). cbn [mbind option_bind].
  pose proof (IH c ltac:(lia)) as Hrest.
  destruct (read_targets _ _ _ _) as [[[uids c']|]|]; [|done|done].
  destruct Hrest as (Hc' & Hn & Hd'). cbn [mbind option_bind].
  repeat split; [lia..|by f_equal/=|].
  rewrite (slice_split _ 2). rewrite Hs.
  replace (Z.to_nat cursor + 2)%nat with (Z.to_nat (cursor + 2)) by lia.
  rewrite Hd, Hd'. cbn [fmap list_fmap concat]. unfold target_bytes at 2.
  rewrite list_byte_of_string_of_list_byte, length_string_of, Hl.
  by rewrite <- !app_assoc.
Qed.
End bounded.

Lemma read_u16_nonneg data off x : 0 <= off → read_u16 data off = Some x → 0 <= x < 65536.
Proof. intros ? Hx. by apply read_u16_slice, proj1, in_uint_range in Hx. Qed.

(** The length of a text the fixed header announces. *)
Ltac read_len data off x H :=
  let R := fresh "R" in
  destruct (read_u16_is_Some data off) as [x H]; [lia..|];
  rewrite H; cbn [mbind option_bind];
  pose proof (read_u16_nonneg data off x ltac:(lia) H) as R.

(** One text of the variable header. *)
Ltac variable_text data header_len c n :=
  let H := fresh "Hv" in
  pose proof (read_text_spec data header_len ltac:(lia) ltac:(lia) c n
                ltac:(lia) ltac:(lia)) as H;
  destruct (read_text data header_len c n) as [[[? ?]|]|]; [|done|done];
  cbn [mbind option_bind]; destruct H as (? & ? & ? & ?).

Lemma read_variable_spec data header_len :
  80 <= header_len <= vsize data → header_len < 65536 →
  match read_variable data header_len with
  | None => False
  | Some None => True
  | Some (Some (endpoint, entity, uids, auth, profile, type_name)) =>
    read_u16 data 60 = Some (ssize endpoint) ∧ read_u16 data 62 = Some (ssize entity)
    ∧ read_u16 data 64 = Some (vsize uids) ∧ read_u16 data 66 = Some (vsize auth)
    ∧ read_u16 data 68 = Some (ssize profile) ∧ read_u16 data 70 = Some (ssize type_name)
    ∧ drop 80 data = (bytes_of endpoint ++ bytes_of entity
        ++ concat (target_bytes <$> uids) ++ auth ++ bytes_of profile
        ++ bytes_of type_name) ++ drop (Z.to_nat header_len) data
  end.
Proof.
  intros Hh Hlt. unfold read_variable, kFixedHeaderSize.
  read_len data 60 l1 H1. read_len data 62 l2 H2. read_len data 64 l3 H3.
  read_len data 66 l4 H4. read_len data 68 l5 H5. read_len data 70 l6 H6.
  variable_text data header_len 80 l1.
  variable_text data header_len z l2.
  pose proof (read_targets_spec data header_len ltac:(lia) ltac:(lia)
                (Z.to_nat l3) z0 ltac:(lia)) as Ht.
  destruct (read_targets _ _ _ _) as [[[uids c3]|]|]; [|done|done].
  cbn [mbind option_bind]. destruct Ht as (Hc3 & Hl3 & Hd3).
  variable_text data header_len c3 l4.
  variable_text data header_len z1 l5.
  variable_text data header_len z2 l6.
  case_if; [done|]. bool_hyps. subst header_len.
  rewrite !length_string_of, !list_byte_of_string_of_list_byte.
  repeat split; try (f_equal; lia).
  change (drop 80 data) with (drop (Z.to_nat 80) data).
  repeat match goal with H : drop _ data = _ ++ _ |- _ => rewrite H; clear H end.
  by rewrite <- !app_assoc.
Qed.

Lemma QosClass_value_cast q : valid_qos q = true → QosClass_value (QosClass_cast q) = q.
Proof.
  unfold valid_qos. cbn [QosClass_value]. intros. bool_hyps.
  assert (q = 1 ∨ q = 2 ∨ q = 3 ∨ q = 4) as Hq by lia.
  by repeat destruct Hq as [->|Hq]; [..|subst].
Qed.

Lemma TargetScope_value_cast s :
  valid_scope s = true → TargetScope_value (TargetScope_cast s) = s.
Proof.
  unfold valid_scope. cbn [TargetScope_value]. intros. bool_hyps.
  assert (s = 1 ∨ s = 2 ∨ s = 3 ∨ s = 4) as Hs by lia.
  by repeat destruct Hs as [->|Hs]; [..|subst].
Qed.

Lemma MessageFamily_value_cast f :
  valid_family f = true → MessageFamily_value (MessageFamily_cast f) = f.
Proof.
  unfold valid_family. cbn [MessageFamily_value]. intros. bool_hyps.
  assert (f = 1 ∨ f = 2 ∨ f = 3 ∨ f = 4 ∨ f = 5 ∨ f = 6 ∨ f = 7 ∨ f = 8 ∨ f = 9)
    as Hf by lia.
  by repeat destruct Hf as [->|Hf]; [..|subst].
Qed.

(** The reserved bytes of the fixed header, which [decode] does not look at. *)
Definition reserved_zero (data : Bytes) : bool :=
  bool_decide (slice 17 1 data = [Byte.x00]) && bool_decide (slice 73 1 data = [Byte.x00])
  && bool_decide (slice 78 2 data = [Byte.x00; Byte.x00]).

Lemma header_bytes_slices v :
  header_bytes v =
  [Byte.x59; Byte.x4c; Byte.x4e; Byte.x4b] ++ [byte_of (env_protocol_major v)]
  ++ [byte_of (env_header_version v)] ++ write_le 0 2 (env_flags v)
  ++ write_le 0 2 (env_header_len v) ++ write_le 0 4 (env_payload_len v)
  ++ [byte_of (QosClass_value (env_qos_class v))]
  ++ [byte_of (MessageFamily_value (env_family v))] ++ [byte_of (env_operation v)]
  ++ [Byte.x00] ++ write_le 0 2 (env_schema_version v)
  ++ write_le 0 8 (env_session_id v) ++ write_le 0 8 (env_message_id v)
  ++ write_le 0 8 (env_correlation_id v) ++ write_le 0 8 (env_created_at_ms v)
  ++ write_le 0 4 (env_ttl_ms v) ++ write_le 0 4 (sec_key_epoch (env_security v))
  ++ write_le 0 2 (ssize (src_endpoint_uid (env_source v)))
  ++ write_le 0 2 (ssize (src_entity_uid (env_source v)))
  ++ write_le 0 2 (vsize (ts_uids (env_target v)))
  ++ write_le 0 2 (vsize (sec_auth_tag (env_security v)))
  ++ write_le 0 2 (ssize (tr_profile_id (env_type v)))
  ++ write_le 0 2 (ssize (tr_type_name (env_type v)))
  ++ [byte_of (TargetScope_value (ts_scope (env_target v)))] ++ [Byte.x00]
  ++ write_le 0 2 (tr_major (env_type v)) ++ write_le 0 2 (tr_minor (env_type v))
  ++ [Byte.x00; Byte.x00].
Proof. reflexivity. Qed.

Lemma drop_0_slices (data : Bytes) :
  data = slice 0 4 data ++ slice 4 1 data ++ slice 5 1 data ++ slice 6 2 data
  ++ slice 8 2 data ++ slice 10 4 data ++ slice 14 1 data ++ slice 15 1 data
  ++ slice 16 1 data ++ slice 17 1 data ++ slice 18 2 data ++ slice 20 8 data
  ++ slice 28 8 data ++ slice 36 8 data ++ slice 44 8 data ++ slice 52 4 data
  ++ slice 56 4 data ++ slice 60 2 data ++ slice 62 2 data ++ slice 64 2 data
  ++ slice 66 2 data ++ slice 68 2 data ++ slice 70 2 data ++ slice 72 1 data
  ++ slice 73 1 data ++ slice 74 2 data ++ slice 76 2 data ++ slice 78 2 data
  ++ drop 80 data.
Proof.
  rewrite <- (drop_0 data) at 1.
  repeat match goal with
  | |- drop ?off data = slice ?off ?n data ++ _ =>
    rewrite (slice_split off n data); f_equal; cbn [Nat.add]
  end.
Qed.

Lemma has_magic_slice data :
  has_magic data = true → slice 0 4 data = [Byte.x59; Byte.x4c; Byte.x4e; Byte.x4b].
Proof.
  destruct data as [|b0 [|b1 [|b2 [|b3 data]]]]; try done. cbn [has_magic].
  intros. bool_hyps. unfold slice. cbn [drop take].
  repeat f_equal; by apply val_inj.
Qed.

(** What [decode] promises of a frame it accepts. *)
Record accepted (data : Bytes) (r : DecodeResult) : Prop := {
  acc_encodable : encodable (dr_envelope r) = true;
  acc_typed : envelope_typed (dr_envelope r) = true;
  acc_header_len :
    env_header_len (dr_envelope r) = kFixedHeaderSize + variable_size (dr_envelope r);
  acc_payload_len :
    env_payload_len (dr_envelope r) = vsize (env_payload (dr_envelope r));
  acc_consumed : dr_consumed r = vsize (frame (dr_envelope r));
  acc_bounds : dr_consumed r <= vsize data;
  acc_read_header_len : read_u16 data 8 = Some (env_header_len (dr_envelope r));
  acc_read_payload_len : read_u32 data 10 = Some (env_payload_len (dr_envelope r));
  acc_read_checksum :
    read_u32 data (dr_consumed r - 4) = Some (env_checksum (dr_envelope r));
  acc_checksum :
    env_checksum (dr_envelope r) = checksum (take (Z.to_nat (dr_consumed r - 4)) data);
  acc_canonical :
    reserved_zero data = true → ∃ rest, data = frame (dr_envelope r) ++ rest;
}.

(** The reads of the fixed header, with what each says about the bytes. *)
Ltac fixed_read :=
  match goal with
  | |- context [load_u8 ?data ?off ≫= _] =>
    let x := fresh "x" in let H := fresh "E" in
    destruct (load_u8_is_Some data off) as [x H]; [lia|];
    rewrite H; cbn [mbind option_bind]; apply load_u8_slice in H
  | |- context [read_u16 ?data ?off ≫= _] =>
    let x := fresh "x" in let H := fresh "E" in
    destruct (read_u16_is_Some data off) as [x H]; [lia..|];
    rewrite H; cbn [mbind option_bind]; apply read_u16_slice in H; [|lia]
  | |- context [read_u32 ?data ?off ≫= _] =>
    let x := fresh "x" in let H := fresh "E" in
    destruct (read_u32_is_Some data off) as [x H]; [lia..|];
    rewrite H; cbn [mbind option_bind]; apply read_u32_slice in H; [|lia]
  | |- context [read_u64 ?data ?off ≫= _] =>
    let x := fresh "x" in let H := fresh "E" in
    destruct (read_u64_is_Some data off) as [x H]; [lia..|];
    rewrite H; cbn [mbind option_bind]; apply read_u64_slice in H; [|lia]
  end.

(** The fields [read_fixed] returns hold values of their types and are the ones
    the bytes spell out. *)
Lemma read_fixed_spec data header_len payload_len ep en uids au pr ty :
  84 <= vsize data →
  ∃ v, read_fixed data header_len payload_len (ep, en, uids, au, pr, ty) = Some v
  ∧ env_header_len v = header_len ∧ env_payload_len v = payload_len
  ∧ env_source v = mkSourceIdentity ep en ∧ ts_uids (env_target v) = uids
  ∧ sec_auth_tag (env_security v) = au ∧ tr_profile_id (env_type v) = pr
  ∧ tr_type_name (env_type v) = ty
  ∧ (in_uint 16 header_len = true → in_uint 32 payload_len = true → envelope_typed v = true)
  ∧ load_u8 data 4 = Some (env_protocol_major v)
  ∧ load_u8 data 5 = Some (env_header_version v)
  ∧ read_u16 data 18 = Some (env_schema_version v)
  ∧ (slice 0 4 data = [Byte.x59; Byte.x4c; Byte.x4e; Byte.x4b] →
     (∀ q, load_u8 data 14 = Some q → valid_qos q = true) →
     (∀ f, load_u8 data 15 = Some f → valid_family f = true) →
     (∀ s, load_u8 data 72 = Some s → valid_scope s = true) →
     read_u16 data 8 = Some header_len → read_u32 data 10 = Some payload_len →
     read_u16 data 60 = Some (ssize ep) → read_u16 data 62 = Some (ssize en) →
     read_u16 data 64 = Some (vsize uids) → read_u16 data 66 = Some (vsize au) →
     read_u16 data 68 = Some (ssize pr) → read_u16 data 70 = Some (ssize ty) →
     reserved_zero data = true → data = header_bytes v ++ drop 80 data).
Proof.
  intros Hlen. unfold read_fixed.
  pose proof (λ q, load_u8_slice data 14 q) as S14.
  destruct (load_u8_is_Some data 4) as [x4 E4]; [lia|].
  destruct (load_u8_is_Some data 5) as [x5 E5]; [lia|].
  destruct (read_u16_is_Some data 18) as [x18 E18]; [lia..|].
  destruct (load_u8_is_Some data 14) as [x14 E14]; [lia|].
  destruct (load_u8_is_Some data 15) as [x15 E15]; [lia|].
  destruct (load_u8_is_Some data 72) as [x72 E72]; [lia|].
  rewrite E4, E5, E18, E14, E15, E72. cbn [mbind option_bind].
  repeat fixed_read. cbn [mbind option_bind].
  eexists. split; [reflexivity|].
  cbn -[header_bytes slice drop reserved_zero envelope_typed].
  destruct (load_u8_slice _ _ _ E4) as [T4 S4], (load_u8_slice _ _ _ E5) as [T5 S5],
    (read_u16_slice data 18 x18 ltac:(lia) E18) as [T18 S18],
    (load_u8_slice _ _ _ E15) as [_ S15], (load_u8_slice _ _ _ E72) as [_ S72],
    (S14 _ E14) as [_ S14'].
  repeat match goal with H : _ ∧ _ |- _ => destruct H end.
  do 7 (split; [done|]).
  split.
  { intros Hh Hp. unfold envelope_typed. cbn.
    repeat match goal with H : in_uint _ _ = true |- _ => rewrite H; clear H end. done. }
  do 3 (split; [done|]).
  intros Hm Q14 Q15 Q72 Q8 Q10 Q60 Q62 Q64 Q66 Q68 Q70 Hres.
  unfold reserved_zero in Hres. bool_hyps.
  rewrite header_bytes_slices. cbn -[write_le slice drop byte_of].
  rewrite QosClass_value_cast, MessageFamily_value_cast, TargetScope_value_cast by auto.
  apply read_u16_slice in Q8, Q60, Q62, Q64, Q66, Q68, Q70; [|lia..].
  apply read_u32_slice in Q10; [|lia].
  rewrite (drop_0_slices data) at 1.
  repeat match goal with H : _ ∧ _ |- _ => destruct H end.
  repeat match goal with
  | H : slice (Z.to_nat ?z) _ _ = _ |- _ =>
    let n := eval vm_compute in (Z.to_nat z) in
    change (Z.to_nat z) with n in H; rewrite H; clear H
  end.
  rewrite Hm. repeat match goal with H : slice _ _ _ = _ |- _ => rewrite H; clear H end.
  by rewrite <- !app_assoc.
Qed.

Lemma with_payload_header p c v : header_bytes (with_payload p c v) = header_bytes v.
Proof. reflexivity. Qed.

Lemma with_payload_variable p c v : variable_bytes (with_payload p c v) = variable_bytes v.
Proof. by rewrite (proj2 (emits_variable _)), (proj2 (emits_variable v)). Qed.

(** A datum whose header is canonical is the frame of what was read from it, followed
    by the bytes behind the frame. *)
Lemma accepted_canonical data v header_len payload_len cks payload :
  0 <= payload_len → header_len = 80 + variable_size v →
  vsize payload = payload_len →
  data = header_bytes v ++ drop 80 data →
  drop 80 data = variable_bytes v ++ drop (Z.to_nat header_len) data →
  payload = slice (Z.to_nat header_len) (Z.to_nat payload_len) data →
  read_u32 data (header_len + payload_len) = Some cks →
  cks = checksum (take (Z.to_nat (header_len + payload_len)) data) →
  ∃ rest, data = frame (with_payload payload cks v) ++ rest.
Proof.
  intros Hp Hvs Hpn Hcan Hvar Hpay Hcks Hsum.
  assert (0 <= variable_size v) by (rewrite <- length_variable_bytes; lia).
  apply read_u32_slice in Hcks as [_ Hcks]; [|lia].
  pose proof (length_frame_body (with_payload payload cks v)) as Hl.
  change (variable_size _) with (variable_size v) in Hl.
  unfold kFixedHeaderSize in Hl. cbn [with_payload env_payload] in Hl.
  assert (Hbody : data = frame_body (with_payload payload cks v)
                         ++ drop (Z.to_nat (header_len + payload_len)) data).
  { rewrite Hcan at 1. rewrite Hvar. unfold frame_body.
    rewrite with_payload_header, with_payload_variable. cbn [with_payload env_payload].
    rewrite <- !app_assoc. do 2 f_equal. rewrite Hpay.
    rewrite (slice_split _ (Z.to_nat payload_len)). do 2 f_equal. lia. }
  assert (Htake : take (Z.to_nat (header_len + payload_len)) data
                  = frame_body (with_payload payload cks v)).
  { rewrite Hbody at 1. rewrite take_app_le by lia. apply take_ge. lia. }
  exists (drop (Z.to_nat (header_len + payload_len) + 4) data).
  unfold frame. rewrite <- app_assoc.
  replace (checksum (frame_body _)) with cks by (by rewrite <- Htake).
  rewrite <- Hcks, <- slice_split. exact Hbody.
Qed.

(** The last step of [decode]: payload and checksum of a header that has been
    read.  The hypotheses are the facts its reads and guards leave behind. *)
Lemma accepted_intro data v header_len payload_len cks payload :
  header_len + payload_len + 4 <= vsize data →
  80 <= header_len → 0 <= payload_len <= kMaxPayloadBytes →
  env_header_len v = header_len → env_payload_len v = payload_len →
  env_protocol_major v = kProtocolMajor → env_header_version v = kHeaderVersion →
  env_schema_version v = kSchemaVersion → vsize (ts_uids (env_target v)) <= uint16_max →
  envelope_typed v = true → envelope_acceptable v = true →
  drop 80 data = variable_bytes v ++ drop (Z.to_nat header_len) data →
  (reserved_zero data = true → data = header_bytes v ++ drop 80 data) →
  read_u16 data 8 = Some header_len → read_u32 data 10 = Some payload_len →
  read_u32 data (header_len + payload_len) = Some cks →
  cks = checksum (take (Z.to_nat (header_len + payload_len)) data) →
  load (Z.to_nat payload_len) data header_len = Some payload →
  accepted data (mkDecodeResult kOk (header_len + payload_len + 4)
                   (with_payload payload cks v)).
Proof.
  intros Hlen Hh Hp Hhl Hpl Hmaj Hver Hsch Hts Hty Hacc Hvar Hcan R8 R10 Hcks Hsum Hpay.
  apply load_slice in Hpay as (Hpay & Hpn & _); [|lia].
  assert (Hvs : header_len = 80 + variable_size v).
  { apply (f_equal length) in Hvar. rewrite length_app, !length_drop in Hvar.
    rewrite <- length_variable_bytes. lia. }
  pose proof Hty as Hty'. unfold envelope_typed in Hty'. bool_hyps.
  assert (Hh16 : header_len < 65536).
  { assert (H16 : in_uint 16 (env_header_len v) = true) by done.
    apply in_uint_range in H16. lia. }
  assert (Hconsumed : header_len + payload_len + 4 = vsize (frame (with_payload payload cks v))).
  { rewrite length_frame. change (variable_size (with_payload payload cks v)) with (variable_size v).
    cbn [with_payload env_payload]. unfold kFixedHeaderSize, kTrailerSize. lia. }
  split; cbn [dr_envelope dr_consumed].
  - unfold encodable. cbn -[envelope_acceptable variable_size].
    change (envelope_acceptable (with_payload payload cks v)) with (envelope_acceptable v).
    change (variable_size (with_payload payload cks v)) with (variable_size v).
    unfold uint16_max, kFixedHeaderSize in *. bool_solve.
  - exact Hty.
  - cbn. unfold kFixedHeaderSize. change (variable_size (with_payload payload cks v))
      with (variable_size v). lia.
  - cbn. lia.
  - exact Hconsumed.
  - done.
  - cbn. congruence.
  - cbn. congruence.
  - cbn. by replace (header_len + payload_len + 4 - 4) with (header_len + payload_len) by lia.
  - cbn. by replace (header_len + payload_len + 4 - 4) with (header_len + payload_len) by lia.
  - intros Hres. apply (accepted_canonical _ _ header_len payload_len); auto; lia.
Qed.

(** A branch of [decode] that rejects. *)
Ltac rejected := eexists; split; [reflexivity|split; [cbn; lia|done]].

(** [decode] answers every input, and what it accepts is [accepted]. *)
Lemma decode_spec data now :
  ∃ r, decode data now = Some r ∧ 0 <= dr_consumed r <= vsize data
  ∧ (dr_code r = kOk → accepted data r).
Proof.
  unfold decode, kMinEnvelopeSize, kFixedHeaderSize, kTrailerSize.
  case_if; [rejected|]. case_if; [rejected|]. bool_hyps.
  destruct (load_u8_is_Some data 4) as [maj E4]; [lia|].
  destruct (load_u8_is_Some data 5) as [ver E5]; [lia|].
  destruct (read_u16_is_Some data 18) as [sch E18]; [lia..|].
  rewrite E4, E5, E18. cbn [mbind option_bind]. case_if; [rejected|]. bool_hyps.
  destruct (read_u16_is_Some data 8) as [hl E8]; [lia..|].
  destruct (read_u32_is_Some data 10) as [pl E10]; [lia..|].
  destruct (read_u16_slice data 8 hl ltac:(lia) E8) as [T8 S8].
  destruct (read_u32_slice data 10 pl ltac:(lia) E10) as [T10 S10].
  pose proof T8 as T8'. pose proof T10 as T10'.
  apply in_uint_range in T8', T10'.
  rewrite E8, E10. cbn [mbind option_bind]. rewrite Z.gtb_ltb.
  case_if; [rejected|]. case_if; [rejected|]. bool_hyps.
  destruct (load_u8_is_Some data 14) as [q E14]; [lia|].
  destruct (load_u8_is_Some data 15) as [f E15]; [lia|].
  destruct (load_u8_is_Some data 72) as [s E72]; [lia|].
  rewrite E14, E15, E72. cbn [mbind option_bind]. case_if; [rejected|]. bool_hyps.
  pose proof (read_variable_spec data hl ltac:(lia) ltac:(lia)) as Hvar.
  destruct (read_variable data hl) as [[[[[[[ep en] uids] au] pr] ty]|]|];
    [|rejected|done].
  destruct Hvar as (V60 & V62 & V64 & V66 & V68 & V70 & Hvar).
  cbn [mbind option_bind].
  destruct (read_fixed_spec data hl pl ep en uids au pr ty ltac:(lia))
    as (v & Hv & Hhl & Hpl & Hsrc & Hts & Hau & Hpr & Htn & Hty & L4 & L5 & L18 & Hcan).
  rewrite Hv. cbn [mbind option_bind].
  case_if; [rejected|]. bool_hyps.
  replace (hl + pl + 4 - 4) with (hl + pl) by lia.
  destruct (read_u32_is_Some data (hl + pl)) as [cks Ecks]; [lia|].
  destruct (load_is_Some (Z.to_nat (hl + pl)) data 0) as [framed Eframed]; [lia|].
  rewrite Ecks, Eframed. cbn [mbind option_bind].
  case_if; [rejected|]. bool_hyps.
  destruct (load_is_Some (Z.to_nat pl) data hl) as [payload Epay]; [lia|].
  rewrite Epay. cbn [mbind option_bind]. eexists. split; [done|]. split; [cbn; lia|]. intros _.
  apply load_slice in Eframed as (-> & _ & _); [|lia].
  pose proof (read_u16_nonneg data 64 _ ltac:(lia) V64).
  eapply accepted_intro; try done; try lia; try congruence; auto.
  - rewrite Hts. unfold uint16_max. lia.
  - rewrite (proj2 (emits_variable v)), Hsrc, Hts, Hau, Hpr, Htn. exact Hvar.
  - apply Hcan; try done; try congruence. by apply has_magic_slice.
Qed.

(** ** The checksum *)

(** The multiplier of FNV-1a is invertible modulo [2 ^ 32]. *)
#[export] Instance fnv32_prime : FnvPrime 32 16777619 899433627.
Proof. by split. Qed.

(** Two buffers that differ in exactly one byte have different checksums. *)
Lemma checksum_single_byte pre b b' post :
  b ≠ b' → checksum (pre ++ b :: post) ≠ checksum (pre ++ b' :: post).
Proof.
  intros Hne. by apply (fnv_single_byte 2166136261).
Qed.

Lemma checksum_insert data i b b' :
  data !! i = Some b → b ≠ b' → checksum (<[i:=b']> data) ≠ checksum data.
Proof.
  intros Hi Hne. rewrite <- (take_drop_middle data i b Hi) at 2.
  rewrite insert_take_drop by (by eapply lookup_lt_Some).
  by apply checksum_single_byte.
Qed.

(** Loads that do not touch a changed byte. *)
Lemma slice_insert off n data i b :
  (i < off ∨ off + n <= i)%nat → slice off n (<[i:=b]> data) = slice off n data.
Proof.
  intros Hi. unfold slice. destruct (decide (i < off)%nat).
  - by rewrite drop_insert_lt by lia.
  - rewrite drop_insert_ge by lia. by rewrite take_insert_ge by lia.
Qed.

Lemma load_insert n data off i b :
  0 <= off → (i < Z.to_nat off ∨ Z.to_nat off + n <= i)%nat →
  load n (<[i:=b]> data) off = load n data off.
Proof.
  intros Hoff Hi. unfold load. rewrite length_insert.
  pose proof (slice_insert (Z.to_nat off) n data i b Hi) as Hs.
  unfold slice in Hs. by rewrite Hs.
Qed.

Lemma accepted_consumed data r :
  accepted data r →
  dr_consumed r = env_header_len (dr_envelope r) + env_payload_len (dr_envelope r) + 4
  ∧ 84 <= dr_consumed r.
Proof.
  intros []. rewrite acc_consumed0, length_frame, acc_header_len0, acc_payload_len0.
  unfold kTrailerSize, kFixedHeaderSize. pose proof (variable_size_nonneg (dr_envelope r)).
  lia.
Qed.

(** Two buffers with the same trailing checksum that both pass the check agree
    on the framed bytes, when they differ in at most one byte. *)
Lemma accepted_insert data r r' i b b' :
  accepted data r → accepted (<[i:=b']> data) r' → dr_consumed r' = dr_consumed r →
  data !! i = Some b → Z.of_nat i < dr_consumed r → b = b'.
Proof.
  intros Ha Ha' Hc Hi Hlt. destruct (accepted_consumed _ _ Ha) as [_ Hmin].
  destruct (decide (b = b')) as [|Hne]; [done|exfalso].
  pose proof (acc_bounds _ _ Ha) as Hb.
  pose proof (acc_read_checksum _ _ Ha) as Hr. pose proof (acc_checksum _ _ Ha) as Hs.
  pose proof (acc_read_checksum _ _ Ha') as Hr'. pose proof (acc_checksum _ _ Ha') as Hs'.
  rewrite Hc in Hr', Hs'. set (c := Z.to_nat (dr_consumed r - 4)) in *.
  destruct (decide (i < c)%nat) as [Hic|Hic].
  - assert (Heq : env_checksum (dr_envelope r') = env_checksum (dr_envelope r)).
    { unfold read_u32 in Hr, Hr'. rewrite load_insert in Hr' by (unfold c in *; lia).
      congruence. }
    rewrite Hs, Hs', take_insert_lt in Heq by done.
    revert Heq. apply (checksum_insert _ _ b); [|done].
    by rewrite lookup_take_lt.
  - apply read_u32_slice in Hr as [_ Hr]; [|lia].
    apply read_u32_slice in Hr' as [_ Hr']; [|lia]. fold c in Hr, Hr'.
    rewrite Hs', take_insert_ge, <- Hs, <- Hr in Hr' by lia.
    apply (f_equal (lookup (i - c)%nat)) in Hr'. unfold slice in Hr'.
    rewrite !lookup_take_lt, !lookup_drop in Hr' by (unfold c in *; lia).
    replace (c + (i - c))%nat with i in Hr' by lia.
    rewrite list_lookup_insert_eq in Hr' by (by eapply lookup_lt_Some). congruence.
Qed.

(** ** Properties of the codec *)

(** C1 A frame that [encode] builds decodes to the envelope it was built from,
    wherever it stands in a stream: the code is [kOk], exactly the frame is
    consumed, and every field, the payload and the targets come back. *)
Theorem decode_encode now t e rest :
  envelope_typed e = true → in_uint 64 now = true → encode now e true ≠ [] →
  decode (encode now e true ++ rest) t
  = Some (mkDecodeResult kOk (vsize (encode now e true))
            (with_payload (env_payload e)
               (checksum (frame_body (fill_header now e))) (fill_header now e))).
Proof.
  intros Hty Hnow Hne. rewrite encode_spec in *.
  destruct (encodable e) eqn:Hen; [|done].
  destruct (fill_header_lens now e Hen) as [Hhl Hpl].
  rewrite (decode_frame (fill_header now e)); auto.
  by apply envelope_typed_fill.
Qed.

(** [decode] is memory safe on every input, however malformed: no load leaves
    the buffer, it always answers, and it never claims more bytes than it was
    given. *)
Theorem decode_total data now :
  ∃ r, decode data now = Some r ∧ 0 <= dr_consumed r <= vsize data.
Proof. destruct (decode_spec data now) as (r & Hr & Hc & _). eauto. Qed.

(** C8 The wire format is canonical: a frame that [decode] accepts, with its
    reserved bytes zero, is exactly what [encode] produces for the decoded
    envelope. *)
Theorem encode_decode data now t r :
  decode data now = Some r → dr_code r = kOk → reserved_zero data = true →
  encode t (dr_envelope r) false = take (Z.to_nat (dr_consumed r)) data.
Proof.
  intros Hr Hok Hres. destruct (decode_spec data now) as (r' & Hr' & _ & Hacc).
  assert (r' = r) as -> by congruence. destruct (Hacc Hok).
  destruct (acc_canonical0 Hres) as [rest Hrest].
  rewrite encode_guards, acc_encodable0. cbv zeta.
  rewrite acc_header_len0, acc_payload_len0, !Z.eqb_refl. cbn [negb orb].
  by rewrite acc_consumed0, Nat2Z.id, Hrest, take_app_length.
Qed.

(** C33 One corrupted byte anywhere in a frame, its checksum included, except in
    the two length fields that say where the frame ends, is always detected. *)
Theorem decode_detects_corruption data now t r i b b' r' :
  decode data now = Some r → dr_code r = kOk →
  data !! i = Some b → b ≠ b' → Z.of_nat i < dr_consumed r →
  ¬ (8 <= i < 14)%nat →
  decode (<[i := b']> data) t = Some r' → dr_code r' ≠ kOk.
Proof.
  intros Hr Hok Hi Hne Hlt Hlen Hr' Hok'.
  destruct (decode_spec data now) as (x & Hx & _ & Ha).
  destruct (decode_spec (<[i:=b']> data) t) as (x' & Hx' & _ & Ha').
  replace x with r in * by congruence. replace x' with r' in * by congruence.
  specialize (Ha Hok). specialize (Ha' Hok'). apply Hne.
  eapply (accepted_insert data r r' i); try done.
  rewrite (proj1 (accepted_consumed _ _ Ha)), (proj1 (accepted_consumed _ _ Ha')).
  pose proof (acc_read_header_len _ _ Ha') as H8.
  pose proof (acc_read_payload_len _ _ Ha') as H10.
  rewrite read_u16_load in H8 by lia. unfold read_u32 in H10.
  rewrite load_insert in H8, H10 by lia. rewrite <- read_u16_load in H8 by lia.
  rewrite (acc_read_header_len _ _ Ha) in H8.
  fold (read_u32 data 10) in H10. rewrite (acc_read_payload_len _ _ Ha) in H10.
  congruence.
Qed.

(** *** Witnesses *)

(** A state message of a sensor, addressed to two entities. *)
Definition sample_envelope : Envelope :=
  {| env_protocol_major := 2; env_header_version := 2; env_flags := 0;
     env_header_len := 0; env_payload_len := 0; env_qos_class := kReliableLatest;
     env_family := FamilyStream; env_operation := 1; env_schema_version := 2;
     env_session_id := 7; env_message_id := 0; env_correlation_id := 0;
     env_source := mkSourceIdentity "uav-1" "imu-0";
     env_target := mkTargetSelector ScopeEntity ["gcs-1"; "gcs-2"];
     env_type := mkTypeRef "org.yunlink.core" 1 0 "State";
     env_created_at_ms := 0; env_ttl_ms := 1000;
     env_payload := [Byte.x01; Byte.x02; Byte.x03];
     env_security := mkSecurityContext 0 []; env_checksum := 0 |}.

Lemma decode_encode_witness :
  decode (encode 1000 sample_envelope true ++ [Byte.xff]) 5
  = Some (mkDecodeResult kOk (vsize (encode 1000 sample_envelope true))
            (with_payload (env_payload sample_envelope)
               (checksum (frame_body (fill_header 1000 sample_envelope)))
               (fill_header 1000 sample_envelope))).
Proof. apply decode_encode; [reflexivity|reflexivity|by vm_compute]. Defined.

Definition sample_result : DecodeResult :=
  mkDecodeResult kOk 132
    (with_payload (env_payload sample_envelope) 2868242707
       (fill_header 1000 sample_envelope)).

Lemma encode_decode_witness :
  encode 9 (dr_envelope sample_result) false
  = take 132 (encode 1000 sample_envelope true).
Proof.
  exact (encode_decode (encode 1000 sample_envelope true) 5 9 sample_result
           ltac:(vm_compute; reflexivity) eq_refl ltac:(vm_compute; reflexivity)).
Defined.

Lemma decode_detects_corruption_witness :
  kChecksumMismatch ≠ kOk.
Proof.
  exact (decode_detects_corruption (encode 1000 sample_envelope true) 5 5 sample_result
           20 Byte.x07 Byte.x08 (reject kChecksumMismatch 132)
           ltac:(vm_compute; reflexivity) eq_refl ltac:(vm_compute; reflexivity)
           ltac:(done) ltac:(done) ltac:(lia) ltac:(vm_compute; reflexivity)).
Defined.
