(* ===== verification/CoreMessages.v ===== *)
(** * CoreMessages: the payloads YunLink Core owns

    [src/core/core_messages_v2_internal.hpp] and [src/core/core_messages_v2.cpp]:
    the little-endian payload writer and reader and the fourteen messages they
    carry.  A [float] is its 32-bit pattern, which is what [std::memcpy] moves. *)

From Stdlib Require Import ZArith Lia String Ascii Strings.Byte.
From stdpp Require Import base gmap strings list fin_maps.
From S2P Require Import Prelude StdMap Codec WireTypes.
Local Open Scope Z_scope.

(** ** Writer *)

Definition w_u8 (value : Z) : writer := w_bytes [byte_of value].
Definition w_u16 (value : Z) : writer := w_bytes [byte_of value; byte_of (value ≫ 8)].
Definition w_u32 (value : Z) : writer := w_bytes (write_le 0 4 value).
Definition w_u64 (value : Z) : writer := w_bytes (write_le 0 8 value).
Definition w_f32 (bits : Z) : writer := w_u32 bits.

Definition w_text (value : string) : writer :=
  if ssize value >? uint16_max then w_invalidate
  else w_u16 (ssize value) ;;; w_bytes (bytes_of value).

Definition w_list {A} (callback : A → writer) (values : list A) : writer :=
  if vsize values >? uint16_max then w_invalidate
  else w_u16 (vsize values) ;;; w_for callback values.

Definition w_entry (entry : string * string) : writer :=
  w_text entry.1 ;;; w_text entry.2.

Definition w_map (values : stdmap string string) : writer :=
  if vsize (map_to_list values) >? uint16_max then w_invalidate
  else w_u16 (vsize (map_to_list values)) ;;; w_for w_entry (map_to_list values).

Definition w_blob (value : Bytes) : writer :=
  if vsize value >? uint32_max then w_invalidate
  else w_u32 (vsize value) ;;; w_bytes value.

(** [value ? 1 : 0]. *)
Definition w_flag (value : bool) : writer := w_u8 (if value then 1 else 0).

(** ** Reader *)

Definition r_u8 : reader Z :=
  bs ← take_bytes 1; mret (match bs with [b] => val b | _ => 0 end).

Definition r_u16 : reader Z :=
  bs ← take_bytes 2;
  mret (match bs with
        | [b0; b1] => Z.lor (val b0) (uint16 (val b1 ≪ 8))
        | _ => 0
        end).

Definition r_u32 : reader Z := bs ← take_bytes 4; mret (read_le 0 0 bs).
Definition r_u64 : reader Z := bs ← take_bytes 8; mret (read_le 0 0 bs).
Definition r_f32 : reader Z := r_u32.

Definition r_text : reader string :=
  size ← r_u16; bs ← take_bytes size; mret (string_of bs).

Definition r_list {A} (callback : reader A) : reader (list A) :=
  count ← r_u16; r_times (Z.to_nat count) callback.

Definition r_entry : reader (string * string) :=
  key ← r_text; value ← r_text; mret (key, value).

(** The loop of [string_map]: [n] entries, where a repeated key fails. *)
Fixpoint r_entries (entry : reader (string * string)) (n : nat)
    (values : stdmap string string) : reader (stdmap string string) :=
  match n with
  | O => mret values
  | S n =>
    '(key, value) ← entry;
    match emplace key value values with
    | Some values => r_entries entry n values
    | None => λ _, None
    end
  end.

Definition r_string_map : reader (stdmap string string) :=
  count ← r_u16; r_entries r_entry (Z.to_nat count) ∅.

Definition r_blob : reader Bytes := size ← r_u32; take_bytes size.

(** [reader.u8(&flag) && flag <= 1 && (out = flag != 0, true)]. *)
Definition r_flag : reader bool :=
  flag ← r_u8; _ ← check (flag <=? 1); mret (negb (flag =? 0)).

(** A read followed by a condition on the value. *)
Definition r_where {A} (p : reader A) (ok : A → bool) : reader A :=
  v ← p; _ ← check (ok v); mret v.

(** ** The building blocks are codecs *)

Definition wf_text (value : string) : bool := ssize value <=? uint16_max.
Definition wf_list {A} (wf : A → bool) (values : list A) : bool :=
  (vsize values <=? uint16_max) && forallb wf values.
Definition wf_entry (entry : string * string) : bool :=
  wf_text entry.1 && wf_text entry.2.
Definition wf_map (values : stdmap string string) : bool :=
  wf_list wf_entry (map_to_list values).
Definition wf_blob (value : Bytes) : bool := vsize value <=? uint32_max.

Lemma r_u16_le bs :
  length bs = 2%nat →
  match bs with [b0; b1] => Z.lor (val b0) (uint16 (val b1 ≪ 8)) | _ => 0 end
  = read_le 0 0 bs.
Proof.
  destruct bs as [|b0 [|b1 [|]]]; try done. intros _. simpl. rewrite Z.shiftl_0_r.
  f_equal. apply uint_small, in_uint_range. rewrite Z.shiftl_mul_pow2 by lia.
  pose proof (val_range b1). lia.
Qed.

(** A fixed-width little-endian integer. *)
Lemma codec_le n (write : Z → writer) (read : reader Z) :
  (∀ v, write v = w_bytes (write_le 0 n v)) →
  (∀ r, read r = (bs ← take_bytes (Z.of_nat n); mret (read_le 0 0 bs)) r) →
  codec eq write read (in_uint (8 * Z.of_nat n)).
Proof.
  intros Hw Hr.
  assert (Ho : ∀ v, output (write v) = write_le 0 n v) by (intros v; by rewrite Hw).
  split.
  - intros v. rewrite Hw. auto with codec.
  - intros v _. by rewrite Hw.
  - intros v Hv. rewrite Ho. intros pre post. rewrite Hr. revert pre post.
    eapply parses_last; [apply parses_take; by rewrite length_write_le|].
    rewrite read_write_le by done. apply parses_ret.
  - intros r v r'. rewrite Hr. revert r v r'.
    eapply reads_bind; [apply reads_take; lia|]. intros bs ? [-> Hn].
    apply reads_ret. rewrite Ho, app_nil_r.
    assert (n = length bs) as -> by lia. split; [|by rewrite write_read_le].
    apply in_uint_range, read_le_range.
Qed.

Lemma codec_u8 : codec eq w_u8 r_u8 (in_uint 8).
Proof.
  apply (codec_le 1); [intros v; simpl; by rewrite Z.shiftr_0_r|].
  intros r. unfold r_u8, mbind, reader_bind, take_bytes.
  destruct (_ <=? vsize _) eqn:?; [|done].
  unfold mret, reader_ret. do 2 f_equal. bool_hyps. simpl.
  destruct (drop (rd_cursor r) (rd_data r)) as [|b l] eqn:E.
  - apply (f_equal length) in E. rewrite length_drop in E. simpl in E. lia.
  - simpl. by rewrite Z.shiftl_0_r.
Qed.

Lemma codec_u16 : codec eq w_u16 r_u16 (in_uint 16).
Proof.
  apply (codec_le 2); [intros v; simpl; by rewrite Z.shiftr_0_r|].
  intros r. unfold r_u16, mbind, reader_bind, take_bytes.
  destruct (_ <=? vsize _) eqn:?; [|done].
  unfold mret, reader_ret. do 2 f_equal. bool_hyps. apply r_u16_le.
  rewrite length_take, length_drop. lia.
Qed.

Lemma codec_u32 : codec eq w_u32 r_u32 (in_uint 32).
Proof. by apply (codec_le 4). Qed.

Lemma codec_u64 : codec eq w_u64 r_u64 (in_uint 64).
Proof. by apply (codec_le 8). Qed.

Lemma codec_f32 : codec eq w_f32 r_f32 (in_uint 32).
Proof. exact codec_u32. Qed.

(** A condition on what a codec reads restricts its well-formed values. *)
Lemma codec_where {A} R (write : A → writer) read wf (ok : A → bool) :
  codec R write read wf →
  codec R write (r_where read ok) (λ v, wf v && ok v).
Proof.
  intros Hc. split.
  - apply Hc.
  - intros v Hv. bool_hyps. by apply Hc.
  - intros v Hv. bool_hyps. unfold r_where.
    eapply parses_last; [by apply Hc|]. apply parses_check; [done|apply parses_ret].
  - unfold r_where. eapply reads_bind; [apply Hc|]. intros bs v [Hv HR].
    apply reads_check. intros Hok. apply reads_ret. by rewrite app_nil_r, Hv, Hok.
Qed.

(** The same codec for values read under a conversion. *)
Lemma codec_iso {A B} R (write : A → writer) read wf (f : B → A) (g : A → B) wf' :
  codec R write read wf →
  (∀ v, wf' v = true → wf (f v) = true ∧ g (f v) = v) →
  (∀ a, wf a = true → wf' (g a) = true ∧ f (g a) = a) →
  codec R (λ v, write (f v)) (a ← read; mret (g a)) wf'.
Proof.
  intros Hc Hfg Hgf. split.
  - intros v. apply Hc.
  - intros v Hv. by apply Hc, Hfg.
  - intros v Hv. destruct (Hfg v Hv) as [Hw Hg].
    eapply parses_last; [by apply Hc|]. rewrite Hg. apply parses_ret.
  - eapply reads_bind; [apply Hc|]. intros bs a [Ha HR]. apply reads_ret.
    destruct (Hgf a Ha) as [Hw Hf]. by rewrite app_nil_r, Hf.
Qed.

Lemma codec_flag : codec eq w_flag r_flag (λ _, true).
Proof.
  pose proof codec_u8 as Hc. split.
  - intros v. apply Hc.
  - intros v _. apply Hc. by destruct v.
  - intros v _. unfold r_flag. eapply parses_last; [apply Hc; by destruct v|].
    apply parses_check; [by destruct v|]. destruct v; apply parses_ret.
  - unfold r_flag. eapply reads_bind; [apply Hc|]. intros bs x [Hx ->].
    apply reads_check. intros Hle. apply reads_ret. rewrite app_nil_r. split; [done|].
    apply in_uint_range in Hx. bool_hyps.
    assert (x = 0 ∨ x = 1) as [-> | ->] by lia; done.
Qed.

(** Strings and byte vectors: a length, then the bytes. *)
Lemma codec_sized_text (w16 : Z → writer) (r16 : reader Z) :
  codec eq w16 r16 (in_uint 16) →
  codec eq
    (λ value, if ssize value >? uint16_max then w_invalidate
              else w16 (ssize value) ;;; w_bytes (bytes_of value))
    (size ← r16; bs ← take_bytes size; mret (string_of bs)) wf_text.
Proof.
  intros H16.
  assert (Hw : ∀ v, writes (w16 (ssize v) ;;; w_bytes (bytes_of v)))
    by (intros; apply writes_seq; [apply H16|apply writes_bytes]).
  assert (Hin : ∀ v, wf_text v = true → in_uint 16 (ssize v) = true).
  { unfold wf_text, uint16_max. intros. bool_hyps. apply in_uint_range. lia. }
  assert (Ht : ∀ v, wf_text v = true → (ssize v >? uint16_max) = false).
  { intros v Hv. unfold wf_text in *. by rewrite Z.gtb_ltb, Z.ltb_antisym, Hv. }
  split.
  - intros v. auto with codec.
  - intros v Hv. rewrite Ht, valid_seq by (done || apply H16 || apply writes_bytes).
    by rewrite (codec_valid _ _ _ _ H16) by auto.
  - intros v Hv. rewrite Ht, output_seq by (done || apply H16 || apply writes_bytes).
    eapply parses_bind; [apply H16; auto|].
    rewrite output_bytes.
    eapply parses_last; [apply (parses_take (ssize v)); by rewrite length_bytes_of|].
    rewrite string_of_list_byte_of_string. apply parses_ret.
  - eapply reads_bind; [apply H16|]. intros bs n [Hn ->].
    apply in_uint_range in Hn.
    eapply reads_bind; [apply reads_take; lia|]. intros bs ? [-> Hl].
    apply reads_ret. rewrite app_nil_r.
    assert (Hv : wf_text (string_of bs) = true).
    { unfold wf_text, uint16_max. rewrite length_string_of. bool_solve. }
    split; [done|]. rewrite Ht, output_seq by (done || apply H16 || apply writes_bytes).
    rewrite length_string_of, Hl. f_equal. unfold output, w_bytes. simpl.
    by rewrite list_byte_of_string_of_list_byte.
Qed.

Lemma codec_text : codec eq w_text r_text wf_text.
Proof. exact (codec_sized_text _ _ codec_u16). Qed.

Lemma codec_blob : codec eq w_blob r_blob wf_blob.
Proof.
  pose proof codec_u32 as H32.
  assert (Hin : ∀ v, wf_blob v = true → in_uint 32 (vsize v) = true).
  { unfold wf_blob, uint32_max. intros. bool_hyps. apply in_uint_range. lia. }
  assert (Ht : ∀ v, wf_blob v = true → w_blob v = w_u32 (vsize v) ;;; w_bytes v).
  { intros v Hv. unfold w_blob, wf_blob in *. by rewrite Z.gtb_ltb, Z.ltb_antisym, Hv. }
  split.
  - intros v. unfold w_blob.
    apply writes_if; [auto with codec|apply writes_seq; [apply H32|apply writes_bytes]].
  - intros v Hv. rewrite Ht, valid_seq by (done || apply H32 || apply writes_bytes).
    by rewrite (codec_valid _ _ _ _ H32) by auto.
  - intros v Hv. rewrite Ht, output_seq by (done || apply H32 || apply writes_bytes).
    unfold r_blob. rewrite output_bytes. eapply parses_bind; [apply H32; auto|].
    by apply parses_take.
  - unfold r_blob. eapply reads_bind; [apply H32|]. intros bs n [Hn ->].
    apply in_uint_range in Hn.
    eapply reads_mono; [apply reads_take; lia|]. intros bs ? [-> Hl].
    assert (Hv : wf_blob bs = true) by (unfold wf_blob, uint32_max; bool_solve).
    split; [done|]. rewrite Ht, output_seq by (done || apply H32 || apply writes_bytes).
    by rewrite Hl.
Qed.

(** Counted lists. *)
Lemma codec_list {A} R `{!ByteRel R} (write : A → writer) read wf :
  codec R write read wf → codec R (w_list write) (r_list read) (wf_list wf).
Proof.
  intros Hc. pose proof codec_u16 as H16.
  assert (Hf : ∀ v, writes (w_for write v)) by (intros; apply writes_for, Hc).
  assert (Hin : ∀ v, wf_list wf v = true → in_uint 16 (vsize v) = true).
  { unfold wf_list, uint16_max. intros. bool_hyps. apply in_uint_range. lia. }
  assert (Ht : ∀ v, wf_list wf v = true →
    w_list write v = w_u16 (vsize v) ;;; w_for write v).
  { intros v Hv. unfold w_list, wf_list in *. apply andb_true_iff in Hv as [Hv _].
    by rewrite Z.gtb_ltb, Z.ltb_antisym, Hv. }
  split.
  - intros v. unfold w_list.
    apply writes_if; [auto with codec|apply writes_seq; [apply H16|done]].
  - intros v Hv. rewrite Ht, valid_seq by (done || apply H16).
    rewrite (codec_valid _ _ _ _ H16) by auto. rewrite valid_for by apply Hc.
    unfold wf_list in Hv. apply andb_true_iff in Hv as [_ Hv]. simpl.
    rewrite forallb_forall in Hv |- *. intros x Hx. by apply Hc, Hv.
  - intros v Hv. rewrite Ht, output_seq by (done || apply H16).
    unfold r_list. eapply parses_bind; [apply H16; auto|].
    rewrite Nat2Z.id, output_for by apply Hc. apply parses_times.
    intros x Hx. unfold wf_list in Hv. bool_hyps.
    match goal with H : forallb _ _ = true |- _ => rewrite forallb_forall in H end.
    apply Hc. apply list_elem_of_In in Hx. auto.
  - unfold r_list. eapply reads_bind; [apply H16|]. intros bs n [Hn ->].
    apply in_uint_range in Hn.
    eapply reads_mono; [eapply (reads_times R _ _ (λ v, wf v = true)); apply Hc|].
    intros bs v (Hl & Hv & HR).
    assert (Hwf : wf_list wf v = true).
    { unfold wf_list, uint16_max. apply andb_true_iff. split; [apply Z.leb_le; lia|].
      rewrite forallb_forall. intros x Hx%list_elem_of_In.
      by eapply Forall_forall in Hv. }
    split; [done|]. rewrite Ht, output_seq by (done || apply H16).
    rewrite output_for by apply Hc. apply rel_app; [|done].
    replace n with (vsize v) by lia. apply rel_refl.
Qed.

(** A message read or written in one order. *)
Lemma concat_permutation (l1 l2 : list Bytes) :
  l1 ≡ₚ l2 → concat l1 ≡ₚ concat l2.
Proof.
  induction 1 as [|x l1 l2 _ IH|x y l|l1 l2 l3 _ IH1 _ IH2]; simpl; [done| | |].
  - by rewrite IH.
  - rewrite !app_assoc. by rewrite (Permutation_app_comm x y).
  - by rewrite IH1.
Qed.

Lemma writes_text v : writes (w_text v).
Proof. apply codec_text. Qed.

Lemma writes_entry e : writes (w_entry e).
Proof. apply writes_seq; apply writes_text. Qed.

#[export] Hint Resolve writes_text writes_entry : codec.

Lemma codec_entry : codec eq w_entry r_entry wf_entry.
Proof.
  pose proof codec_text as Hc. split.
  - apply writes_entry.
  - intros e He. unfold wf_entry in He. bool_hyps. unfold w_entry.
    rewrite valid_seq by apply Hc. by rewrite !(codec_valid _ _ _ _ Hc).
  - intros [k v] He. unfold wf_entry in He. bool_hyps. unfold w_entry.
    rewrite output_seq by apply Hc. eapply parses_bind; [by apply Hc|].
    eapply parses_last; [by apply Hc|apply parses_ret].
  - unfold r_entry. eapply reads_bind; [apply Hc|]. intros bs1 k [Hk ->].
    eapply reads_bind; [apply Hc|]. intros bs2 v [Hv ->]. apply reads_ret.
    unfold wf_entry, w_entry. cbn. rewrite app_nil_r, output_seq by apply Hc.
    by rewrite Hk, Hv.
Qed.

(** The entries of a map, for any codec of one entry. *)
Section entries.
Context {w_one : string * string → writer} {r_one : reader (string * string)}.
Context {wf_one : string * string → bool} (Hone : codec eq w_one r_one wf_one).

Lemma parses_entries l m m' :
  forallb wf_one l = true → emplace_all l m = Some m' →
  parses (r_entries r_one (length l) m) (concat ((output ∘ w_one) <$> l)) m'.
Proof.
  revert m. induction l as [|[k v] l IH]; intros m Hwf He; simpl in *.
  { simplify_eq. apply parses_ret. }
  bool_hyps. eapply parses_bind; [by apply Hone|]. cbv beta iota.
  destruct (emplace k v m) as [m1|]; [|done]. by apply IH.
Qed.

Lemma reads_entries n m :
  reads (r_entries r_one n m) (λ bs m',
    length (map_to_list m') = (length (map_to_list m) + n)%nat
    ∧ (Forall (λ e, wf_one e = true) (map_to_list m) →
       Forall (λ e, wf_one e = true) (map_to_list m'))
    ∧ bs ++ concat ((output ∘ w_one) <$> map_to_list m)
      ≡ₚ concat ((output ∘ w_one) <$> map_to_list m')).
Proof.
  revert m. induction n as [|n IH]; intros m; simpl.
  { apply reads_ret. split; [lia|done]. }
  eapply reads_bind; [apply Hone|]. intros bs1 [k v] [Hk ->].
  unfold emplace. destruct (m !! k) eqn:E; [by apply reads_fail|].
  eapply reads_mono; [apply IH|]. intros bs m' (Hl & Hwf & Hp).
  pose proof (map_to_list_insert m k v E) as Hins.
  split; [rewrite Hl, Hins; simpl; lia|]. split.
  - intros Hm. apply Hwf. rewrite Hins. by constructor.
  - rewrite <- Hp, (concat_permutation _ _ (fmap_Permutation _ _ _ Hins)).
    cbn [fmap list_fmap concat]. unfold compose at 2. simpl.
    rewrite <- !app_assoc. by rewrite (Permutation_app_swap_app bs).
Qed.
End entries.

Lemma codec_map : codec (≡ₚ) w_map r_string_map wf_map.
Proof.
  pose proof codec_u16 as H16.
  assert (Hf : ∀ l, writes (w_for w_entry l)) by (intros; apply writes_for, writes_entry).
  assert (Ht : ∀ m, wf_map m = true →
    in_uint 16 (vsize (map_to_list m)) = true ∧ forallb wf_entry (map_to_list m) = true
    ∧ w_map m = w_u16 (vsize (map_to_list m)) ;;; w_for w_entry (map_to_list m)).
  { intros m Hm. unfold w_map, wf_map, wf_list in *. apply andb_true_iff in Hm as [Hm ?].
    rewrite Z.gtb_ltb, Z.ltb_antisym, Hm. repeat split; try done.
    bool_hyps. apply in_uint_range. unfold uint16_max in Hm. lia. }
  split.
  - intros m. unfold w_map.
    apply writes_if; [auto with codec|apply writes_seq; [apply H16|done]].
  - intros m Hm. destruct (Ht m Hm) as (Hin & Hwf & ->).
    rewrite valid_seq by (done || apply H16). rewrite (codec_valid _ _ _ _ H16) by auto.
    rewrite valid_for by apply writes_entry. simpl.
    rewrite forallb_forall in Hwf |- *. intros e He%Hwf. by apply codec_entry.
  - intros m Hm. destruct (Ht m Hm) as (Hin & Hwf & ->).
    rewrite output_seq by (done || apply H16). unfold r_string_map.
    eapply parses_bind; [by apply H16|]. rewrite Nat2Z.id, output_for by apply writes_entry.
    apply (parses_entries codec_entry); [done|]. apply emplace_all_to_list.
  - unfold r_string_map. eapply reads_bind; [apply H16|]. intros bs n [Hn ->].
    apply in_uint_range in Hn.
    eapply reads_mono; [apply (reads_entries codec_entry)|]. intros bs m (Hl & Hwf & Hp).
    rewrite map_to_list_empty in Hl, Hwf, Hp. simpl in Hl, Hp. rewrite app_nil_r in Hp.
    specialize (Hwf (Forall_nil_2 _)).
    assert (Hm : wf_map m = true).
    { unfold wf_map, wf_list, uint16_max. apply andb_true_iff.
      split; [apply Z.leb_le; lia|]. rewrite forallb_forall.
      intros e He%list_elem_of_In. by eapply Forall_forall in Hwf. }
    split; [done|]. destruct (Ht m Hm) as (_ & _ & ->).
    rewrite output_seq by (done || apply H16).
    rewrite output_for, <- Hp by apply writes_entry.
    by replace n with (vsize (map_to_list m)) by lia.
Qed.

(** A UID, and a list of UIDs that fits the wire. *)
Definition wf_uid (uid : string) : bool := wf_text uid && valid_uid uid.
Definition wf_uids : list string → bool := wf_list wf_uid.

Lemma codec_uid : codec eq w_text (r_where r_text valid_uid) wf_uid.
Proof. apply codec_where, codec_text. Qed.

Lemma codec_uids : codec eq (w_list w_text) (r_list (r_where r_text valid_uid)) wf_uids.
Proof. apply codec_list; [exact _|]. apply codec_uid. Qed.

(** ** Proof automation for messages

    A message is a sequence of blocks on both sides, so its codec theorem follows
    the same steps each time. *)
Lemma codec_list_eq {A} (write : A → writer) read wf :
  codec eq write read wf → codec eq (w_list write) (r_list read) (wf_list wf).
Proof. apply (codec_list eq). Qed.

Lemma codec_list_perm {A} (write : A → writer) read wf :
  codec (≡ₚ) write read wf → codec (≡ₚ) (w_list write) (r_list read) (wf_list wf).
Proof. apply (codec_list (≡ₚ)). Qed.

Create HintDb codecs discriminated.
#[export] Hint Resolve codec_u8 codec_u16 codec_u32 codec_u64 codec_f32 codec_flag
  codec_text codec_uid codec_blob codec_uids codec_map codec_list_eq codec_list_perm : codecs.
#[export] Hint Extern 2 (writes _) =>
  (eapply codec_writes; solve [eauto with codecs]) : codec.

Ltac solve_wf :=
  repeat match goal with |- (_ && _)%bool = true => apply andb_true_iff; split end;
  try assumption; bool_solve.

Ltac codec_block := solve [eauto 6 with codecs].

Ltac message_valid :=
  repeat (rewrite valid_seq by (auto 40 with codec));
  repeat match goal with |- (_ && _)%bool = true => apply andb_true_iff; split end;
  match goal with
  | H : ?wf ?v = true |- valid (_ ?v) = true =>
    eapply (codec_valid _ _ _ wf); [codec_block|exact H]
  | |- _ => eapply codec_valid; [codec_block|solve [solve_wf]]
  end.

Ltac message_parses :=
  lazymatch goal with
  | |- parses (mret _) [] ?v => destruct v; apply parses_ret
  | |- parses (check _ ≫= _) _ _ => apply parses_check; [solve_wf|message_parses]
  | |- parses _ (output (_ ;;; _)) _ =>
    rewrite output_seq by (auto 40 with codec); message_parses
  | |- parses _ (_ ++ _) _ =>
    eapply parses_bind; [eapply codec_parses; [codec_block|solve_wf]|]; message_parses
  | |- parses _ (output _) _ =>
    eapply parses_last; [eapply codec_parses; [codec_block|solve_wf]|]; message_parses
  end.

Ltac message_rel :=
  lazymatch goal with
  | |- context [?bs ++ []] => rewrite (app_nil_r bs); message_rel
  | |- context [output (_ ;;; _)] =>
    rewrite output_seq by (auto 40 with codec); message_rel
  | |- _ (_ ++ _) (_ ++ _) => apply rel_app; [message_rel|message_rel]
  | |- _ => first [assumption | apply rel_refl | symmetry; assumption]
  end.

Ltac message_reads :=
  lazymatch goal with
  | |- reads (mret _) _ => apply reads_ret
  | |- reads (check _ ≫= _) _ => apply reads_check; intros ?; message_reads
  | |- reads (_ ≫= _) _ =>
    eapply reads_bind; [eapply codec_reads; codec_block|];
    let H := fresh "HR" in intros ? ? [? H]; try subst; message_reads
  end.

Ltac solve_message write read wf :=
  split;
  [ intros v; unfold write; auto 40 with codec
  | intros v Hv; unfold wf in Hv; unfold write; bool_hyps; message_valid
  | intros v Hv; unfold wf in Hv; unfold write, read; bool_hyps; message_parses
  | unfold read; message_reads; unfold wf, write; cbn;
    split; [bool_hyps; solve_wf|message_rel] ].

(** ** Messages *)

(** A payload type: its two overloads [encode] and [decode], the values they
    agree on, and the law that ties them together. *)
Class Payload (A : Type) := {
  pl_write : A → writer;
  pl_read : reader A;
  pl_wf : A → bool;
  pl_rel : relation Bytes;
  pl_codec : codec pl_rel pl_write pl_read pl_wf;
}.

Definition encode `{Payload A} (value : A) : Bytes := w_run (pl_write value).

(** [decode(bytes, &value)], through [decode_all]. *)
Definition decode `{Payload A} (bytes : Bytes) : option A := r_run pl_read bytes.

(** ** Structures inside messages *)

(** [static_cast<uint32_t>(value)] and back, for an [int32_t]. *)
Definition w_i32 (value : Z) : writer := w_u32 (uint32 value).
Definition r_i32 : reader Z := value ← r_u32; mret (sint 32 value).

Lemma codec_i32 : codec eq w_i32 r_i32 (in_sint 32).
Proof.
  apply (codec_iso _ _ _ _ (uint 32) (sint 32) _ codec_u32).
  - intros v Hv. split; [by apply uint_in_range|by apply sint_uint].
  - intros v Hv. by apply uint_sint.
Qed.

Definition w_availability (value : Availability) : writer := w_u8 (Availability_value value).
Definition r_availability : reader Availability :=
  availability ← r_where r_u8 (λ v, v <=? Availability_value AvailabilityOffline);
  mret (Availability_cast availability).

Lemma codec_availability : codec eq w_availability r_availability (λ _, true).
Proof.
  refine (codec_iso _ _ _ _ Availability_value Availability_cast _
    (codec_where _ _ _ _ _ codec_u8) _ _).
  - by intros [].
  - intros v Hv. bool_hyps. apply in_uint_range in H. simpl in *.
    assert (v = 0 ∨ v = 1 ∨ v = 2 ∨ v = 3) as Hc by lia.
    by repeat destruct Hc as [->|Hc]; [..|subst].
Qed.

Definition w_phase (value : ActionPhase) : writer := w_u8 (ActionPhase_value value).
Definition r_phase : reader ActionPhase :=
  phase ← r_where r_u8 (λ v, (ActionPhase_value PhaseReceived <=? v)
                             && (v <=? ActionPhase_value PhaseExpired));
  mret (ActionPhase_cast phase).

Lemma codec_phase : codec eq w_phase r_phase (λ _, true).
Proof.
  refine (codec_iso _ _ _ _ ActionPhase_value ActionPhase_cast _
    (codec_where _ _ _ _ _ codec_u8) _ _).
  - by intros [].
  - intros v Hv. bool_hyps. simpl in *.
    assert (v = 1 ∨ v = 2 ∨ v = 3 ∨ v = 4 ∨ v = 5 ∨ v = 6 ∨ v = 7) as Hc by lia.
    by repeat destruct Hc as [->|Hc]; [..|subst].
Qed.

Definition write_type (type : TypeRef) : writer :=
  w_text (tr_profile_id type) ;;; w_u16 (tr_major type) ;;; w_u16 (tr_minor type) ;;;
  w_text (tr_type_name type).

Definition read_type_fields : reader TypeRef :=
  profile_id ← r_text; major ← r_u16; minor ← r_u16; type_name ← r_text;
  mret (mkTypeRef profile_id major minor type_name).

Definition read_type : reader TypeRef := r_where read_type_fields valid_type_ref.

Definition wf_type_fields (value : TypeRef) : bool :=
  wf_text (tr_profile_id value) && in_uint 16 (tr_major value)
  && in_uint 16 (tr_minor value) && wf_text (tr_type_name value).

Definition wf_type (value : TypeRef) : bool := wf_type_fields value && valid_type_ref value.

Lemma codec_type_fields : codec eq write_type read_type_fields wf_type_fields.
Proof. solve_message write_type read_type_fields wf_type_fields. Qed.

Lemma codec_type : codec eq write_type read_type wf_type.
Proof. apply codec_where, codec_type_fields. Qed.

(** A percentage, and a count that must not be zero. *)
Definition wf_percent (value : Z) : bool := in_uint 8 value && (value <=? 100).
Definition wf_positive (value : Z) : bool := in_uint 32 value && (0 <? value).

Lemma codec_percent : codec eq w_u8 (r_where r_u8 (λ v, v <=? 100)) wf_percent.
Proof. apply codec_where, codec_u8. Qed.

Lemma codec_positive : codec eq w_u32 (r_where r_u32 (λ v, 0 <? v)) wf_positive.
Proof. apply codec_where, codec_u32. Qed.

#[export] Hint Resolve codec_i32 codec_availability codec_phase codec_type
  codec_percent codec_positive : codecs.

Definition write_entity (value : EntityDescriptor) : writer :=
  w_text (ent_uid value) ;;; w_text (ent_kind value) ;;;
  w_text (ent_display_name value) ;;; w_text (ent_hardware_id value) ;;;
  w_map (ent_attributes value) ;;; w_list w_text (ent_capabilities value) ;;;
  w_availability (ent_availability value).

Definition read_entity : reader EntityDescriptor :=
  entity_uid ← r_where r_text valid_uid;
  kind ← r_text;
  display_name ← r_text;
  hardware_id ← r_text;
  attributes ← r_string_map;
  capabilities ← r_list r_text;
  availability ← r_availability;
  mret (mkEntityDescriptor entity_uid kind display_name hardware_id attributes
    capabilities availability).

Definition wf_entity (value : EntityDescriptor) : bool :=
  wf_uid (ent_uid value) && wf_text (ent_kind value)
  && wf_text (ent_display_name value) && wf_text (ent_hardware_id value)
  && wf_map (ent_attributes value) && wf_list wf_text (ent_capabilities value).

Lemma codec_EntityDescriptor :
  codec (≡ₚ) write_entity read_entity wf_entity.
Proof. solve_message write_entity read_entity wf_entity. Qed.

#[export] Hint Resolve codec_EntityDescriptor : codecs.

Record LogSummary := mkLogSummary {
  log_uid : string;
  log_owner_uid : string;
  log_title : string;
  log_state : string;
  log_started_at_ns : Z;
  log_finished_at_ns : Z;
  log_has_exit_code : bool;
  log_exit_code : Z;
  log_labels : stdmap string string;
  log_message : string;
}.

Definition write_log_summary (value : LogSummary) : writer :=
  w_text (log_uid value) ;;; w_text (log_owner_uid value) ;;;
  w_text (log_title value) ;;; w_text (log_state value) ;;;
  w_u64 (log_started_at_ns value) ;;; w_u64 (log_finished_at_ns value) ;;;
  w_flag (log_has_exit_code value) ;;; w_i32 (log_exit_code value) ;;;
  w_map (log_labels value) ;;; w_text (log_message value).

Definition read_log_summary : reader LogSummary :=
  log_uid ← r_where r_text valid_uid;
  owner_uid ← r_where r_text valid_uid;
  title ← r_text;
  state ← r_text;
  started_at_ns ← r_u64;
  finished_at_ns ← r_u64;
  has_exit_code ← r_flag;
  exit_code ← r_i32;
  labels ← r_string_map;
  message ← r_text;
  mret (mkLogSummary log_uid owner_uid title state started_at_ns finished_at_ns
    has_exit_code exit_code labels message).

Definition wf_log_summary (value : LogSummary) : bool :=
  wf_uid (log_uid value) && wf_uid (log_owner_uid value) && wf_text (log_title value)
  && wf_text (log_state value) && in_uint 64 (log_started_at_ns value)
  && in_uint 64 (log_finished_at_ns value) && in_sint 32 (log_exit_code value)
  && wf_map (log_labels value) && wf_text (log_message value).

Lemma codec_LogSummary :
  codec (≡ₚ) write_log_summary read_log_summary wf_log_summary.
Proof. solve_message write_log_summary read_log_summary wf_log_summary. Qed.

#[export] Hint Resolve codec_LogSummary : codecs.

Record StreamDescriptor := mkStreamDescriptor {
  sd_stream_uid : string;
  sd_type : TypeRef;
  sd_encoding : string;
  sd_metadata : stdmap string string;
}.

Definition write_StreamDescriptor (value : StreamDescriptor) : writer :=
  w_text (sd_stream_uid value) ;;; write_type (sd_type value) ;;;
  w_text (sd_encoding value) ;;; w_map (sd_metadata value).

Definition read_StreamDescriptor : reader StreamDescriptor :=
  stream_uid ← r_where r_text valid_uid;
  type ← read_type;
  encoding ← r_text;
  metadata ← r_string_map;
  mret (mkStreamDescriptor stream_uid type encoding metadata).

Definition wf_StreamDescriptor (value : StreamDescriptor) : bool :=
  wf_uid (sd_stream_uid value) && wf_type (sd_type value)
  && wf_text (sd_encoding value) && wf_map (sd_metadata value).

Lemma codec_StreamDescriptor :
  codec (≡ₚ) write_StreamDescriptor read_StreamDescriptor wf_StreamDescriptor.
Proof. solve_message write_StreamDescriptor read_StreamDescriptor wf_StreamDescriptor. Qed.

#[export] Hint Resolve codec_StreamDescriptor : codecs.

(** ** Messages *)

Record EntityDirectory := mkEntityDirectory {
  ed_endpoint_uid : string;
  ed_revision : string;
  ed_entities : list EntityDescriptor;
}.

Definition write_EntityDirectory (value : EntityDirectory) : writer :=
  w_text (ed_endpoint_uid value) ;;; w_text (ed_revision value) ;;;
  w_list write_entity (ed_entities value).

Definition read_EntityDirectory : reader EntityDirectory :=
  endpoint_uid ← r_where r_text valid_uid;
  revision ← r_text;
  entities ← r_list read_entity;
  mret (mkEntityDirectory endpoint_uid revision entities).

Definition wf_EntityDirectory (value : EntityDirectory) : bool :=
  wf_uid (ed_endpoint_uid value) && wf_text (ed_revision value)
  && wf_list wf_entity (ed_entities value).

Lemma codec_EntityDirectory :
  codec (≡ₚ) write_EntityDirectory read_EntityDirectory wf_EntityDirectory.
Proof. solve_message write_EntityDirectory read_EntityDirectory wf_EntityDirectory. Qed.

#[export] Instance EntityDirectory_payload : Payload EntityDirectory :=
  {| pl_codec := codec_EntityDirectory |}.

Record AttachmentRequest := mkAttachmentRequest {
  areq_expected_revision : string;
  areq_entity_uids : list string;
}.

Definition write_AttachmentRequest (value : AttachmentRequest) : writer :=
  w_text (areq_expected_revision value) ;;; w_list w_text (areq_entity_uids value).

Definition read_AttachmentRequest : reader AttachmentRequest :=
  expected_revision ← r_text;
  entity_uids ← r_list (r_where r_text valid_uid);
  mret (mkAttachmentRequest expected_revision entity_uids).

Definition wf_AttachmentRequest (value : AttachmentRequest) : bool :=
  wf_text (areq_expected_revision value) && wf_uids (areq_entity_uids value).

Lemma codec_AttachmentRequest :
  codec eq write_AttachmentRequest read_AttachmentRequest wf_AttachmentRequest.
Proof. solve_message write_AttachmentRequest read_AttachmentRequest wf_AttachmentRequest. Qed.

#[export] Instance AttachmentRequest_payload : Payload AttachmentRequest :=
  {| pl_codec := codec_AttachmentRequest |}.

Record AttachmentResponse := mkAttachmentResponse {
  aresp_success : bool;
  aresp_revision : string;
  aresp_attached_entity_uids : list string;
  aresp_message : string;
}.

Definition write_AttachmentResponse (value : AttachmentResponse) : writer :=
  w_flag (aresp_success value) ;;; w_text (aresp_revision value) ;;;
  w_list w_text (aresp_attached_entity_uids value) ;;; w_text (aresp_message value).

Definition read_AttachmentResponse : reader AttachmentResponse :=
  success ← r_flag;
  revision ← r_text;
  attached_entity_uids ← r_list (r_where r_text valid_uid);
  message ← r_text;
  mret (mkAttachmentResponse success revision attached_entity_uids message).

Definition wf_AttachmentResponse (value : AttachmentResponse) : bool :=
  wf_text (aresp_revision value) && wf_uids (aresp_attached_entity_uids value)
  && wf_text (aresp_message value).

Lemma codec_AttachmentResponse :
  codec eq write_AttachmentResponse read_AttachmentResponse wf_AttachmentResponse.
Proof. solve_message write_AttachmentResponse read_AttachmentResponse wf_AttachmentResponse. Qed.

#[export] Instance AttachmentResponse_payload : Payload AttachmentResponse :=
  {| pl_codec := codec_AttachmentResponse |}.

Record AuthorityRequest := mkAuthorityRequest {
  ar_authority_scope : string;
  ar_lease_ttl_ms : Z;
  ar_allow_preempt : bool;
}.

Definition write_AuthorityRequest (value : AuthorityRequest) : writer :=
  w_text (ar_authority_scope value) ;;; w_u32 (ar_lease_ttl_ms value) ;;;
  w_flag (ar_allow_preempt value).

Definition read_AuthorityRequest : reader AuthorityRequest :=
  authority_scope ← r_text;
  lease_ttl_ms ← r_u32;
  allow_preempt ← r_flag;
  mret (mkAuthorityRequest authority_scope lease_ttl_ms allow_preempt).

Definition wf_AuthorityRequest (value : AuthorityRequest) : bool :=
  wf_text (ar_authority_scope value) && in_uint 32 (ar_lease_ttl_ms value).

Lemma codec_AuthorityRequest :
  codec eq write_AuthorityRequest read_AuthorityRequest wf_AuthorityRequest.
Proof. solve_message write_AuthorityRequest read_AuthorityRequest wf_AuthorityRequest. Qed.

#[export] Instance AuthorityRequest_payload : Payload AuthorityRequest :=
  {| pl_codec := codec_AuthorityRequest |}.

Record AuthorityStatus := mkAuthorityStatus {
  as_authority_scope : string;
  as_state : string;
  as_lease_ttl_ms : Z;
  as_reason_code : Z;
  as_detail : string;
}.

Definition write_AuthorityStatus (value : AuthorityStatus) : writer :=
  w_text (as_authority_scope value) ;;; w_text (as_state value) ;;;
  w_u32 (as_lease_ttl_ms value) ;;; w_u16 (as_reason_code value) ;;;
  w_text (as_detail value).

Definition read_AuthorityStatus : reader AuthorityStatus :=
  authority_scope ← r_text;
  state ← r_text;
  lease_ttl_ms ← r_u32;
  reason_code ← r_u16;
  detail ← r_text;
  mret (mkAuthorityStatus authority_scope state lease_ttl_ms reason_code detail).

Definition wf_AuthorityStatus (value : AuthorityStatus) : bool :=
  wf_text (as_authority_scope value) && wf_text (as_state value)
  && in_uint 32 (as_lease_ttl_ms value) && in_uint 16 (as_reason_code value)
  && wf_text (as_detail value).

Lemma codec_AuthorityStatus :
  codec eq write_AuthorityStatus read_AuthorityStatus wf_AuthorityStatus.
Proof. solve_message write_AuthorityStatus read_AuthorityStatus wf_AuthorityStatus. Qed.

#[export] Instance AuthorityStatus_payload : Payload AuthorityStatus :=
  {| pl_codec := codec_AuthorityStatus |}.

Record StreamCatalog := mkStreamCatalog {
  sc_revision : string;
  sc_streams : list StreamDescriptor;
}.

Definition write_StreamCatalog (value : StreamCatalog) : writer :=
  w_text (sc_revision value) ;;; w_list write_StreamDescriptor (sc_streams value).

Definition read_StreamCatalog : reader StreamCatalog :=
  revision ← r_text;
  streams ← r_list read_StreamDescriptor;
  mret (mkStreamCatalog revision streams).

Definition wf_StreamCatalog (value : StreamCatalog) : bool :=
  wf_text (sc_revision value) && wf_list wf_StreamDescriptor (sc_streams value).

Lemma codec_StreamCatalog :
  codec (≡ₚ) write_StreamCatalog read_StreamCatalog wf_StreamCatalog.
Proof. solve_message write_StreamCatalog read_StreamCatalog wf_StreamCatalog. Qed.

#[export] Instance StreamCatalog_payload : Payload StreamCatalog :=
  {| pl_codec := codec_StreamCatalog |}.

Record StreamSubscription := mkStreamSubscription {
  ss_stream_uid : string;
  ss_max_rate_hz : Z;
  ss_max_payload_bytes : Z;
}.

Definition write_StreamSubscription (value : StreamSubscription) : writer :=
  w_text (ss_stream_uid value) ;;; w_f32 (ss_max_rate_hz value) ;;;
  w_u32 (ss_max_payload_bytes value).

Definition read_StreamSubscription : reader StreamSubscription :=
  stream_uid ← r_where r_text valid_uid;
  max_rate_hz ← r_f32;
  max_payload_bytes ← r_u32;
  mret (mkStreamSubscription stream_uid max_rate_hz max_payload_bytes).

Definition wf_StreamSubscription (value : StreamSubscription) : bool :=
  wf_uid (ss_stream_uid value) && in_uint 32 (ss_max_rate_hz value)
  && in_uint 32 (ss_max_payload_bytes value).

Lemma codec_StreamSubscription :
  codec eq write_StreamSubscription read_StreamSubscription wf_StreamSubscription.
Proof. solve_message write_StreamSubscription read_StreamSubscription wf_StreamSubscription. Qed.

#[export] Instance StreamSubscription_payload : Payload StreamSubscription :=
  {| pl_codec := codec_StreamSubscription |}.

Record StreamSubscriptionStatus := mkStreamSubscriptionStatus {
  sss_success : bool;
  sss_subscribed : bool;
  sss_stream_uid : string;
  sss_max_rate_hz : Z;
  sss_max_payload_bytes : Z;
  sss_message : string;
}.

Definition write_StreamSubscriptionStatus (value : StreamSubscriptionStatus) : writer :=
  w_flag (sss_success value) ;;; w_flag (sss_subscribed value) ;;;
  w_text (sss_stream_uid value) ;;; w_f32 (sss_max_rate_hz value) ;;;
  w_u32 (sss_max_payload_bytes value) ;;; w_text (sss_message value).

Definition read_StreamSubscriptionStatus : reader StreamSubscriptionStatus :=
  success ← r_flag;
  subscribed ← r_flag;
  stream_uid ← r_where r_text valid_uid;
  max_rate_hz ← r_f32;
  max_payload_bytes ← r_u32;
  message ← r_text;
  mret (mkStreamSubscriptionStatus success subscribed stream_uid max_rate_hz
    max_payload_bytes message).

Definition wf_StreamSubscriptionStatus (value : StreamSubscriptionStatus) : bool :=
  wf_uid (sss_stream_uid value) && in_uint 32 (sss_max_rate_hz value)
  && in_uint 32 (sss_max_payload_bytes value) && wf_text (sss_message value).

Lemma codec_StreamSubscriptionStatus :
  codec eq write_StreamSubscriptionStatus read_StreamSubscriptionStatus wf_StreamSubscriptionStatus.
Proof. solve_message write_StreamSubscriptionStatus read_StreamSubscriptionStatus wf_StreamSubscriptionStatus. Qed.

#[export] Instance StreamSubscriptionStatus_payload : Payload StreamSubscriptionStatus :=
  {| pl_codec := codec_StreamSubscriptionStatus |}.

Record StreamSample := mkStreamSample {
  smp_stream_uid : string;
  smp_encoding : string;
  smp_metadata : stdmap string string;
  smp_source_timestamp_ns : Z;
  smp_sequence : Z;
  smp_data : Bytes;
}.

Definition write_StreamSample (value : StreamSample) : writer :=
  w_text (smp_stream_uid value) ;;; w_text (smp_encoding value) ;;;
  w_map (smp_metadata value) ;;; w_u64 (smp_source_timestamp_ns value) ;;;
  w_u64 (smp_sequence value) ;;; w_blob (smp_data value).

Definition read_StreamSample : reader StreamSample :=
  stream_uid ← r_where r_text valid_uid;
  encoding ← r_text;
  metadata ← r_string_map;
  source_timestamp_ns ← r_u64;
  sequence ← r_u64;
  data ← r_blob;
  mret (mkStreamSample stream_uid encoding metadata source_timestamp_ns sequence data).

Definition wf_StreamSample (value : StreamSample) : bool :=
  wf_uid (smp_stream_uid value) && wf_text (smp_encoding value)
  && wf_map (smp_metadata value) && in_uint 64 (smp_source_timestamp_ns value)
  && in_uint 64 (smp_sequence value) && wf_blob (smp_data value).

Lemma codec_StreamSample :
  codec (≡ₚ) write_StreamSample read_StreamSample wf_StreamSample.
Proof. solve_message write_StreamSample read_StreamSample wf_StreamSample. Qed.

#[export] Instance StreamSample_payload : Payload StreamSample :=
  {| pl_codec := codec_StreamSample |}.

Record ActionUpdate := mkActionUpdate {
  au_phase : ActionPhase;
  au_result_code : Z;
  au_progress_percent : Z;
  au_detail : string;
}.

Definition write_ActionUpdate (value : ActionUpdate) : writer :=
  w_phase (au_phase value) ;;; w_u16 (au_result_code value) ;;;
  w_u8 (au_progress_percent value) ;;; w_text (au_detail value).

Definition read_ActionUpdate : reader ActionUpdate :=
  phase ← r_phase;
  result_code ← r_u16;
  progress_percent ← r_where r_u8 (λ v, v <=? 100);
  detail ← r_text;
  mret (mkActionUpdate phase result_code progress_percent detail).

Definition wf_ActionUpdate (value : ActionUpdate) : bool :=
  in_uint 16 (au_result_code value) && wf_percent (au_progress_percent value)
  && wf_text (au_detail value).

Lemma codec_ActionUpdate :
  codec eq write_ActionUpdate read_ActionUpdate wf_ActionUpdate.
Proof. solve_message write_ActionUpdate read_ActionUpdate wf_ActionUpdate. Qed.

#[export] Instance ActionUpdate_payload : Payload ActionUpdate :=
  {| pl_codec := codec_ActionUpdate |}.

Record BulkDescriptor := mkBulkDescriptor {
  bd_media_type : string;
  bd_encoding : string;
  bd_metadata : stdmap string string;
  bd_total_bytes : Z;
}.

Definition write_BulkDescriptor (value : BulkDescriptor) : writer :=
  w_text (bd_media_type value) ;;; w_text (bd_encoding value) ;;;
  w_map (bd_metadata value) ;;; w_u64 (bd_total_bytes value).

Definition read_BulkDescriptor : reader BulkDescriptor :=
  media_type ← r_text;
  encoding ← r_text;
  metadata ← r_string_map;
  total_bytes ← r_u64;
  mret (mkBulkDescriptor media_type encoding metadata total_bytes).

Definition wf_BulkDescriptor (value : BulkDescriptor) : bool :=
  wf_text (bd_media_type value) && wf_text (bd_encoding value)
  && wf_map (bd_metadata value) && in_uint 64 (bd_total_bytes value).

Lemma codec_BulkDescriptor :
  codec (≡ₚ) write_BulkDescriptor read_BulkDescriptor wf_BulkDescriptor.
Proof. solve_message write_BulkDescriptor read_BulkDescriptor wf_BulkDescriptor. Qed.

#[export] Instance BulkDescriptor_payload : Payload BulkDescriptor :=
  {| pl_codec := codec_BulkDescriptor |}.

Record LogListResponse := mkLogListResponse {
  llr_success : bool;
  llr_message : string;
  llr_logs : list LogSummary;
}.

Definition write_LogListResponse (value : LogListResponse) : writer :=
  w_flag (llr_success value) ;;; w_text (llr_message value) ;;;
  w_list write_log_summary (llr_logs value).

Definition read_LogListResponse : reader LogListResponse :=
  success ← r_flag;
  message ← r_text;
  logs ← r_list read_log_summary;
  mret (mkLogListResponse success message logs).

Definition wf_LogListResponse (value : LogListResponse) : bool :=
  wf_text (llr_message value) && wf_list wf_log_summary (llr_logs value).

Lemma codec_LogListResponse :
  codec (≡ₚ) write_LogListResponse read_LogListResponse wf_LogListResponse.
Proof. solve_message write_LogListResponse read_LogListResponse wf_LogListResponse. Qed.

#[export] Instance LogListResponse_payload : Payload LogListResponse :=
  {| pl_codec := codec_LogListResponse |}.

Record LogReadRequest := mkLogReadRequest {
  lrr_log_uid : string;
  lrr_cursor : Z;
  lrr_max_bytes : Z;
}.

Definition write_LogReadRequest (value : LogReadRequest) : writer :=
  w_text (lrr_log_uid value) ;;; w_u64 (lrr_cursor value) ;;;
  w_u32 (lrr_max_bytes value).

Definition read_LogReadRequest : reader LogReadRequest :=
  log_uid ← r_where r_text valid_uid;
  cursor ← r_u64;
  max_bytes ← r_where r_u32 (λ v, 0 <? v);
  mret (mkLogReadRequest log_uid cursor max_bytes).

Definition wf_LogReadRequest (value : LogReadRequest) : bool :=
  wf_uid (lrr_log_uid value) && in_uint 64 (lrr_cursor value)
  && wf_positive (lrr_max_bytes value).

Lemma codec_LogReadRequest :
  codec eq write_LogReadRequest read_LogReadRequest wf_LogReadRequest.
Proof. solve_message write_LogReadRequest read_LogReadRequest wf_LogReadRequest. Qed.

#[export] Instance LogReadRequest_payload : Payload LogReadRequest :=
  {| pl_codec := codec_LogReadRequest |}.

Record LogReadResponse := mkLogReadResponse {
  lrs_success : bool;
  lrs_message : string;
  lrs_log_uid : string;
  lrs_chunk : string;
  lrs_next_cursor : Z;
  lrs_truncated : bool;
  lrs_eof : bool;
}.

Definition write_LogReadResponse (value : LogReadResponse) : writer :=
  w_flag (lrs_success value) ;;; w_text (lrs_message value) ;;;
  w_text (lrs_log_uid value) ;;; w_text (lrs_chunk value) ;;;
  w_u64 (lrs_next_cursor value) ;;; w_flag (lrs_truncated value) ;;;
  w_flag (lrs_eof value).

Definition read_LogReadResponse : reader LogReadResponse :=
  success ← r_flag;
  message ← r_text;
  log_uid ← r_where r_text valid_uid;
  chunk ← r_text;
  next_cursor ← r_u64;
  truncated ← r_flag;
  eof ← r_flag;
  mret (mkLogReadResponse success message log_uid chunk next_cursor truncated eof).

Definition wf_LogReadResponse (value : LogReadResponse) : bool :=
  wf_text (lrs_message value) && wf_uid (lrs_log_uid value)
  && wf_text (lrs_chunk value) && in_uint 64 (lrs_next_cursor value).

Lemma codec_LogReadResponse :
  codec eq write_LogReadResponse read_LogReadResponse wf_LogReadResponse.
Proof. solve_message write_LogReadResponse read_LogReadResponse wf_LogReadResponse. Qed.

#[export] Instance LogReadResponse_payload : Payload LogReadResponse :=
  {| pl_codec := codec_LogReadResponse |}.

(** ** Properties *)

(** [decode] accepts exactly the bytes [encode] produces for well-formed values. *)
Definition canonical_payload (A : Type) `{Payload A} : Prop :=
  ∀ (bytes : Bytes) (value : A),
    decode bytes = Some value ↔ pl_wf value = true ∧ bytes = encode value.

(** [encode] and [decode] round-trip, and what [decode] accepts is a well-formed
    value whose encoding is made of the same bytes, map entries reordered. *)
Definition faithful_payload (A : Type) `{Payload A} : Prop :=
  (∀ value : A, pl_wf value = true → decode (encode value) = Some value)
  ∧ (∀ (bytes : Bytes) (value : A),
       decode bytes = Some value → pl_wf value = true ∧ bytes ≡ₚ encode value).

Lemma canonical_intro {A} (write : A → writer) read wf
    (Hc : codec eq write read wf) :
  @canonical_payload A {| pl_codec := Hc |}.
Proof. intros bytes value. by apply codec_iff. Qed.

Lemma faithful_intro {A} (write : A → writer) read wf
    (Hc : codec (≡ₚ) write read wf) :
  @faithful_payload A {| pl_codec := Hc |}.
Proof.
  split; [intros value; by apply (codec_roundtrip (≡ₚ))|].
  intros bytes value. by apply codec_sound.
Qed.

(** C11 The map-free core messages have one encoding each: for every byte string
    and value, decoding yields the value exactly when the value is well formed
    (sizes, UIDs, ranges) and the bytes are its encoding.  Truncated, padded and
    otherwise malformed payloads are therefore all refused. *)
Theorem core_messages_canonical :
  canonical_payload AttachmentRequest ∧ canonical_payload AttachmentResponse
  ∧ canonical_payload AuthorityRequest ∧ canonical_payload AuthorityStatus
  ∧ canonical_payload StreamSubscription ∧ canonical_payload StreamSubscriptionStatus
  ∧ canonical_payload ActionUpdate ∧ canonical_payload LogReadRequest
  ∧ canonical_payload LogReadResponse.
Proof. repeat match goal with |- _ ∧ _ => split end; apply canonical_intro. Qed.

(** The core messages that carry string maps round-trip, and whatever is
    accepted is well formed and re-encodes to the same bytes up to the order of
    the map entries; in particular to the same length. *)
Theorem core_messages_faithful :
  faithful_payload EntityDirectory ∧ faithful_payload StreamCatalog
  ∧ faithful_payload StreamSample ∧ faithful_payload BulkDescriptor
  ∧ faithful_payload LogListResponse.
Proof. repeat match goal with |- _ ∧ _ => split end; apply faithful_intro. Qed.
