(* ===== verification/Floats.v ===== *)
(** * Floats: IEEE-754 numbers as the bit patterns the code moves

    A [double] of the repository is its 64-bit pattern and a [float] its 32-bit
    pattern, which is what [std::memcpy] copies.  [float_of_bits] decodes a pattern
    into the Standard Library's [spec_float]; [std::isfinite], the comparisons and the
    arithmetic the validators use are those of the decoded number, with the rounding of
    [SpecFloat].  [exact] gives a finite number as an integer multiple of the smallest
    subnormal, and [ltb_exact] says that comparing decoded numbers compares these
    integers, so that the theorems about bounds are about numbers. *)

From Stdlib Require Import ZArith Lia Bool SpecFloat.
From stdpp Require Import base list.
From S2P Require Import Prelude.
Local Open Scope Z_scope.

(** ** Formats *)

(** An interchange format: the widths of the stored mantissa and of the exponent. *)
Record Format := mkFormat {
  mantissa_bits : Z;
  exponent_bits : Z;
}.

Definition binary32 : Format := mkFormat 23 8.
Definition binary64 : Format := mkFormat 52 11.

Definition prec (f : Format) : Z := mantissa_bits f + 1.
Definition emax (f : Format) : Z := 2 ^ (exponent_bits f - 1).
Definition emin (f : Format) : Z := 3 - emax f - prec f.
Definition width (f : Format) : Z := mantissa_bits f + exponent_bits f + 1.

Class FormatOk (f : Format) : Prop := {
  mantissa_pos : 0 < mantissa_bits f;
  exponent_pos : 1 < exponent_bits f;
}.

#[export] Instance binary32_ok : FormatOk binary32.
Proof. by split. Qed.
#[export] Instance binary64_ok : FormatOk binary64.
Proof. by split. Qed.

(** ** Decoding *)

Section decode.
Context (f : Format).

Definition mantissa_field (bits : Z) : Z := Z.land bits (Z.ones (mantissa_bits f)).
Definition exponent_field (bits : Z) : Z :=
  Z.land (bits ≫ mantissa_bits f) (Z.ones (exponent_bits f)).
Definition sign_field (bits : Z) : bool := Z.testbit bits (width f - 1).

Definition float_of_bits (bits : Z) : spec_float :=
  let m := mantissa_field bits in
  let e := exponent_field bits in
  let s := sign_field bits in
  if e =? 0 then
    match m with Zpos p => S754_finite s p (emin f) | _ => S754_zero s end
  else if e =? Z.ones (exponent_bits f) then
    match m with Zpos _ => S754_nan | _ => S754_infinity s end
  else
    match m + 2 ^ mantissa_bits f with
    | Zpos p => S754_finite s p (emin f + e - 1)
    | _ => S754_nan
    end.

(** [std::isfinite]. *)
Definition is_finite (x : spec_float) : bool :=
  match x with S754_zero _ | S754_finite _ _ _ => true | _ => false end.
Definition isfinite (bits : Z) : bool := is_finite (float_of_bits bits).

(** A finite number in units of [2 ^ emin]. *)
Definition exact (x : spec_float) : Z :=
  match x with
  | S754_finite s m e => cond_Zopp s (Zpos m * 2 ^ (e - emin f))
  | _ => 0
  end.

(** What decoding guarantees of a finite number. *)
Definition canonical (x : spec_float) : Prop :=
  match x with
  | S754_finite _ m e =>
      emin f <= e ∧ Zpos m < 2 ^ prec f ∧ (emin f < e → 2 ^ mantissa_bits f <= Zpos m)
  | _ => True
  end.
End decode.

Section laws.
Context (f : Format) `{!FormatOk f}.

Lemma mantissa_range bits : 0 <= mantissa_field f bits < 2 ^ mantissa_bits f.
Proof.
  pose proof mantissa_pos. unfold mantissa_field. rewrite Z.land_ones by lia.
  apply Z.mod_pos_bound, Z.pow_pos_nonneg; lia.
Qed.

Lemma exponent_range bits : 0 <= exponent_field f bits < 2 ^ exponent_bits f.
Proof.
  pose proof exponent_pos. unfold exponent_field. rewrite Z.land_ones by lia.
  apply Z.mod_pos_bound, Z.pow_pos_nonneg; lia.
Qed.

(** A pattern is finite unless its exponent is all ones. *)
Lemma isfinite_spec bits :
  isfinite f bits = negb (exponent_field f bits =? Z.ones (exponent_bits f)).
Proof.
  pose proof mantissa_pos. pose proof exponent_pos.
  pose proof (mantissa_range bits). unfold isfinite, float_of_bits.
  pose proof (Z.pow_pos_nonneg 2 (mantissa_bits f) ltac:(lia) ltac:(lia)).
  pose proof (Z.pow_gt_1 2 (exponent_bits f) ltac:(lia)).
  destruct (Z.eqb_spec (exponent_field f bits) 0) as [E|E].
  - rewrite E. rewrite Z.ones_equiv.
    destruct (Z.eqb_spec 0 (Z.pred (2 ^ exponent_bits f))); [lia|].
    by destruct (mantissa_field f bits).
  - destruct (_ =? Z.ones _); [by destruct (mantissa_field f bits)|].
    destruct (mantissa_field f bits + _) eqn:?; [lia|done|lia].
Qed.

Lemma float_of_bits_canonical bits : canonical f (float_of_bits f bits).
Proof.
  pose proof mantissa_pos. pose proof (mantissa_range bits).
  pose proof (exponent_range bits). unfold float_of_bits, canonical, prec.
  rewrite Z.pow_add_r by lia.
  destruct (Z.eqb_spec (exponent_field f bits) 0).
  { destruct (mantissa_field f bits); try done. lia. }
  destruct (_ =? _); [by destruct (mantissa_field f bits)|].
  destruct (mantissa_field f bits + _) eqn:?; try done. lia.
Qed.

(** Canonical numbers of different exponents are ordered by their exponents. *)
Lemma exponent_order m1 e1 m2 e2 s1 s2 :
  canonical f (S754_finite s1 m1 e1) → canonical f (S754_finite s2 m2 e2) → e1 < e2 →
  Zpos m1 * 2 ^ (e1 - emin f) < Zpos m2 * 2 ^ (e2 - emin f).
Proof.
  pose proof mantissa_pos. unfold canonical, prec. intros (H1 & H2 & _) (_ & _ & H3) He.
  specialize (H3 ltac:(lia)). rewrite Z.pow_add_r in H2 by lia.
  replace (e2 - emin f) with ((e1 - emin f) + (e2 - e1)) by lia.
  rewrite Z.pow_add_r by lia.
  replace (2 ^ (e2 - e1)) with (2 * 2 ^ (e2 - e1 - 1))
    by (rewrite <- Z.pow_succ_r by lia; f_equal; lia).
  pose proof (Z.pow_pos_nonneg 2 (e1 - emin f) ltac:(lia) ltac:(lia)).
  pose proof (Z.pow_pos_nonneg 2 (e2 - e1 - 1) ltac:(lia) ltac:(lia)).
  change (2 ^ 1) with 2 in H2.
  apply Z.lt_le_trans with (Z.pos m2 * 2 * 2 ^ (e1 - emin f)); [nia|].
  generalize dependent (2 ^ (e1 - emin f)). generalize dependent (2 ^ (e2 - e1 - 1)).
  intros b Hb a Ha. replace (Z.pos m2 * (a * (2 * b))) with (Z.pos m2 * 2 * a * b) by lia.
  nia.
Qed.

Lemma magnitude_compare m1 e1 m2 e2 s1 s2 :
  canonical f (S754_finite s1 m1 e1) → canonical f (S754_finite s2 m2 e2) →
  match e1 ?= e2 with Lt => Lt | Gt => Gt | Eq => Pos.compare_cont Eq m1 m2 end
  = (Zpos m1 * 2 ^ (e1 - emin f) ?= Zpos m2 * 2 ^ (e2 - emin f)).
Proof.
  intros C1 C2. destruct (Z.compare_spec e1 e2) as [->|L|L].
  - destruct C1 as [He _]. change (Pos.compare_cont Eq m1 m2) with (Zpos m1 ?= Zpos m2).
    pose proof (Z.pow_pos_nonneg 2 (e2 - emin f) ltac:(lia) ltac:(lia)) as Hp.
    destruct (Z.compare_spec (Zpos m1) (Zpos m2)) as [->|L|L]; symmetry;
      [apply Z.compare_refl|apply Z.compare_lt_iff|apply Z.compare_gt_iff];
      by apply Z.mul_lt_mono_pos_r.
  - symmetry. apply Z.compare_lt_iff. by eapply exponent_order.
  - symmetry. apply Z.compare_gt_iff. by eapply exponent_order.
Qed.

(** Comparing canonical finite numbers compares what they stand for. *)
Lemma compare_exact x y :
  canonical f x → canonical f y → is_finite x = true → is_finite y = true →
  SFcompare x y = Some (exact f x ?= exact f y).
Proof.
  intros Cx Cy Fx Fy.
  assert (Hp : ∀ m e, canonical f (S754_finite false m e) → 0 < Zpos m * 2 ^ (e - emin f)).
  { intros m e [He _]. pose proof (Z.pow_pos_nonneg 2 (e - emin f)). nia. }
  destruct x as [sx| | |sx mx ex], y as [sy| | |sy my ey]; try done; cbn -[Z.compare Z.pow Z.mul].
  - pose proof (Hp my ey Cy). f_equal. symmetry.
    destruct sy; cbn -[Z.pow Z.mul Z.compare]; [apply Z.compare_gt_iff|apply Z.compare_lt_iff]; lia.
  - pose proof (Hp mx ex Cx). f_equal. symmetry.
    destruct sx; cbn -[Z.pow Z.mul Z.compare]; [apply Z.compare_lt_iff|apply Z.compare_gt_iff]; lia.
  - pose proof (Hp mx ex Cx). pose proof (Hp my ey Cy).
    pose proof (magnitude_compare mx ex my ey sx sy Cx Cy) as Hm. f_equal.
    destruct sx, sy; cbn -[Z.pow Z.mul Z.compare].
    + rewrite Z.compare_opp.
      rewrite (Z.compare_antisym (Zpos mx * _) (Zpos my * _)), <- Hm.
      by destruct (ex ?= ey).
    + symmetry. apply Z.compare_lt_iff. lia.
    + symmetry. apply Z.compare_gt_iff. lia.
    + exact Hm.
Qed.

Lemma ltb_exact x y :
  canonical f x → canonical f y → is_finite x = true → is_finite y = true →
  SFltb x y = (exact f x <? exact f y).
Proof. intros. unfold SFltb. by rewrite compare_exact. Qed.
End laws.

(** ** [double] and [float] *)

Definition isfinite64 : Z → bool := isfinite binary64.
Definition isfinite32 : Z → bool := isfinite binary32.

(** [a < b] on doubles and on floats. *)
Definition lt64 (a b : Z) : bool := SFltb (float_of_bits binary64 a) (float_of_bits binary64 b).
Definition lt32 (a b : Z) : bool := SFltb (float_of_bits binary32 a) (float_of_bits binary32 b).

(** The number a [double] stands for, in units of [2 ^ -1074]. *)
Definition exact64 (bits : Z) : Z := exact binary64 (float_of_bits binary64 bits).

Lemma lt64_exact a b :
  isfinite64 a = true → isfinite64 b = true → lt64 a b = (exact64 a <? exact64 b).
Proof.
  intros Ha Hb. by apply ltb_exact; [apply _|apply float_of_bits_canonical; apply _..| |].
Qed.

(** The number a [float] stands for, in units of [2 ^ -149]. *)
Definition exact32 (bits : Z) : Z := exact binary32 (float_of_bits binary32 bits).

Lemma lt32_exact a b :
  isfinite32 a = true → isfinite32 b = true → lt32 a b = (exact32 a <? exact32 b).
Proof.
  intros Ha Hb. by apply ltb_exact; [apply _|apply float_of_bits_canonical; apply _..| |].
Qed.

(** [a == b] on doubles, and [std::abs]. *)
Definition eq64 (a b : Z) : bool := SFeqb (float_of_bits binary64 a) (float_of_bits binary64 b).
Definition abs64 (a : Z) : spec_float := SFabs (float_of_bits binary64 a).

Lemma eq64_exact a b :
  isfinite64 a = true → isfinite64 b = true → eq64 a b = (exact64 a =? exact64 b).
Proof.
  intros Ha Hb. unfold eq64, SFeqb.
  rewrite (compare_exact binary64 _ _ (float_of_bits_canonical _ _) (float_of_bits_canonical _ _)
    Ha Hb).
  unfold exact64. generalize (exact binary64 (float_of_bits binary64 a)) as x.
  generalize (exact binary64 (float_of_bits binary64 b)) as y. intros y x.
  rewrite Z.eqb_compare. by destruct (x ?= y).
Qed.

(** [0.0 < std::abs(a)]. *)
Lemma abs64_positive a :
  isfinite64 a = true → SFltb (S754_zero false) (abs64 a) = negb (exact64 a =? 0).
Proof.
  intros Ha. unfold abs64, exact64, isfinite64, isfinite in *.
  pose proof (float_of_bits_canonical binary64 a) as Hc.
  destruct (float_of_bits binary64 a) as [s| | |s m e]; try done.
  destruct Hc as [He _].
  pose proof (Z.pow_pos_nonneg 2 (e - emin binary64) ltac:(lia) ltac:(lia)).
  cbn -[Z.pow emin]. rewrite (proj2 (Z.eqb_neq _ _)); [done|].
  destruct s; cbn -[Z.pow emin]; nia.
Qed.

(** ** Double arithmetic

    Multiplication and addition round to nearest, ties to even; a build that fuses them
    rounds once less. *)
Definition mul64 (x y : spec_float) : spec_float := SFmul 53 1024 x y.
Definition add64 (x y : spec_float) : spec_float := SFadd 53 1024 x y.

(** Infinities and NaNs stay what they are, so a finite result had finite operands. *)
Lemma add64_finite x y :
  is_finite (add64 x y) = true → is_finite x = true ∧ is_finite y = true.
Proof. destruct x as [[]|[]| |[] mx ex], y as [[]|[]| |[] my ey]; try done. Qed.

Lemma mul64_square_finite x : is_finite (mul64 x x) = true → is_finite x = true.
Proof. by destruct x as [[]|[]| |[] mx ex]. Qed.

(** [a <= b] on doubles. *)
Definition le64 (a b : Z) : bool := SFleb (float_of_bits binary64 a) (float_of_bits binary64 b).

Lemma le64_exact a b :
  isfinite64 a = true → isfinite64 b = true → le64 a b = (exact64 a <=? exact64 b).
Proof.
  intros Ha Hb. unfold le64, SFleb.
  rewrite (compare_exact binary64 _ _ (float_of_bits_canonical _ _) (float_of_bits_canonical _ _)
    Ha Hb).
  unfold exact64. generalize (exact binary64 (float_of_bits binary64 a)) as x.
  generalize (exact binary64 (float_of_bits binary64 b)) as y. intros y x.
  unfold Z.leb. by destruct (x ?= y).
Qed.
