(* ===== verification/ConfigTypes.v ===== *)
(** * ConfigTypes: the configuration service's data

    [include/yunlink/core/semantic/configuration/service_types.hpp].  An enumeration is
    an inductive type with its wire numbers ([_value]) and the [static_cast] back from a
    byte ([_cast]); a [double] is its bit pattern. *)

From Stdlib Require Import ZArith String.
From stdpp Require Import base strings list.
From S2P Require Import Prelude.
Local Open Scope Z_scope.

(** ** Enumerations *)

Inductive ConfigValueType :=
  | ValueBool | ValueInt64 | ValueDouble | ValueString | ValueStringList
  | ValueDoubleList | ValueUnset.

Definition ConfigValueType_value (value : ConfigValueType) : Z :=
  match value with
  | ValueBool => 1 | ValueInt64 => 2 | ValueDouble => 3 | ValueString => 4
  | ValueStringList => 5 | ValueDoubleList => 6 | ValueUnset => 7
  end.

Definition ConfigValueType_cast (value : Z) : ConfigValueType :=
  match value with
  | 1 => ValueBool | 2 => ValueInt64 | 3 => ValueDouble | 4 => ValueString
  | 5 => ValueStringList | 6 => ValueDoubleList | _ => ValueUnset
  end.

Inductive ConfigServiceStatus :=
  | StatusOk | StatusNotFound | StatusUnsupported | StatusUnauthenticated
  | StatusUnauthorized | StatusConflict | StatusInvalid | StatusUnsafeState
  | StatusInternalError.

Definition ConfigServiceStatus_value (value : ConfigServiceStatus) : Z :=
  match value with
  | StatusOk => 0 | StatusNotFound => 1 | StatusUnsupported => 2
  | StatusUnauthenticated => 3 | StatusUnauthorized => 4 | StatusConflict => 5
  | StatusInvalid => 6 | StatusUnsafeState => 7 | StatusInternalError => 8
  end.

Definition ConfigServiceStatus_cast (value : Z) : ConfigServiceStatus :=
  match value with
  | 0 => StatusOk | 1 => StatusNotFound | 2 => StatusUnsupported
  | 3 => StatusUnauthenticated | 4 => StatusUnauthorized | 5 => StatusConflict
  | 6 => StatusInvalid | 7 => StatusUnsafeState | _ => StatusInternalError
  end.

Inductive ConfigApplyRequirement :=
  | RequirementNone | RequirementComponentRestart | RequirementEndpointRestart
  | RequirementDeviceReboot | RequirementManual.

Definition ConfigApplyRequirement_value (value : ConfigApplyRequirement) : Z :=
  match value with
  | RequirementNone => 0 | RequirementComponentRestart => 1
  | RequirementEndpointRestart => 2 | RequirementDeviceReboot => 3
  | RequirementManual => 4
  end.

Definition ConfigApplyRequirement_cast (value : Z) : ConfigApplyRequirement :=
  match value with
  | 0 => RequirementNone | 1 => RequirementComponentRestart
  | 2 => RequirementEndpointRestart | 3 => RequirementDeviceReboot
  | _ => RequirementManual
  end.

Inductive ConfigApplyOutcome :=
  | OutcomeApplied | OutcomeRestartScheduled | OutcomeManualActionRequired
  | OutcomeFailed.

Definition ConfigApplyOutcome_value (value : ConfigApplyOutcome) : Z :=
  match value with
  | OutcomeApplied => 1 | OutcomeRestartScheduled => 2
  | OutcomeManualActionRequired => 3 | OutcomeFailed => 4
  end.

Definition ConfigApplyOutcome_cast (value : Z) : ConfigApplyOutcome :=
  match value with
  | 1 => OutcomeApplied | 2 => OutcomeRestartScheduled
  | 3 => OutcomeManualActionRequired | _ => OutcomeFailed
  end.

Inductive ConfigFieldUpdatePolicy :=
  | PolicyHotReload | PolicyComponentRestart | PolicyEndpointRestart
  | PolicyDeviceReboot | PolicyManual | PolicyRebuildRequired.

Definition ConfigFieldUpdatePolicy_value (value : ConfigFieldUpdatePolicy) : Z :=
  match value with
  | PolicyHotReload => 0 | PolicyComponentRestart => 1 | PolicyEndpointRestart => 2
  | PolicyDeviceReboot => 3 | PolicyManual => 4 | PolicyRebuildRequired => 5
  end.

Definition ConfigFieldUpdatePolicy_cast (value : Z) : ConfigFieldUpdatePolicy :=
  match value with
  | 0 => PolicyHotReload | 1 => PolicyComponentRestart | 2 => PolicyEndpointRestart
  | 3 => PolicyDeviceReboot | 4 => PolicyManual | _ => PolicyRebuildRequired
  end.

Inductive ConfigVariantSource :=
  | SourceDefault | SourceActive.

Definition ConfigVariantSource_value (value : ConfigVariantSource) : Z :=
  match value with
  | SourceDefault => 1 | SourceActive => 2
  end.

Definition ConfigVariantSource_cast (value : Z) : ConfigVariantSource :=
  match value with
  | 1 => SourceDefault | _ => SourceActive
  end.

(** ** Structures *)

Record ConfigValue := mkConfigValue {
  cv_type : ConfigValueType;
  cv_bool_value : bool;
  cv_int64_value : Z;
  cv_double_value : Z;
  cv_string_value : string;
  cv_string_list_value : list string;
  cv_double_list_value : list Z;
}.

(** A value whose members have their initializers. *)
Definition default_ConfigValue : ConfigValue :=
  mkConfigValue ValueString false 0 0 EmptyString [] [].

Definition from_bool (value : bool) : ConfigValue :=
  mkConfigValue ValueBool value 0 0 EmptyString [] [].

Definition from_int64 (value : Z) : ConfigValue :=
  mkConfigValue ValueInt64 false value 0 EmptyString [] [].

Definition from_double (value : Z) : ConfigValue :=
  mkConfigValue ValueDouble false 0 value EmptyString [] [].

Definition from_string (value : string) : ConfigValue :=
  mkConfigValue ValueString false 0 0 value [] [].

Definition from_string_list (value : list string) : ConfigValue :=
  mkConfigValue ValueStringList false 0 0 EmptyString value [].

Definition from_double_list (value : list Z) : ConfigValue :=
  mkConfigValue ValueDoubleList false 0 0 EmptyString [] value.

Record ConfigResourceDescriptor := mkConfigResourceDescriptor {
  crd_id : string;
  crd_title : string;
  crd_description : string;
  crd_readable : bool;
  crd_writable : bool;
  crd_apply_supported : bool;
  crd_variants_supported : bool;
}.

Record ConfigChoice := mkConfigChoice {
  cc_value : ConfigValue;
  cc_label : string;
}.

Record ConfigFieldSchema := mkConfigFieldSchema {
  cfs_path : string;
  cfs_title : string;
  cfs_description : string;
  cfs_type : ConfigValueType;
  cfs_required : bool;
  cfs_read_only : bool;
  cfs_sensitive : bool;
  cfs_has_minimum : bool;
  cfs_minimum : Z;
  cfs_has_maximum : bool;
  cfs_maximum : Z;
  cfs_validation_pattern : string;
  cfs_choices : list ConfigChoice;
  cfs_group_path : string;
  cfs_update_policy : ConfigFieldUpdatePolicy;
  cfs_unit : string;
  cfs_default_value : ConfigValue;
  cfs_has_default_value : bool;
  cfs_advanced : bool;
}.

Record ConfigFieldValue := mkConfigFieldValue {
  cfv_path : string;
  cfv_value : ConfigValue;
}.

Record ConfigSnapshot := mkConfigSnapshot {
  cs_resource_id : string;
  cs_revision : string;
  cs_applied_revision : string;
  cs_variant_id : string;
  cs_active_variant_id : string;
  cs_values : list ConfigFieldValue;
  cs_user_overridden_paths : list string;
}.

(** A value whose members have their initializers. *)
Definition default_ConfigSnapshot : ConfigSnapshot :=
  mkConfigSnapshot EmptyString EmptyString EmptyString EmptyString EmptyString [] [].

Record ConfigVariantDescriptor := mkConfigVariantDescriptor {
  cvd_id : string;
  cvd_title : string;
  cvd_revision : string;
  cvd_modified_at_ns : Z;
  cvd_active : bool;
  cvd_mutable_variant : bool;
}.

Record ConfigFieldError := mkConfigFieldError {
  cfe_path : string;
  cfe_code : string;
  cfe_message : string;
}.

Record ConfigEffects := mkConfigEffects {
  ce_requirement : ConfigApplyRequirement;
  ce_affected_components : list string;
  ce_reconnect_expected : bool;
}.

Record ConfigResourceListRequest := mkConfigResourceListRequest {
  lrq_reserved : Z;
}.

Record ConfigResourceListResponse := mkConfigResourceListResponse {
  lrp_status : ConfigServiceStatus;
  lrp_message : string;
  lrp_resources : list ConfigResourceDescriptor;
}.

Record ConfigResourceDescribeRequest := mkConfigResourceDescribeRequest {
  drq_resource_id : string;
  drq_locale : string;
}.

Record ConfigResourceDescribeResponse := mkConfigResourceDescribeResponse {
  drp_status : ConfigServiceStatus;
  drp_message : string;
  drp_resource : ConfigResourceDescriptor;
  drp_fields : list ConfigFieldSchema;
}.

Record ConfigResourceGetRequest := mkConfigResourceGetRequest {
  grq_resource_id : string;
  grq_variant_id : string;
}.

Record ConfigResourceGetResponse := mkConfigResourceGetResponse {
  grp_status : ConfigServiceStatus;
  grp_message : string;
  grp_snapshot : ConfigSnapshot;
}.

Record ConfigResourcePatchRequest := mkConfigResourcePatchRequest {
  prq_resource_id : string;
  prq_variant_id : string;
  prq_expected_revision : string;
  prq_updates : list ConfigFieldValue;
  prq_validate_only : bool;
}.

Record ConfigResourcePatchResponse := mkConfigResourcePatchResponse {
  prp_status : ConfigServiceStatus;
  prp_message : string;
  prp_snapshot : ConfigSnapshot;
  prp_errors : list ConfigFieldError;
  prp_effects : ConfigEffects;
  prp_has_candidate_snapshot : bool;
  prp_candidate_snapshot : ConfigSnapshot;
}.

Record ConfigResourceApplyRequest := mkConfigResourceApplyRequest {
  arq_resource_id : string;
  arq_expected_revision : string;
}.

Record ConfigResourceApplyResponse := mkConfigResourceApplyResponse {
  arp_status : ConfigServiceStatus;
  arp_message : string;
  arp_applied_revision : string;
  arp_outcome : ConfigApplyOutcome;
  arp_effects : ConfigEffects;
}.

Record ConfigResourceVariantListRequest := mkConfigResourceVariantListRequest {
  vlq_resource_id : string;
}.

Record ConfigResourceVariantListResponse := mkConfigResourceVariantListResponse {
  vlp_status : ConfigServiceStatus;
  vlp_message : string;
  vlp_active_variant_id : string;
  vlp_variants : list ConfigVariantDescriptor;
}.

Record ConfigResourceVariantCreateRequest := mkConfigResourceVariantCreateRequest {
  vcq_resource_id : string;
  vcq_variant_id : string;
  vcq_source : ConfigVariantSource;
  vcq_expected_active_revision : string;
}.

Record ConfigResourceVariantCreateResponse := mkConfigResourceVariantCreateResponse {
  vcp_status : ConfigServiceStatus;
  vcp_message : string;
  vcp_variant : ConfigVariantDescriptor;
  vcp_effects : ConfigEffects;
}.

Record ConfigResourceVariantSaveCurrentRequest := mkConfigResourceVariantSaveCurrentRequest {
  vsq_resource_id : string;
  vsq_variant_id : string;
  vsq_expected_variant_revision : string;
  vsq_expected_active_revision : string;
}.

Record ConfigResourceVariantSaveCurrentResponse := mkConfigResourceVariantSaveCurrentResponse {
  vsp_status : ConfigServiceStatus;
  vsp_message : string;
  vsp_variant : ConfigVariantDescriptor;
  vsp_effects : ConfigEffects;
}.

Record ConfigResourceVariantActivateRequest := mkConfigResourceVariantActivateRequest {
  vaq_resource_id : string;
  vaq_variant_id : string;
  vaq_expected_active_revision : string;
}.

Record ConfigResourceVariantActivateResponse := mkConfigResourceVariantActivateResponse {
  vap_status : ConfigServiceStatus;
  vap_message : string;
  vap_applied_revision : string;
  vap_outcome : ConfigApplyOutcome;
  vap_effects : ConfigEffects;
}.

Record ConfigResourceVariantDeleteRequest := mkConfigResourceVariantDeleteRequest {
  vdq_resource_id : string;
  vdq_variant_id : string;
  vdq_expected_revision : string;
}.

Record ConfigResourceVariantDeleteResponse := mkConfigResourceVariantDeleteResponse {
  vdp_status : ConfigServiceStatus;
  vdp_message : string;
}.

Record ConfigurationServiceHandle := mkConfigurationServiceHandle {
  csh_message_id : Z;
  csh_session_id : Z;
  csh_created_at_ms : Z;
  csh_ttl_ms : Z;
}.
