(* ===== verification/ConfigCodec.v ===== *)
(** * ConfigCodec: the reader and writer of the configuration service

    [src/core/binary_codec_io.hpp] and [src/core/configuration_service/codec_io.hpp]:
    the bounded little-endian [BufferWriter] and [BufferReader], the structures inside
    the configuration messages, and the two templates [build_payload] and
    [parse_payload] (the [w_run] and [r_run] of [Codec]).

    The two halves of this codec do not agree on every value: the writer bounds strings
    by 1024 bytes and the reader does not, the reader wants finite limits in a schema
    and the writer does not, and a member that the wire omits comes back as its
    initializer.  [contract] states what holds: which values the writer can write
    ([wr]), which values the reader can return ([rd]), that values that are both
    survive, and that what is read back was, when it can be written, spelled exactly as
    the writer spells it. *)

From Stdlib Require Import ZArith Lia String Ascii Strings.Byte.
From stdpp Require Import base gmap strings list fin_maps.
From S2P Require Import Prelude StdMap Codec WireTypes CoreMessages Floats ConfigTypes.
Local Open Scope Z_scope.

(** ** BufferWriter *)

Definition kMaxCoreStringBytes : Z := 1024.
Definition kMaxConfigItems : Z := 256.

Definition write_u8 (value : Z) : writer := w_bytes [byte_of value].
Definition write_bool (value : bool) : writer := write_u8 (if value then 1 else 0).
Definition write_u16 (value : Z) : writer :=
  w_bytes [byte_of value; byte_of (value ≫ 8)].
Definition write_u64 (value : Z) : writer := w_bytes (write_le 0 8 value).

(** The bits of the double. *)
Definition write_double (value : Z) : writer := write_u64 value.

Definition write_string (value : string) : writer :=
  if ssize value >? kMaxCoreStringBytes then w_invalidate
  else write_u16 (ssize value) ;;; w_bytes (bytes_of value).

(** ** BufferReader *)

Definition read_u8 : reader Z :=
  bs ← take_bytes 1; mret (match bs with [b] => val b | _ => 0 end).

Definition read_bool : reader bool :=
  value ← read_u8; _ ← check (negb (value >? 1)); mret (negb (value =? 0)).

Definition read_u16 : reader Z :=
  bs ← take_bytes 2;
  mret (match bs with
        | [b0; b1] => Z.lor (val b0) (uint16 (val b1 ≪ 8))
        | _ => 0
        end).

Definition read_u64 : reader Z := bs ← take_bytes 8; mret (read_le 0 0 bs).
Definition read_double : reader Z := bits ← read_u64; mret bits.

Definition read_string : reader string :=
  size ← read_u16; bs ← take_bytes size; mret (string_of bs).

(** ** What the two halves promise each other *)

Record contract {A} (write : A → writer) (read : reader A) (wr rd : A → bool) : Prop := {
  ct_writes v : writes (write v);
  ct_valid v : valid (write v) = wr v;
  ct_parses v : wr v = true → rd v = true → parses read (output (write v)) v;
  ct_reads : reads read (λ bs v, rd v = true ∧ (wr v = true → bs = output (write v)));
}.

(** A codec whose writer refuses nothing. *)
Lemma contract_of_codec {A} (write : A → writer) read wf :
  codec eq write read wf → (∀ v, valid (write v) = true) →
  contract write read (λ _, true) wf.
Proof.
  intros Hc Hv. split; [apply Hc|done|intros v _; apply Hc|].
  eapply reads_mono; [apply Hc|]. intros bs v [Hw HR]. by split.
Qed.

Lemma contract_u8 : contract write_u8 read_u8 (λ _, true) (in_uint 8).
Proof. by apply contract_of_codec; [apply codec_u8|]. Qed.

Lemma contract_u16 : contract write_u16 read_u16 (λ _, true) (in_uint 16).
Proof. by apply contract_of_codec; [apply codec_u16|]. Qed.

Lemma contract_u64 : contract write_u64 read_u64 (λ _, true) (in_uint 64).
Proof. by apply contract_of_codec; [apply codec_u64|]. Qed.

Lemma contract_double : contract write_double read_double (λ _, true) (in_uint 64).
Proof.
  apply contract_of_codec; [|done]. pose proof codec_u64 as Hc. split; try apply Hc.
  - intros v Hv. eapply parses_last; [by apply Hc|]. apply parses_ret.
  - eapply reads_bind; [apply Hc|]. intros bs v HQ. apply reads_ret. by rewrite app_nil_r.
Qed.

Lemma read_bool_flag r : read_bool r = r_flag r.
Proof.
  unfold read_bool, r_flag, mbind, reader_bind. change (read_u8 r) with (r_u8 r).
  destruct (r_u8 r) as [[x s]|]; [|done]. by rewrite Z.gtb_ltb, <- Z.leb_antisym.
Qed.

Lemma contract_bool : contract write_bool read_bool (λ _, true) (λ _, true).
Proof.
  pose proof codec_flag as Hc.
  apply contract_of_codec; [|by intros []]. split; try apply Hc.
  - intros v _ pre post. rewrite read_bool_flag. by apply (codec_parses _ _ _ _ Hc).
  - intros r v r'. rewrite read_bool_flag. apply (codec_reads _ _ _ _ Hc).
Qed.

(** Strings: written up to 1024 bytes, read up to what the length field can say. *)
Definition wr_string (value : string) : bool := ssize value <=? kMaxCoreStringBytes.

Lemma write_string_text value :
  wr_string value = true → write_string value = w_text value.
Proof.
  unfold wr_string, write_string, w_text. intros H. rewrite !Z.gtb_ltb.
  bool_hyps. unfold kMaxCoreStringBytes, uint16_max in *.
  by rewrite !(proj2 (Z.ltb_ge _ _)) by lia.
Qed.

Lemma contract_string : contract write_string read_string wr_string wf_text.
Proof.
  pose proof codec_text as Hc.
  assert (Hw : ∀ v, wr_string v = true → wf_text v = true).
  { unfold wr_string, wf_text, kMaxCoreStringBytes, uint16_max. intros. bool_hyps. bool_solve. }
  split.
  - intros v. unfold write_string. apply writes_if; [auto with codec|].
    apply writes_seq; [apply contract_u16|auto with codec].
  - intros v. destruct (wr_string v) eqn:E.
    + rewrite write_string_text by done. apply Hc; auto.
    + unfold write_string. rewrite Z.gtb_ltb, Z.ltb_antisym. unfold wr_string in E.
      by rewrite E.
  - intros v Hv _. rewrite write_string_text by done. apply Hc; auto.
  - eapply reads_mono; [apply (codec_reads _ _ _ _ Hc)|]. intros bs v [Hv ->].
    split; [done|]. intros Hwr. by rewrite write_string_text.
Qed.

(** A finite double: the reader's condition, which some writers share. *)
Definition read_finite : reader Z :=
  item ← read_double; _ ← check (isfinite64 item); mret item.
Definition rd_finite (item : Z) : bool := in_uint 64 item && isfinite64 item.

Definition write_finite (item : Z) : writer :=
  if negb (isfinite64 item) then w_invalidate else write_double item.

Lemma contract_finite : contract write_finite read_finite isfinite64 rd_finite.
Proof.
  pose proof contract_double as Hc. split.
  - intros v. unfold write_finite. apply writes_if; [auto with codec|apply Hc].
  - intros v. unfold write_finite. by destruct (isfinite64 v).
  - intros v Hv Hr. unfold write_finite, rd_finite, read_finite in *. rewrite Hv.
    bool_hyps. eapply parses_last; [by apply Hc|]. apply parses_check; [done|apply parses_ret].
  - unfold read_finite. eapply reads_bind; [apply Hc|]. intros bs v [Hv HR].
    apply reads_check. intros Hf. apply reads_ret. rewrite app_nil_r.
    unfold rd_finite, write_finite. rewrite Hv, Hf. by split.
Qed.

(** An enumeration: its byte, refused by the reader when [ok] says so. *)
Definition read_enum {A} (ok : Z → bool) (cast : Z → A) : reader A :=
  raw ← read_u8; _ ← check (ok raw); mret (cast raw).

Lemma contract_enum {A} (value : A → Z) (cast : Z → A) (ok : Z → bool) :
  (∀ a, in_uint 8 (value a) = true ∧ cast (value a) = a) →
  (∀ z, in_uint 8 z = true → ok z = true → value (cast z) = z) →
  contract (λ a, write_u8 (value a)) (read_enum ok cast) (λ _, true) (λ a, ok (value a)).
Proof.
  intros Hv Hz. pose proof contract_u8 as Hc. split.
  - intros a. apply Hc.
  - done.
  - intros a _ Ha. destruct (Hv a) as [Hin Hcast]. unfold read_enum.
    eapply parses_last; [by apply Hc|]. apply parses_check; [done|].
    rewrite Hcast. apply parses_ret.
  - unfold read_enum. eapply reads_bind; [apply Hc|]. intros bs z [Hin HR].
    apply reads_check. intros Hok. apply reads_ret. rewrite app_nil_r, Hz by done.
    by split.
Qed.

(** ** Vectors *)

Definition write_vector {A} (write : A → writer) (values : list A) : writer :=
  if vsize values >? kMaxConfigItems then w_invalidate
  else write_u16 (vsize values) ;;; w_for write values.

Definition read_vector {A} (read : reader A) : reader (list A) :=
  count ← read_u16; _ ← check (negb (count >? kMaxConfigItems));
  r_times (Z.to_nat count) read.

Definition write_strings : list string → writer := write_vector write_string.
Definition read_strings : reader (list string) := read_vector read_string.

Definition of_vector {A} (ok : A → bool) (values : list A) : bool :=
  (vsize values <=? kMaxConfigItems) && forallb ok values.

Lemma concat_outputs {A} (wr : A → bool) (enc : A → Bytes) x l bs bs' :
  (wr x = true → bs = enc x) → (forallb wr l = true → bs' = concat (enc <$> l)) →
  forallb wr (x :: l) = true → bs ++ bs' = concat (enc <$> x :: l).
Proof. intros Hx Hl Hw. cbn in Hw. bool_hyps. by rewrite Hx, Hl by done. Qed.

Lemma contract_times {A} n (write : A → writer) read wr rd :
  contract write read wr rd →
  reads (r_times n read) (λ bs l, length l = n ∧ forallb rd l = true
    ∧ (forallb wr l = true → bs = concat ((output ∘ write) <$> l))).
Proof.
  intros Hc. induction n as [|n IH]; simpl; [by apply reads_ret|].
  eapply reads_bind; [apply Hc|]. intros bs x [Hx Hbs].
  eapply reads_bind; [exact IH|]. intros bs' xs (Hl & Hxs & Hbs').
  apply reads_ret. rewrite app_nil_r. split; [by f_equal/=|].
  split; [by cbn; rewrite Hx, Hxs|]. by apply concat_outputs.
Qed.

Lemma contract_vector {A} (write : A → writer) read wr rd :
  contract write read wr rd →
  contract (write_vector write) (read_vector read) (of_vector wr) (of_vector rd).
Proof.
  intros Hc. pose proof contract_u16 as H16.
  assert (Hf : ∀ l, writes (w_for write l)) by (intros; apply writes_for, Hc).
  assert (Ht : ∀ l, (vsize l <=? kMaxConfigItems) = true →
    write_vector write l = write_u16 (vsize l) ;;; w_for write l).
  { intros l Hl. unfold write_vector. by rewrite Z.gtb_ltb, Z.ltb_antisym, Hl. }
  assert (Hin : ∀ l : list A, (vsize l <=? kMaxConfigItems) = true →
       in_uint 16 (vsize l) = true).
  { intros l Hl. unfold kMaxConfigItems in Hl. bool_hyps. apply in_uint_range. lia. }
  split.
  - intros l. unfold write_vector. apply writes_if; [auto with codec|].
    apply writes_seq; [apply H16|done].
  - intros l. unfold of_vector. destruct (vsize l <=? kMaxConfigItems) eqn:E.
    + rewrite Ht, valid_seq by (done || apply H16). rewrite (ct_valid _ _ _ _ H16).
      rewrite valid_for by apply Hc. cbn [andb]. clear E.
      induction l as [|x l IH]; [done|]. cbn [forallb]. rewrite IH. unfold compose.
      by rewrite (ct_valid _ _ _ _ Hc).
    + unfold write_vector. by rewrite Z.gtb_ltb, Z.ltb_antisym, E.
  - intros l Hw Hr. unfold of_vector in *. apply andb_true_iff in Hw as [Hl Hw].
    apply andb_true_iff in Hr as [_ Hr]. rewrite forallb_forall in Hw, Hr.
    rewrite Ht, output_seq by (done || apply H16). unfold read_vector.
    eapply parses_bind; [by apply H16; auto|].
    apply parses_check; [by rewrite Z.gtb_ltb, Z.ltb_antisym, Hl|].
    rewrite Nat2Z.id, output_for by apply Hc. apply parses_times.
    intros x Hx%list_elem_of_In. by apply Hc; auto.
  - unfold read_vector. eapply reads_bind; [apply H16|]. intros bs n [Hn HR].
    apply reads_check. rewrite Z.gtb_ltb, <- Z.leb_antisym. intros Hle.
    apply in_uint_range in Hn. eapply reads_mono; [by apply contract_times|].
    intros bs' l (Hl & Hrd & Hwr). unfold of_vector.
    assert (E : vsize l = n) by lia. rewrite E, Hle, Hrd. split; [done|].
    intros Hw. cbn in Hw. rewrite Ht, output_seq by (done || apply H16 || by rewrite E).
    by rewrite output_for, Hwr, HR, E by (done || apply Hc).
Qed.

(** ** Members that are written only when a flag says so *)

Definition write_optional {A} (has : bool) (write : A → writer) (value : A) : writer :=
  if has then write value else w_nop.
Definition read_optional {A} (has : bool) (read : reader A) (initial : A) : reader A :=
  if has then read else mret initial.
Definition wr_optional {A} (has : bool) (wr : A → bool) (value : A) : bool :=
  if has then wr value else true.
Definition rd_optional {A} `{EqDecision A} (has : bool) (rd : A → bool) (initial : A)
    (value : A) : bool :=
  if has then rd value else bool_decide (value = initial).

Lemma contract_optional {A} `{EqDecision A} has (write : A → writer) read wr rd initial :
  contract write read wr rd →
  contract (write_optional has write) (read_optional has read initial)
    (wr_optional has wr) (rd_optional has rd initial).
Proof.
  intros Hc. destruct has; [exact Hc|]. split; cbn.
  - intros v. apply writes_nop.
  - done.
  - intros v _ ->%bool_decide_eq_true. apply parses_ret.
  - apply reads_ret. by rewrite bool_decide_eq_true.
Qed.

Lemma writes_optional {A} has (write : A → writer) v :
  (∀ v, writes (write v)) → writes (write_optional has write v).
Proof. intros Hw. destruct has; [apply Hw|apply writes_nop]. Qed.

Lemma valid_optional {A} has (write : A → writer) wr v :
  valid (write v) = wr v → valid (write_optional has write v) = wr_optional has wr v.
Proof. by destruct has. Qed.

#[export] Hint Resolve writes_optional | 0 : codec.

(** ** Proof automation for messages

    Both sides of a message run through the same fields in the same order, so its
    contract is proved field by field from the contracts in the hint database. *)

Create HintDb contracts discriminated.
#[export] Hint Resolve contract_u8 contract_u64 contract_double contract_bool
  contract_string contract_finite contract_vector contract_optional : contracts.

Ltac contract_block := solve [eauto 6 with contracts].

#[export] Hint Extern 1 (writes _) => (eapply ct_writes; contract_block) : codec.

Lemma valid_seq_eq f g a b :
  writes f → writes g → valid f = a → valid g = b → valid (f ;;; g) = a && b.
Proof. intros ? ? <- <-. by apply valid_seq. Qed.

Lemma valid_seq_skip f g b :
  writes f → writes g → valid f = true → valid g = b → valid (f ;;; g) = b.
Proof. intros ? ? Hf <-. by rewrite valid_seq, Hf. Qed.

Lemma valid_seq_last f g a :
  writes f → writes g → valid f = a → valid g = true → valid (f ;;; g) = a.
Proof. intros ? ? <- Hg. by rewrite valid_seq, Hg, andb_true_r by done. Qed.

Lemma ct_valid_true {A} (write : A → writer) read rd v :
  contract write read (λ _, true) rd → valid (write v) = true.
Proof. intros Hc. apply Hc. Qed.

Ltac field_valid :=
  first [ eapply valid_optional, ct_valid; contract_block
        | eapply ct_valid_true; contract_block | eapply ct_valid; contract_block ].
Ltac contract_valid :=
  lazymatch goal with
  | |- valid (_ ;;; _) = _ =>
    first [ apply valid_seq_skip; [auto 40 with codec..|field_valid|contract_valid]
          | apply valid_seq_eq; [auto 40 with codec..|field_valid|contract_valid]
          | apply valid_seq_last; [auto 40 with codec..|field_valid|contract_valid] ]
  | |- _ => field_valid
  end.

Ltac contract_parses :=
  lazymatch goal with
  | |- parses (let '(_, _) := (_, _) in _) _ _ => cbv beta iota; contract_parses
  | |- parses (mret _) [] ?v => try (destruct v; apply parses_ret)
  | |- parses (check _ ≫= _) _ _ => apply parses_check; [solve_wf|contract_parses]
  | |- parses _ (output (_ ;;; _)) _ =>
    rewrite output_seq by (auto 40 with codec); contract_parses
  | |- parses _ (_ ++ _) _ =>
    eapply parses_bind; [eapply ct_parses; [contract_block|solve_wf|solve_wf]|];
    contract_parses
  | |- parses _ (output _) _ =>
    eapply parses_last; [eapply ct_parses; [contract_block|solve_wf|solve_wf]|];
    contract_parses
  end.

Ltac contract_reads :=
  lazymatch goal with
  | |- reads (mret _) _ => apply reads_ret
  | |- reads (check _ ≫= _) _ => apply reads_check; intros ?; contract_reads
  | |- reads (match ?x with pair _ _ => _ end) _ => destruct x; contract_reads
  | |- reads (_ ≫= _) _ =>
    eapply reads_bind; [eapply ct_reads; contract_block|]; intros ? ? [? ?]; contract_reads
  end.

Ltac contract_bytes :=
  rewrite ?app_nil_r, ?output_seq by (auto 40 with codec);
  repeat (f_equal; [solve [auto]|]); solve [auto].

Ltac solve_contract write read wr rd :=
  split;
  [ intros v; unfold write; auto 40 with codec
  | intros v; unfold write, wr; rewrite <- ?andb_assoc; contract_valid
  | intros v Hw Hr; unfold wr in Hw; unfold rd in Hr; unfold write, read; bool_hyps;
    contract_parses
  | unfold read; contract_reads; unfold rd, wr, write; cbn;
    split; [bool_hyps; solve_wf|intros Hw; bool_hyps; contract_bytes] ].

(** ** Enumerations on the wire *)

#[export] Instance ConfigValueType_eq_dec : EqDecision ConfigValueType.
Proof. solve_decision. Defined.
#[export] Instance ConfigValue_eq_dec : EqDecision ConfigValue.
Proof. solve_decision. Defined.
#[export] Instance ConfigFieldValue_eq_dec : EqDecision ConfigFieldValue.
Proof. solve_decision. Defined.
#[export] Instance ConfigSnapshot_eq_dec : EqDecision ConfigSnapshot.
Proof. solve_decision. Defined.

Definition valid_schema_value_type (value : Z) : bool :=
  (ConfigValueType_value ValueBool <=? value)
  && (value <=? ConfigValueType_value ValueDoubleList).
Definition valid_value_type (value : Z) : bool :=
  (ConfigValueType_value ValueBool <=? value) && (value <=? ConfigValueType_value ValueUnset).
Definition valid_status (value : Z) : bool :=
  value <=? ConfigServiceStatus_value StatusInternalError.
Definition valid_requirement (value : Z) : bool :=
  value <=? ConfigApplyRequirement_value RequirementManual.
Definition valid_outcome (value : Z) : bool :=
  (ConfigApplyOutcome_value OutcomeApplied <=? value)
  && (value <=? ConfigApplyOutcome_value OutcomeFailed).
Definition valid_update_policy (value : Z) : bool :=
  value <=? ConfigFieldUpdatePolicy_value PolicyRebuildRequired.
Definition valid_variant_source (value : Z) : bool :=
  (ConfigVariantSource_value SourceDefault <=? value)
  && (value <=? ConfigVariantSource_value SourceActive).

Definition write_schema_type (type : ConfigValueType) : writer :=
  write_u8 (ConfigValueType_value type).
Definition read_schema_type : reader ConfigValueType :=
  read_enum valid_schema_value_type ConfigValueType_cast.
Definition rd_schema_type (type : ConfigValueType) : bool :=
  valid_schema_value_type (ConfigValueType_value type).

Definition write_status_code (status : ConfigServiceStatus) : writer :=
  write_u8 (ConfigServiceStatus_value status).
Definition read_status_code : reader ConfigServiceStatus :=
  read_enum valid_status ConfigServiceStatus_cast.

Definition write_requirement (requirement : ConfigApplyRequirement) : writer :=
  write_u8 (ConfigApplyRequirement_value requirement).
Definition read_requirement : reader ConfigApplyRequirement :=
  read_enum valid_requirement ConfigApplyRequirement_cast.

Definition write_outcome (outcome : ConfigApplyOutcome) : writer :=
  write_u8 (ConfigApplyOutcome_value outcome).
Definition read_outcome : reader ConfigApplyOutcome :=
  read_enum valid_outcome ConfigApplyOutcome_cast.

Definition write_variant_source (source : ConfigVariantSource) : writer :=
  write_u8 (ConfigVariantSource_value source).
Definition read_variant_source : reader ConfigVariantSource :=
  read_enum valid_variant_source ConfigVariantSource_cast.

(** A byte up to a small bound is one of the listed values. *)
Ltac enum_cases z :=
  let H := fresh "Hz" in intros H; apply in_uint_range in H;
  unfold valid_value_type, valid_schema_value_type, valid_status, valid_requirement,
    valid_outcome, valid_update_policy, valid_variant_source; cbn; intros; bool_hyps;
  assert (z = 0 ∨ z = 1 ∨ z = 2 ∨ z = 3 ∨ z = 4 ∨ z = 5 ∨ z = 6 ∨ z = 7 ∨ z = 8) as Hc by lia;
  repeat destruct Hc as [->|Hc]; subst; try done; lia.

Lemma value_type_cast z :
  in_uint 8 z = true → valid_value_type z = true →
  ConfigValueType_value (ConfigValueType_cast z) = z.
Proof. enum_cases z. Qed.

Lemma update_policy_cast z :
  in_uint 8 z = true → valid_update_policy z = true →
  ConfigFieldUpdatePolicy_value (ConfigFieldUpdatePolicy_cast z) = z.
Proof. enum_cases z. Qed.

Lemma contract_schema_type :
  contract write_schema_type read_schema_type (λ _, true) rd_schema_type.
Proof. apply contract_enum; [by intros []|]. intros z. enum_cases z. Qed.

(** An enumeration whose every value the reader accepts. *)
Lemma contract_all {A} (write : A → writer) read rd :
  contract write read (λ _, true) rd → (∀ a, rd a = true) →
  contract write read (λ _, true) (λ _, true).
Proof.
  intros Hc Hr. split; [apply Hc|apply Hc|intros v _ _; by apply Hc|].
  eapply reads_mono; [apply Hc|]. intros bs v [_ H]. by split.
Qed.

Lemma contract_status_code :
  contract write_status_code read_status_code (λ _, true) (λ _, true).
Proof.
  eapply contract_all; [apply contract_enum; [by intros []|intros z; enum_cases z]|by intros []].
Qed.

Lemma contract_requirement :
  contract write_requirement read_requirement (λ _, true) (λ _, true).
Proof.
  eapply contract_all; [apply contract_enum; [by intros []|intros z; enum_cases z]|by intros []].
Qed.

Lemma contract_outcome : contract write_outcome read_outcome (λ _, true) (λ _, true).
Proof.
  eapply contract_all; [apply contract_enum; [by intros []|intros z; enum_cases z]|by intros []].
Qed.

Lemma contract_variant_source :
  contract write_variant_source read_variant_source (λ _, true) (λ _, true).
Proof.
  eapply contract_all; [apply contract_enum; [by intros []|intros z; enum_cases z]|by intros []].
Qed.

(** [static_cast<uint64_t>(int64_t)] and back. *)
Definition write_i64 (value : Z) : writer := write_u64 (uint64 value).
Definition read_i64 : reader Z := raw ← read_u64; mret (sint 64 raw).

Lemma contract_i64 : contract write_i64 read_i64 (λ _, true) (in_sint 64).
Proof.
  apply contract_of_codec; [|done].
  apply (codec_iso _ _ _ _ (uint 64) (sint 64) _ codec_u64).
  - intros v Hv. split; [by apply uint_in_range|by apply sint_uint].
  - intros v Hv. by apply uint_sint.
Qed.

Lemma contract_strings :
  contract write_strings read_strings (of_vector wr_string) (of_vector wf_text).
Proof. apply contract_vector, contract_string. Qed.

#[export] Hint Resolve contract_schema_type contract_status_code contract_requirement
  contract_outcome contract_variant_source contract_i64 contract_strings : contracts.

(** ** Values *)

(** The [switch] of [write_value]. *)
Definition write_value_payload (value : ConfigValue) : writer :=
  match cv_type value with
  | ValueBool => write_bool (cv_bool_value value)
  | ValueInt64 => write_i64 (cv_int64_value value)
  | ValueDouble => write_finite (cv_double_value value)
  | ValueString => write_string (cv_string_value value)
  | ValueStringList => write_strings (cv_string_list_value value)
  | ValueDoubleList => write_vector write_finite (cv_double_list_value value)
  | ValueUnset => w_nop
  end.

Definition write_value (value : ConfigValue) : writer :=
  write_u8 (ConfigValueType_value (cv_type value)) ;;; write_value_payload value.

(** The [switch] of [read_value]: every member but the one read is its initializer. *)
Definition read_value_payload (type : ConfigValueType) : reader ConfigValue :=
  match type with
  | ValueBool => v ← read_bool; mret (from_bool v)
  | ValueInt64 => v ← read_i64; mret (from_int64 v)
  | ValueDouble => v ← read_finite; mret (from_double v)
  | ValueString => v ← read_string; mret (from_string v)
  | ValueStringList => v ← read_strings; mret (from_string_list v)
  | ValueDoubleList => v ← read_vector read_finite; mret (from_double_list v)
  | ValueUnset => mret (mkConfigValue ValueUnset false 0 0 EmptyString [] [])
  end.

Definition read_value : reader ConfigValue :=
  type ← read_u8; _ ← check (valid_value_type type);
  read_value_payload (ConfigValueType_cast type).

Definition wr_value (value : ConfigValue) : bool :=
  match cv_type value with
  | ValueDouble => isfinite64 (cv_double_value value)
  | ValueString => wr_string (cv_string_value value)
  | ValueStringList => of_vector wr_string (cv_string_list_value value)
  | ValueDoubleList => of_vector isfinite64 (cv_double_list_value value)
  | _ => true
  end.

(** A value with nothing outside the member its type selects. *)
Definition rd_value (value : ConfigValue) : bool :=
  match cv_type value with
  | ValueBool => bool_decide (value = from_bool (cv_bool_value value))
  | ValueInt64 => bool_decide (value = from_int64 (cv_int64_value value))
                  && in_sint 64 (cv_int64_value value)
  | ValueDouble => bool_decide (value = from_double (cv_double_value value))
                   && rd_finite (cv_double_value value)
  | ValueString => bool_decide (value = from_string (cv_string_value value))
                   && wf_text (cv_string_value value)
  | ValueStringList => bool_decide (value = from_string_list (cv_string_list_value value))
                       && of_vector wf_text (cv_string_list_value value)
  | ValueDoubleList => bool_decide (value = from_double_list (cv_double_list_value value))
                       && of_vector rd_finite (cv_double_list_value value)
  | ValueUnset =>
      bool_decide (value = mkConfigValue ValueUnset false 0 0 EmptyString [] [])
  end.

Lemma writes_value_payload v : writes (write_value_payload v).
Proof. unfold write_value_payload. destruct (cv_type v); auto with codec. Qed.

Lemma parses_value_payload v :
  wr_value v = true → rd_value v = true →
  parses (read_value_payload (cv_type v)) (output (write_value_payload v)) v.
Proof.
  unfold wr_value, rd_value, write_value_payload, read_value_payload.
  destruct (cv_type v); intros Hw Hr; bool_hyps;
    try match goal with
    | H : v = ?f _ |- parses _ _ _ => rewrite H at 2; clear H
    | H : v = mkConfigValue _ _ _ _ _ _ _ |- parses _ _ _ => rewrite H
    end;
    (apply parses_ret || (eapply parses_last;
      [eapply ct_parses; [contract_block|first [done|exact Hw]|done]|apply parses_ret])).
Qed.

Lemma reads_value_payload type :
  reads (read_value_payload type) (λ bs v, cv_type v = type ∧ rd_value v = true
    ∧ (wr_value v = true → bs = output (write_value_payload v))).
Proof.
  unfold read_value_payload.
  destruct type;
    try (eapply reads_bind; [eapply ct_reads; contract_block|]; intros bs x [Hx Hbs]);
    apply reads_ret; rewrite ?app_nil_r; (split; [done|split]);
    unfold rd_value, wr_value, write_value_payload; cbn;
    repeat match goal with
    | |- (_ && _)%bool = true => apply andb_true_iff; split
    | |- bool_decide _ = true => apply bool_decide_eq_true; reflexivity
    end; assumption || (intros; assumption) || reflexivity || auto.
Qed.

Lemma contract_value : contract write_value read_value wr_value rd_value.
Proof.
  assert (Hin : ∀ t, in_uint 8 (ConfigValueType_value t) = true
    ∧ valid_value_type (ConfigValueType_value t) = true
    ∧ ConfigValueType_cast (ConfigValueType_value t) = t) by (by intros []).
  pose proof contract_u8 as H8. pose proof writes_value_payload as Hp.
  split.
  - intros v. apply writes_seq; [apply H8|apply Hp].
  - intros v. unfold write_value. rewrite valid_seq by (apply H8 || apply Hp).
    rewrite (ct_valid _ _ _ _ H8). unfold wr_value, write_value_payload. cbn [andb].
    destruct (cv_type v); try done; eapply ct_valid; contract_block.
  - intros v Hw Hr. unfold write_value, read_value.
    rewrite output_seq by (apply H8 || apply Hp).
    destruct (Hin (cv_type v)) as (H1 & H2 & H3).
    eapply parses_bind; [by apply H8|]. apply parses_check; [done|]. rewrite H3.
    by apply parses_value_payload.
  - unfold read_value. eapply reads_bind; [apply H8|]. intros bs z [Hz Hbs].
    apply reads_check. intros Hok.
    eapply reads_mono; [apply reads_value_payload|]. intros bs' v (Ht & Hr & Hbs').
    split; [done|]. intros Hw. unfold write_value.
    rewrite output_seq, Ht, value_type_cast by (done || apply H8 || apply Hp).
    by rewrite Hbs, Hbs'.
Qed.

#[export] Hint Resolve contract_value : contracts.

(** ** Structures *)

Definition write_descriptor (value : ConfigResourceDescriptor) : writer :=
  write_string (crd_id value) ;;; write_string (crd_title value) ;;;
  write_string (crd_description value) ;;; write_bool (crd_readable value) ;;;
  write_bool (crd_writable value) ;;; write_bool (crd_apply_supported value) ;;;
  write_bool (crd_variants_supported value).

Definition read_descriptor : reader ConfigResourceDescriptor :=
  id ← read_string;
  title ← read_string;
  description ← read_string;
  readable ← read_bool;
  writable ← read_bool;
  apply_supported ← read_bool;
  variants_supported ← read_bool;
  mret (mkConfigResourceDescriptor id title description readable writable
    apply_supported variants_supported).

Definition wr_descriptor (value : ConfigResourceDescriptor) : bool :=
  wr_string (crd_id value) && wr_string (crd_title value)
  && wr_string (crd_description value).

Definition rd_descriptor (value : ConfigResourceDescriptor) : bool :=
  wf_text (crd_id value) && wf_text (crd_title value)
  && wf_text (crd_description value).

Lemma contract_descriptor :
  contract write_descriptor read_descriptor wr_descriptor rd_descriptor.
Proof. solve_contract write_descriptor read_descriptor wr_descriptor rd_descriptor. Qed.

#[export] Hint Resolve contract_descriptor : contracts.

Definition write_choice (value : ConfigChoice) : writer :=
  write_value (cc_value value) ;;; write_string (cc_label value).

Definition read_choice : reader ConfigChoice :=
  value ← read_value;
  label ← read_string;
  mret (mkConfigChoice value label).

Definition wr_choice (value : ConfigChoice) : bool :=
  wr_value (cc_value value) && wr_string (cc_label value).

Definition rd_choice (value : ConfigChoice) : bool :=
  rd_value (cc_value value) && wf_text (cc_label value).

Lemma contract_choice :
  contract write_choice read_choice wr_choice rd_choice.
Proof. solve_contract write_choice read_choice wr_choice rd_choice. Qed.

#[export] Hint Resolve contract_choice : contracts.

Definition write_field_value (value : ConfigFieldValue) : writer :=
  write_string (cfv_path value) ;;; write_value (cfv_value value).

Definition read_field_value : reader ConfigFieldValue :=
  path ← read_string;
  value ← read_value;
  mret (mkConfigFieldValue path value).

Definition wr_field_value (value : ConfigFieldValue) : bool :=
  wr_string (cfv_path value) && wr_value (cfv_value value).

Definition rd_field_value (value : ConfigFieldValue) : bool :=
  wf_text (cfv_path value) && rd_value (cfv_value value).

Lemma contract_field_value :
  contract write_field_value read_field_value wr_field_value rd_field_value.
Proof.
  solve_contract write_field_value read_field_value wr_field_value rd_field_value.
Qed.

#[export] Hint Resolve contract_field_value : contracts.

Definition write_snapshot (value : ConfigSnapshot) : writer :=
  write_string (cs_resource_id value) ;;; write_string (cs_revision value) ;;;
  write_string (cs_applied_revision value) ;;; write_string (cs_variant_id value) ;;;
  write_string (cs_active_variant_id value) ;;;
  write_vector write_field_value (cs_values value) ;;;
  write_strings (cs_user_overridden_paths value).

Definition read_snapshot : reader ConfigSnapshot :=
  resource_id ← read_string;
  revision ← read_string;
  applied_revision ← read_string;
  variant_id ← read_string;
  active_variant_id ← read_string;
  values ← read_vector read_field_value;
  user_overridden_paths ← read_strings;
  mret (mkConfigSnapshot resource_id revision applied_revision variant_id
    active_variant_id values user_overridden_paths).

Definition wr_snapshot (value : ConfigSnapshot) : bool :=
  wr_string (cs_resource_id value) && wr_string (cs_revision value)
  && wr_string (cs_applied_revision value) && wr_string (cs_variant_id value)
  && wr_string (cs_active_variant_id value)
  && of_vector wr_field_value (cs_values value)
  && of_vector wr_string (cs_user_overridden_paths value).

Definition rd_snapshot (value : ConfigSnapshot) : bool :=
  wf_text (cs_resource_id value) && wf_text (cs_revision value)
  && wf_text (cs_applied_revision value) && wf_text (cs_variant_id value)
  && wf_text (cs_active_variant_id value) && of_vector rd_field_value (cs_values value)
  && of_vector wf_text (cs_user_overridden_paths value).

Lemma contract_snapshot :
  contract write_snapshot read_snapshot wr_snapshot rd_snapshot.
Proof. solve_contract write_snapshot read_snapshot wr_snapshot rd_snapshot. Qed.

#[export] Hint Resolve contract_snapshot : contracts.

Definition write_variant (value : ConfigVariantDescriptor) : writer :=
  write_string (cvd_id value) ;;; write_string (cvd_title value) ;;;
  write_string (cvd_revision value) ;;; write_u64 (cvd_modified_at_ns value) ;;;
  write_bool (cvd_active value) ;;; write_bool (cvd_mutable_variant value).

Definition read_variant : reader ConfigVariantDescriptor :=
  id ← read_string;
  title ← read_string;
  revision ← read_string;
  modified_at_ns ← read_u64;
  active ← read_bool;
  mutable_variant ← read_bool;
  mret (mkConfigVariantDescriptor id title revision modified_at_ns active
    mutable_variant).

Definition wr_variant (value : ConfigVariantDescriptor) : bool :=
  wr_string (cvd_id value) && wr_string (cvd_title value)
  && wr_string (cvd_revision value).

Definition rd_variant (value : ConfigVariantDescriptor) : bool :=
  wf_text (cvd_id value) && wf_text (cvd_title value) && wf_text (cvd_revision value)
  && in_uint 64 (cvd_modified_at_ns value).

Lemma contract_variant :
  contract write_variant read_variant wr_variant rd_variant.
Proof. solve_contract write_variant read_variant wr_variant rd_variant. Qed.

#[export] Hint Resolve contract_variant : contracts.

Definition write_field_error (value : ConfigFieldError) : writer :=
  write_string (cfe_path value) ;;; write_string (cfe_code value) ;;;
  write_string (cfe_message value).

Definition read_field_error : reader ConfigFieldError :=
  path ← read_string;
  code ← read_string;
  message ← read_string;
  mret (mkConfigFieldError path code message).

Definition wr_field_error (value : ConfigFieldError) : bool :=
  wr_string (cfe_path value) && wr_string (cfe_code value)
  && wr_string (cfe_message value).

Definition rd_field_error (value : ConfigFieldError) : bool :=
  wf_text (cfe_path value) && wf_text (cfe_code value) && wf_text (cfe_message value).

Lemma contract_field_error :
  contract write_field_error read_field_error wr_field_error rd_field_error.
Proof.
  solve_contract write_field_error read_field_error wr_field_error rd_field_error.
Qed.

#[export] Hint Resolve contract_field_error : contracts.

Definition write_effects (value : ConfigEffects) : writer :=
  write_requirement (ce_requirement value) ;;;
  write_strings (ce_affected_components value) ;;;
  write_bool (ce_reconnect_expected value).

Definition read_effects : reader ConfigEffects :=
  requirement ← read_requirement;
  affected_components ← read_strings;
  reconnect_expected ← read_bool;
  mret (mkConfigEffects requirement affected_components reconnect_expected).

Definition wr_effects (value : ConfigEffects) : bool :=
  of_vector wr_string (ce_affected_components value).

Definition rd_effects (value : ConfigEffects) : bool :=
  of_vector wf_text (ce_affected_components value).

Lemma contract_effects :
  contract write_effects read_effects wr_effects rd_effects.
Proof. solve_contract write_effects read_effects wr_effects rd_effects. Qed.

#[export] Hint Resolve contract_effects : contracts.

Definition write_status (value : ConfigServiceStatus * string) : writer :=
  write_status_code value.1 ;;; write_string value.2.

Definition read_status : reader (ConfigServiceStatus * string) :=
  status ← read_status_code;
  message ← read_string;
  mret (status, message).

Definition wr_status (value : ConfigServiceStatus * string) : bool := wr_string value.2.
Definition rd_status (value : ConfigServiceStatus * string) : bool := wf_text value.2.

Lemma contract_status : contract write_status read_status wr_status rd_status.
Proof. solve_contract write_status read_status wr_status rd_status. Qed.

#[export] Hint Resolve contract_status : contracts.

(** *** Field schemas

    The limits are written as they are and must be finite to be read; the default value
    is on the wire only when there is one. *)
Definition write_schema (value : ConfigFieldSchema) : writer :=
  write_string (cfs_path value) ;;; write_string (cfs_title value) ;;;
  write_string (cfs_description value) ;;; write_schema_type (cfs_type value) ;;;
  write_bool (cfs_required value) ;;; write_bool (cfs_read_only value) ;;;
  write_bool (cfs_sensitive value) ;;; write_bool (cfs_has_minimum value) ;;;
  write_double (cfs_minimum value) ;;; write_bool (cfs_has_maximum value) ;;;
  write_double (cfs_maximum value) ;;; write_string (cfs_validation_pattern value) ;;;
  write_vector write_choice (cfs_choices value) ;;; write_string (cfs_group_path value) ;;;
  write_u8 (ConfigFieldUpdatePolicy_value (cfs_update_policy value)) ;;;
  write_string (cfs_unit value) ;;; write_bool (cfs_has_default_value value) ;;;
  write_optional (cfs_has_default_value value) write_value (cfs_default_value value) ;;;
  write_bool (cfs_advanced value).

Definition read_schema : reader ConfigFieldSchema :=
  path ← read_string;
  title ← read_string;
  description ← read_string;
  type ← read_schema_type;
  required ← read_bool;
  read_only ← read_bool;
  sensitive ← read_bool;
  has_minimum ← read_bool;
  minimum ← read_double;
  has_maximum ← read_bool;
  maximum ← read_double;
  validation_pattern ← read_string;
  choices ← read_vector read_choice;
  group_path ← read_string;
  update_policy ← read_u8;
  unit ← read_string;
  _ ← check (isfinite64 minimum);
  _ ← check (isfinite64 maximum);
  _ ← check (valid_update_policy update_policy);
  has_default_value ← read_bool;
  default_value ← read_optional has_default_value read_value default_ConfigValue;
  advanced ← read_bool;
  mret (mkConfigFieldSchema path title description type required read_only sensitive
    has_minimum minimum has_maximum maximum validation_pattern choices group_path
    (ConfigFieldUpdatePolicy_cast update_policy) unit default_value has_default_value
    advanced).

Definition wr_schema (value : ConfigFieldSchema) : bool :=
  wr_string (cfs_path value) && wr_string (cfs_title value)
  && wr_string (cfs_description value) && wr_string (cfs_validation_pattern value)
  && of_vector wr_choice (cfs_choices value) && wr_string (cfs_group_path value)
  && wr_string (cfs_unit value)
  && wr_optional (cfs_has_default_value value) wr_value (cfs_default_value value).

Definition rd_schema (value : ConfigFieldSchema) : bool :=
  wf_text (cfs_path value) && wf_text (cfs_title value)
  && wf_text (cfs_description value) && rd_schema_type (cfs_type value)
  && in_uint 64 (cfs_minimum value) && in_uint 64 (cfs_maximum value)
  && wf_text (cfs_validation_pattern value) && of_vector rd_choice (cfs_choices value)
  && wf_text (cfs_group_path value) && wf_text (cfs_unit value)
  && isfinite64 (cfs_minimum value) && isfinite64 (cfs_maximum value)
  && rd_optional (cfs_has_default_value value) rd_value default_ConfigValue
       (cfs_default_value value).

Lemma update_policy_code policy :
  in_uint 8 (ConfigFieldUpdatePolicy_value policy) = true
  ∧ valid_update_policy (ConfigFieldUpdatePolicy_value policy) = true
  ∧ ConfigFieldUpdatePolicy_cast (ConfigFieldUpdatePolicy_value policy) = policy.
Proof. by destruct policy. Qed.

Lemma parses_schema v :
  wr_schema v = true → rd_schema v = true → parses read_schema (output (write_schema v)) v.
Proof.
  intros Hw Hr. unfold wr_schema in Hw. unfold rd_schema in Hr. unfold write_schema, read_schema.
  destruct (update_policy_code (cfs_update_policy v)) as (H1 & H2 & H3). bool_hyps.
  contract_parses. rewrite H3. destruct v. apply parses_ret.
Qed.

Lemma reads_schema :
  reads read_schema (λ bs v,
    rd_schema v = true ∧ (wr_schema v = true → bs = output (write_schema v))).
Proof.
  unfold read_schema. contract_reads. unfold rd_schema, wr_schema, write_schema; cbn.
  split; [bool_hyps; solve_wf|]. intros Hw. bool_hyps.
  rewrite update_policy_cast by done. contract_bytes.
Qed.

Lemma contract_schema : contract write_schema read_schema wr_schema rd_schema.
Proof.
  split.
  - intros v; unfold write_schema; auto 40 with codec.
  - intros v; unfold write_schema, wr_schema; rewrite <- ?andb_assoc; contract_valid.
  - exact parses_schema.
  - exact reads_schema.
Qed.

#[export] Hint Resolve contract_schema : contracts.
