(* ===== verification/ConfigMessages.v ===== *)
(** * ConfigMessages: the messages of the configuration service

    [src/core/configuration_service/codec.cpp]: an [encode_payload] and a
    [decode_payload] per message, and the forwarding overloads [encode] and [decode] of
    [src/core/core_messages_v2_configuration.cpp].

    [payload_contract] says what the two directions promise: which values encode, that
    they decode to themselves, and that what decodes is well formed and, where it can
    be encoded at all, has that one encoding.  [ConfigResourceDescribeRequest] has an
    optional last field and is treated on its own. *)

From Stdlib Require Import ZArith Lia String Ascii Strings.Byte.
From stdpp Require Import base gmap strings list fin_maps.
From S2P Require Import Prelude StdMap Codec WireTypes CoreMessages Floats ConfigTypes ConfigCodec.
Local Open Scope Z_scope.

(** ** Overloads *)

(** One pair of overloads of [encode_payload] and [decode_payload], with the values the
    writer accepts and the values the reader returns. *)
Class ConfigMessage (A : Type) := {
  cm_write : A → writer;
  cm_read : reader A;
  cm_wr : A → bool;
  cm_rd : A → bool;
}.

(** [build_payload]: nothing when a write was refused. *)
Definition encode_payload `{ConfigMessage A} (value : A) : Bytes := w_run (cm_write value).

(** [parse_payload]: the whole payload and nothing after it. *)
Definition decode_payload `{ConfigMessage A} (bytes : Bytes) : option A := r_run cm_read bytes.

(** The overloads in [yunlink::v2]. *)
Definition v2_encode `{ConfigMessage A} (value : A) : Bytes := encode_payload value.
Definition v2_decode `{ConfigMessage A} (bytes : Bytes) : option A := decode_payload bytes.

Definition payload_contract (A : Type) `{ConfigMessage A} : Prop :=
  (∀ value : A, v2_encode value ≠ [] ↔ cm_wr value = true)
  ∧ (∀ value : A, cm_wr value = true → cm_rd value = true →
       v2_decode (v2_encode value) = Some value)
  ∧ (∀ (bytes : Bytes) (value : A), v2_decode bytes = Some value →
       cm_rd value = true ∧ (cm_wr value = true → bytes = v2_encode value)).

Lemma contract_payload {A} (write : A → writer) read wr rd :
  contract write read wr rd → (∀ v, wr v = true → output (write v) ≠ []) →
  @payload_contract A {| cm_write := write; cm_read := read; cm_wr := wr; cm_rd := rd |}.
Proof.
  intros Hc Hne. unfold payload_contract, v2_encode, v2_decode, encode_payload, decode_payload.
  cbn. assert (Hrun : ∀ v, w_run (write v) = if wr v then output (write v) else []).
  { intros v. rewrite writes_run by apply Hc. by rewrite (ct_valid _ _ _ _ Hc). }
  split; [|split].
  - intros v. rewrite Hrun. destruct (wr v) eqn:E; [|done]. split; [done|auto].
  - intros v Hw Hr. rewrite Hrun, Hw. by apply parses_run, Hc.
  - intros bs v Hd. destruct (reads_run _ _ _ _ (ct_reads _ _ _ _ Hc) Hd) as [Hr Hbs].
    split; [done|]. intros Hw. by rewrite Hrun, Hw, Hbs.
Qed.

(** A message begins with a byte or with a string, so its encoding is not empty. *)
Lemma output_string_nonempty s : wr_string s = true → output (write_string s) ≠ [].
Proof.
  intros Hs. rewrite write_string_text by done. unfold w_text.
  unfold wr_string, kMaxCoreStringBytes in Hs. bool_hyps. rewrite Z.gtb_ltb.
  rewrite (proj2 (Z.ltb_ge _ _)) by (unfold uint16_max; lia). done.
Qed.

Lemma output_seq_nonempty f g :
  writes f → writes g → output f ≠ [] → output (f ;;; g) ≠ [].
Proof. intros Hf Hg Hne. rewrite output_seq by done. by destruct (output f). Qed.

Ltac message_nonempty :=
  lazymatch goal with
  | |- output (write_status _) ≠ [] =>
    apply output_seq_nonempty; [auto with codec..|done]
  | |- output (_ ;;; _) ≠ [] => apply output_seq_nonempty; [auto 40 with codec..|message_nonempty]
  | |- output (write_string _) ≠ [] => apply output_string_nonempty; bool_hyps; assumption
  | |- _ => done
  end.

Ltac solve_payload write wr contract_lemma :=
  apply contract_payload; [exact contract_lemma|];
  intros ? Hw; unfold wr in Hw; unfold write; message_nonempty.

(** ** Messages *)


Definition write_ListRequest (value : ConfigResourceListRequest) : writer :=
  write_u8 (lrq_reserved value).

Definition read_ListRequest : reader ConfigResourceListRequest :=
  reserved ← read_u8;
  mret (mkConfigResourceListRequest reserved).

Definition wr_ListRequest (_ : ConfigResourceListRequest) : bool := true.

Definition rd_ListRequest (value : ConfigResourceListRequest) : bool :=
  in_uint 8 (lrq_reserved value).

Lemma contract_ListRequest :
  contract write_ListRequest read_ListRequest wr_ListRequest rd_ListRequest.
Proof.
  solve_contract write_ListRequest read_ListRequest wr_ListRequest rd_ListRequest.
Qed.

#[export] Instance ListRequest_message : ConfigMessage ConfigResourceListRequest :=
  {| cm_write := write_ListRequest; cm_read := read_ListRequest;
     cm_wr := wr_ListRequest; cm_rd := rd_ListRequest |}.

Lemma payload_ListRequest : payload_contract ConfigResourceListRequest.
Proof. solve_payload write_ListRequest wr_ListRequest contract_ListRequest. Qed.

Definition write_ListResponse (value : ConfigResourceListResponse) : writer :=
  write_status (lrp_status value, lrp_message value) ;;;
  write_vector write_descriptor (lrp_resources value).

Definition read_ListResponse : reader ConfigResourceListResponse :=
  '(status, message) ← read_status;
  resources ← read_vector read_descriptor;
  mret (mkConfigResourceListResponse status message resources).

Definition wr_ListResponse (value : ConfigResourceListResponse) : bool :=
  wr_status (lrp_status value, lrp_message value)
  && of_vector wr_descriptor (lrp_resources value).

Definition rd_ListResponse (value : ConfigResourceListResponse) : bool :=
  rd_status (lrp_status value, lrp_message value)
  && of_vector rd_descriptor (lrp_resources value).

Lemma contract_ListResponse :
  contract write_ListResponse read_ListResponse wr_ListResponse rd_ListResponse.
Proof.
  solve_contract write_ListResponse read_ListResponse wr_ListResponse rd_ListResponse.
Qed.

#[export] Instance ListResponse_message : ConfigMessage ConfigResourceListResponse :=
  {| cm_write := write_ListResponse; cm_read := read_ListResponse;
     cm_wr := wr_ListResponse; cm_rd := rd_ListResponse |}.

Lemma payload_ListResponse : payload_contract ConfigResourceListResponse.
Proof. solve_payload write_ListResponse wr_ListResponse contract_ListResponse. Qed.

(** The locale is written only when there is one, and read only when bytes are left. *)
Definition write_DescribeRequest (value : ConfigResourceDescribeRequest) : writer :=
  write_string (drq_resource_id value) ;;;
  (if negb (bool_decide (drq_locale value = EmptyString)) then
     write_string (drq_locale value)
   else w_nop).

Definition read_DescribeRequest : reader ConfigResourceDescribeRequest :=
  resource_id ← read_string;
  finished ← at_end;
  if (finished : bool) then mret (mkConfigResourceDescribeRequest resource_id EmptyString)
  else
    locale ← read_string;
    mret (mkConfigResourceDescribeRequest resource_id locale).

Definition wr_DescribeRequest (value : ConfigResourceDescribeRequest) : bool :=
  wr_string (drq_resource_id value) && wr_string (drq_locale value).

Definition rd_DescribeRequest (value : ConfigResourceDescribeRequest) : bool :=
  wf_text (drq_resource_id value) && wf_text (drq_locale value).

#[export] Instance DescribeRequest_message : ConfigMessage ConfigResourceDescribeRequest :=
  {| cm_write := write_DescribeRequest; cm_read := read_DescribeRequest;
     cm_wr := wr_DescribeRequest; cm_rd := rd_DescribeRequest |}.


Definition write_DescribeResponse (value : ConfigResourceDescribeResponse) : writer :=
  write_status (drp_status value, drp_message value) ;;;
  write_descriptor (drp_resource value) ;;;
  write_vector write_schema (drp_fields value).

Definition read_DescribeResponse : reader ConfigResourceDescribeResponse :=
  '(status, message) ← read_status;
  resource ← read_descriptor;
  fields ← read_vector read_schema;
  mret (mkConfigResourceDescribeResponse status message resource fields).

Definition wr_DescribeResponse (value : ConfigResourceDescribeResponse) : bool :=
  wr_status (drp_status value, drp_message value) && wr_descriptor (drp_resource value)
  && of_vector wr_schema (drp_fields value).

Definition rd_DescribeResponse (value : ConfigResourceDescribeResponse) : bool :=
  rd_status (drp_status value, drp_message value) && rd_descriptor (drp_resource value)
  && of_vector rd_schema (drp_fields value).

Lemma contract_DescribeResponse :
  contract write_DescribeResponse read_DescribeResponse wr_DescribeResponse
    rd_DescribeResponse.
Proof.
  solve_contract write_DescribeResponse read_DescribeResponse wr_DescribeResponse
    rd_DescribeResponse.
Qed.

#[export] Instance DescribeResponse_message : ConfigMessage ConfigResourceDescribeResponse :=
  {| cm_write := write_DescribeResponse; cm_read := read_DescribeResponse;
     cm_wr := wr_DescribeResponse; cm_rd := rd_DescribeResponse |}.

Lemma payload_DescribeResponse : payload_contract ConfigResourceDescribeResponse.
Proof.
  solve_payload write_DescribeResponse wr_DescribeResponse contract_DescribeResponse.
Qed.

Definition write_GetRequest (value : ConfigResourceGetRequest) : writer :=
  write_string (grq_resource_id value) ;;; write_string (grq_variant_id value).

Definition read_GetRequest : reader ConfigResourceGetRequest :=
  resource_id ← read_string;
  variant_id ← read_string;
  mret (mkConfigResourceGetRequest resource_id variant_id).

Definition wr_GetRequest (value : ConfigResourceGetRequest) : bool :=
  wr_string (grq_resource_id value) && wr_string (grq_variant_id value).

Definition rd_GetRequest (value : ConfigResourceGetRequest) : bool :=
  wf_text (grq_resource_id value) && wf_text (grq_variant_id value).

Lemma contract_GetRequest :
  contract write_GetRequest read_GetRequest wr_GetRequest rd_GetRequest.
Proof. solve_contract write_GetRequest read_GetRequest wr_GetRequest rd_GetRequest. Qed.

#[export] Instance GetRequest_message : ConfigMessage ConfigResourceGetRequest :=
  {| cm_write := write_GetRequest; cm_read := read_GetRequest;
     cm_wr := wr_GetRequest; cm_rd := rd_GetRequest |}.

Lemma payload_GetRequest : payload_contract ConfigResourceGetRequest.
Proof. solve_payload write_GetRequest wr_GetRequest contract_GetRequest. Qed.

Definition write_GetResponse (value : ConfigResourceGetResponse) : writer :=
  write_status (grp_status value, grp_message value) ;;;
  write_snapshot (grp_snapshot value).

Definition read_GetResponse : reader ConfigResourceGetResponse :=
  '(status, message) ← read_status;
  snapshot ← read_snapshot;
  mret (mkConfigResourceGetResponse status message snapshot).

Definition wr_GetResponse (value : ConfigResourceGetResponse) : bool :=
  wr_status (grp_status value, grp_message value) && wr_snapshot (grp_snapshot value).

Definition rd_GetResponse (value : ConfigResourceGetResponse) : bool :=
  rd_status (grp_status value, grp_message value) && rd_snapshot (grp_snapshot value).

Lemma contract_GetResponse :
  contract write_GetResponse read_GetResponse wr_GetResponse rd_GetResponse.
Proof.
  solve_contract write_GetResponse read_GetResponse wr_GetResponse rd_GetResponse.
Qed.

#[export] Instance GetResponse_message : ConfigMessage ConfigResourceGetResponse :=
  {| cm_write := write_GetResponse; cm_read := read_GetResponse;
     cm_wr := wr_GetResponse; cm_rd := rd_GetResponse |}.

Lemma payload_GetResponse : payload_contract ConfigResourceGetResponse.
Proof. solve_payload write_GetResponse wr_GetResponse contract_GetResponse. Qed.

Definition write_PatchRequest (value : ConfigResourcePatchRequest) : writer :=
  write_string (prq_resource_id value) ;;; write_string (prq_variant_id value) ;;;
  write_string (prq_expected_revision value) ;;;
  write_vector write_field_value (prq_updates value) ;;;
  write_bool (prq_validate_only value).

Definition read_PatchRequest : reader ConfigResourcePatchRequest :=
  resource_id ← read_string;
  variant_id ← read_string;
  expected_revision ← read_string;
  updates ← read_vector read_field_value;
  validate_only ← read_bool;
  mret (mkConfigResourcePatchRequest resource_id variant_id expected_revision updates
    validate_only).

Definition wr_PatchRequest (value : ConfigResourcePatchRequest) : bool :=
  wr_string (prq_resource_id value) && wr_string (prq_variant_id value)
  && wr_string (prq_expected_revision value)
  && of_vector wr_field_value (prq_updates value).

Definition rd_PatchRequest (value : ConfigResourcePatchRequest) : bool :=
  wf_text (prq_resource_id value) && wf_text (prq_variant_id value)
  && wf_text (prq_expected_revision value)
  && of_vector rd_field_value (prq_updates value).

Lemma contract_PatchRequest :
  contract write_PatchRequest read_PatchRequest wr_PatchRequest rd_PatchRequest.
Proof.
  solve_contract write_PatchRequest read_PatchRequest wr_PatchRequest rd_PatchRequest.
Qed.

#[export] Instance PatchRequest_message : ConfigMessage ConfigResourcePatchRequest :=
  {| cm_write := write_PatchRequest; cm_read := read_PatchRequest;
     cm_wr := wr_PatchRequest; cm_rd := rd_PatchRequest |}.

Lemma payload_PatchRequest : payload_contract ConfigResourcePatchRequest.
Proof. solve_payload write_PatchRequest wr_PatchRequest contract_PatchRequest. Qed.

Definition write_PatchResponse (value : ConfigResourcePatchResponse) : writer :=
  write_status (prp_status value, prp_message value) ;;;
  write_snapshot (prp_snapshot value) ;;;
  write_bool (prp_has_candidate_snapshot value) ;;;
  write_optional (prp_has_candidate_snapshot value) write_snapshot (prp_candidate_snapshot value) ;;;
  write_vector write_field_error (prp_errors value) ;;;
  write_effects (prp_effects value).

Definition read_PatchResponse : reader ConfigResourcePatchResponse :=
  '(status, message) ← read_status;
  snapshot ← read_snapshot;
  has_candidate_snapshot ← read_bool;
  candidate_snapshot ← read_optional has_candidate_snapshot read_snapshot default_ConfigSnapshot;
  errors ← read_vector read_field_error;
  effects ← read_effects;
  mret (mkConfigResourcePatchResponse status message snapshot errors effects
    has_candidate_snapshot candidate_snapshot).

Definition wr_PatchResponse (value : ConfigResourcePatchResponse) : bool :=
  wr_status (prp_status value, prp_message value) && wr_snapshot (prp_snapshot value)
  && wr_optional (prp_has_candidate_snapshot value) wr_snapshot (prp_candidate_snapshot value)
  && of_vector wr_field_error (prp_errors value) && wr_effects (prp_effects value).

Definition rd_PatchResponse (value : ConfigResourcePatchResponse) : bool :=
  rd_status (prp_status value, prp_message value) && rd_snapshot (prp_snapshot value)
  && rd_optional (prp_has_candidate_snapshot value) rd_snapshot default_ConfigSnapshot (prp_candidate_snapshot value)
  && of_vector rd_field_error (prp_errors value) && rd_effects (prp_effects value).

Lemma contract_PatchResponse :
  contract write_PatchResponse read_PatchResponse wr_PatchResponse rd_PatchResponse.
Proof.
  solve_contract write_PatchResponse read_PatchResponse wr_PatchResponse
    rd_PatchResponse.
Qed.

#[export] Instance PatchResponse_message : ConfigMessage ConfigResourcePatchResponse :=
  {| cm_write := write_PatchResponse; cm_read := read_PatchResponse;
     cm_wr := wr_PatchResponse; cm_rd := rd_PatchResponse |}.

Lemma payload_PatchResponse : payload_contract ConfigResourcePatchResponse.
Proof. solve_payload write_PatchResponse wr_PatchResponse contract_PatchResponse. Qed.

Definition write_ApplyRequest (value : ConfigResourceApplyRequest) : writer :=
  write_string (arq_resource_id value) ;;; write_string (arq_expected_revision value).

Definition read_ApplyRequest : reader ConfigResourceApplyRequest :=
  resource_id ← read_string;
  expected_revision ← read_string;
  mret (mkConfigResourceApplyRequest resource_id expected_revision).

Definition wr_ApplyRequest (value : ConfigResourceApplyRequest) : bool :=
  wr_string (arq_resource_id value) && wr_string (arq_expected_revision value).

Definition rd_ApplyRequest (value : ConfigResourceApplyRequest) : bool :=
  wf_text (arq_resource_id value) && wf_text (arq_expected_revision value).

Lemma contract_ApplyRequest :
  contract write_ApplyRequest read_ApplyRequest wr_ApplyRequest rd_ApplyRequest.
Proof.
  solve_contract write_ApplyRequest read_ApplyRequest wr_ApplyRequest rd_ApplyRequest.
Qed.

#[export] Instance ApplyRequest_message : ConfigMessage ConfigResourceApplyRequest :=
  {| cm_write := write_ApplyRequest; cm_read := read_ApplyRequest;
     cm_wr := wr_ApplyRequest; cm_rd := rd_ApplyRequest |}.

Lemma payload_ApplyRequest : payload_contract ConfigResourceApplyRequest.
Proof. solve_payload write_ApplyRequest wr_ApplyRequest contract_ApplyRequest. Qed.

Definition write_ApplyResponse (value : ConfigResourceApplyResponse) : writer :=
  write_status (arp_status value, arp_message value) ;;;
  write_string (arp_applied_revision value) ;;; write_outcome (arp_outcome value) ;;;
  write_effects (arp_effects value).

Definition read_ApplyResponse : reader ConfigResourceApplyResponse :=
  '(status, message) ← read_status;
  applied_revision ← read_string;
  outcome ← read_outcome;
  effects ← read_effects;
  mret (mkConfigResourceApplyResponse status message applied_revision outcome effects).

Definition wr_ApplyResponse (value : ConfigResourceApplyResponse) : bool :=
  wr_status (arp_status value, arp_message value)
  && wr_string (arp_applied_revision value) && wr_effects (arp_effects value).

Definition rd_ApplyResponse (value : ConfigResourceApplyResponse) : bool :=
  rd_status (arp_status value, arp_message value)
  && wf_text (arp_applied_revision value) && rd_effects (arp_effects value).

Lemma contract_ApplyResponse :
  contract write_ApplyResponse read_ApplyResponse wr_ApplyResponse rd_ApplyResponse.
Proof.
  solve_contract write_ApplyResponse read_ApplyResponse wr_ApplyResponse
    rd_ApplyResponse.
Qed.

#[export] Instance ApplyResponse_message : ConfigMessage ConfigResourceApplyResponse :=
  {| cm_write := write_ApplyResponse; cm_read := read_ApplyResponse;
     cm_wr := wr_ApplyResponse; cm_rd := rd_ApplyResponse |}.

Lemma payload_ApplyResponse : payload_contract ConfigResourceApplyResponse.
Proof. solve_payload write_ApplyResponse wr_ApplyResponse contract_ApplyResponse. Qed.

Definition write_VariantListRequest (value : ConfigResourceVariantListRequest) : writer :=
  write_string (vlq_resource_id value).

Definition read_VariantListRequest : reader ConfigResourceVariantListRequest :=
  resource_id ← read_string;
  mret (mkConfigResourceVariantListRequest resource_id).

Definition wr_VariantListRequest (value : ConfigResourceVariantListRequest) : bool :=
  wr_string (vlq_resource_id value).

Definition rd_VariantListRequest (value : ConfigResourceVariantListRequest) : bool :=
  wf_text (vlq_resource_id value).

Lemma contract_VariantListRequest :
  contract write_VariantListRequest read_VariantListRequest wr_VariantListRequest
    rd_VariantListRequest.
Proof.
  solve_contract write_VariantListRequest read_VariantListRequest wr_VariantListRequest
    rd_VariantListRequest.
Qed.

#[export] Instance VariantListRequest_message : ConfigMessage ConfigResourceVariantListRequest :=
  {| cm_write := write_VariantListRequest; cm_read := read_VariantListRequest;
     cm_wr := wr_VariantListRequest; cm_rd := rd_VariantListRequest |}.

Lemma payload_VariantListRequest : payload_contract ConfigResourceVariantListRequest.
Proof.
  solve_payload write_VariantListRequest wr_VariantListRequest contract_VariantListRequest.
Qed.

Definition write_VariantListResponse (value : ConfigResourceVariantListResponse) : writer :=
  write_status (vlp_status value, vlp_message value) ;;;
  write_string (vlp_active_variant_id value) ;;;
  write_vector write_variant (vlp_variants value).

Definition read_VariantListResponse : reader ConfigResourceVariantListResponse :=
  '(status, message) ← read_status;
  active_variant_id ← read_string;
  variants ← read_vector read_variant;
  mret (mkConfigResourceVariantListResponse status message active_variant_id variants).

Definition wr_VariantListResponse (value : ConfigResourceVariantListResponse) : bool :=
  wr_status (vlp_status value, vlp_message value)
  && wr_string (vlp_active_variant_id value)
  && of_vector wr_variant (vlp_variants value).

Definition rd_VariantListResponse (value : ConfigResourceVariantListResponse) : bool :=
  rd_status (vlp_status value, vlp_message value)
  && wf_text (vlp_active_variant_id value) && of_vector rd_variant (vlp_variants value).

Lemma contract_VariantListResponse :
  contract write_VariantListResponse read_VariantListResponse wr_VariantListResponse
    rd_VariantListResponse.
Proof.
  solve_contract write_VariantListResponse read_VariantListResponse
    wr_VariantListResponse rd_VariantListResponse.
Qed.

#[export] Instance VariantListResponse_message : ConfigMessage ConfigResourceVariantListResponse :=
  {| cm_write := write_VariantListResponse; cm_read := read_VariantListResponse;
     cm_wr := wr_VariantListResponse; cm_rd := rd_VariantListResponse |}.

Lemma payload_VariantListResponse : payload_contract ConfigResourceVariantListResponse.
Proof.
  solve_payload write_VariantListResponse wr_VariantListResponse contract_VariantListResponse.
Qed.

Definition write_VariantCreateRequest (value : ConfigResourceVariantCreateRequest) : writer :=
  write_string (vcq_resource_id value) ;;; write_string (vcq_variant_id value) ;;;
  write_variant_source (vcq_source value) ;;;
  write_string (vcq_expected_active_revision value).

Definition read_VariantCreateRequest : reader ConfigResourceVariantCreateRequest :=
  resource_id ← read_string;
  variant_id ← read_string;
  source ← read_variant_source;
  expected_active_revision ← read_string;
  mret (mkConfigResourceVariantCreateRequest resource_id variant_id source
    expected_active_revision).

Definition wr_VariantCreateRequest (value : ConfigResourceVariantCreateRequest) : bool :=
  wr_string (vcq_resource_id value) && wr_string (vcq_variant_id value)
  && wr_string (vcq_expected_active_revision value).

Definition rd_VariantCreateRequest (value : ConfigResourceVariantCreateRequest) : bool :=
  wf_text (vcq_resource_id value) && wf_text (vcq_variant_id value)
  && wf_text (vcq_expected_active_revision value).

Lemma contract_VariantCreateRequest :
  contract write_VariantCreateRequest read_VariantCreateRequest wr_VariantCreateRequest
    rd_VariantCreateRequest.
Proof.
  solve_contract write_VariantCreateRequest read_VariantCreateRequest
    wr_VariantCreateRequest rd_VariantCreateRequest.
Qed.

#[export] Instance VariantCreateRequest_message : ConfigMessage ConfigResourceVariantCreateRequest :=
  {| cm_write := write_VariantCreateRequest; cm_read := read_VariantCreateRequest;
     cm_wr := wr_VariantCreateRequest; cm_rd := rd_VariantCreateRequest |}.

Lemma payload_VariantCreateRequest : payload_contract ConfigResourceVariantCreateRequest.
Proof.
  solve_payload write_VariantCreateRequest wr_VariantCreateRequest contract_VariantCreateRequest.
Qed.

Definition write_VariantCreateResponse (value : ConfigResourceVariantCreateResponse) : writer :=
  write_status (vcp_status value, vcp_message value) ;;;
  write_variant (vcp_variant value) ;;; write_effects (vcp_effects value).

Definition read_VariantCreateResponse : reader ConfigResourceVariantCreateResponse :=
  '(status, message) ← read_status;
  variant ← read_variant;
  effects ← read_effects;
  mret (mkConfigResourceVariantCreateResponse status message variant effects).

Definition wr_VariantCreateResponse (value : ConfigResourceVariantCreateResponse) : bool :=
  wr_status (vcp_status value, vcp_message value) && wr_variant (vcp_variant value)
  && wr_effects (vcp_effects value).

Definition rd_VariantCreateResponse (value : ConfigResourceVariantCreateResponse) : bool :=
  rd_status (vcp_status value, vcp_message value) && rd_variant (vcp_variant value)
  && rd_effects (vcp_effects value).

Lemma contract_VariantCreateResponse :
  contract write_VariantCreateResponse read_VariantCreateResponse
    wr_VariantCreateResponse rd_VariantCreateResponse.
Proof.
  solve_contract write_VariantCreateResponse read_VariantCreateResponse
    wr_VariantCreateResponse rd_VariantCreateResponse.
Qed.

#[export] Instance VariantCreateResponse_message : ConfigMessage ConfigResourceVariantCreateResponse :=
  {| cm_write := write_VariantCreateResponse; cm_read := read_VariantCreateResponse;
     cm_wr := wr_VariantCreateResponse; cm_rd := rd_VariantCreateResponse |}.

Lemma payload_VariantCreateResponse : payload_contract ConfigResourceVariantCreateResponse.
Proof.
  solve_payload write_VariantCreateResponse wr_VariantCreateResponse contract_VariantCreateResponse.
Qed.

Definition write_VariantSaveCurrentRequest (value : ConfigResourceVariantSaveCurrentRequest) : writer :=
  write_string (vsq_resource_id value) ;;; write_string (vsq_variant_id value) ;;;
  write_string (vsq_expected_variant_revision value) ;;;
  write_string (vsq_expected_active_revision value).

Definition read_VariantSaveCurrentRequest : reader ConfigResourceVariantSaveCurrentRequest :=
  resource_id ← read_string;
  variant_id ← read_string;
  expected_variant_revision ← read_string;
  expected_active_revision ← read_string;
  mret (mkConfigResourceVariantSaveCurrentRequest resource_id variant_id
    expected_variant_revision expected_active_revision).

Definition wr_VariantSaveCurrentRequest (value : ConfigResourceVariantSaveCurrentRequest) : bool :=
  wr_string (vsq_resource_id value) && wr_string (vsq_variant_id value)
  && wr_string (vsq_expected_variant_revision value)
  && wr_string (vsq_expected_active_revision value).

Definition rd_VariantSaveCurrentRequest (value : ConfigResourceVariantSaveCurrentRequest) : bool :=
  wf_text (vsq_resource_id value) && wf_text (vsq_variant_id value)
  && wf_text (vsq_expected_variant_revision value)
  && wf_text (vsq_expected_active_revision value).

Lemma contract_VariantSaveCurrentRequest :
  contract write_VariantSaveCurrentRequest read_VariantSaveCurrentRequest
    wr_VariantSaveCurrentRequest rd_VariantSaveCurrentRequest.
Proof.
  solve_contract write_VariantSaveCurrentRequest read_VariantSaveCurrentRequest
    wr_VariantSaveCurrentRequest rd_VariantSaveCurrentRequest.
Qed.

#[export] Instance VariantSaveCurrentRequest_message : ConfigMessage ConfigResourceVariantSaveCurrentRequest :=
  {| cm_write := write_VariantSaveCurrentRequest; cm_read := read_VariantSaveCurrentRequest;
     cm_wr := wr_VariantSaveCurrentRequest; cm_rd := rd_VariantSaveCurrentRequest |}.

Lemma payload_VariantSaveCurrentRequest : payload_contract ConfigResourceVariantSaveCurrentRequest.
Proof.
  solve_payload write_VariantSaveCurrentRequest wr_VariantSaveCurrentRequest contract_VariantSaveCurrentRequest.
Qed.

Definition write_VariantSaveCurrentResponse (value : ConfigResourceVariantSaveCurrentResponse) : writer :=
  write_status (vsp_status value, vsp_message value) ;;;
  write_variant (vsp_variant value) ;;; write_effects (vsp_effects value).

Definition read_VariantSaveCurrentResponse : reader ConfigResourceVariantSaveCurrentResponse :=
  '(status, message) ← read_status;
  variant ← read_variant;
  effects ← read_effects;
  mret (mkConfigResourceVariantSaveCurrentResponse status message variant effects).

Definition wr_VariantSaveCurrentResponse (value : ConfigResourceVariantSaveCurrentResponse) : bool :=
  wr_status (vsp_status value, vsp_message value) && wr_variant (vsp_variant value)
  && wr_effects (vsp_effects value).

Definition rd_VariantSaveCurrentResponse (value : ConfigResourceVariantSaveCurrentResponse) : bool :=
  rd_status (vsp_status value, vsp_message value) && rd_variant (vsp_variant value)
  && rd_effects (vsp_effects value).

Lemma contract_VariantSaveCurrentResponse :
  contract write_VariantSaveCurrentResponse read_VariantSaveCurrentResponse
    wr_VariantSaveCurrentResponse rd_VariantSaveCurrentResponse.
Proof.
  solve_contract write_VariantSaveCurrentResponse read_VariantSaveCurrentResponse
    wr_VariantSaveCurrentResponse rd_VariantSaveCurrentResponse.
Qed.

#[export] Instance VariantSaveCurrentResponse_message : ConfigMessage ConfigResourceVariantSaveCurrentResponse :=
  {| cm_write := write_VariantSaveCurrentResponse; cm_read := read_VariantSaveCurrentResponse;
     cm_wr := wr_VariantSaveCurrentResponse; cm_rd := rd_VariantSaveCurrentResponse |}.

Lemma payload_VariantSaveCurrentResponse : payload_contract ConfigResourceVariantSaveCurrentResponse.
Proof.
  solve_payload write_VariantSaveCurrentResponse wr_VariantSaveCurrentResponse contract_VariantSaveCurrentResponse.
Qed.

Definition write_VariantActivateRequest (value : ConfigResourceVariantActivateRequest) : writer :=
  write_string (vaq_resource_id value) ;;; write_string (vaq_variant_id value) ;;;
  write_string (vaq_expected_active_revision value).

Definition read_VariantActivateRequest : reader ConfigResourceVariantActivateRequest :=
  resource_id ← read_string;
  variant_id ← read_string;
  expected_active_revision ← read_string;
  mret (mkConfigResourceVariantActivateRequest resource_id variant_id
    expected_active_revision).

Definition wr_VariantActivateRequest (value : ConfigResourceVariantActivateRequest) : bool :=
  wr_string (vaq_resource_id value) && wr_string (vaq_variant_id value)
  && wr_string (vaq_expected_active_revision value).

Definition rd_VariantActivateRequest (value : ConfigResourceVariantActivateRequest) : bool :=
  wf_text (vaq_resource_id value) && wf_text (vaq_variant_id value)
  && wf_text (vaq_expected_active_revision value).

Lemma contract_VariantActivateRequest :
  contract write_VariantActivateRequest read_VariantActivateRequest
    wr_VariantActivateRequest rd_VariantActivateRequest.
Proof.
  solve_contract write_VariantActivateRequest read_VariantActivateRequest
    wr_VariantActivateRequest rd_VariantActivateRequest.
Qed.

#[export] Instance VariantActivateRequest_message : ConfigMessage ConfigResourceVariantActivateRequest :=
  {| cm_write := write_VariantActivateRequest; cm_read := read_VariantActivateRequest;
     cm_wr := wr_VariantActivateRequest; cm_rd := rd_VariantActivateRequest |}.

Lemma payload_VariantActivateRequest : payload_contract ConfigResourceVariantActivateRequest.
Proof.
  solve_payload write_VariantActivateRequest wr_VariantActivateRequest contract_VariantActivateRequest.
Qed.

Definition write_VariantActivateResponse (value : ConfigResourceVariantActivateResponse) : writer :=
  write_status (vap_status value, vap_message value) ;;;
  write_string (vap_applied_revision value) ;;; write_outcome (vap_outcome value) ;;;
  write_effects (vap_effects value).

Definition read_VariantActivateResponse : reader ConfigResourceVariantActivateResponse :=
  '(status, message) ← read_status;
  applied_revision ← read_string;
  outcome ← read_outcome;
  effects ← read_effects;
  mret (mkConfigResourceVariantActivateResponse status message applied_revision outcome
    effects).

Definition wr_VariantActivateResponse (value : ConfigResourceVariantActivateResponse) : bool :=
  wr_status (vap_status value, vap_message value)
  && wr_string (vap_applied_revision value) && wr_effects (vap_effects value).

Definition rd_VariantActivateResponse (value : ConfigResourceVariantActivateResponse) : bool :=
  rd_status (vap_status value, vap_message value)
  && wf_text (vap_applied_revision value) && rd_effects (vap_effects value).

Lemma contract_VariantActivateResponse :
  contract write_VariantActivateResponse read_VariantActivateResponse
    wr_VariantActivateResponse rd_VariantActivateResponse.
Proof.
  solve_contract write_VariantActivateResponse read_VariantActivateResponse
    wr_VariantActivateResponse rd_VariantActivateResponse.
Qed.

#[export] Instance VariantActivateResponse_message : ConfigMessage ConfigResourceVariantActivateResponse :=
  {| cm_write := write_VariantActivateResponse; cm_read := read_VariantActivateResponse;
     cm_wr := wr_VariantActivateResponse; cm_rd := rd_VariantActivateResponse |}.

Lemma payload_VariantActivateResponse : payload_contract ConfigResourceVariantActivateResponse.
Proof.
  solve_payload write_VariantActivateResponse wr_VariantActivateResponse contract_VariantActivateResponse.
Qed.

Definition write_VariantDeleteRequest (value : ConfigResourceVariantDeleteRequest) : writer :=
  write_string (vdq_resource_id value) ;;; write_string (vdq_variant_id value) ;;;
  write_string (vdq_expected_revision value).

Definition read_VariantDeleteRequest : reader ConfigResourceVariantDeleteRequest :=
  resource_id ← read_string;
  variant_id ← read_string;
  expected_revision ← read_string;
  mret (mkConfigResourceVariantDeleteRequest resource_id variant_id expected_revision).

Definition wr_VariantDeleteRequest (value : ConfigResourceVariantDeleteRequest) : bool :=
  wr_string (vdq_resource_id value) && wr_string (vdq_variant_id value)
  && wr_string (vdq_expected_revision value).

Definition rd_VariantDeleteRequest (value : ConfigResourceVariantDeleteRequest) : bool :=
  wf_text (vdq_resource_id value) && wf_text (vdq_variant_id value)
  && wf_text (vdq_expected_revision value).

Lemma contract_VariantDeleteRequest :
  contract write_VariantDeleteRequest read_VariantDeleteRequest wr_VariantDeleteRequest
    rd_VariantDeleteRequest.
Proof.
  solve_contract write_VariantDeleteRequest read_VariantDeleteRequest
    wr_VariantDeleteRequest rd_VariantDeleteRequest.
Qed.

#[export] Instance VariantDeleteRequest_message : ConfigMessage ConfigResourceVariantDeleteRequest :=
  {| cm_write := write_VariantDeleteRequest; cm_read := read_VariantDeleteRequest;
     cm_wr := wr_VariantDeleteRequest; cm_rd := rd_VariantDeleteRequest |}.

Lemma payload_VariantDeleteRequest : payload_contract ConfigResourceVariantDeleteRequest.
Proof.
  solve_payload write_VariantDeleteRequest wr_VariantDeleteRequest contract_VariantDeleteRequest.
Qed.

Definition write_VariantDeleteResponse (value : ConfigResourceVariantDeleteResponse) : writer :=
  write_status (vdp_status value, vdp_message value).

Definition read_VariantDeleteResponse : reader ConfigResourceVariantDeleteResponse :=
  '(status, message) ← read_status;
  mret (mkConfigResourceVariantDeleteResponse status message).

Definition wr_VariantDeleteResponse (value : ConfigResourceVariantDeleteResponse) : bool :=
  wr_status (vdp_status value, vdp_message value).

Definition rd_VariantDeleteResponse (value : ConfigResourceVariantDeleteResponse) : bool :=
  rd_status (vdp_status value, vdp_message value).

Lemma contract_VariantDeleteResponse :
  contract write_VariantDeleteResponse read_VariantDeleteResponse
    wr_VariantDeleteResponse rd_VariantDeleteResponse.
Proof.
  solve_contract write_VariantDeleteResponse read_VariantDeleteResponse
    wr_VariantDeleteResponse rd_VariantDeleteResponse.
Qed.

#[export] Instance VariantDeleteResponse_message : ConfigMessage ConfigResourceVariantDeleteResponse :=
  {| cm_write := write_VariantDeleteResponse; cm_read := read_VariantDeleteResponse;
     cm_wr := wr_VariantDeleteResponse; cm_rd := rd_VariantDeleteResponse |}.

Lemma payload_VariantDeleteResponse : payload_contract ConfigResourceVariantDeleteResponse.
Proof.
  solve_payload write_VariantDeleteResponse wr_VariantDeleteResponse contract_VariantDeleteResponse.
Qed.

(** ** The describe request *)
Lemma writes_DescribeRequest v : writes (write_DescribeRequest v).
Proof. unfold write_DescribeRequest. auto 10 with codec. Qed.

Lemma describe_encode v :
  wr_DescribeRequest v = true →
  v2_encode v = output (write_string (drq_resource_id v))
    ++ (if bool_decide (drq_locale v = EmptyString) then []
        else output (write_string (drq_locale v))).
Proof.
  unfold wr_DescribeRequest. intros Hw. bool_hyps.
  unfold v2_encode, encode_payload. cbn. unfold write_DescribeRequest.
  rewrite writes_run, valid_seq, output_seq by auto 10 with codec.
  rewrite (ct_valid _ _ _ _ contract_string), H. cbn [andb].
  destruct (bool_decide _); cbn [negb]; [done|].
  by rewrite (ct_valid _ _ _ _ contract_string), H0.
Qed.

Lemma describe_refused v :
  wr_DescribeRequest v = false → v2_encode v = [].
Proof.
  unfold wr_DescribeRequest. intros Hw. unfold v2_encode, encode_payload. cbn.
  unfold write_DescribeRequest. rewrite writes_run, valid_seq by auto 10 with codec.
  rewrite (ct_valid _ _ _ _ contract_string).
  destruct (wr_string (drq_resource_id v)); [|done]. cbn [andb] in *.
  destruct (bool_decide_reflect (drq_locale v = EmptyString)) as [E|E]; cbn [negb].
  - by rewrite E in Hw.
  - by rewrite (ct_valid _ _ _ _ contract_string), Hw.
Qed.

(** A string at the front of a buffer, and whether anything follows it. *)
Lemma read_string_front s rest :
  wr_string s = true → wf_text s = true →
  read_string (mkReader (output (write_string s) ++ rest) 0)
  = Some (s, mkReader (output (write_string s) ++ rest) (length (output (write_string s)))).
Proof. intros Hw Hr. apply (ct_parses _ _ _ _ contract_string s Hw Hr [] rest). Qed.

Lemma at_end_front bs rest :
  at_end (mkReader (bs ++ rest) (length bs))
  = Some (bool_decide (rest = []), mkReader (bs ++ rest) (length bs)).
Proof.
  unfold at_end. cbn. rewrite length_app. do 2 f_equal. destruct rest; cbn.
  - apply Z.eqb_eq. lia.
  - apply Z.eqb_neq. lia.
Qed.

Lemma describe_roundtrip v :
  wr_DescribeRequest v = true → v2_decode (v2_encode v) = Some v.
Proof.
  intros Hw. rewrite describe_encode by done. unfold wr_DescribeRequest in Hw. bool_hyps.
  assert (Hwf : ∀ s, wr_string s = true → wf_text s = true).
  { unfold wr_string, wf_text, kMaxCoreStringBytes, uint16_max. intros. bool_hyps. bool_solve. }
  unfold v2_decode, decode_payload. cbn. unfold r_run, read_DescribeRequest.
  unfold mbind, reader_bind. rewrite read_string_front, at_end_front by auto.
  destruct v as [rid locale]. cbn in *.
  destruct (bool_decide_reflect (locale = EmptyString)) as [->|E].
  - unfold mret, reader_ret. cbn. by rewrite app_nil_r, Z.eqb_refl.
  - rewrite bool_decide_false by (by apply output_string_nonempty).
    pose proof (ct_parses _ _ _ _ contract_string locale H0 (Hwf _ H0)
      (output (write_string rid)) []) as Hp. rewrite !app_nil_r in Hp. rewrite Hp.
    unfold mret, reader_ret. cbn. by rewrite length_app, Z.eqb_refl.
Qed.

(** What the reader accepted was one string or two. *)
Lemma reads_DescribeRequest :
  reads read_DescribeRequest (λ bytes v,
    rd_DescribeRequest v = true ∧ (wr_DescribeRequest v = true →
      (bytes = output (write_string (drq_resource_id v)) ∧ drq_locale v = EmptyString)
      ∨ bytes = output (write_string (drq_resource_id v))
                ++ output (write_string (drq_locale v)))).
Proof.
  unfold read_DescribeRequest, rd_DescribeRequest, wr_DescribeRequest.
  eapply reads_bind; [apply contract_string|]. intros bs rid [Hrid Hbs].
  eapply (reads_bind at_end _ (λ bs _, bs = [])).
  { unfold at_end. intros r b r' E Hc. simplify_eq.
    exists []. split_and!; done || lia. }
  intros ? [] ->.
  - apply reads_ret. cbn. rewrite Hrid, app_nil_r. split; [done|].
    intros Hw. bool_hyps. left. auto.
  - cbn [app]. eapply reads_bind; [apply contract_string|]. intros bs' locale [Hl Hbs'].
    apply reads_ret. rewrite app_nil_r. cbn. rewrite Hrid, Hl. split; [done|].
    intros Hw. bool_hyps. right. by rewrite Hbs, Hbs'.
Qed.

Lemma describe_sound bytes v :
  v2_decode bytes = Some v →
  rd_DescribeRequest v = true ∧ (wr_DescribeRequest v = true →
    bytes = v2_encode v
    ∨ (drq_locale v = EmptyString ∧ bytes = v2_encode v ++ output (write_string EmptyString))).
Proof.
  intros Hd. destruct (reads_run _ _ _ _ reads_DescribeRequest Hd) as [Hr Hw].
  split; [done|]. intros Hok. rewrite describe_encode by done.
  destruct (Hw Hok) as [[-> ->] | ->]; [left; by rewrite app_nil_r|].
  destruct (bool_decide_reflect (drq_locale v = EmptyString)) as [->|]; [right|by left].
  by rewrite app_nil_r.
Qed.

(** ** Properties *)

(** C12 Every configuration message but the describe request keeps its contract: a value
    encodes exactly when its strings, vectors and numbers are within the writer's limits;
    a value both sides can hold decodes to itself; and whatever decodes is within the
    reader's limits and, when it can be encoded, is spelled by that one encoding. *)
Theorem config_messages_contract :
  payload_contract ConfigResourceListRequest
  ∧ payload_contract ConfigResourceListResponse
  ∧ payload_contract ConfigResourceDescribeResponse
  ∧ payload_contract ConfigResourceGetRequest
  ∧ payload_contract ConfigResourceGetResponse
  ∧ payload_contract ConfigResourcePatchRequest
  ∧ payload_contract ConfigResourcePatchResponse
  ∧ payload_contract ConfigResourceApplyRequest
  ∧ payload_contract ConfigResourceApplyResponse
  ∧ payload_contract ConfigResourceVariantListRequest
  ∧ payload_contract ConfigResourceVariantListResponse
  ∧ payload_contract ConfigResourceVariantCreateRequest
  ∧ payload_contract ConfigResourceVariantCreateResponse
  ∧ payload_contract ConfigResourceVariantSaveCurrentRequest
  ∧ payload_contract ConfigResourceVariantSaveCurrentResponse
  ∧ payload_contract ConfigResourceVariantActivateRequest
  ∧ payload_contract ConfigResourceVariantActivateResponse
  ∧ payload_contract ConfigResourceVariantDeleteRequest
  ∧ payload_contract ConfigResourceVariantDeleteResponse.
Proof. repeat match goal with |- _ ∧ _ => split end;
  first [ exact payload_ListRequest | exact payload_ListResponse |
          exact payload_DescribeResponse | exact payload_GetRequest |
          exact payload_GetResponse | exact payload_PatchRequest |
          exact payload_PatchResponse | exact payload_ApplyRequest |
          exact payload_ApplyResponse | exact payload_VariantListRequest |
          exact payload_VariantListResponse | exact payload_VariantCreateRequest |
          exact payload_VariantCreateResponse |
          exact payload_VariantSaveCurrentRequest |
          exact payload_VariantSaveCurrentResponse |
          exact payload_VariantActivateRequest |
          exact payload_VariantActivateResponse | exact payload_VariantDeleteRequest |
          exact payload_VariantDeleteResponse ]. Qed.

(** A describe request encodes exactly when its strings fit, decodes to itself, and
    what decodes is its encoding or, for the default locale, the encoding followed by an
    explicit empty string. *)
Theorem describe_request_contract (value : ConfigResourceDescribeRequest) :
  (v2_encode value ≠ [] ↔ wr_DescribeRequest value = true)
  ∧ (wr_DescribeRequest value = true → v2_decode (v2_encode value) = Some value)
  ∧ (∀ bytes, v2_decode bytes = Some value →
       rd_DescribeRequest value = true ∧ (wr_DescribeRequest value = true →
         bytes = v2_encode value
         ∨ (drq_locale value = EmptyString ∧ bytes = v2_encode value ++ [x00; x00]))).
Proof.
  split; [|split; [apply describe_roundtrip|intros bytes; apply describe_sound]].
  destruct (wr_DescribeRequest value) eqn:E; [|by rewrite describe_refused].
  split; [done|]. intros _. rewrite describe_encode by done.
  unfold wr_DescribeRequest in E. bool_hyps.
  pose proof (output_string_nonempty (drq_resource_id value) ltac:(done)).
  by destruct (output (write_string (drq_resource_id value))).
Qed.

(** A string of [n] letters. *)
Fixpoint letters (n : nat) : string :=
  match n with O => EmptyString | S n => String "a"%char (letters n) end.

Lemma length_letters n : String.length (letters n) = n.
Proof. induction n; cbn; auto. Qed.

(** (finding) The reader does not apply the writer's limit on strings: for every
    length from 1025 to 65535 there is a payload that decodes to a request naming a
    resource of that length, and that request cannot be encoded again. *)
Theorem decoded_string_not_encodable n :
  kMaxCoreStringBytes < Z.of_nat n <= uint16_max →
  ∃ (bytes : Bytes) (value : ConfigResourceVariantListRequest),
    v2_decode bytes = Some value ∧ String.length (vlq_resource_id value) = n
    ∧ v2_encode value = [].
Proof.
  intros Hn. exists (output (w_text (letters n))), (mkConfigResourceVariantListRequest (letters n)).
  split; [|split; [apply length_letters|]].
  - unfold v2_decode, decode_payload. cbn [cm_read VariantListRequest_message].
    apply parses_run. unfold read_VariantListRequest.
    eapply parses_last; [apply (codec_parses _ _ _ _ codec_text)|apply parses_ret].
    unfold wf_text. rewrite length_letters. bool_solve.
  - destruct payload_VariantListRequest as (Hne & _).
    destruct (v2_encode _) eqn:E; [done|]. exfalso.
    assert (Hw : cm_wr (mkConfigResourceVariantListRequest (letters n)) = true)
      by (apply Hne; by rewrite E).
    cbn [cm_wr VariantListRequest_message] in Hw. unfold wr_VariantListRequest in Hw.
    cbn [vlq_resource_id] in Hw. unfold wr_string in Hw.
    rewrite length_letters in Hw. bool_hyps. lia.
Qed.

Lemma decoded_string_not_encodable_witness :
  ∃ (bytes : Bytes) (value : ConfigResourceVariantListRequest),
    v2_decode bytes = Some value ∧ String.length (vlq_resource_id value) = 1025%nat
    ∧ v2_encode value = [].
Proof. apply (decoded_string_not_encodable 1025). by vm_compute. Defined.

(** The bit pattern of a quiet NaN. *)
Definition nan64 : Z := 9221120237041090560.

Definition unlimited_schema : ConfigFieldSchema :=
  mkConfigFieldSchema "gain" "Gain" EmptyString ValueDouble false false false false 0 false
    nan64 EmptyString [] EmptyString PolicyHotReload EmptyString default_ConfigValue false
    false.

(** (finding) The writer does not check the limits of a schema the reader wants
    finite: a response with a field whose unused maximum is a NaN encodes, and no peer
    can decode it. *)
Theorem nan_limit_not_decodable :
  let response := mkConfigResourceDescribeResponse StatusOk EmptyString
    (mkConfigResourceDescriptor "camera" "Camera" EmptyString true false false false)
    [unlimited_schema] in
  v2_encode response ≠ [] ∧ (v2_decode (v2_encode response) : option ConfigResourceDescribeResponse) = None.
Proof. split; [vm_compute; discriminate|vm_compute; reflexivity]. Qed.
