(* ===== verification/Discovery.v ===== *)
(** * Discovery: the query and reply datagrams

    [include/yunlink/discovery/discovery_v2.hpp] and
    [src/discovery/discovery_v2.cpp]: a big-endian writer and reader, the tag that ends
    every datagram, and the codecs of queries and replies in the three formats.  The
    reader of the source carries the size of the payload in front of the tag; here it
    runs over that prefix of the datagram. *)

From Stdlib Require Import ZArith Lia String Ascii Strings.Byte.
From stdpp Require Import base gmap strings list fin_maps.
From S2P Require Import Prelude Fnv StdMap Codec WireTypes CoreMessages.
Local Open Scope string_scope.
Local Open Scope list_scope.
Local Open Scope Z_scope.

(** ** Data *)

Definition kDefaultDiscoveryPort : Z := 9697.
Definition kDiscoveryFormatV2 : Z := 2.
Definition kDiscoveryFormatV3 : Z := 3.
Definition kDiscoveryFormatV4 : Z := 4.

Record DiscoveryQuery := mkDiscoveryQuery {
  q_nonce : Z;
  q_response_window_ms : Z;
  q_format_version : Z;
}.

Record DiscoveryEntitySummary := mkDiscoveryEntitySummary {
  des_entity_uid : string;
  des_kind : string;
  des_display_name : string;
  des_availability : Availability;
  des_agent_id : Z;
  des_attributes : stdmap string string;
}.

Record DiscoveryAdvertisement := mkDiscoveryAdvertisement {
  da_endpoint_uid : string;
  da_display_name : string;
  da_tcp_listen_port : Z;
  da_capabilities : list string;
  da_profiles : list ProfileDescriptor;
  da_attributes : stdmap string string;
  da_entities : list DiscoveryEntitySummary;
  da_started_at_ms : Z;
  da_sequence : Z;
}.

Definition kQueryMagicV2 : Bytes := bytes_of "YLQ2".
Definition kQueryMagicV3 : Bytes := bytes_of "YLQ3".
Definition kQueryMagicV4 : Bytes := bytes_of "YLQ4".
Definition kReplyMagicV2 : Bytes := bytes_of "YLR2".
Definition kReplyMagicV3 : Bytes := bytes_of "YLR3".
Definition kReplyMagicV4 : Bytes := bytes_of "YLR4".
Definition kMaxDiscoveryBytes : Z := 8192.
Definition kMaxAttributeCount : Z := 32.
Definition kMaxAttributeKeyBytes : Z := 64.
Definition kMaxAttributeValueBytes : Z := 512.
Definition kFnvOffset : Z := 14695981039346656037.
Definition kFnvPrime : Z := 1099511628211.

(** ** The tag *)

Definition auth_step (value : Z) (b : byte) : Z := uint64 (Z.lxor value (val b) * kFnvPrime).

Definition auth_tag (secret : string) (data : Bytes) : Z :=
  foldl auth_step (foldl auth_step kFnvOffset (bytes_of secret)) data.

(** ** Writer *)

Definition w_u8 (value : Z) : writer := w_bytes [byte_of value].
Definition w_u16 (value : Z) : writer :=
  w_bytes [byte_of (value ≫ 8); byte_of value].
Definition w_u32 (value : Z) : writer := w_bytes (write_be 4 value).
Definition w_u64 (value : Z) : writer := w_bytes (write_be 8 value).

Definition w_text (value : string) : writer :=
  if ssize value >? uint16_max then w_invalidate
  else w_u16 (ssize value) ;;; w_bytes (bytes_of value).

(** The condition on which [attributes] gives up on an entry. *)
Definition bad_attribute (key value : string) : bool :=
  bool_decide (key = EmptyString) || (ssize key >? kMaxAttributeKeyBytes)
  || (ssize value >? kMaxAttributeValueBytes).

(** The loop of [attributes]: it returns at the first bad entry. *)
Fixpoint w_attribute_loop (entries : list (string * string)) : writer :=
  match entries with
  | [] => w_nop
  | (key, value) :: entries =>
    if bad_attribute key value then w_invalidate
    else w_text key ;;; w_text value ;;; w_attribute_loop entries
  end.

Definition w_attributes (values : stdmap string string) : writer :=
  if vsize (map_to_list values) >? kMaxAttributeCount then w_invalidate
  else w_u8 (vsize (map_to_list values)) ;;; w_attribute_loop (map_to_list values).

(** [finish]: the payload with its tag, when it is valid and fits a datagram. *)
Definition finish (secret : string) (f : writer) : Bytes :=
  let w := f (mkWriter [] true) in
  if negb (wr_valid w) || (vsize (wr_data w) + 8 >? kMaxDiscoveryBytes) then []
  else wr_data w ++ write_be 8 (auth_tag secret (wr_data w)).

(** ** Reader *)

(** [magic]: whether the next four bytes are [expected]; they are consumed only then. *)
Definition r_magic (expected : Bytes) : reader bool := λ r,
  if (Z.of_nat (rd_cursor r) + vsize expected <=? vsize (rd_data r))
     && bool_decide (take (length expected) (drop (rd_cursor r) (rd_data r)) = expected)
  then Some (true, mkReader (rd_data r) (rd_cursor r + length expected))
  else Some (false, r).

Definition r_u8 : reader Z :=
  bs ← take_bytes 1; mret (match bs with [b] => val b | _ => 0 end).
Definition r_u16 : reader Z :=
  bs ← take_bytes 2;
  mret (match bs with
        | [b0; b1] => Z.lor (uint16 (val b0 ≪ 8)) (val b1)
        | _ => 0
        end).
Definition r_u32 : reader Z := bs ← take_bytes 4; mret (read_be 0 bs).
Definition r_u64 : reader Z := bs ← take_bytes 8; mret (read_be 0 bs).

Definition r_text : reader string :=
  size ← r_u16; bs ← take_bytes size; mret (string_of bs).

(** One round of the loop of [attributes]. *)
Definition r_attribute : reader (string * string) :=
  key ← r_text;
  _ ← check (negb (bool_decide (key = EmptyString)));
  _ ← check (negb (ssize key >? kMaxAttributeKeyBytes));
  value ← r_text;
  _ ← check (negb (ssize value >? kMaxAttributeValueBytes));
  mret (key, value).

Definition r_attributes : reader (stdmap string string) :=
  count ← r_u8; _ ← check (negb (count >? kMaxAttributeCount));
  r_entries r_attribute (Z.to_nat count) ∅.

(** [authenticated]: the last eight bytes are the tag of the others. *)
Definition supplied_tag (bytes : Bytes) : Z :=
  foldl (λ supplied b, Z.lor (uint64 (supplied ≪ 8)) (val b)) 0 bytes.

Definition payload (bytes : Bytes) : Bytes := take (length bytes - 8) bytes.

Definition authenticated (bytes : Bytes) (secret : string) : bool :=
  if vsize bytes <? 8 then false
  else supplied_tag (drop (length bytes - 8) bytes) =? auth_tag secret (payload bytes).

(** ** Queries *)

Definition query_magic (format_version : Z) : Bytes :=
  if format_version =? kDiscoveryFormatV4 then kQueryMagicV4
  else if format_version =? kDiscoveryFormatV3 then kQueryMagicV3 else kQueryMagicV2.

Definition query_acceptable (query : DiscoveryQuery) : bool :=
  negb ((q_nonce query =? 0) || (q_response_window_ms query =? 0)
        || (negb (q_format_version query =? kDiscoveryFormatV2)
            && negb (q_format_version query =? kDiscoveryFormatV3)
            && negb (q_format_version query =? kDiscoveryFormatV4))).

Definition w_query_magic (format_version : Z) : writer := w_bytes (query_magic format_version).

Definition write_query (query : DiscoveryQuery) : writer :=
  w_query_magic (q_format_version query) ;;; w_u64 (q_nonce query) ;;;
  w_u16 (q_response_window_ms query).

Definition encode_discovery_query (query : DiscoveryQuery) (shared_secret : string) : Bytes :=
  if query_acceptable query then finish shared_secret (write_query query) else [].

Definition r_fail {A} : reader A := λ _, None.

(** The chain of [reader.magic] calls. *)
Definition r_format (magic_v4 magic_v3 magic_v2 : Bytes) : reader Z :=
  v4 ← r_magic magic_v4;
  if v4 : bool then mret kDiscoveryFormatV4 else
  v3 ← r_magic magic_v3;
  if v3 : bool then mret kDiscoveryFormatV3 else
  v2 ← r_magic magic_v2;
  if v2 : bool then mret kDiscoveryFormatV2 else r_fail.

Definition read_query : reader DiscoveryQuery :=
  format_version ← r_format kQueryMagicV4 kQueryMagicV3 kQueryMagicV2;
  nonce ← r_u64;
  response_window_ms ← r_u16;
  mret (mkDiscoveryQuery nonce response_window_ms format_version).

Definition decode_discovery_query (bytes : Bytes) (shared_secret : string) :
    option DiscoveryQuery :=
  if negb (vsize bytes =? 22) || negb (authenticated bytes shared_secret) then None
  else
    match r_run read_query (payload bytes) with
    | Some query =>
      if (q_nonce query =? 0) || (q_response_window_ms query =? 0) then None
      else Some query
    | None => None
    end.

(** ** Replies *)

Definition valid_attributes (attributes : stdmap string string) : bool :=
  (vsize (map_to_list attributes) <=? kMaxAttributeCount)
  && forallb (λ entry, negb (bool_decide (entry.1 = EmptyString))
                       && (ssize entry.1 <=? kMaxAttributeKeyBytes)
                       && (ssize entry.2 <=? kMaxAttributeValueBytes))
       (map_to_list attributes).

Definition valid_advertisement (value : DiscoveryAdvertisement) : bool :=
  if negb (valid_uid (da_endpoint_uid value)) || (da_tcp_listen_port value =? 0)
     || (vsize (da_capabilities value) >? 255) || (vsize (da_profiles value) >? 255)
     || (vsize (da_entities value) >? 255) then false
  else
    valid_attributes (da_attributes value)
    && forallb (λ profile, valid_profile_id (pd_profile_id profile) && (0 <? pd_major profile))
         (da_profiles value)
    && forallb (λ entity, valid_uid (des_entity_uid entity)
                          && valid_attributes (des_attributes entity))
         (da_entities value).

Definition discovery_advertisement_is_valid (value : DiscoveryAdvertisement) : bool :=
  valid_advertisement value.

Definition reply_magic (format_version : Z) : Bytes :=
  if kDiscoveryFormatV4 <=? format_version then kReplyMagicV4
  else if kDiscoveryFormatV3 <=? format_version then kReplyMagicV3 else kReplyMagicV2.

(** A member the format does not carry is skipped, and read as its initializer. *)
Definition w_when {A} (carried : bool) (write : A → writer) (value : A) : writer :=
  if carried then write value else w_nop.
Definition r_when {A} (carried : bool) (read : reader A) (initial : A) : reader A :=
  if carried then read else mret initial.

(** A count in one byte, then the values. *)
Definition w_counted {A} (write : A → writer) (values : list A) : writer :=
  w_u8 (vsize values) ;;; w_for write values.
Definition r_counted {A} (read : reader A) : reader (list A) :=
  count ← r_u8; r_times (Z.to_nat count) read.

Definition write_profile (profile : ProfileDescriptor) : writer :=
  w_text (pd_profile_id profile) ;;; w_u16 (pd_major profile) ;;;
  w_u16 (pd_minor profile) ;;; w_text (pd_schema_digest profile).

Definition read_profile : reader ProfileDescriptor :=
  profile_id ← r_text;
  major ← r_u16;
  minor ← r_u16;
  schema_digest ← r_text;
  mret (mkProfileDescriptor profile_id major minor schema_digest).

Definition w_available (value : Availability) : writer := w_u8 (Availability_value value).

Definition write_summary (format_version : Z) (entity : DiscoveryEntitySummary) : writer :=
  w_text (des_entity_uid entity) ;;; w_text (des_kind entity) ;;;
  w_text (des_display_name entity) ;;;
  w_available (des_availability entity) ;;;
  w_when (kDiscoveryFormatV3 <=? format_version) w_u32 (des_agent_id entity) ;;;
  w_when (kDiscoveryFormatV4 <=? format_version) w_attributes (des_attributes entity).

Definition r_available : reader Availability :=
  availability ← r_u8;
  _ ← check (negb (availability >? Availability_value AvailabilityOffline));
  mret (Availability_cast availability).

Definition read_summary (format_version : Z) : reader DiscoveryEntitySummary :=
  entity_uid ← r_text;
  kind ← r_text;
  display_name ← r_text;
  availability ← r_available;
  agent_id ← r_when (kDiscoveryFormatV3 <=? format_version) r_u32 0;
  attributes ← r_when (kDiscoveryFormatV4 <=? format_version) r_attributes ∅;
  mret (mkDiscoveryEntitySummary entity_uid kind display_name availability agent_id attributes).

(** What follows the header of a reply. *)
Definition write_advertisement (format_version : Z) (value : DiscoveryAdvertisement) : writer :=
  w_text (da_endpoint_uid value) ;;; w_text (da_display_name value) ;;;
  w_u16 (da_tcp_listen_port value) ;;;
  w_counted w_text (da_capabilities value) ;;;
  w_counted write_profile (da_profiles value) ;;;
  w_when (kDiscoveryFormatV4 <=? format_version) w_attributes (da_attributes value) ;;;
  w_counted (write_summary format_version) (da_entities value) ;;;
  w_u64 (da_started_at_ms value) ;;; w_u64 (da_sequence value).

Definition read_advertisement (format_version : Z) : reader DiscoveryAdvertisement :=
  endpoint_uid ← r_text;
  display_name ← r_text;
  tcp_listen_port ← r_u16;
  capabilities ← r_counted r_text;
  profiles ← r_counted read_profile;
  attributes ← r_when (kDiscoveryFormatV4 <=? format_version) r_attributes ∅;
  entities ← r_counted (read_summary format_version);
  started_at_ms ← r_u64;
  sequence ← r_u64;
  mret (mkDiscoveryAdvertisement endpoint_uid display_name tcp_listen_port capabilities
    profiles attributes entities started_at_ms sequence).

Definition w_reply_magic (format_version : Z) : writer := w_bytes (reply_magic format_version).

Definition write_reply (query : DiscoveryQuery) (value : DiscoveryAdvertisement) : writer :=
  w_reply_magic (q_format_version query) ;;; w_u64 (q_nonce query) ;;;
  w_u8 kProtocolMajor ;;; w_u8 kHeaderVersion ;;; w_u16 (q_format_version query) ;;;
  write_advertisement (q_format_version query) value.

Definition encode_discovery_reply (query : DiscoveryQuery)
    (advertisement : DiscoveryAdvertisement) (shared_secret : string) : Bytes :=
  if (q_nonce query =? 0) || negb (valid_advertisement advertisement) then []
  else finish shared_secret (write_reply query advertisement).

Definition read_reply (expected_nonce : Z) : reader DiscoveryAdvertisement :=
  format_version ← r_format kReplyMagicV4 kReplyMagicV3 kReplyMagicV2;
  nonce ← r_u64;
  _ ← check (nonce =? expected_nonce);
  protocol ← r_u8;
  _ ← check (protocol =? kProtocolMajor);
  header ← r_u8;
  _ ← check (header =? kHeaderVersion);
  schema ← r_u16;
  _ ← check (schema =? format_version);
  read_advertisement format_version.

Definition decode_discovery_reply (bytes : Bytes) (shared_secret : string)
    (expected_nonce : Z) : option DiscoveryAdvertisement :=
  if (vsize bytes >? kMaxDiscoveryBytes) || negb (authenticated bytes shared_secret) then None
  else
    match r_run (read_reply expected_nonce) (payload bytes) with
    | Some parsed => if valid_advertisement parsed then Some parsed else None
    | None => None
    end.

(** The test vector of tests/core/test_discovery_v2.cpp. *)
Example query_vector :
  encode_discovery_query (mkDiscoveryQuery 42 250 kDiscoveryFormatV2) "test-secret"
  = map byte_of [89; 76; 81; 50; 0; 0; 0; 0; 0; 0; 0; 42; 0; 250;
                 59; 144; 206; 254; 124; 65; 90; 6].
Proof. vm_compute. reflexivity. Qed.

(** ** The blocks are codecs *)

(** A fixed-width big-endian integer. *)
Lemma codec_be n (write : Z → writer) (read : reader Z) :
  (∀ v, write v = w_bytes (write_be n v)) →
  (∀ r, read r = (bs ← take_bytes (Z.of_nat n); mret (read_be 0 bs)) r) →
  codec eq write read (in_uint (8 * Z.of_nat n)).
Proof.
  intros Hw Hr.
  assert (Ho : ∀ v, output (write v) = write_be n v) by (intros v; by rewrite Hw).
  split.
  - intros v. rewrite Hw. auto with codec.
  - intros v _. by rewrite Hw.
  - intros v Hv. rewrite Ho. intros pre post. rewrite Hr. revert pre post.
    eapply parses_last; [apply parses_take; by rewrite length_write_be|].
    rewrite read_write_be by done. apply parses_ret.
  - intros r v r'. rewrite Hr. revert r v r'.
    eapply reads_bind; [apply reads_take; lia|]. intros bs ? [-> Hn].
    apply reads_ret. rewrite Ho, app_nil_r.
    assert (n = length bs) as -> by lia. split; [|by rewrite write_read_be].
    apply in_uint_range, read_be_range.
Qed.

Lemma codec_be_u8 : codec eq w_u8 r_u8 (in_uint 8).
Proof. exact CoreMessages.codec_u8. Qed.

Lemma r_u16_be bs :
  length bs = 2%nat →
  match bs with [b0; b1] => Z.lor (uint16 (val b0 ≪ 8)) (val b1) | _ => 0 end
  = read_be 0 bs.
Proof.
  destruct bs as [|b0 [|b1 [|]]]; try done. intros _. cbn -[Z.lor Z.shiftl].
  rewrite Z.lor_0_l, Z.shiftl_0_r. f_equal. apply uint_small, in_uint_range.
  rewrite Z.shiftl_mul_pow2 by lia. pose proof (val_range b0). lia.
Qed.

Lemma codec_be_u16 : codec eq w_u16 r_u16 (in_uint 16).
Proof.
  apply (codec_be 2); [intros v; cbn; by rewrite Z.shiftr_0_r|].
  intros r. unfold r_u16, mbind, reader_bind, take_bytes.
  destruct (_ <=? vsize _) eqn:?; [|done].
  unfold mret, reader_ret. do 2 f_equal. bool_hyps. apply r_u16_be.
  rewrite length_take, length_drop. lia.
Qed.

Lemma codec_be_u32 : codec eq w_u32 r_u32 (in_uint 32).
Proof. by apply (codec_be 4). Qed.

Lemma codec_be_u64 : codec eq w_u64 r_u64 (in_uint 64).
Proof. by apply (codec_be 8). Qed.

Lemma codec_be_text : codec eq w_text r_text wf_text.
Proof. exact (codec_sized_text _ _ codec_be_u16). Qed.

#[export] Hint Resolve codec_be_u8 codec_be_u16 codec_be_u32 codec_be_u64 codec_be_text : codecs.

(** *** Attributes *)

Definition w_attribute (entry : string * string) : writer :=
  w_text entry.1 ;;; w_text entry.2.
Definition wf_attribute (entry : string * string) : bool :=
  negb (bad_attribute entry.1 entry.2).

Lemma wf_attribute_text entry :
  wf_attribute entry = true → wf_text entry.1 = true ∧ wf_text entry.2 = true.
Proof.
  unfold wf_attribute, bad_attribute, wf_text, kMaxAttributeKeyBytes, kMaxAttributeValueBytes,
    uint16_max. rewrite !Z.gtb_ltb. intros H. bool_hyps. split; apply Z.leb_le; lia.
Qed.

Lemma codec_attribute : codec eq w_attribute r_attribute wf_attribute.
Proof.
  pose proof codec_be_text as Hc. split.
  - intros e. apply writes_seq; apply Hc.
  - intros e [H1 H2]%wf_attribute_text. unfold w_attribute.
    rewrite valid_seq by apply Hc. by rewrite !(codec_valid _ _ _ _ Hc).
  - intros [k v] He. destruct (wf_attribute_text _ He) as [H1 H2].
    unfold wf_attribute, bad_attribute in He. bool_hyps. cbn in *.
    unfold w_attribute, r_attribute. rewrite output_seq by apply Hc.
    eapply parses_bind; [by apply Hc|].
    apply parses_check; [by apply negb_true_iff, bool_decide_eq_false|].
    apply parses_check; [by apply negb_true_iff|].
    eapply parses_last; [by apply Hc|]. apply parses_check; [by apply negb_true_iff|].
    apply parses_ret.
  - unfold r_attribute. eapply reads_bind; [apply Hc|]. intros bs1 k [Hk ->].
    apply reads_check; intros C1. apply reads_check; intros C2.
    eapply reads_bind; [apply Hc|]. intros bs2 v [Hv ->].
    apply reads_check; intros C3. apply reads_ret. rewrite app_nil_r.
    unfold wf_attribute, bad_attribute, w_attribute. cbn. rewrite output_seq by apply Hc.
    by rewrite !negb_orb, C1, C2, C3.
Qed.

(** While every entry is good, the loop writes them all. *)
Lemma w_attribute_loop_for l w :
  forallb wf_attribute l = true → w_attribute_loop l w = w_for w_attribute l w.
Proof.
  revert w. induction l as [|[k v] l IH]; intros w Hl; [done|]. cbn in Hl. bool_hyps.
  unfold wf_attribute in H. bool_hyps. cbn in H |- *. rewrite H.
  unfold w_seq. rewrite IH by done. done.
Qed.

Lemma attribute_loop_for l :
  forallb wf_attribute l = true →
  valid (w_attribute_loop l) = true
  ∧ output (w_attribute_loop l) = concat ((output ∘ w_attribute) <$> l).
Proof.
  intros Hl. rewrite <- output_for by apply codec_attribute.
  unfold valid, output. rewrite !w_attribute_loop_for by done. split; [|done].
  change (valid (w_for w_attribute l) = true).
  rewrite (valid_for w_attribute) by apply codec_attribute.
  rewrite forallb_forall in Hl |- *. intros e He%Hl. by apply codec_attribute.
Qed.

Lemma writes_attribute_loop l : writes (w_attribute_loop l).
Proof.
  induction l as [|[k v] l IH]; [apply writes_nop|]. cbn.
  apply writes_if; [apply writes_invalidate|].
  apply writes_seq; [apply codec_be_text|].
  apply writes_seq; [apply codec_be_text|exact IH].
Qed.

Lemma valid_attributes_list m :
  valid_attributes m = (vsize (map_to_list m) <=? kMaxAttributeCount)
                       && forallb wf_attribute (map_to_list m).
Proof.
  unfold valid_attributes. f_equal. induction (map_to_list m) as [|[k v] l IH]; [done|].
  cbn [forallb]. rewrite IH. f_equal. unfold wf_attribute, bad_attribute. cbn.
  by rewrite !Z.gtb_ltb, !negb_orb, <- !Z.leb_antisym.
Qed.

Lemma codec_attributes : codec (≡ₚ) w_attributes r_attributes valid_attributes.
Proof.
  pose proof codec_be_u8 as H8.
  assert (Ht : ∀ m, valid_attributes m = true →
    in_uint 8 (vsize (map_to_list m)) = true ∧ forallb wf_attribute (map_to_list m) = true
    ∧ valid (w_attributes m) = true
    ∧ output (w_attributes m) = output (w_u8 (vsize (map_to_list m)))
        ++ concat ((output ∘ w_attribute) <$> map_to_list m)).
  { intros m. rewrite valid_attributes_list. intros [Hn Hl]%andb_true_iff.
    unfold w_attributes. rewrite Z.gtb_ltb, Z.ltb_antisym, Hn. cbn [negb].
    rewrite valid_seq, output_seq by (apply H8 || apply writes_attribute_loop).
    split; [unfold kMaxAttributeCount in Hn; bool_hyps; apply in_uint_range; lia|].
    destruct (attribute_loop_for _ Hl) as [-> ->]. by rewrite (codec_valid _ _ _ _ H8) by
      (unfold kMaxAttributeCount in Hn; bool_hyps; apply in_uint_range; lia). }
  split.
  - intros m. unfold w_attributes. apply writes_if; [apply writes_invalidate|].
    apply writes_seq; [apply H8|apply writes_attribute_loop].
  - intros m Hm. by apply Ht.
  - intros m Hm. destruct (Ht m Hm) as (Hin & Hwf & _ & ->). unfold r_attributes.
    eapply parses_bind; [by apply H8|]. rewrite valid_attributes_list in Hm.
    apply andb_true_iff in Hm as [Hn _].
    apply parses_check; [by rewrite Z.gtb_ltb, <- Z.leb_antisym|]. rewrite Nat2Z.id.
    apply (parses_entries codec_attribute); [done|]. apply emplace_all_to_list.
  - unfold r_attributes. eapply reads_bind; [apply H8|]. intros bs n [Hn ->].
    apply reads_check. rewrite Z.gtb_ltb, <- Z.leb_antisym. intros Hle.
    apply in_uint_range in Hn.
    eapply reads_mono; [apply (reads_entries codec_attribute)|]. intros bs m (Hl & Hwf & Hp).
    rewrite map_to_list_empty in Hl, Hwf, Hp. cbn in Hl, Hp. rewrite app_nil_r in Hp.
    specialize (Hwf (Forall_nil_2 _)).
    assert (Hm : valid_attributes m = true).
    { rewrite valid_attributes_list. bool_hyps. apply andb_true_iff.
      split; [apply Z.leb_le; lia|]. rewrite forallb_forall. intros e He%list_elem_of_In.
      by eapply Forall_forall in Hwf. }
    split; [done|]. destruct (Ht m Hm) as (_ & _ & _ & ->). rewrite <- Hp.
    by replace n with (vsize (map_to_list m)) by lia.
Qed.

(** *** Conditional members and counted lists *)

Definition wf_when {A} `{EqDecision A} (carried : bool) (wf : A → bool) (initial value : A) :
    bool :=
  if carried then wf value else bool_decide (value = initial).

Lemma codec_when {A} `{EqDecision A} R `{!ByteRel R} carried (write : A → writer) read wf
    initial :
  codec R write read wf →
  codec R (w_when carried write) (r_when carried read initial) (wf_when carried wf initial).
Proof.
  intros Hc. destruct carried; [exact Hc|]. split; cbn.
  - intros v. apply writes_nop.
  - done.
  - intros v ->%bool_decide_eq_true. apply parses_ret.
  - apply reads_ret. rewrite bool_decide_eq_true. split; [done|apply rel_refl].
Qed.

Lemma codec_when_eq {A} `{EqDecision A} carried (write : A → writer) read wf initial :
  codec eq write read wf →
  codec eq (w_when carried write) (r_when carried read initial) (wf_when carried wf initial).
Proof. apply codec_when, _. Qed.

Lemma writes_when {A} carried (write : A → writer) v :
  (∀ v, writes (write v)) → writes (w_when carried write v).
Proof. intros Hw. destruct carried; [apply Hw|apply writes_nop]. Qed.

Lemma writes_attributes m : writes (w_attributes m).
Proof. apply codec_attributes. Qed.

#[export] Hint Resolve writes_when | 0 : codec.
#[export] Hint Resolve writes_attributes : codec.

Definition wf_counted {A} (wf : A → bool) (values : list A) : bool :=
  (vsize values <=? 255) && forallb wf values.

Lemma codec_counted {A} R `{!ByteRel R} (write : A → writer) read wf :
  codec R write read wf → codec R (w_counted write) (r_counted read) (wf_counted wf).
Proof.
  intros Hc. pose proof codec_be_u8 as H8.
  assert (Hf : ∀ l, writes (w_for write l)) by (intros; apply writes_for, Hc).
  split.
  - intros l. unfold w_counted. apply writes_seq; [apply H8|done].
  - intros l [_ Hl]%andb_true_iff. unfold w_counted.
    rewrite valid_seq, valid_for by (done || apply H8 || apply Hc).
    apply andb_true_iff. split; [done|].
    rewrite forallb_forall in Hl |- *. intros x Hx%Hl. by apply Hc.
  - intros l [Hn Hl]%andb_true_iff. unfold w_counted, r_counted.
    rewrite output_seq, output_for by (done || apply H8 || apply Hc).
    eapply parses_bind; [apply H8; bool_hyps; apply in_uint_range; lia|]. rewrite Nat2Z.id.
    apply parses_times. intros x Hx%list_elem_of_In. rewrite forallb_forall in Hl.
    apply Hc. auto.
  - unfold r_counted. eapply reads_bind; [apply H8|]. intros bs n [Hn ->].
    apply in_uint_range in Hn.
    eapply reads_mono; [eapply (reads_times R _ _ (λ v, wf v = true)); apply Hc|].
    intros bs l (Hl & Hwf & HR). unfold wf_counted, w_counted. split.
    + apply andb_true_iff. split; [apply Z.leb_le; lia|].
      rewrite forallb_forall. intros x Hx%list_elem_of_In. by eapply Forall_forall in Hwf.
    + rewrite output_seq, output_for by (done || apply H8 || apply Hc).
      apply rel_app; [|done]. replace n with (vsize l) by lia. apply rel_refl.
Qed.

Lemma codec_counted_eq {A} (write : A → writer) read wf :
  codec eq write read wf → codec eq (w_counted write) (r_counted read) (wf_counted wf).
Proof. apply codec_counted, _. Qed.

#[export] Hint Resolve codec_counted_eq codec_when_eq : codecs.

(** *** Profiles, entities, advertisements *)

Definition wf_profile (profile : ProfileDescriptor) : bool :=
  wf_text (pd_profile_id profile) && in_uint 16 (pd_major profile)
  && in_uint 16 (pd_minor profile) && wf_text (pd_schema_digest profile).

Lemma codec_profile_entry : codec eq write_profile read_profile wf_profile.
Proof. solve_message write_profile read_profile wf_profile. Qed.

Lemma codec_available : codec eq w_available r_available (λ _, true).
Proof.
  pose proof codec_be_u8 as Hc. unfold w_available, r_available. split.
  - intros v. apply Hc.
  - intros v _. apply Hc. by destruct v.
  - intros v _. eapply parses_last; [apply Hc; by destruct v|].
    apply parses_check; [by destruct v|]. rewrite Availability_cast_value. apply parses_ret.
  - eapply reads_bind; [apply Hc|]. intros bs z [Hz ->]. apply reads_check. intros Hle.
    apply reads_ret. rewrite app_nil_r. split; [done|]. apply in_uint_range in Hz.
    rewrite Z.gtb_ltb in Hle. cbn in Hle. bool_hyps.
    assert (z = 0 ∨ z = 1 ∨ z = 2 ∨ z = 3) as Hcase by lia.
    by repeat destruct Hcase as [->|Hcase]; [..|subst].
Qed.

#[export] Hint Resolve codec_profile_entry codec_available : codecs.

(** The members of a format: [R] is equality where no attributes are carried, whose
    order on the wire is free. *)
Section format.
Context (format_version : Z) (R : relation Bytes) `{!ByteRel R}.
Context (Hattributes : ∀ carried, carried = (kDiscoveryFormatV4 <=? format_version) →
  codec R (w_when carried w_attributes) (r_when carried r_attributes ∅)
    (wf_when carried valid_attributes ∅)).

Definition wf_summary (entity : DiscoveryEntitySummary) : bool :=
  wf_text (des_entity_uid entity) && wf_text (des_kind entity)
  && wf_text (des_display_name entity)
  && wf_when (kDiscoveryFormatV3 <=? format_version) (in_uint 32) 0 (des_agent_id entity)
  && wf_when (kDiscoveryFormatV4 <=? format_version) valid_attributes ∅
       (des_attributes entity).

Definition wf_advertisement (value : DiscoveryAdvertisement) : bool :=
  wf_text (da_endpoint_uid value) && wf_text (da_display_name value)
  && in_uint 16 (da_tcp_listen_port value) && wf_counted wf_text (da_capabilities value)
  && wf_counted wf_profile (da_profiles value)
  && wf_when (kDiscoveryFormatV4 <=? format_version) valid_attributes ∅ (da_attributes value)
  && wf_counted wf_summary (da_entities value)
  && in_uint 64 (da_started_at_ms value) && in_uint 64 (da_sequence value).

Lemma codec_summary :
  codec R (write_summary format_version) (read_summary format_version) wf_summary.
Proof using All.
  pose proof (Hattributes _ eq_refl) as Ha. solve_message write_summary read_summary wf_summary.
Qed.

Lemma codec_counted_summary :
  codec R (w_counted (write_summary format_version)) (r_counted (read_summary format_version))
    (wf_counted wf_summary).
Proof using All. apply codec_counted; [done|]. apply codec_summary. Qed.

Lemma codec_advertisement :
  codec R (write_advertisement format_version) (read_advertisement format_version)
    wf_advertisement.
Proof using All.
  pose proof (Hattributes _ eq_refl) as Ha. pose proof codec_counted_summary as Hs.
  solve_message write_advertisement read_advertisement wf_advertisement.
Qed.
End format.

(** *** The magic *)
Lemma parses_magic m : parses (r_magic m) m true.
Proof.
  intros pre post. unfold r_magic. cbn.
  rewrite drop_app_length, take_app_length, !length_app.
  rewrite bool_decide_true, andb_true_r by done.
  replace (_ <=? _) with true by (symmetry; apply Z.leb_le; lia). done.
Qed.

Lemma magic_other m m' pre post :
  length m' = length m → m' ≠ m →
  r_magic m' (mkReader (pre ++ m ++ post) (length pre))
  = Some (false, mkReader (pre ++ m ++ post) (length pre)).
Proof.
  intros Hl Hne. unfold r_magic. cbn. rewrite drop_app_length, Hl, take_app_length.
  by rewrite (bool_decide_false (m = m')), andb_false_r by done.
Qed.

Lemma reads_magic m : reads (r_magic m) (λ bs found, if found : bool then bs = m else bs = []).
Proof.
  intros r b r'. unfold r_magic. case_if; intros [= <- <-] Hc.
  - bool_hyps. exists m. cbn. split_and!; try done; try lia.
    rewrite <- drop_drop, <- (take_drop (length m) (drop _ _)) at 1. by rewrite H0.
  - exists []. split_and!; done || lia.
Qed.

Definition is_format (format_version : Z) : bool :=
  (format_version =? kDiscoveryFormatV2) || (format_version =? kDiscoveryFormatV3)
  || (format_version =? kDiscoveryFormatV4).

Lemma is_format_cases f : is_format f = true → f = 2 ∨ f = 3 ∨ f = 4.
Proof.
  unfold is_format, kDiscoveryFormatV2, kDiscoveryFormatV3, kDiscoveryFormatV4.
  rewrite !orb_true_iff, !Z.eqb_eq. lia.
Qed.

Section magic.
Context (v4 v3 v2 : Bytes).
Context (Hl4 : length v4 = 4%nat) (Hl3 : length v3 = 4%nat) (Hl2 : length v2 = 4%nat).
Context (H43 : v4 ≠ v3) (H42 : v4 ≠ v2) (H32 : v3 ≠ v2).

Definition magic_of (f : Z) : Bytes := if f =? 4 then v4 else if f =? 3 then v3 else v2.

Lemma parses_format f : is_format f = true → parses (r_format v4 v3 v2) (magic_of f) f.
Proof using All.
  intros Hf pre post. unfold r_format, mbind, reader_bind.
  destruct (is_format_cases f Hf) as [-> | [-> | ->]]; cbn [magic_of Z.eqb Pos.eqb].
  - rewrite magic_other by congruence. rewrite magic_other by congruence.
    by rewrite parses_magic.
  - rewrite magic_other by congruence. by rewrite parses_magic.
  - by rewrite parses_magic.
Qed.

Lemma reads_format :
  reads (r_format v4 v3 v2) (λ bs f, is_format f = true ∧ bs = magic_of f).
Proof using All.
  unfold r_format.
  eapply reads_bind; [apply reads_magic|]. intros ? [] ->; [by apply reads_ret; rewrite app_nil_r|].
  eapply reads_bind; [apply reads_magic|]. intros ? [] ->; [by apply reads_ret; rewrite app_nil_r|].
  eapply reads_bind; [apply reads_magic|]. intros ? [] ->; [by apply reads_ret; rewrite app_nil_r|].
  by apply reads_fail.
Qed.

Lemma codec_format :
  codec eq (λ f, w_bytes (magic_of f)) (r_format v4 v3 v2) is_format.
Proof using All.
  split; [auto with codec|done|intros f Hf; by apply parses_format|apply reads_format].
Qed.
End magic.

Lemma codec_query_magic :
  codec eq w_query_magic (r_format kQueryMagicV4 kQueryMagicV3 kQueryMagicV2) is_format.
Proof. by apply codec_format. Qed.

Lemma reply_magic_of f :
  is_format f = true → reply_magic f = magic_of kReplyMagicV4 kReplyMagicV3 kReplyMagicV2 f.
Proof. by intros [-> | [-> | ->]]%is_format_cases. Qed.

Lemma codec_reply_magic :
  codec eq w_reply_magic (r_format kReplyMagicV4 kReplyMagicV3 kReplyMagicV2) is_format.
Proof.
  assert (Hc := codec_format kReplyMagicV4 kReplyMagicV3 kReplyMagicV2
    eq_refl eq_refl eq_refl ltac:(done) ltac:(done) ltac:(done)).
  unfold w_reply_magic. split.
  - auto with codec.
  - done.
  - intros f Hf. rewrite output_bytes, reply_magic_of by done. by apply Hc.
  - eapply reads_mono; [apply (codec_reads _ _ _ _ Hc)|]. intros bs f [Hf ->].
    by rewrite !output_bytes, reply_magic_of.
Qed.

#[export] Hint Resolve codec_query_magic codec_reply_magic : codecs.

(** ** Tags *)

#[export] Instance fnv64_prime : FnvPrime 64 kFnvPrime 14886173955864302971.
Proof. by split. Qed.

Definition secret_state (secret : string) : Z := foldl auth_step kFnvOffset (bytes_of secret).

Lemma secret_state_range secret : in_uint 64 (secret_state secret) = true.
Proof. by apply (fnv_fold_range (w := 64) (p := kFnvPrime)). Qed.

Lemma auth_tag_range secret data : in_uint 64 (auth_tag secret data) = true.
Proof. apply (fnv_fold_range (w := 64) (p := kFnvPrime)), secret_state_range. Qed.

(** The shifting loop over the last eight bytes is the big-endian number. *)
Lemma supplied_fold bs acc :
  0 <= acc → acc * 2 ^ (8 * vsize bs) + 2 ^ (8 * vsize bs) <= 2 ^ 64 →
  foldl (λ supplied b, Z.lor (uint64 (supplied ≪ 8)) (val b)) acc bs
  = acc * 2 ^ (8 * vsize bs) + le_value (reverse bs).
Proof.
  revert acc. induction bs as [|b bs IH]; intros acc Ha Hb.
  { change (reverse []) with (@nil byte). cbn. lia. }
  pose proof (val_range b). cbn [foldl length] in *.
  replace (8 * Z.of_nat (S (length bs))) with (8 + 8 * vsize bs) in * by lia.
  rewrite Z.pow_add_r in * by lia.
  pose proof (Z.pow_pos_nonneg 2 (8 * vsize bs) ltac:(lia) ltac:(lia)).
  assert (Hs : Z.lor (uint64 (acc ≪ 8)) (val b) = acc * 256 + val b).
  { rewrite Z.shiftl_mul_pow2 by lia.
    rewrite uint_small by (apply in_uint_range; change (2 ^ 8) with 256 in *; nia).
    rewrite Z.lor_comm, <- Z.shiftl_mul_pow2 by lia.
    rewrite lor_disjoint by (change (2 ^ 8) with 256; lia). lia. }
  rewrite Hs, IH by (change (2 ^ 8) with 256 in *; nia).
  rewrite reverse_cons, le_value_app, length_reverse. cbn. lia.
Qed.

Lemma supplied_write_be v :
  in_uint 64 v = true → supplied_tag (write_be 8 v) = v.
Proof.
  intros Hv. unfold supplied_tag. rewrite supplied_fold by (rewrite ?length_write_be; lia).
  transitivity (read_be 0 (write_be 8 v)); [|by apply read_write_be].
  rewrite read_be_spec by (apply Z.mod_0_l; rewrite length_write_be; lia). lia.
Qed.

Lemma write_be_supplied bs : length bs = 8%nat → write_be 8 (supplied_tag bs) = bs.
Proof.
  intros Hl. unfold supplied_tag. rewrite supplied_fold by (rewrite ?Hl; lia).
  transitivity (write_be (length bs) (read_be 0 bs)); [|apply write_read_be].
  rewrite read_be_spec by (apply Z.mod_0_l; rewrite Hl; lia). by rewrite Hl.
Qed.

(** A datagram is authentic exactly when it ends in the tag of the rest. *)
Lemma authenticated_iff bytes secret :
  authenticated bytes secret = true ↔
  bytes = payload bytes ++ write_be 8 (auth_tag secret (payload bytes))
  ∧ (8 <= length bytes)%nat.
Proof.
  unfold authenticated. destruct (Z.ltb_spec (vsize bytes) 8) as [Hl|Hl]; [split; [done|lia]|].
  assert (Hd : length (drop (length bytes - 8) bytes) = 8%nat) by (rewrite length_drop; lia).
  rewrite Z.eqb_eq. split.
  - intros <-. rewrite write_be_supplied by done. split; [|lia].
    unfold payload. by rewrite take_drop.
  - intros [E _]. rewrite <- (supplied_write_be (auth_tag _ _)) by apply auth_tag_range.
    f_equal. rewrite E at 2. rewrite E at 1.
    rewrite length_app, length_write_be.
    replace (length (payload bytes) + 8 - 8)%nat with (length (payload bytes)) by lia.
    by rewrite drop_app_length.
Qed.

Lemma payload_tagged data tag : length tag = 8%nat → payload (data ++ tag) = data.
Proof.
  intros Ht. unfold payload. rewrite length_app, Ht.
  replace (length data + 8 - 8)%nat with (length data) by lia. apply take_app_length.
Qed.

Lemma finish_spec secret f :
  writes f →
  finish secret f
  = if valid f && (vsize (output f) + 8 <=? kMaxDiscoveryBytes)
    then output f ++ write_be 8 (auth_tag secret (output f)) else [].
Proof.
  intros Hf. unfold finish. change (f (mkWriter [] true)) with (f (mkWriter [] true)).
  change (wr_valid (f (mkWriter [] true))) with (valid f).
  change (wr_data (f (mkWriter [] true))) with (output f).
  rewrite Z.gtb_ltb, Z.leb_antisym. by destruct (valid f), (_ <? _).
Qed.

Lemma authenticated_finish secret f :
  writes f → finish secret f ≠ [] →
  valid f = true ∧ payload (finish secret f) = output f
  ∧ authenticated (finish secret f) secret = true
  ∧ vsize (finish secret f) = vsize (output f) + 8
  ∧ vsize (finish secret f) <= kMaxDiscoveryBytes.
Proof.
  intros Hf. rewrite finish_spec by done. case_if; [|done]. intros _. bool_hyps.
  assert (Hp := payload_tagged (output f) (write_be 8 (auth_tag secret (output f)))
    (length_write_be _ _)).
  split; [done|]. split; [done|]. rewrite length_app, length_write_be.
  split; [|lia]. apply authenticated_iff. rewrite Hp, length_app, length_write_be.
  split; [done|lia].
Qed.

(** ** Queries *)

(** A query the library sends: acceptable, and of integers that fit their fields. *)
Definition wf_query (query : DiscoveryQuery) : bool :=
  is_format (q_format_version query) && in_uint 64 (q_nonce query)
  && in_uint 16 (q_response_window_ms query).

Definition sendable (query : DiscoveryQuery) : bool :=
  wf_query query && negb (q_nonce query =? 0) && negb (q_response_window_ms query =? 0).

Lemma codec_query : codec eq write_query read_query wf_query.
Proof. solve_message write_query read_query wf_query. Qed.

Lemma acceptable_format query :
  query_acceptable query = negb (q_nonce query =? 0) && negb (q_response_window_ms query =? 0)
                           && is_format (q_format_version query).
Proof.
  unfold query_acceptable, is_format.
  by destruct (_ =? 0), (_ =? 0), (_ =? kDiscoveryFormatV2), (_ =? kDiscoveryFormatV3),
    (_ =? kDiscoveryFormatV4).
Qed.

Lemma length_query query : wf_query query = true → length (output (write_query query)) = 14%nat.
Proof.
  unfold wf_query. intros H. bool_hyps. unfold write_query.
  rewrite !output_seq by auto with codec. rewrite !length_app.
  by destruct (is_format_cases (q_format_version query)) as [-> | [-> | ->]].
Qed.

Lemma encode_query query secret :
  sendable query = true →
  encode_discovery_query query secret
  = output (write_query query) ++ write_be 8 (auth_tag secret (output (write_query query))).
Proof.
  intros Hs. unfold sendable in Hs. bool_hyps. pose proof (length_query query ltac:(done)) as Hl.
  unfold encode_discovery_query. rewrite acceptable_format.
  unfold wf_query in *. bool_hyps.
  rewrite (proj2 (Z.eqb_neq _ _)), (proj2 (Z.eqb_neq _ _)) by done.
  repeat match goal with H : is_format _ = true |- _ => rewrite H end. cbn [negb andb].
  rewrite finish_spec by apply codec_query.
  rewrite (codec_valid _ _ _ _ codec_query) by (unfold wf_query; solve_wf).
  by rewrite Hl.
Qed.

(** ** Replies *)

(** The members a format carries. *)
Definition carried_summary (f : Z) (entity : DiscoveryEntitySummary) : DiscoveryEntitySummary :=
  mkDiscoveryEntitySummary (des_entity_uid entity) (des_kind entity) (des_display_name entity)
    (des_availability entity) (if kDiscoveryFormatV3 <=? f then des_agent_id entity else 0)
    (if kDiscoveryFormatV4 <=? f then des_attributes entity else ∅).

Definition carried (f : Z) (value : DiscoveryAdvertisement) : DiscoveryAdvertisement :=
  mkDiscoveryAdvertisement (da_endpoint_uid value) (da_display_name value)
    (da_tcp_listen_port value) (da_capabilities value) (da_profiles value)
    (if kDiscoveryFormatV4 <=? f then da_attributes value else ∅)
    (carried_summary f <$> da_entities value) (da_started_at_ms value) (da_sequence value).

(** The integers of an advertisement fit their C++ types. *)
Definition typed_advertisement (value : DiscoveryAdvertisement) : bool :=
  in_uint 16 (da_tcp_listen_port value)
  && forallb (λ p, in_uint 16 (pd_major p) && in_uint 16 (pd_minor p)) (da_profiles value)
  && forallb (λ e, in_uint 32 (des_agent_id e)) (da_entities value)
  && in_uint 64 (da_started_at_ms value) && in_uint 64 (da_sequence value).

Lemma w_for_fmap {A B} (g : A → B) (f : B → writer) l w :
  w_for f (g <$> l) w = w_for (λ x, f (g x)) l w.
Proof. unfold w_for. revert w. induction l; intros w; [done|]. cbn. apply IHl. Qed.

Lemma w_for_pointwise {A} (f g : A → writer) l w :
  (∀ x v, f x v = g x v) → w_for f l w = w_for g l w.
Proof.
  intros Hfg. unfold w_for. revert w. induction l; intros w; [done|]. cbn.
  by rewrite Hfg, IHl.
Qed.

Lemma write_carried_summary f e w :
  write_summary f (carried_summary f e) w = write_summary f e w.
Proof.
  unfold write_summary, carried_summary. cbn -[Z.leb].
  by destruct (kDiscoveryFormatV3 <=? f), (kDiscoveryFormatV4 <=? f).
Qed.

Lemma write_carried f value w :
  write_advertisement f (carried f value) w = write_advertisement f value w.
Proof.
  unfold write_advertisement, carried, w_seq, w_counted, w_seq. cbn -[Z.leb w_for].
  rewrite length_fmap, w_for_fmap.
  rewrite (w_for_pointwise _ (write_summary f)) by apply write_carried_summary.
  by destruct (kDiscoveryFormatV4 <=? f).
Qed.

Lemma write_reply_carried query value w :
  write_reply query (carried (q_format_version query) value) w = write_reply query value w.
Proof. unfold write_reply, w_seq. by rewrite write_carried. Qed.

(** The codec of a format, up to the order of attributes and, below the fourth format,
    exactly. *)
Lemma reply_codec f :
  codec (≡ₚ) (write_advertisement f) (read_advertisement f) (wf_advertisement f).
Proof.
  apply codec_advertisement; [apply _|]. intros c _. apply codec_when; [apply _|].
  apply codec_attributes.
Qed.

Lemma reply_codec_eq f :
  f < kDiscoveryFormatV4 →
  codec eq (write_advertisement f) (read_advertisement f) (wf_advertisement f).
Proof.
  intros Hf. apply codec_advertisement; [apply _|]. intros c ->.
  rewrite (proj2 (Z.leb_gt _ _)) by done. split; cbn.
  - intros v. apply writes_nop.
  - done.
  - intros v ->%bool_decide_eq_true. apply parses_ret.
  - apply reads_ret. by rewrite bool_decide_eq_true.
Qed.

Lemma writes_reply query value : writes (write_reply query value).
Proof.
  pose proof (codec_writes _ _ _ _ (reply_codec (q_format_version query))) as Hw.
  unfold write_reply. auto 20 with codec.
Qed.

(** Accepted advertisements are well formed; below the fourth format they have one
    encoding. *)
Lemma reads_exactly f :
  reads (read_advertisement f) (λ bs v, wf_advertisement f v = true
    ∧ (f < kDiscoveryFormatV4 → bs = output (write_advertisement f v))).
Proof.
  destruct (Z.lt_ge_cases f kDiscoveryFormatV4) as [Hlt|Hge].
  - eapply reads_mono; [apply (reply_codec_eq f Hlt)|]. by intros bs v [? ?].
  - eapply reads_mono; [apply (reply_codec f)|]. intros bs v [? _]. split; [done|lia].
Qed.

(** *** The layout of a reply

    The bytes of a reply, byte by byte and apart from the writers: every integer is
    big-endian, every text and list has its length in front.  The attributes of the
    endpoint and of each entity stand in any order, which is an argument. *)

Definition attributes := list (string * string).

Definition text_image (value : string) : Bytes := write_be 2 (ssize value) ++ bytes_of value.
Definition counted_image {A} (image : A → Bytes) (values : list A) : Bytes :=
  write_be 1 (vsize values) ++ concat (image <$> values).
Definition attribute_image (entry : string * string) : Bytes :=
  text_image entry.1 ++ text_image entry.2.
Definition profile_image (profile : ProfileDescriptor) : Bytes :=
  text_image (pd_profile_id profile) ++ write_be 2 (pd_major profile)
  ++ write_be 2 (pd_minor profile) ++ text_image (pd_schema_digest profile).

(** An entity with the order of its attributes. *)
Definition summary_image (f : Z) (summary : DiscoveryEntitySummary * attributes) : Bytes :=
  let entity := summary.1 in
  text_image (des_entity_uid entity) ++ text_image (des_kind entity)
  ++ text_image (des_display_name entity)
  ++ write_be 1 (Availability_value (des_availability entity))
  ++ (if 3 <=? f then write_be 4 (des_agent_id entity) else [])
  ++ (if 4 <=? f then counted_image attribute_image summary.2 else []).

Definition advertisement_image (f : Z) (value : DiscoveryAdvertisement) (order : attributes)
    (summaries : list (DiscoveryEntitySummary * attributes)) : Bytes :=
  text_image (da_endpoint_uid value) ++ text_image (da_display_name value)
  ++ write_be 2 (da_tcp_listen_port value)
  ++ counted_image text_image (da_capabilities value)
  ++ counted_image profile_image (da_profiles value)
  ++ (if 4 <=? f then counted_image attribute_image order else [])
  ++ counted_image (summary_image f) summaries
  ++ write_be 8 (da_started_at_ms value) ++ write_be 8 (da_sequence value).

Definition reply_image (f nonce : Z) (value : DiscoveryAdvertisement) (order : attributes)
    (summaries : list (DiscoveryEntitySummary * attributes)) : Bytes :=
  bytes_of (if f =? 4 then "YLR4" else if f =? 3 then "YLR3" else "YLR2")
  ++ write_be 8 nonce ++ write_be 1 kProtocolMajor ++ write_be 1 kHeaderVersion
  ++ write_be 2 f ++ advertisement_image f value order summaries.

(** [order] lists the attributes, and [summaries] the entities, each with its
    attributes in some order. *)
Definition orders (value : DiscoveryAdvertisement) (order : attributes)
    (summaries : list (DiscoveryEntitySummary * attributes)) : Prop :=
  order ≡ₚ map_to_list (da_attributes value)
  ∧ fst <$> summaries = da_entities value
  ∧ Forall (λ s, s.2 ≡ₚ map_to_list (des_attributes s.1)) summaries.

Lemma reads_be n (write : Z → writer) (read : reader Z) bits :
  codec eq write read (in_uint bits) → (∀ v, output (write v) = write_be n v) →
  reads read (λ bs v, bs = write_be n v).
Proof.
  intros Hc Ho. eapply reads_mono; [apply Hc|]. intros bs v [_ ->]. apply Ho.
Qed.

Lemma be_u8 v : output (w_u8 v) = write_be 1 v.
Proof. cbn. by rewrite Z.shiftr_0_r. Qed.

Lemma be_u16 v : output (w_u16 v) = write_be 2 v.
Proof. cbn. by rewrite Z.shiftr_0_r. Qed.

Lemma reads_u8_image : reads r_u8 (λ bs v, bs = write_be 1 v).
Proof. exact (reads_be 1 _ _ _ codec_be_u8 be_u8). Qed.
Lemma reads_u16_image : reads r_u16 (λ bs v, bs = write_be 2 v).
Proof. exact (reads_be 2 _ _ _ codec_be_u16 be_u16). Qed.
Lemma reads_u32_image : reads r_u32 (λ bs v, bs = write_be 4 v).
Proof. exact (reads_be 4 _ _ _ codec_be_u32 (λ _, eq_refl)). Qed.
Lemma reads_u64_image : reads r_u64 (λ bs v, bs = write_be 8 v).
Proof. exact (reads_be 8 _ _ _ codec_be_u64 (λ _, eq_refl)). Qed.

Lemma text_output v : wf_text v = true → output (w_text v) = text_image v.
Proof.
  unfold wf_text, w_text, text_image. intros Hv.
  rewrite Z.gtb_ltb, Z.ltb_antisym, Hv. cbn [negb].
  by rewrite output_seq, be_u16 by auto with codec.
Qed.

Lemma reads_text_image : reads r_text (λ bs v, bs = text_image v).
Proof.
  eapply reads_mono; [apply codec_be_text|]. intros bs v [Hv ->]. by apply text_output.
Qed.

Lemma reads_attribute_image : reads r_attribute (λ bs v, bs = attribute_image v).
Proof.
  eapply reads_mono; [apply codec_attribute|]. intros bs v [Hv ->].
  destruct (wf_attribute_text v Hv). unfold w_attribute, attribute_image.
  rewrite output_seq by (apply codec_be_text). by rewrite !text_output.
Qed.

(** A counted list whose members are read with something that is not part of them. *)
Lemma reads_counted_image {A B} (read : reader A) (image : A * B → Bytes) (P : A * B → Prop) :
  reads read (λ bs v, ∃ b, P (v, b) ∧ bs = image (v, b)) →
  reads (r_counted read) (λ bs l, ∃ members, fst <$> members = l ∧ Forall P members
    ∧ bs = counted_image image members).
Proof.
  intros Hr. assert (Ht : ∀ n, reads (r_times n read) (λ bs l, ∃ members, length members = n
    ∧ fst <$> members = l ∧ Forall P members ∧ bs = concat (image <$> members))).
  { induction n as [|n IH]; cbn; [apply reads_ret; by exists []|].
    eapply reads_bind; [exact Hr|]. intros ? v (b & Hb & ->).
    eapply reads_bind; [exact IH|]. intros ? ? (members & Hn & <- & HP & ->).
    apply reads_ret. exists ((v, b) :: members). cbn. rewrite app_nil_r, Hn.
    split_and!; [done..| |done]. by constructor. }
  unfold r_counted. pose proof codec_be_u8 as H8.
  eapply reads_bind; [apply H8|]. intros ? n [Hin ->]. apply in_uint_range in Hin.
  eapply reads_mono; [apply Ht|]. intros ? ? (members & Hn & <- & HP & ->).
  exists members. split_and!; [done..|]. unfold counted_image. rewrite be_u8.
  by replace n with (vsize members) by lia.
Qed.

Lemma reads_counted_plain {A} (read : reader A) (image : A → Bytes) :
  reads read (λ bs v, bs = image v) →
  reads (r_counted read) (λ bs l, bs = counted_image image l).
Proof.
  intros Hr. eapply reads_mono.
  - apply (reads_counted_image (B := unit) read (image ∘ fst) (λ _, True)).
    eapply reads_mono; [exact Hr|]. intros bs v ->. by exists tt.
  - intros bs l (members & <- & _ & ->). unfold counted_image.
    by rewrite length_fmap, <- list_fmap_compose.
Qed.

Lemma reads_profile_image : reads read_profile (λ bs v, bs = profile_image v).
Proof.
  unfold read_profile.
  eapply reads_bind; [apply reads_text_image|]; intros ? ? ->.
  eapply reads_bind; [apply reads_u16_image|]; intros ? ? ->.
  eapply reads_bind; [apply reads_u16_image|]; intros ? ? ->.
  eapply reads_bind; [apply reads_text_image|]; intros ? ? ->.
  apply reads_ret. unfold profile_image. cbn [pd_profile_id pd_major pd_minor pd_schema_digest].
  by rewrite app_nil_r.
Qed.

Lemma reads_attributes_image :
  reads r_attributes (λ bs m, ∃ order : attributes, order ≡ₚ map_to_list m
    ∧ bs = counted_image attribute_image order).
Proof.
  assert (He : ∀ n m, reads (r_entries r_attribute n m) (λ bs m', ∃ order : attributes,
    length order = n ∧ order ++ map_to_list m ≡ₚ map_to_list m'
    ∧ bs = concat (attribute_image <$> order))).
  { induction n as [|n IH]; intros m; cbn [r_entries]; [apply reads_ret; by exists []|].
    eapply reads_bind; [apply reads_attribute_image|]. intros ? [k v] ->.
    unfold emplace. destruct (m !! k) eqn:E; [by apply reads_fail|].
    eapply reads_mono; [apply IH|]. intros ? m' (order & Hn & Hp & ->).
    exists ((k, v) :: order). cbn [length]. rewrite Hn. split_and!; [done| |done].
    rewrite <- Hp, (map_to_list_insert m k v E). by rewrite <- Permutation_middle. }
  unfold r_attributes. eapply reads_bind; [apply codec_be_u8|]. intros ? n [Hin ->].
  apply in_uint_range in Hin. apply reads_check. intros _.
  eapply reads_mono; [apply He|]. intros ? m (order & Hn & Hp & ->).
  exists order. rewrite map_to_list_empty, app_nil_r in Hp. split; [done|].
  unfold counted_image. rewrite be_u8. by replace n with (vsize order) by lia.
Qed.

Section image.
Context (f : Z).

Lemma reads_carried_attributes :
  reads (r_when (kDiscoveryFormatV4 <=? f) r_attributes ∅)
    (λ bs m, ∃ order : attributes, order ≡ₚ map_to_list m
     ∧ bs = if 4 <=? f then counted_image attribute_image order else []).
Proof.
  unfold r_when, kDiscoveryFormatV4. destruct (4 <=? f); [apply reads_attributes_image|].
  apply reads_ret. exists []. by rewrite map_to_list_empty.
Qed.

Lemma reads_summary_image :
  reads (read_summary f) (λ bs v, ∃ order,
    (v, order).2 ≡ₚ map_to_list (des_attributes (v, order).1)
    ∧ bs = summary_image f (v, order)).
Proof.
  unfold read_summary.
  eapply reads_bind; [apply reads_text_image|]; intros ? uid ->.
  eapply reads_bind; [apply reads_text_image|]; intros ? kind ->.
  eapply reads_bind; [apply reads_text_image|]; intros ? name ->.
  eapply reads_bind; [apply codec_available|]; intros ? av [_ ->].
  apply (reads_bind _ _ (λ bs v, bs = if 3 <=? f then write_be 4 v else [])).
  { unfold r_when, kDiscoveryFormatV3. destruct (3 <=? f); [apply reads_u32_image|].
    by apply reads_ret. }
  intros ? agent ->.
  eapply reads_bind; [apply reads_carried_attributes|]; intros ? m (order & Hp & ->).
  apply reads_ret. exists order. split; [exact Hp|].
  unfold summary_image, w_available. rewrite be_u8, app_nil_r.
  cbn [fst snd des_entity_uid des_kind des_display_name des_availability des_agent_id].
  by rewrite !app_assoc.
Qed.

Lemma reads_advertisement_image :
  reads (read_advertisement f) (λ bs value, ∃ order summaries,
    orders value order summaries ∧ bs = advertisement_image f value order summaries).
Proof.
  unfold read_advertisement.
  eapply reads_bind; [apply reads_text_image|]; intros ? uid ->.
  eapply reads_bind; [apply reads_text_image|]; intros ? name ->.
  eapply reads_bind; [apply reads_u16_image|]; intros ? port ->.
  eapply reads_bind; [apply reads_counted_plain, reads_text_image|]; intros ? caps ->.
  eapply reads_bind; [apply reads_counted_plain, reads_profile_image|]; intros ? profiles ->.
  eapply reads_bind; [apply reads_carried_attributes|]; intros ? m (order & Hp & ->).
  eapply reads_bind; [apply (reads_counted_image _ (summary_image f)
    (λ s, s.2 ≡ₚ map_to_list (des_attributes s.1)) reads_summary_image)|].
  intros ? entities (summaries & Hs & HP & ->).
  eapply reads_bind; [apply reads_u64_image|]; intros ? started ->.
  eapply reads_bind; [apply reads_u64_image|]; intros ? sequence ->.
  apply reads_ret. exists order, summaries. split; [by split_and!|].
  unfold advertisement_image. by rewrite app_nil_r, !app_assoc.
Qed.
End image.

Lemma reply_magic_image f :
  is_format f = true →
  output (w_reply_magic f)
  = bytes_of (if f =? 4 then "YLR4" else if f =? 3 then "YLR3" else "YLR2").
Proof. by intros [-> | [-> | ->]]%is_format_cases. Qed.

(** The header of a reply, in front of an advertisement. *)
Section reply.
Context (nonce : Z) (Hnonce : in_uint 64 nonce = true).

Lemma parses_reply f window value :
  is_format f = true → wf_advertisement f value = true →
  parses (read_reply nonce) (output (write_reply (mkDiscoveryQuery nonce window f) value)) value.
Proof using Hnonce.
  intros Hf Hv. unfold write_reply, read_reply. cbn [q_format_version q_nonce].
  pose proof (codec_writes _ _ _ _ (reply_codec f)) as Hw.
  rewrite !output_seq by auto 20 with codec.
  assert (Hf16 : in_uint 16 f = true) by by destruct (is_format_cases f Hf) as [-> | [-> | ->]].
  eapply parses_bind; [by apply codec_reply_magic|].
  eapply parses_bind; [by apply codec_be_u64|]. apply parses_check; [apply Z.eqb_refl|].
  eapply parses_bind; [by apply codec_be_u8|]. apply parses_check; [done|].
  eapply parses_bind; [by apply codec_be_u8|]. apply parses_check; [done|].
  eapply parses_bind; [by apply codec_be_u16|]. apply parses_check; [apply Z.eqb_refl|].
  by apply (reply_codec f).
Qed.

Lemma reads_reply :
  reads (read_reply nonce) (λ bs value, ∃ f, is_format f = true
    ∧ wf_advertisement f value = true
    ∧ (∃ order summaries, orders value order summaries
       ∧ bs = reply_image f nonce value order summaries)
    ∧ (f < kDiscoveryFormatV4 →
       bs = output (write_reply (mkDiscoveryQuery nonce 1 f) value))).
Proof using Hnonce.
  unfold read_reply.
  eapply reads_bind; [apply codec_reply_magic|]. intros ? f [Hf ->].
  eapply reads_bind; [apply codec_be_u64|]. intros ? n [_ ->].
  apply reads_check; intros ->%Z.eqb_eq.
  eapply reads_bind; [apply codec_be_u8|]. intros ? ? [_ ->].
  apply reads_check; intros ->%Z.eqb_eq.
  eapply reads_bind; [apply codec_be_u8|]. intros ? ? [_ ->].
  apply reads_check; intros ->%Z.eqb_eq.
  eapply reads_bind; [apply codec_be_u16|]. intros ? ? [_ ->].
  apply reads_check; intros ->%Z.eqb_eq.
  pose proof (codec_writes _ _ _ _ (reply_codec f)) as Hw.
  assert (Ho : ∀ v, output (write_reply (mkDiscoveryQuery nonce 1 f) v)
    = output (w_reply_magic f) ++ output (w_u64 nonce) ++ output (w_u8 kProtocolMajor)
      ++ output (w_u8 kHeaderVersion) ++ output (w_u16 f) ++ output (write_advertisement f v)).
  { intros v. unfold write_reply. cbn [q_format_version q_nonce].
    by rewrite !output_seq by auto 20 with codec. }
  assert (Hi : ∀ v order summaries, reply_image f nonce v order summaries
    = output (w_reply_magic f) ++ output (w_u64 nonce) ++ output (w_u8 kProtocolMajor)
      ++ output (w_u8 kHeaderVersion) ++ output (w_u16 f)
      ++ advertisement_image f v order summaries).
  { intros. unfold reply_image. by rewrite reply_magic_image, !be_u8, be_u16. }
  eapply reads_mono; [apply (reads_and _ _ _ (reads_advertisement_image f)
    (reads_exactly f))|].
  intros bs v [(order & summaries & Hord & ->) [Hv Heq]].
  exists f. split_and!; [done..| |].
  - exists order, summaries. split; [done|]. by rewrite Hi.
  - intros Hlt. by rewrite Ho, (Heq Hlt).
Qed.
End reply.

(** *** What a valid reply guarantees of its texts *)
Lemma valid_text v : valid (w_text v) = wf_text v.
Proof.
  destruct (wf_text v) eqn:E; [by apply codec_be_text|].
  unfold w_text, wf_text in *. rewrite Z.gtb_ltb, Z.ltb_antisym, E. done.
Qed.

Lemma forallb_impl {A} (f g : A → bool) l :
  (∀ x, f x = true → g x = true) → forallb f l = true → forallb g l = true.
Proof. intros Hfg. rewrite !forallb_forall. auto. Qed.

Lemma forallb_and {A} (f g : A → bool) l :
  forallb f l = true → forallb g l = true → forallb (λ x, f x && g x) l = true.
Proof. rewrite !forallb_forall. intros Hf Hg x Hx. by rewrite Hf, Hg. Qed.

Lemma valid_counted {A} (write : A → writer) l :
  (∀ x, writes (write x)) → valid (w_counted write l) = forallb (valid ∘ write) l.
Proof.
  intros Hw. unfold w_counted. rewrite valid_seq by (apply codec_be_u8 || by apply writes_for).
  by rewrite valid_for.
Qed.

Lemma writes_counted {A} (write : A → writer) l :
  (∀ x, writes (write x)) → writes (w_counted write l).
Proof. intros Hw. apply writes_seq; [apply codec_be_u8|by apply writes_for]. Qed.

Lemma writes_summary f e : writes (write_summary f e).
Proof. unfold write_summary. auto 20 with codec. Qed.

#[export] Hint Resolve writes_counted writes_summary : codec.

Lemma profile_texts p :
  valid (write_profile p) = true →
  in_uint 16 (pd_major p) && in_uint 16 (pd_minor p) = true → wf_profile p = true.
Proof.
  unfold write_profile, wf_profile. rewrite !valid_seq by auto with codec.
  rewrite !valid_text. intros H1 H2. bool_hyps. solve_wf.
Qed.

Lemma summary_texts f e :
  valid (write_summary f e) = true → in_uint 32 (des_agent_id e) = true →
  valid_attributes (des_attributes e) = true →
  wf_summary f (carried_summary f e) = true.
Proof.
  unfold write_summary, wf_summary. rewrite !valid_seq by auto 20 with codec.
  rewrite !valid_text. intros H1 H2 H3. bool_hyps. cbn -[Z.leb].
  repeat match goal with |- (_ && _)%bool = true => apply andb_true_iff; split end;
    try assumption; unfold wf_when; case_if; try done.
Qed.

(** An advertisement that is valid and could be written is well formed for the reader. *)
Lemma carried_wf f value :
  valid_advertisement value = true → typed_advertisement value = true →
  valid (write_advertisement f value) = true →
  wf_advertisement f (carried f value) = true.
Proof.
  intros Ha Ht Hv. unfold valid_advertisement in Ha. case_if_in Ha; [done|].
  unfold typed_advertisement in Ht. unfold write_advertisement in Hv.
  rewrite !valid_seq, !valid_counted, !valid_text in Hv by auto 20 with codec.
  rewrite !Z.gtb_ltb in *. bool_hyps.
  unfold wf_advertisement, wf_counted. cbn -[Z.leb]. rewrite length_fmap.
  repeat match goal with |- (_ && _)%bool = true => apply andb_true_iff; split end;
    try assumption; try (apply Z.leb_le; lia).
  - eapply forallb_impl; [|eassumption]. intros x. unfold compose. by rewrite valid_text.
  - eapply forallb_impl; [|by apply (forallb_and (valid ∘ write_profile)
      (λ p, in_uint 16 (pd_major p) && in_uint 16 (pd_minor p)))].
    intros p [Hp1 Hp2]%andb_true_iff. by apply profile_texts.
  - unfold wf_when. by case_if.
  - rewrite forallb_forall. intros e' He'%list_elem_of_In.
    apply list_elem_of_fmap in He' as (e & -> & He%list_elem_of_In).
    repeat match goal with
    | H : forallb _ (da_entities value) = true |- _ =>
        rewrite forallb_forall in H; specialize (H e He); cbn in H
    end. bool_hyps. by apply summary_texts.
Qed.

Lemma encode_reply_nonempty query value secret :
  encode_discovery_reply query value secret ≠ [] →
  q_nonce query ≠ 0 ∧ valid_advertisement value = true
  ∧ encode_discovery_reply query value secret = finish secret (write_reply query value)
  ∧ finish secret (write_reply query value) ≠ [].
Proof.
  unfold encode_discovery_reply. intros Hne.
  destruct (Z.eqb_spec (q_nonce query) 0); [done|].
  by destruct (valid_advertisement value).
Qed.

Lemma valid_carried f value :
  valid_advertisement value = true → valid_advertisement (carried f value) = true.
Proof.
  unfold valid_advertisement. cbn -[Z.leb Z.gtb]. rewrite length_fmap.
  case_if; [done|]. intros H. bool_hyps.
  repeat match goal with |- (_ && _)%bool = true => apply andb_true_iff; split end;
    try assumption; [by case_if|].
  rewrite forallb_forall. intros e' He'%list_elem_of_In.
  apply list_elem_of_fmap in He' as (e & -> & He%list_elem_of_In).
  match goal with H : forallb _ (da_entities value) = true |- _ =>
    rewrite forallb_forall in H; specialize (H e He); cbn in H |- * end.
  bool_hyps. apply andb_true_iff. split; [done|]. by case_if.
Qed.

(** A tagged reply is accepted, whoever computed the tag. *)
Lemma accept_reply query value bytes secret :
  is_format (q_format_version query) = true → in_uint 64 (q_nonce query) = true →
  typed_advertisement value = true → valid_advertisement value = true →
  valid (write_reply query value) = true →
  authenticated bytes secret = true → payload bytes = output (write_reply query value) →
  vsize bytes <= kMaxDiscoveryBytes →
  decode_discovery_reply bytes secret (q_nonce query)
  = Some (carried (q_format_version query) value).
Proof.
  intros Hf Hn Ht Ha Hv Hauth Hp Hsize. unfold decode_discovery_reply.
  rewrite Hauth, Z.gtb_ltb, (proj2 (Z.ltb_ge _ _)), Hp by lia. cbn [negb orb].
  assert (Ho : output (write_reply query value)
    = output (write_reply query (carried (q_format_version query) value)))
    by (unfold output; by rewrite write_reply_carried).
  rewrite Ho. destruct query as [nonce window f]. cbn [q_nonce q_format_version] in *.
  rewrite (parses_run _ _ (carried f value)).
  - by rewrite valid_carried.
  - apply parses_reply; [done..|]. apply carried_wf; [done..|].
    unfold write_reply in Hv. cbn [q_nonce q_format_version] in Hv.
    pose proof (codec_writes _ _ _ _ (reply_codec f)) as Hw.
    rewrite !valid_seq in Hv by auto 20 with codec. by bool_hyps.
Qed.

Lemma wf_carried f value : wf_advertisement f value = true → carried f value = value.
Proof.
  unfold wf_advertisement, wf_counted. intros H. bool_hyps. destruct value as [e d p c pr a en s q].
  cbn -[Z.leb] in *. unfold carried. cbn -[Z.leb].
  assert (Ha : (if kDiscoveryFormatV4 <=? f then a else ∅) = a).
  { unfold wf_when in *. case_if; [done|]. bool_hyps. by subst. }
  rewrite Ha. f_equal. clear Ha.
  match goal with H : forallb (wf_summary f) en = true |- _ => revert H end.
  clear. induction en as [|x en IH]; [done|]. cbn -[Z.leb]. intros [Hx Hen]%andb_true_iff.
  rewrite IH by done. f_equal. destruct x as [u k n av ag at_]. unfold wf_summary in Hx.
  cbn -[Z.leb] in Hx. bool_hyps. unfold carried_summary. cbn -[Z.leb]. unfold wf_when in *.
  f_equal; case_if; try done; bool_hyps; by subst.
Qed.

Lemma valid_reply_wf nonce f value :
  wf_advertisement f value = true →
  valid (write_reply (mkDiscoveryQuery nonce 1 f) value) = true.
Proof.
  intros Hwf. unfold write_reply. cbn [q_nonce q_format_version].
  pose proof (codec_writes _ _ _ _ (reply_codec f)) as Hw.
  rewrite !valid_seq by auto 20 with codec.
  rewrite (codec_valid _ _ _ _ (reply_codec f)) by done. done.
Qed.

Lemma query_sound bytes secret query :
  decode_discovery_query bytes secret = Some query →
  sendable query = true ∧ bytes = encode_discovery_query query secret.
Proof.
  unfold decode_discovery_query. case_if; [done|]. apply orb_false_iff in Heqb as [_ Hauth].
  apply negb_false_iff, authenticated_iff in Hauth as [Hbytes _].
  destruct (r_run read_query (payload bytes)) as [q|] eqn:Hr; [|done].
  case_if; [done|]. intros [= ->]. apply (codec_iff _ _ _ _ _ codec_query) in Hr as [Hwf Hp].
  rewrite writes_run, (codec_valid _ _ _ _ codec_query) in Hp by (done || apply codec_query).
  assert (Hs : sendable query = true) by (unfold sendable; bool_hyps; solve_wf).
  split; [done|]. rewrite encode_query by done. by rewrite <- Hp.
Qed.

Lemma query_decodes query secret :
  sendable query = true →
  decode_discovery_query (encode_discovery_query query secret) secret = Some query.
Proof.
  intros Hs. rewrite encode_query by done.
  unfold sendable in Hs. bool_hyps. pose proof (length_query query ltac:(done)) as Hl.
  unfold decode_discovery_query. rewrite length_app, Hl, length_write_be.
  rewrite (proj2 (authenticated_iff _ _)).
  2:{ rewrite payload_tagged, length_app, Hl by apply length_write_be. split; [done|].
      rewrite length_write_be. lia. }
  rewrite payload_tagged by apply length_write_be. cbn [Z.eqb negb orb].
  rewrite (parses_run _ _ query) by by apply codec_query.
  change (Z.of_nat (14 + 8) =? 22) with true. cbn [negb orb].
  by rewrite (proj2 (Z.eqb_neq _ _)), (proj2 (Z.eqb_neq _ _)) by done.
Qed.

Lemma reply_decodes query value secret :
  is_format (q_format_version query) = true → in_uint 64 (q_nonce query) = true →
  typed_advertisement value = true →
  encode_discovery_reply query value secret ≠ [] →
  decode_discovery_reply (encode_discovery_reply query value secret) secret (q_nonce query)
  = Some (carried (q_format_version query) value).
Proof.
  intros Hf Hn Ht Hne. destruct (encode_reply_nonempty _ _ _ Hne) as (_ & Ha & -> & Hfin).
  destruct (authenticated_finish _ _ (writes_reply query value) Hfin)
    as (Hv & Hp & Hauth & _ & Hsize).
  by apply accept_reply.
Qed.

(** ** Properties *)

(** C13 Discovery queries have one encoding per secret: a datagram decodes to a query
    exactly when the query is one the library sends and the datagram is its encoding. *)
Theorem discovery_query_canonical bytes secret query :
  decode_discovery_query bytes secret = Some query
  ↔ sendable query = true ∧ bytes = encode_discovery_query query secret.
Proof. split; [apply query_sound|intros [Hs ->]; by apply query_decodes]. Qed.

(** C14 A discovery reply that could be encoded decodes, under the same secret and the
    nonce of its query, to the members its format carries: agent identifiers from the
    third format on, attributes from the fourth. *)
Theorem discovery_reply_roundtrip query value secret :
  is_format (q_format_version query) = true → in_uint 64 (q_nonce query) = true →
  typed_advertisement value = true →
  encode_discovery_reply query value secret ≠ [] →
  decode_discovery_reply (encode_discovery_reply query value secret) secret (q_nonce query)
  = Some (carried (q_format_version query) value).
Proof. apply reply_decodes. Qed.

(** C23 What a discovery reply decodes to is a valid advertisement for the expected nonce,
    and the datagram is its encoding in one of the three formats, byte by byte: the
    magic, the nonce, the versions, every field of [reply_image] with the key and the
    value of each attribute where the format puts them, and the tag of the secret.  Only
    the order in which the attributes stand is free.  Below the fourth format, and for a
    nonce other than 0, for which nothing is encoded, it is what
    [encode_discovery_reply] returns. *)
Theorem discovery_reply_sound bytes secret nonce value :
  in_uint 64 nonce = true → decode_discovery_reply bytes secret nonce = Some value →
  vsize bytes <= kMaxDiscoveryBytes ∧ valid_advertisement value = true
  ∧ ∃ f order summaries,
    is_format f = true ∧ carried f value = value ∧ orders value order summaries
    ∧ (let image := reply_image f nonce value order summaries in
       bytes = image ++ write_be 8 (auth_tag secret image))
    ∧ (f < kDiscoveryFormatV4 → nonce ≠ 0 →
       bytes = encode_discovery_reply (mkDiscoveryQuery nonce 1 f) value secret).
Proof.
  intros Hn. unfold decode_discovery_reply. case_if; [done|].
  apply orb_false_iff in Heqb as [Hsize Hauth]. apply negb_false_iff in Hauth.
  rewrite Z.gtb_ltb in Hsize. apply Z.ltb_ge in Hsize.
  destruct (r_run _ _) as [parsed|] eqn:Hr; [|done]. case_if; [|done]. intros [= ->].
  apply (reads_run _ _ _ _ (reads_reply nonce Hn)) in Hr as (f & Hf & Hwf & (order & summaries & Hord & Hp) & Heq).
  apply authenticated_iff in Hauth as [Hbytes Hlen].
  split_and!; [done..|]. exists f, order, summaries.
  split; [done|]. split; [by apply wf_carried|]. split; [done|].
  split; [by rewrite <- Hp|]. intros Hlt Hne. specialize (Heq Hlt).
  unfold encode_discovery_reply. cbn [q_nonce].
  rewrite (proj2 (Z.eqb_neq _ _)), Heqb by done. cbn [negb orb].
  rewrite finish_spec, <- Heq by apply writes_reply.
  rewrite (valid_reply_wf nonce f) by done.
  assert (Hvs : vsize (payload bytes) + 8 <= kMaxDiscoveryBytes).
  { unfold payload. rewrite length_take. lia. }
  by rewrite (proj2 (Z.leb_le _ _)).
Qed.

(** C24 Every change of a single byte of an accepted discovery datagram, query or reply,
    is refused under the same secret. *)
Theorem discovery_detects_corruption bytes secret i b b' :
  authenticated bytes secret = true → bytes !! i = Some b → b ≠ b' →
  authenticated (<[i:=b']> bytes) secret = false
  ∧ decode_discovery_query (<[i:=b']> bytes) secret = None
  ∧ ∀ nonce, decode_discovery_reply (<[i:=b']> bytes) secret nonce = None.
Proof.
  intros Hauth Hi Hne.
  enough (Hf : authenticated (<[i:=b']> bytes) secret = false).
  { split; [done|]. unfold decode_discovery_query, decode_discovery_reply.
    rewrite Hf. cbn [negb]. rewrite orb_true_r. split; [done|]. intros. by rewrite orb_true_r. }
  apply not_true_iff_false. intros Hauth'.
  apply authenticated_iff in Hauth as [E Hl]. apply authenticated_iff in Hauth' as [E' Hl'].
  pose proof (lookup_lt_Some _ _ _ Hi) as Hlt.
  unfold payload in *. rewrite length_insert in *.
  destruct (decide (i < length bytes - 8)%nat) as [Hin|Hout].
  - (* the tag is the same, the hashed bytes are not *)
    apply (f_equal (drop (length bytes - 8))) in E, E'.
    rewrite drop_insert_lt in E' by lia.
    rewrite drop_app_length' in E, E' by (rewrite length_take, ?length_insert; lia).
    rewrite E in E'. apply (f_equal supplied_tag) in E'.
    rewrite !supplied_write_be in E' by apply auth_tag_range.
    rewrite take_insert_lt in E' by lia.
    assert (Hi' : take (length bytes - 8) bytes !! i = Some b) by (by rewrite lookup_take_lt).
    rewrite <- (take_drop_middle _ _ _ Hi') in E' at 1.
    rewrite insert_take_drop in E' by (by eapply lookup_lt_Some).
    revert E'. apply (fnv_single_byte (w := 64) (p := kFnvPrime)); [|done].
    apply secret_state_range.
  - (* the hashed bytes are the same, the tag is not *)
    rewrite take_insert_ge in E' by lia. rewrite <- E in E'.
    apply (f_equal (lookup i)) in E'. rewrite list_lookup_insert_eq in E' by done. congruence.
Qed.

(** *** Forging tags *)

(** The tag of [data] for the secret of a datagram one has seen, computed without the
    secret: the steps of the hash are undone back to the state the secret left it in. *)
Definition forge (seen data : Bytes) : Bytes :=
  data ++ write_be 8 (foldl auth_step
    (fnv_back (w := 64) (q := 14886173955864302971)
       (supplied_tag (drop (length seen - 8) seen)) (payload seen)) data).

Lemma forge_tag seen secret data :
  authenticated seen secret = true →
  forge seen data = data ++ write_be 8 (auth_tag secret data).
Proof.
  intros Hauth. unfold authenticated in Hauth. case_if_in Hauth; [done|].
  apply Z.eqb_eq in Hauth. unfold forge. rewrite Hauth.
  pose proof (fnv_back_fold (p := kFnvPrime) (payload seen) _ (secret_state_range secret)) as E.
  change (auth_tag secret (payload seen))
    with (foldl (fnv_step 64 kFnvPrime) (secret_state secret) (payload seen)).
  by rewrite E.
Qed.

(** C40 (finding) The tag does not authenticate: whoever has seen one datagram of a secret,
    a query for instance, can without the secret make a reply with any advertisement
    that fits, and every holder of the secret accepts it. *)
Theorem discovery_tag_forgeable seen secret query value :
  authenticated seen secret = true →
  is_format (q_format_version query) = true → in_uint 64 (q_nonce query) = true →
  typed_advertisement value = true → valid_advertisement value = true →
  valid (write_reply query value) = true →
  vsize (output (write_reply query value)) + 8 <= kMaxDiscoveryBytes →
  decode_discovery_reply (forge seen (output (write_reply query value))) secret (q_nonce query)
  = Some (carried (q_format_version query) value).
Proof.
  intros Hseen Hf Hn Ht Ha Hv Hsize. rewrite (forge_tag _ _ _ Hseen).
  assert (Hp := payload_tagged (output (write_reply query value))
    (write_be 8 (auth_tag secret (output (write_reply query value)))) (length_write_be _ _)).
  apply accept_reply; try done.
  - apply authenticated_iff. rewrite Hp, length_app, length_write_be. split; [done|lia].
  - rewrite length_app, length_write_be. lia.
Qed.

(** *** Concrete datagrams *)

(** The advertisement of tests/core/test_discovery_v2.cpp. *)
Definition sample_advertisement : DiscoveryAdvertisement :=
  mkDiscoveryAdvertisement "endpoint:alpha" "yunlink-endpoint" 9696 ["stream"; "action"]
    [mkProfileDescriptor "org.yunlink.mobility" 1 0 "mobility-v1";
     mkProfileDescriptor "com.example.demo" 2 3 "demo-v2.3"]
    {["site" := "lab-a"]}
    [mkDiscoveryEntitySummary "entity:uav:1" "uav" "UAV 1" AvailabilityOnline 1
       {["hardware_id" := "SIM-UAV-001"]};
     mkDiscoveryEntitySummary "entity:ugv:27" "ugv" "UGV 27" AvailabilityDegraded 27 ∅]
    1000 7.

Definition sample_query : DiscoveryQuery := mkDiscoveryQuery 44 250 kDiscoveryFormatV4.
Definition sample_secret : string := "test-secret".
Definition sample_seen : Bytes := encode_discovery_query sample_query sample_secret.
Definition sample_reply : Bytes :=
  encode_discovery_reply sample_query sample_advertisement sample_secret.

Lemma sample_reply_nonempty : bool_decide (sample_reply = []) = false.
Proof. vm_compute. reflexivity. Qed.

Lemma discovery_reply_roundtrip_witness :
  decode_discovery_reply sample_reply sample_secret 44 = Some sample_advertisement.
Proof.
  pose proof (discovery_reply_roundtrip sample_query sample_advertisement sample_secret) as H.
  apply H; [reflexivity|reflexivity|vm_compute; reflexivity|].
  exact (bool_decide_eq_false_1 _ sample_reply_nonempty).
Defined.

Lemma sample_decodes :
  is_Some (decode_discovery_reply sample_reply sample_secret 44).
Proof. apply is_Some_alt. vm_compute. exact I. Qed.

Lemma discovery_reply_sound_witness :
  ∃ value f order summaries, valid_advertisement value = true
  ∧ orders value order summaries
  ∧ payload sample_reply = reply_image f 44 value order summaries.
Proof.
  destruct sample_decodes as [value Hv].
  destruct (discovery_reply_sound sample_reply sample_secret 44 value eq_refl Hv)
    as (_ & Hval & f & order & summaries & _ & _ & Hord & Hb & _).
  exists value, f, order, summaries. split; [exact Hval|]. split; [exact Hord|].
  rewrite Hb. apply payload_tagged, length_write_be.
Defined.

Lemma discovery_detects_corruption_witness :
  decode_discovery_query (<[5%nat:=byte_of 1]> sample_seen) sample_secret = None.
Proof.
  apply (discovery_detects_corruption sample_seen sample_secret 5 (byte_of 0) (byte_of 1)).
  - vm_compute. reflexivity.
  - vm_compute. reflexivity.
  - vm_compute. congruence.
Defined.

Lemma discovery_tag_forgeable_witness :
  decode_discovery_reply (forge sample_seen (output (write_reply sample_query
    sample_advertisement))) sample_secret 44
  = Some (carried kDiscoveryFormatV4 sample_advertisement).
Proof.
  apply (discovery_tag_forgeable sample_seen sample_secret sample_query sample_advertisement).
  - vm_compute. reflexivity.
  - reflexivity.
  - reflexivity.
  - vm_compute. reflexivity.
  - vm_compute. reflexivity.
  - vm_compute. reflexivity.
  - apply Z.leb_le. vm_compute. reflexivity.
Defined.
