(* ===== verification/Advertiser.v ===== *)
(** * Advertiser: the discovery responder

    [DiscoveryAdvertiser] of [include/yunlink/discovery/discovery_v2.hpp] and
    [src/discovery/discovery_v2_advertiser.cpp]: [start], [stop], [set_advertisement] and
    the thread that keeps the multicast memberships and answers queries.  What the
    operating system answers (interfaces, joins, receives, sends, clocks) is an argument;
    what the thread does to it is the list of [Effect]s it returns.

    [start] and [stop] are the lists of their statements, which the thread's passes and
    calls of [set_advertisement] come between; [step] is the relation of all that. *)

From Stdlib Require Import ZArith Lia String Ascii Strings.Byte Sorting.Sorted.
From stdpp Require Import base gmap strings list fin_maps sorting.
From S2P Require Import Prelude StdMap Codec WireTypes CoreMessages Discovery.
Local Open Scope string_scope.
Local Open Scope list_scope.
Local Open Scope Z_scope.

(** ** Interfaces *)

(** An [asio::ip::address_v4] is its 32-bit value. *)
Definition Address : Type := Z.

(** An entry of [getifaddrs]: the IPv4 address it carries, when it carries one, and its
    flags. *)
Record Interface := mkInterface {
  if_addr : option Address;
  if_up : bool;
  if_multicast : bool;
}.

Definition multicast_candidate (entry : Interface) : list Address :=
  match if_addr entry with
  | Some address => if negb (if_up entry) || negb (if_multicast entry) then [] else [address]
  | None => []
  end.

(** [std::unique]: of equal neighbours the first stays. *)
Fixpoint unique (values : list Address) : list Address :=
  match values with
  | a :: ((b :: _) as rest) => if a =? b then unique rest else a :: unique rest
  | _ => values
  end.

(** [None] is a failing [getifaddrs]. *)
Definition multicast_interfaces (interfaces : option (list Interface)) : list Address :=
  match interfaces with
  | None => []
  | Some entries => unique (merge_sort Z.le (entries ≫= multicast_candidate))
  end.

(** ** State *)

Inductive DiscoveryAdvertiserEventKind :=
  | kQueryReceived | kReplySent | kRejected | kReceiveError | kSendError
  | kMulticastJoinFailed | kMulticastJoined | kMulticastLeft.

#[export] Instance DiscoveryAdvertiserEventKind_eq_dec : EqDecision DiscoveryAdvertiserEventKind.
Proof. solve_decision. Defined.

Definition DiscoveryAdvertiserEventKind_value (kind : DiscoveryAdvertiserEventKind) : Z :=
  match kind with
  | kQueryReceived => 1 | kReplySent => 2 | kRejected => 3 | kReceiveError => 4
  | kSendError => 5 | kMulticastJoinFailed => 6 | kMulticastJoined => 7 | kMulticastLeft => 8
  end.

Record DiscoveryAdvertiserEvent := mkDiscoveryAdvertiserEvent {
  ade_kind : DiscoveryAdvertiserEventKind;
  ade_remote_ip : string;
  ade_remote_port : Z;
  ade_error : ErrorCode;
  ade_detail : string;
}.

(** An [asio::ip::udp::endpoint]. *)
Record Endpoint := mkEndpoint { ep_address : Address; ep_port : Z }.

(** The [unique_ptr] to the socket, and whether the socket it holds is open. *)
Inductive SocketState := NoSocket | SocketClosed | SocketOpen.

(** The [std::thread], and where the function it runs is: before its first refresh, at the
    condition of its loop, in the body, or at its end.  The clock of the next refresh is a
    local of that function. *)
Inductive ThreadState :=
  | NoThread
  | ThreadCreated
  | ThreadAtLoop (next_membership_refresh : Z)
  | ThreadInPass (next_membership_refresh : Z)
  | ThreadEnded.

(** [DiscoveryAdvertiser::Impl]: of the event handler, whether it is there. *)
Record Impl := mkImpl {
  ad_running : bool;
  ad_socket : SocketState;
  ad_thread : ThreadState;
  ad_advertisement : DiscoveryAdvertisement;
  ad_shared_secret : string;
  ad_event_handler : bool;
  ad_multicast_memberships : stdmap Address bool;
  ad_reported_missing_multicast_interface : bool;
}.

Definition default_advertisement : DiscoveryAdvertisement :=
  mkDiscoveryAdvertisement EmptyString "yunlink-endpoint" 9696 [] [] ∅ [] 0 0.

Definition default_Impl : Impl :=
  mkImpl false NoSocket NoThread default_advertisement EmptyString false ∅ false.

Definition with_running (running : bool) (impl : Impl) : Impl :=
  mkImpl running (ad_socket impl) (ad_thread impl) (ad_advertisement impl)
    (ad_shared_secret impl) (ad_event_handler impl) (ad_multicast_memberships impl)
    (ad_reported_missing_multicast_interface impl).

Definition with_socket (socket : SocketState) (impl : Impl) : Impl :=
  mkImpl (ad_running impl) socket (ad_thread impl) (ad_advertisement impl)
    (ad_shared_secret impl) (ad_event_handler impl) (ad_multicast_memberships impl)
    (ad_reported_missing_multicast_interface impl).

Definition with_thread (thread : ThreadState) (impl : Impl) : Impl :=
  mkImpl (ad_running impl) (ad_socket impl) thread (ad_advertisement impl)
    (ad_shared_secret impl) (ad_event_handler impl) (ad_multicast_memberships impl)
    (ad_reported_missing_multicast_interface impl).

Definition with_service (shared_secret : string) (event_handler : bool) (impl : Impl) : Impl :=
  mkImpl (ad_running impl) (ad_socket impl) (ad_thread impl) (ad_advertisement impl)
    shared_secret event_handler (ad_multicast_memberships impl)
    (ad_reported_missing_multicast_interface impl).

Definition with_advertisement (advertisement : DiscoveryAdvertisement) (impl : Impl) : Impl :=
  mkImpl (ad_running impl) (ad_socket impl) (ad_thread impl) advertisement
    (ad_shared_secret impl) (ad_event_handler impl) (ad_multicast_memberships impl)
    (ad_reported_missing_multicast_interface impl).

Definition with_memberships (memberships : stdmap Address bool) (impl : Impl) : Impl :=
  mkImpl (ad_running impl) (ad_socket impl) (ad_thread impl) (ad_advertisement impl)
    (ad_shared_secret impl) (ad_event_handler impl) memberships
    (ad_reported_missing_multicast_interface impl).

Definition with_reported (reported : bool) (impl : Impl) : Impl :=
  mkImpl (ad_running impl) (ad_socket impl) (ad_thread impl) (ad_advertisement impl)
    (ad_shared_secret impl) (ad_event_handler impl) (ad_multicast_memberships impl) reported.

Definition with_started_at (started_at_ms : Z) (value : DiscoveryAdvertisement) :
    DiscoveryAdvertisement :=
  mkDiscoveryAdvertisement (da_endpoint_uid value) (da_display_name value)
    (da_tcp_listen_port value) (da_capabilities value) (da_profiles value)
    (da_attributes value) (da_entities value) started_at_ms (da_sequence value).

Definition with_sequence (sequence : Z) (value : DiscoveryAdvertisement) :
    DiscoveryAdvertisement :=
  mkDiscoveryAdvertisement (da_endpoint_uid value) (da_display_name value)
    (da_tcp_listen_port value) (da_capabilities value) (da_profiles value)
    (da_attributes value) (da_entities value) (da_started_at_ms value) sequence.

(** ** The API *)

(** The statements of [start] and [stop] that change the state, one by one: between any
    two of them the thread and the other callers take steps.  Each is taken whole: that
    [StoreAdvertisement] does not hold the mutex of [set_advertisement], and that
    [CloseSocket] closes a socket the thread may be using, are data races of the code
    below what the model shows. *)
Inductive statement :=
  | StoreAdvertisement (advertisement : DiscoveryAdvertisement)
  | StoreSecret (shared_secret : string)
  | StoreHandler (event_handler : bool)
  | CreateSocket
  | BindSocket
  | ResetSocket
  | ClearMemberships
  | SetRunning
  | CreateThread
  | ClearRunning
  | CloseSocket
  | JoinThread
  | ClearReported.

(** [None]: the statement does not return in this state.  A join waits for the thread to
    end, and assigning to a joinable [std::thread] terminates the program. *)
Definition execute (what : statement) (impl : Impl) : option Impl :=
  match what with
  | StoreAdvertisement advertisement => Some (with_advertisement advertisement impl)
  | StoreSecret shared_secret => Some (with_service shared_secret (ad_event_handler impl) impl)
  | StoreHandler event_handler => Some (with_service (ad_shared_secret impl) event_handler impl)
  | CreateSocket => Some (with_socket SocketClosed impl)
  | BindSocket => Some (with_socket SocketOpen impl)
  | ResetSocket => Some (with_socket NoSocket impl)
  | ClearMemberships => Some (with_memberships ∅ impl)
  | SetRunning => Some (with_running true impl)
  | CreateThread =>
    match ad_thread impl with
    | NoThread => Some (with_thread ThreadCreated impl)
    | _ => None
    end
  | ClearRunning => Some (with_running false impl)
  | CloseSocket =>
    match ad_socket impl with
    | NoSocket => Some impl
    | _ => Some (with_socket SocketClosed impl)
    end
  | JoinThread =>
    match ad_thread impl with
    | NoThread => Some impl
    | ThreadEnded => Some (with_thread NoThread impl)
    | _ => None
    end
  | ClearReported => Some (with_reported false impl)
  end.

(** [start]: the result and the statements the call goes through.  [bound] tells whether
    opening and binding the socket succeeded, [non_blocking] whether the socket could be
    made non-blocking. *)
Definition start (bind_port : Z) (advertisement : DiscoveryAdvertisement)
    (shared_secret : string) (event_handler : bool) (now_ms : Z) (bound non_blocking : bool)
    (impl : Impl) : ErrorCode * list statement :=
  if ad_running impl || (bind_port =? 0)
     || negb (discovery_advertisement_is_valid advertisement) then (kInvalidArgument, [])
  else
    let advertisement :=
      if da_started_at_ms advertisement =? 0 then with_started_at now_ms advertisement
      else advertisement in
    let stored := [StoreAdvertisement advertisement; StoreSecret shared_secret;
                   StoreHandler event_handler; CreateSocket] in
    if negb bound then (kInternal, stored ++ [ResetSocket])
    else if negb non_blocking then (kInternal, stored ++ [BindSocket; ResetSocket])
    else (kOk, stored ++ [BindSocket; ClearMemberships; SetRunning; CreateThread]).

Definition stop : list statement :=
  [ClearRunning; CloseSocket; JoinThread; ResetSocket; ClearMemberships; ClearReported].

(** The statements with nothing in between, as when no thread is there. *)
Definition run (statements : list statement) (impl : Impl) : option Impl :=
  foldl (λ result what, impl ← result; execute what impl) (Some impl) statements.

Definition running (impl : Impl) : bool := ad_running impl.

Definition set_advertisement (advertisement : DiscoveryAdvertisement) (impl : Impl) : Impl :=
  if negb (discovery_advertisement_is_valid advertisement) then impl
  else
    let advertisement :=
      if da_started_at_ms advertisement =? 0
      then with_started_at (da_started_at_ms (ad_advertisement impl)) advertisement
      else advertisement in
    with_advertisement (with_sequence (da_sequence (ad_advertisement impl)) advertisement) impl.

(** ** The thread *)

(** What the thread asks of the system, in order. *)
Inductive Effect :=
  | JoinGroup (address : Address)
  | LeaveGroup (address : Address)
  | SendTo (remote : Endpoint) (bytes : Bytes)
  | Handle (event : DiscoveryAdvertiserEvent).

(** The [std::error_code] of a join, with its message. *)
Inductive JoinResult :=
  | Joined
  | AddressInUse (message : string)
  | JoinError (message : string).

Definition join_ok (result : JoinResult) : bool :=
  match result with Joined => true | _ => false end.
Definition join_in_use (result : JoinResult) : bool :=
  match result with AddressInUse _ => true | _ => false end.
Definition join_message (result : JoinResult) : string :=
  match result with Joined => "Success" | AddressInUse m => m | JoinError m => m end.

(** The outcome of [receive_from]. *)
Inductive ReceiveResult :=
  | ReceiveWouldBlock
  | ReceiveFailed (remote : Endpoint)
  | Received (remote : Endpoint) (datagram : Bytes).

Definition kReceiveBuffer : nat := 1024.
Definition kMembershipRefreshMs : Z := 5000.

Section thread.
(** [asio::ip::address_v4::to_string], [None] when it reports an error. *)
Context (to_string : Address → option string).

Definition emit (impl : Impl) (kind : DiscoveryAdvertiserEventKind) (remote : Endpoint)
    (error : ErrorCode) (detail : string) : list Effect :=
  if negb (ad_event_handler impl) then []
  else [Handle (mkDiscoveryAdvertiserEvent kind (default EmptyString (to_string (ep_address remote)))
                  (ep_port remote) error detail)].

(** The report of a missing interface at the head of [refresh_multicast]. *)
Definition report_missing (interfaces : list Address) (impl : Impl) : Impl * list Effect :=
  if bool_decide (interfaces = []) && negb (ad_reported_missing_multicast_interface impl) then
    (with_reported true impl,
     emit impl kMulticastJoinFailed (mkEndpoint 0 0) kInternal
       "no multicast-capable IPv4 interface")
  else if negb (bool_decide (interfaces = [])) then (with_reported false impl, [])
  else (impl, []).

(** One round of the loop over the memberships. *)
Definition drop_membership (interfaces : list Address) (entry : Address * bool)
    (impl : Impl) : Impl * list Effect :=
  if bool_decide (entry.1 ∈ interfaces) then (impl, [])
  else
    (with_memberships (delete entry.1 (ad_multicast_memberships impl)) impl,
     if entry.2 then
       LeaveGroup entry.1 :: emit impl kMulticastLeft (mkEndpoint entry.1 0) kOk EmptyString
     else []).

(** One round of the loop over the interfaces. *)
Definition join_membership (join : Address → JoinResult) (address : Address)
    (impl : Impl) : Impl * list Effect :=
  let known := ad_multicast_memberships impl !! address in
  let was_healthy := default false known in
  if was_healthy && join_in_use (join address) then (impl, [JoinGroup address])
  else
    (with_memberships (<[address := join_ok (join address)]> (ad_multicast_memberships impl)) impl,
     JoinGroup address ::
     (if join_ok (join address) && negb was_healthy
      then emit impl kMulticastJoined (mkEndpoint address 0) kOk EmptyString else []) ++
     (if negb (join_ok (join address)) && (bool_decide (known = None) || was_healthy)
      then emit impl kMulticastJoinFailed (mkEndpoint address 0) kInternal
             (join_message (join address)) else [])).

(** A loop whose rounds change the state and have effects. *)
Fixpoint for_each {A} (round : A → Impl → Impl * list Effect) (values : list A) (impl : Impl) :
    Impl * list Effect :=
  match values with
  | [] => (impl, [])
  | value :: values =>
    let '(impl, effects) := round value impl in
    let '(impl, more) := for_each round values impl in
    (impl, effects ++ more)
  end.

Definition refresh_multicast (entries : option (list Interface)) (join : Address → JoinResult)
    (impl : Impl) : Impl * list Effect :=
  let interfaces := multicast_interfaces entries in
  let '(impl, reported) := report_missing interfaces impl in
  let '(impl, dropped) :=
    for_each (drop_membership interfaces) (map_to_list (ad_multicast_memberships impl)) impl in
  let '(impl, joined) := for_each (join_membership join) interfaces impl in
  (impl, reported ++ dropped ++ joined).

(** The section under the mutex: the advertisement of the next reply. *)
Definition next_advertisement (impl : Impl) : DiscoveryAdvertisement * Impl :=
  let advertisement := with_sequence (uint64 (da_sequence (ad_advertisement impl) + 1))
    (ad_advertisement impl) in
  (advertisement,
   with_advertisement
     (with_sequence (da_sequence advertisement) (ad_advertisement impl)) impl).

(** The rest of a pass once a datagram arrived; [sent] tells whether [send_to] succeeded. *)
Definition serve (remote : Endpoint) (request : Bytes) (sent : bool) (impl : Impl) :
    Impl * list Effect :=
  match decode_discovery_query request (ad_shared_secret impl) with
  | None => (impl, emit impl kRejected remote kUnauthorized EmptyString)
  | Some query =>
    let received := emit impl kQueryReceived remote kOk EmptyString in
    let '(advertisement, impl) := next_advertisement impl in
    let reply := encode_discovery_reply query advertisement (ad_shared_secret impl) in
    if bool_decide (reply = []) then
      (impl, received ++ emit impl kSendError remote kEncodeError EmptyString)
    else
      (impl, received ++ SendTo remote reply ::
             emit impl (if sent then kReplySent else kSendError) remote
               (if sent then kOk else kInternal) EmptyString)
  end.

(** What one pass of the thread's loop meets: the clock at its start and after a refresh,
    the interfaces, the joins, the receive, the flag read after a failed receive, and the
    send. *)
Record PassEnv := mkPassEnv {
  pe_now : Z;
  pe_now_after : Z;
  pe_interfaces : option (list Interface);
  pe_join : Address → JoinResult;
  pe_receive : ReceiveResult;
  pe_running : bool;
  pe_sent : bool;
}.

(** One pass of the loop; [next_membership_refresh] is a local of the thread. *)
Definition pass (env : PassEnv) (next_membership_refresh : Z) (impl : Impl) :
    Z * Impl * list Effect :=
  let '(next, impl, refreshed) :=
    if next_membership_refresh <=? pe_now env then
      let '(impl, effects) := refresh_multicast (pe_interfaces env) (pe_join env) impl in
      (pe_now_after env + kMembershipRefreshMs, impl, effects)
    else (next_membership_refresh, impl, []) in
  match pe_receive env with
  | ReceiveWouldBlock => (next, impl, refreshed)
  | ReceiveFailed remote =>
    (next, impl,
     refreshed ++ if pe_running env
                  then emit impl kReceiveError remote kInternal EmptyString else [])
  | Received remote datagram =>
    let '(impl, served) := serve remote (take kReceiveBuffer datagram) (pe_sent env) impl in
    (next, impl, refreshed ++ served)
  end.

(** The thread up to its loop. *)
Definition thread_start (entries : option (list Interface)) (join : Address → JoinResult)
    (now : Z) (impl : Impl) : Z * Impl * list Effect :=
  let '(impl, effects) := refresh_multicast entries join impl in
  (now + kMembershipRefreshMs, impl, effects).

(** ** Refreshing the memberships *)
Lemma for_each_cons {A} (round : A → Impl → Impl * list Effect) a values impl :
  for_each round (a :: values) impl
  = ((for_each round values (round a impl).1).1,
     (round a impl).2 ++ (for_each round values (round a impl).1).2).
Proof. cbn. destruct (round a impl) as [i e]. cbn. by destruct (for_each round values i). Qed.

(** What a refresh does not touch: everything but the memberships and the report. *)
Definition service (impl : Impl) : Impl := with_memberships ∅ (with_reported false impl).

Lemma emit_same i j kind remote error detail :
  service i = service j → emit i kind remote error detail = emit j kind remote error detail.
Proof. intros [= _ _ _ _ _ E]. unfold emit. by rewrite E. Qed.

Lemma for_each_kept {A B} (kept : Impl → B) (round : A → Impl → Impl * list Effect) values impl :
  (∀ a i, kept (round a i).1 = kept i) → kept (for_each round values impl).1 = kept impl.
Proof.
  intros Hr. revert impl. induction values as [|a values IH]; intros impl; [done|].
  rewrite for_each_cons. cbn. etrans; [apply IH|apply Hr].
Qed.

Lemma drop_same interfaces entry impl :
  service (drop_membership interfaces entry impl).1 = service impl.
Proof. unfold drop_membership. case_if; done. Qed.

Lemma drop_reported interfaces entry impl :
  ad_reported_missing_multicast_interface (drop_membership interfaces entry impl).1
  = ad_reported_missing_multicast_interface impl.
Proof. unfold drop_membership. case_if; done. Qed.

Lemma join_same join address impl : service (join_membership join address impl).1 = service impl.
Proof. unfold join_membership. case_if; done. Qed.

Lemma join_reported join address impl :
  ad_reported_missing_multicast_interface (join_membership join address impl).1
  = ad_reported_missing_multicast_interface impl.
Proof. unfold join_membership. case_if; done. Qed.

(** What the loops leave of the memberships. *)
Lemma drop_loop interfaces entries impl a :
  ad_multicast_memberships (for_each (drop_membership interfaces) entries impl).1 !! a
  = if bool_decide (a ∈ interfaces ∨ a ∉ entries.*1)
    then ad_multicast_memberships impl !! a else None.
Proof.
  revert impl. induction entries as [|[k b] entries IH]; intros impl.
  { cbn. rewrite bool_decide_eq_true_2; [done|]. right. set_solver. }
  rewrite for_each_cons. cbn [fst]. rewrite IH. unfold drop_membership at 1. cbn [fst snd].
  destruct (decide (a ∈ interfaces)) as [Ha|Ha].
  { rewrite !(bool_decide_eq_true_2 (_ ∨ _)) by tauto. case_if; [done|]. cbn.
    rewrite lookup_delete_ne; [done|]. intros ->. bool_hyps. tauto. }
  destruct (decide (a ∈ entries.*1)) as [Hin|Hin].
  { rewrite !bool_decide_eq_false_2; [done|set_solver|set_solver]. }
  rewrite (bool_decide_eq_true_2 (a ∈ interfaces ∨ a ∉ entries.*1)) by tauto.
  destruct (decide (a = k)) as [->|Hne].
  - rewrite !bool_decide_eq_false_2 by set_solver. cbn. apply lookup_delete_eq.
  - rewrite (bool_decide_eq_true_2 (_ ∨ _)) by set_solver.
    case_if; [done|]. cbn. by rewrite lookup_delete_ne.
Qed.

(** The health of a membership after a join. *)
Definition joined_health (known : option bool) (result : JoinResult) : bool :=
  join_ok result || (default false known && join_in_use result).

Lemma join_round join address impl a :
  ad_multicast_memberships (join_membership join address impl).1 !! a
  = if decide (a = address)
    then Some (joined_health (ad_multicast_memberships impl !! address) (join address))
    else ad_multicast_memberships impl !! a.
Proof.
  unfold join_membership, joined_health.
  destruct (ad_multicast_memberships impl !! address) as [known|] eqn:E; cbn [default].
  - destruct (decide (a = address)) as [->|Hne]; destruct known, (join address);
      cbn -[lookup insert]; rewrite ?lookup_insert_eq, ?lookup_insert_ne by done; done.
  - destruct (decide (a = address)) as [->|Hne]; destruct (join address);
      cbn -[lookup insert]; rewrite ?lookup_insert_eq, ?lookup_insert_ne by done; done.
Qed.

Lemma join_loop join interfaces impl a :
  NoDup interfaces →
  ad_multicast_memberships (for_each (join_membership join) interfaces impl).1 !! a
  = if bool_decide (a ∈ interfaces)
    then Some (joined_health (ad_multicast_memberships impl !! a) (join a))
    else ad_multicast_memberships impl !! a.
Proof.
  revert impl. induction interfaces as [|b interfaces IH]; intros impl Hnd.
  { by rewrite bool_decide_eq_false_2 by set_solver. }
  apply NoDup_cons in Hnd as [Hb Hnd]. rewrite for_each_cons. cbn [fst].
  rewrite IH, join_round by done. destruct (decide (a = b)) as [->|Hne].
  - rewrite bool_decide_eq_false_2 by done. by rewrite bool_decide_eq_true_2 by set_solver.
  - destruct (decide (a ∈ interfaces)).
    + by rewrite !bool_decide_eq_true_2 by set_solver.
    + by rewrite !bool_decide_eq_false_2 by set_solver.
Qed.

(** The effects of the loops, as a function of the memberships before them. *)
Definition drop_effects (interfaces : list Address) (impl : Impl) (entry : Address * bool) :
    list Effect :=
  if bool_decide (entry.1 ∈ interfaces) then []
  else if entry.2 then
    LeaveGroup entry.1 :: emit impl kMulticastLeft (mkEndpoint entry.1 0) kOk EmptyString
  else [].

Definition join_effects (join : Address → JoinResult) (impl : Impl)
    (known : Address → option bool) (a : Address) : list Effect :=
  JoinGroup a ::
  match join a, known a with
  | Joined, Some true => []
  | Joined, _ => emit impl kMulticastJoined (mkEndpoint a 0) kOk EmptyString
  | AddressInUse _, Some _ => []
  | JoinError _, Some false => []
  | result, _ =>
    emit impl kMulticastJoinFailed (mkEndpoint a 0) kInternal (join_message result)
  end.

Lemma drop_loop_effects interfaces entries impl :
  (for_each (drop_membership interfaces) entries impl).2
  = entries ≫= drop_effects interfaces impl.
Proof.
  assert (H : ∀ i, service i = service impl →
    (for_each (drop_membership interfaces) entries i).2 = entries ≫= drop_effects interfaces impl).
  2:{ by apply H. }
  induction entries as [|e entries IH]; intros i Hi; [done|].
  rewrite for_each_cons. cbn [snd mbind list_bind]. f_equal.
  - unfold drop_membership, drop_effects. case_if; [done|].
    cbn [snd]. by rewrite (emit_same i impl) by done.
  - apply IH. etrans; [apply drop_same|done].
Qed.

Lemma join_loop_effects join interfaces impl :
  NoDup interfaces →
  (for_each (join_membership join) interfaces impl).2
  = interfaces ≫= join_effects join impl (λ a, ad_multicast_memberships impl !! a).
Proof.
  set (known := λ a, _). intros Hnd.
  assert (H : ∀ i, service i = service impl →
    (∀ a, a ∈ interfaces → ad_multicast_memberships i !! a = known a) →
    (for_each (join_membership join) interfaces i).2 = interfaces ≫= join_effects join impl known).
  2:{ by apply H. }
  induction Hnd as [|b interfaces Hb Hnd IH]; intros i Hi Hk; [done|].
  rewrite for_each_cons. cbn [snd mbind list_bind]. f_equal.
  - unfold join_membership, join_effects. rewrite Hk by set_solver.
    rewrite !(emit_same i impl) by done.
    destruct (known b) as [[]|], (join b); cbn; rewrite ?app_nil_r; done.
  - apply IH; [etrans; [apply join_same|done]|]. intros a Ha. rewrite join_round.
    destruct (decide (a = b)) as [->|]; [done|]. apply Hk. set_solver.
Qed.

Lemma drop_effects_same interfaces i j entry :
  service i = service j → drop_effects interfaces i entry = drop_effects interfaces j entry.
Proof. intros Hs. unfold drop_effects. by rewrite (emit_same i j). Qed.

Lemma join_effects_same join i j known known' a :
  service i = service j → known a = known' a →
  join_effects join i known a = join_effects join j known' a.
Proof.
  intros Hs Hk. unfold join_effects. rewrite Hk. f_equal.
  destruct (join a), (known' a) as [[]|]; try done; by apply emit_same.
Qed.

Lemma report_missing_spec interfaces impl :
  let '(impl', effects) := report_missing interfaces impl in
  service impl' = service impl
  ∧ ad_multicast_memberships impl' = ad_multicast_memberships impl
  ∧ ad_reported_missing_multicast_interface impl' = bool_decide (interfaces = [])
  ∧ effects
    = if bool_decide (interfaces = []) && negb (ad_reported_missing_multicast_interface impl)
      then emit impl kMulticastJoinFailed (mkEndpoint 0 0) kInternal
             "no multicast-capable IPv4 interface" else [].
Proof.
  unfold report_missing.
  destruct (bool_decide (interfaces = [])), (ad_reported_missing_multicast_interface impl) eqn:E;
    cbn; auto.
Qed.
End thread.

(** Dropping over all memberships leaves those of the interfaces. *)
Lemma dropped_all (interfaces : list Address) (memberships : stdmap Address bool) a :
  (if bool_decide (a ∈ interfaces ∨ a ∉ (map_to_list memberships).*1)
   then memberships !! a else None)
  = if bool_decide (a ∈ interfaces) then memberships !! a else None.
Proof.
  destruct (decide (a ∈ interfaces)); [by rewrite !bool_decide_eq_true_2 by tauto|].
  rewrite (bool_decide_eq_false_2 (a ∈ interfaces)) by done. case_if; [|done].
  bool_hyps. destruct Heqb as [|Hn]; [done|]. destruct (memberships !! a) as [b|] eqn:E; [|done].
  exfalso. apply Hn, list_elem_of_fmap. exists (a, b). split; [done|]. by apply elem_of_map_to_list.
Qed.

(** *** The list of interfaces *)
Lemma unique_elem a l : a ∈ unique l ↔ a ∈ l.
Proof.
  induction l as [|b l IH]; [done|]. destruct l as [|c l]; [done|].
  change (unique (b :: c :: l)) with (if b =? c then unique (c :: l) else b :: unique (c :: l)).
  case_if; bool_hyps; subst; rewrite ?elem_of_cons, IH; set_solver.
Qed.

Lemma unique_sorted l : StronglySorted Z.le l → StronglySorted Z.lt (unique l).
Proof.
  induction 1 as [|b l Hs IH Hf]; [constructor|]. destruct l as [|c l]; [repeat constructor|].
  change (unique (b :: c :: l)) with (if b =? c then unique (c :: l) else b :: unique (c :: l)).
  case_if; [done|]. bool_hyps. constructor; [done|]. apply Forall_forall. intros x Hx.
  rewrite unique_elem, elem_of_cons in Hx. destruct Hx as [-> | Hx].
  - apply Forall_inv in Hf. lia.
  - apply Forall_inv in Hf. inversion Hs as [|? ? ? Hc]; subst.
    rewrite Forall_forall in Hc. specialize (Hc _ Hx). lia.
Qed.

Lemma lt_sorted_NoDup l : StronglySorted Z.lt l → NoDup l.
Proof.
  induction 1 as [|b l Hs IH Hf]; constructor; [|done]. intros Hb.
  rewrite Forall_forall in Hf. specialize (Hf _ Hb). lia.
Qed.

Lemma interfaces_sorted entries : StronglySorted Z.lt (multicast_interfaces entries).
Proof.
  destruct entries as [entries|]; [|constructor]. apply unique_sorted.
  apply Sorted_StronglySorted; [intros ???; lia|]. apply (Sorted_merge_sort _).
Qed.

(** The addresses of the interfaces that are up and take part in multicast. *)
Definition usable (entries : option (list Interface)) (a : Address) : Prop :=
  ∃ l, entries = Some l ∧ mkInterface (Some a) true true ∈ l.

Lemma interfaces_elem entries a : a ∈ multicast_interfaces entries ↔ usable entries a.
Proof.
  destruct entries as [l|]; unfold multicast_interfaces.
  2:{ split; [intros []%not_elem_of_nil|intros (? & ? & _)]; done. }
  rewrite unique_elem, merge_sort_Permutation, list_elem_of_bind. unfold usable. split.
  - intros ([ip up mc] & Ha & Hl). exists l. split; [done|].
    unfold multicast_candidate in Ha. cbn in Ha.
    destruct ip as [ip|], up, mc; cbn in Ha; set_solver.
  - intros (l' & [= <-] & Hl). exists (mkInterface (Some a) true true). split; [set_solver|done].
Qed.

(** ** Properties *)

(** C20 A refresh leaves a membership for exactly the usable interfaces, each once: healthy
    when its join succeeded, or when it was healthy and the group is already joined.  It
    leaves the group on healthy memberships whose interface is gone, joins on every usable
    interface in ascending order, and reports what changed and nothing else. *)
Theorem refresh_multicast_correct to_string entries join impl :
  let interfaces := multicast_interfaces entries in
  let '(impl', effects) := refresh_multicast to_string entries join impl in
  StronglySorted Z.lt interfaces ∧ (∀ a, a ∈ interfaces ↔ usable entries a)
  ∧ (∀ a, ad_multicast_memberships impl' !! a
      = if bool_decide (a ∈ interfaces)
        then Some (joined_health (ad_multicast_memberships impl !! a) (join a)) else None)
  ∧ ad_reported_missing_multicast_interface impl' = bool_decide (interfaces = [])
  ∧ service impl' = service impl
  ∧ effects
    = (if bool_decide (interfaces = []) && negb (ad_reported_missing_multicast_interface impl)
       then emit to_string impl kMulticastJoinFailed (mkEndpoint 0 0) kInternal
              "no multicast-capable IPv4 interface" else [])
      ++ (map_to_list (ad_multicast_memberships impl) ≫= drop_effects to_string interfaces impl)
      ++ (interfaces ≫= join_effects to_string join impl
            (λ a, ad_multicast_memberships impl !! a)).
Proof.
  cbn zeta. set (interfaces := multicast_interfaces entries). unfold refresh_multicast.
  fold interfaces.
  pose proof (interfaces_sorted entries) as Hsort. fold interfaces in Hsort.
  pose proof (lt_sorted_NoDup _ Hsort) as Hnd.
  pose proof (report_missing_spec to_string interfaces impl) as Hreport.
  destruct (report_missing to_string interfaces impl) as [i1 e1].
  destruct Hreport as (Hs1 & Hm1 & Hr1 & He1). rewrite Hm1.
  set (members := map_to_list (ad_multicast_memberships impl)).
  pose proof (drop_loop to_string interfaces members i1) as Hdrop.
  pose proof (drop_loop_effects to_string interfaces members i1) as Hleft.
  pose proof (for_each_kept service (drop_membership to_string interfaces) members i1
    ltac:(intros; apply drop_same)) as Hs2.
  pose proof (for_each_kept ad_reported_missing_multicast_interface
    (drop_membership to_string interfaces) members i1 ltac:(intros; apply drop_reported)) as Hr2.
  destruct (for_each _ members i1) as [i2 e2]. cbn [fst snd] in *.
  pose proof (join_loop to_string join interfaces i2) as Hjoin.
  pose proof (join_loop_effects to_string join interfaces i2 Hnd) as Hjoined.
  pose proof (for_each_kept service (join_membership to_string join) interfaces i2
    ltac:(intros; apply join_same)) as Hs3.
  pose proof (for_each_kept ad_reported_missing_multicast_interface
    (join_membership to_string join) interfaces i2 ltac:(intros; apply join_reported)) as Hr3.
  destruct (for_each _ interfaces i2) as [i3 e3]. cbn [fst snd] in *.
  rewrite Hs2 in Hs3. rewrite Hs1 in Hs3. rewrite Hr2 in Hr3. rewrite Hr1 in Hr3.
  assert (Hm2 : ∀ a, ad_multicast_memberships i2 !! a
    = if bool_decide (a ∈ interfaces) then ad_multicast_memberships impl !! a else None).
  { intros a. rewrite Hdrop, Hm1. subst members. apply dropped_all. }
  split; [done|]. split; [apply interfaces_elem|]. split; [|split; [done|split; [done|]]].
  - intros a. rewrite Hjoin, Hm2 by done. by case_if.
  - rewrite He1, Hleft, Hjoined. f_equal. f_equal; apply Forall_bind_ext, Forall_forall.
    + intros entry _. by apply drop_effects_same.
    + intros a Ha. apply join_effects_same; [by rewrite Hs2|].
      by rewrite Hm2, bool_decide_eq_true_2.
Qed.

(** *** Serving queries *)

(** The advertisement the next accepted query is answered with. *)
Definition upcoming (impl : Impl) : DiscoveryAdvertisement :=
  with_sequence (uint64 (da_sequence (ad_advertisement impl) + 1)) (ad_advertisement impl).

(** Whether a reply can be encoded and fits a datagram. *)
Definition reply_fits (query : DiscoveryQuery) (value : DiscoveryAdvertisement) : bool :=
  valid (write_reply query value)
  && (vsize (output (write_reply query value)) + 8 <=? kMaxDiscoveryBytes).

Lemma upcoming_valid impl :
  valid_advertisement (upcoming impl) = valid_advertisement (ad_advertisement impl).
Proof. done. Qed.

Lemma typed_started_at ms value :
  in_uint 64 ms = true → typed_advertisement value = true →
  typed_advertisement (with_started_at ms value) = true.
Proof.
  unfold typed_advertisement. intros Hms H. bool_hyps. cbn -[in_uint andb].
  repeat match goal with |- (_ && _)%bool = true => apply andb_true_iff; split end; done.
Qed.

Lemma typed_sequence s value :
  in_uint 64 s = true → typed_advertisement value = true →
  typed_advertisement (with_sequence s value) = true.
Proof.
  unfold typed_advertisement. intros Hms H. bool_hyps. cbn -[in_uint andb].
  repeat match goal with |- (_ && _)%bool = true => apply andb_true_iff; split end; done.
Qed.

Lemma typed_fields value :
  typed_advertisement value = true →
  in_uint 64 (da_started_at_ms value) = true ∧ in_uint 64 (da_sequence value) = true.
Proof. unfold typed_advertisement. intros H. by bool_hyps. Qed.

Lemma upcoming_typed impl :
  typed_advertisement (ad_advertisement impl) = true → typed_advertisement (upcoming impl) = true.
Proof.
  intros Ht. apply typed_sequence; [by apply uint_in_range|done].
Qed.

Lemma next_advertisement_eq impl :
  next_advertisement impl = (upcoming impl, with_advertisement (upcoming impl) impl).
Proof. done. Qed.

Lemma sendable_query query :
  sendable query = true →
  is_format (q_format_version query) = true ∧ in_uint 64 (q_nonce query) = true
  ∧ q_nonce query ≠ 0.
Proof. unfold sendable, wf_query. intros H. by bool_hyps. Qed.

Lemma encode_reply_fits query value secret :
  q_nonce query ≠ 0 → valid_advertisement value = true →
  bool_decide (encode_discovery_reply query value secret = []) = negb (reply_fits query value).
Proof.
  intros Hn Ha. unfold encode_discovery_reply, reply_fits.
  rewrite (proj2 (Z.eqb_neq _ _)), Ha by done. cbn [negb orb].
  rewrite finish_spec by apply writes_reply. case_if; cbn [negb].
  - apply bool_decide_eq_false. intros E. apply (f_equal length) in E.
    rewrite length_app, length_write_be in E. cbn in E. lia.
  - by apply bool_decide_eq_true.
Qed.

(** C15 A datagram that is not a query encoded with the shared secret changes nothing and is
    reported as rejected.  A query is answered, in its own format, with the advertisement
    under the next sequence number, which a holder of the secret decodes with the nonce of
    the query; only when that reply does not fit a datagram nothing is sent, and that is
    reported. *)
Theorem serve_correct to_string remote request sent impl :
  valid_advertisement (ad_advertisement impl) = true →
  typed_advertisement (ad_advertisement impl) = true →
  let say := emit to_string impl in
  (∀ query, sendable query = true →
     request = encode_discovery_query query (ad_shared_secret impl) →
     ∃ more, serve to_string remote request sent impl
       = (with_advertisement (upcoming impl) impl,
          say kQueryReceived remote kOk EmptyString ++ more)
     ∧ if reply_fits query (upcoming impl) then
         ∃ reply,
           more = SendTo remote reply :: say (if sent then kReplySent else kSendError) remote
                    (if sent then kOk else kInternal) EmptyString
           ∧ decode_discovery_reply reply (ad_shared_secret impl) (q_nonce query)
             = Some (carried (q_format_version query) (upcoming impl))
       else more = say kSendError remote kEncodeError EmptyString)
  ∧ ((∀ query, sendable query = true →
        request ≠ encode_discovery_query query (ad_shared_secret impl)) →
     serve to_string remote request sent impl
     = (impl, say kRejected remote kUnauthorized EmptyString)).
Proof.
  intros Ha Ht say. unfold serve. split.
  - intros query Hs ->. rewrite query_decodes by done. rewrite next_advertisement_eq.
    destruct (sendable_query _ Hs) as (Hf & Hn & Hnz).
    pose proof (encode_reply_fits query (upcoming impl) (ad_shared_secret impl) Hnz Ha) as Hfits.
    cbn [ad_shared_secret with_advertisement].
    destruct (reply_fits query (upcoming impl)); rewrite Hfits; cbn [negb].
    + eexists. split; [done|]. eexists. split; [done|].
      apply reply_decodes; [done|done|by apply upcoming_typed|].
      by apply bool_decide_eq_false in Hfits.
    + eexists. by split.
  - intros Hno. destruct (decode_discovery_query _ _) as [query|] eqn:E; [|done].
    apply query_sound in E as [Hs ->]. by destruct (Hno query Hs).
Qed.

(** *** The responder among the other threads *)

(** An advertiser with the rest of the call of [start] or [stop] that is under way; [[]]
    when none is.  Both calls come from the thread that owns the advertiser (the
    destructor is a [stop]), one after the other; [set_advertisement] may be called by any
    thread at any time. *)
Definition system : Type := Impl * list statement.

Section system.
Context (to_string : Address → option string).

(** The steps of the thread.  The loop's condition is a step of its own, so that a pass
    may find the flag cleared and the socket closed under it.  What a pass writes no
    statement of a call under way touches, apart from the advertisement, which it reads
    and writes in one section of the mutex. *)
Inductive thread_step (impl : Impl) : Impl → Prop :=
  | thread_first entries join now :
      ad_thread impl = ThreadCreated →
      thread_step impl
        (let r := thread_start to_string entries join now impl in
         with_thread (ThreadAtLoop r.1.1) r.1.2)
  | thread_enter next :
      ad_thread impl = ThreadAtLoop next → ad_running impl = true →
      thread_step impl (with_thread (ThreadInPass next) impl)
  | thread_leave next :
      ad_thread impl = ThreadAtLoop next → ad_running impl = false →
      thread_step impl (with_thread ThreadEnded impl)
  | thread_pass env next :
      ad_thread impl = ThreadInPass next →
      thread_step impl
        (let r := pass to_string env next impl in with_thread (ThreadAtLoop r.1.1) r.1.2).

(** The steps of an advertiser: the beginning of a call, with arguments of their C++
    types, a statement of the call under way, [set_advertisement], and the thread. *)
Inductive step : system → system → Prop :=
  | step_start bind_port advertisement secret handler now bound non_blocking impl :
      typed_advertisement advertisement = true → in_uint 64 now = true →
      step (impl, [])
        (impl, (start bind_port advertisement secret handler now bound non_blocking impl).2)
  | step_stop impl : step (impl, []) (impl, stop)
  | step_statement what rest impl impl' :
      execute what impl = Some impl' → step (impl, what :: rest) (impl', rest)
  | step_set_advertisement advertisement impl call :
      typed_advertisement advertisement = true →
      step (impl, call) (set_advertisement advertisement impl, call)
  | step_thread impl impl' call : thread_step impl impl' → step (impl, call) (impl', call).

(** The thread has been created and has not ended. *)
Definition alive (impl : Impl) : Prop :=
  match ad_thread impl with NoThread | ThreadEnded => False | _ => True end.

(** Nothing is left of a thread or of its memberships, and the socket is in the given
    state. *)
Record at_rest (impl : Impl) (socket : SocketState) : Prop := {
  ar_running : ad_running impl = false;
  ar_thread : ad_thread impl = NoThread;
  ar_socket : ad_socket impl = socket;
  ar_memberships : ad_multicast_memberships impl = ∅;
  ar_reported : ad_reported_missing_multicast_interface impl = false;
}.

(** The responder is at work. *)
Record at_work (impl : Impl) : Prop := {
  aw_running : ad_running impl = true;
  aw_thread : alive impl;
  aw_socket : ad_socket impl = SocketOpen;
  aw_valid : discovery_advertisement_is_valid (ad_advertisement impl) = true;
}.

(** What holds of every reachable state. *)
Record advertiser_ok (sys : system) : Prop := {
  ok_typed : typed_advertisement (ad_advertisement sys.1) = true;
  (** Between the calls. *)
  ok_idle : sys.2 = [] → at_rest sys.1 NoSocket ∨ at_work sys.1;
  (** The thread has a socket, also while a [stop] is under way. *)
  ok_socket : ad_thread sys.1 ≠ NoThread → ad_socket sys.1 ≠ NoSocket;
  (** [running] is true exactly from the start of the thread on, one statement apart. *)
  ok_running : ad_running sys.1 = true →
    ad_socket sys.1 = SocketOpen
    ∧ discovery_advertisement_is_valid (ad_advertisement sys.1) = true
    ∧ (alive sys.1 ∨ ad_thread sys.1 = NoThread ∧ sys.2 = [CreateThread]);
  (** A call goes on, unless it waits for a thread that has been told to end. *)
  ok_goes_on : ∀ what rest, sys.2 = what :: rest →
    is_Some (execute what sys.1)
    ∨ what = JoinThread ∧ alive sys.1 ∧ ad_running sys.1 = false;
}.

(** A step of the thread keeps the service and, in the advertisement, all but the number. *)
Lemma refresh_service entries join impl :
  service (refresh_multicast to_string entries join impl).1 = service impl.
Proof.
  unfold refresh_multicast.
  pose proof (report_missing_spec to_string (multicast_interfaces entries) impl) as Hr.
  destruct (report_missing _ _ _) as [i1 e1]. destruct Hr as [<- _].
  pose proof (for_each_kept service (drop_membership to_string (multicast_interfaces entries))
    (map_to_list (ad_multicast_memberships i1)) i1 ltac:(intros; apply drop_same)) as <-.
  destruct (for_each _ (map_to_list _) i1) as [i2 e2]. cbn [fst].
  pose proof (for_each_kept service (join_membership to_string join)
    (multicast_interfaces entries) i2 ltac:(intros; apply join_same)) as <-.
  by destruct (for_each _ _ i2).
Qed.

Lemma serve_service remote request sent impl :
  (serve to_string remote request sent impl).1 = impl
  ∨ (serve to_string remote request sent impl).1 = with_advertisement (upcoming impl) impl.
Proof.
  unfold serve. destruct (decode_discovery_query _ _); [|by left].
  rewrite next_advertisement_eq. right. by case_if.
Qed.

Lemma thread_start_service entries join now impl :
  service (thread_start to_string entries join now impl).1.2 = service impl.
Proof.
  unfold thread_start. pose proof (refresh_service entries join impl) as E.
  by destruct (refresh_multicast _ _ _ impl).
Qed.

Lemma pass_service env next impl :
  service (pass to_string env next impl).1.2 = service impl
  ∨ service (pass to_string env next impl).1.2
    = service (with_advertisement (upcoming impl) impl).
Proof.
  assert (Hs : ∀ i remote request sent, service i = service impl →
    let j := (serve to_string remote request sent i).1 in
    service j = service impl ∨ service j = service (with_advertisement (upcoming impl) impl)).
  { intros i remote request sent Hi.
    pose proof (serve_service remote request sent i) as Hserve.
    destruct (serve _ _ _ _ i) as [i' e]. cbn [fst] in *.
    destruct i, impl. injection Hi as -> -> -> -> -> ->.
    destruct Hserve as [-> | ->]; [by left|by right]. }
  unfold pass. destruct (next <=? pe_now env).
  - pose proof (refresh_service (pe_interfaces env) (pe_join env) impl) as E.
    destruct (refresh_multicast _ _ _ impl) as [i e]. cbn [fst] in E.
    destruct (pe_receive env) as [| |remote datagram]; [by left..|].
    specialize (Hs i remote (take kReceiveBuffer datagram) (pe_sent env) E).
    by destruct (serve _ _ _ _ i).
  - destruct (pe_receive env) as [| |remote datagram]; [by left..|].
    specialize (Hs impl remote (take kReceiveBuffer datagram) (pe_sent env) eq_refl).
    by destruct (serve _ _ _ _ impl).
Qed.

(** What a step of the thread does: it needs a living thread, keeps the flag, the socket
    and what is known of the advertisement, and ends the thread only when the flag is
    cleared. *)
Record moves (impl impl' : Impl) : Prop := {
  mv_alive : alive impl;
  mv_running : ad_running impl' = ad_running impl;
  mv_socket : ad_socket impl' = ad_socket impl;
  mv_thread : alive impl' ∨ ad_thread impl' = ThreadEnded ∧ ad_running impl = false;
  mv_typed : typed_advertisement (ad_advertisement impl) = true →
    typed_advertisement (ad_advertisement impl') = true;
  mv_valid : discovery_advertisement_is_valid (ad_advertisement impl')
             = discovery_advertisement_is_valid (ad_advertisement impl);
}.

Lemma service_moves impl impl' next :
  alive impl →
  service impl' = service impl ∨ service impl' = service (with_advertisement (upcoming impl) impl) →
  moves impl (with_thread (ThreadAtLoop next) impl').
Proof.
  intros Ha [E|E]; injection E as E1 E2 _ E4 _ _; (split; cbn; [done..|by left| |]);
    rewrite E4; [done|done|apply upcoming_typed|done].
Qed.

Lemma thread_moves impl impl' : thread_step impl impl' → moves impl impl'.
Proof.
  intros [entries join now Ht|next Ht Hr|next Ht Hr|env next Ht].
  - apply service_moves; [by unfold alive; rewrite Ht|]. left. apply thread_start_service.
  - split; cbn; [by unfold alive; rewrite Ht|done..|by left|done|done].
  - split; cbn; [by unfold alive; rewrite Ht|done..|by right|done|done].
  - apply service_moves; [by unfold alive; rewrite Ht|]. apply pass_service.
Qed.

(** *** The phases of a call *)

Definition valid_now (impl : Impl) : Prop :=
  discovery_advertisement_is_valid (ad_advertisement impl) = true.

(** What follows the creation of the socket in [start]. *)
Definition outcome (rest : list statement) : Prop :=
  rest = [ResetSocket] ∨ rest = [BindSocket; ResetSocket]
  ∨ rest = [BindSocket; ClearMemberships; SetRunning; CreateThread].

(** The flag is cleared; a thread that is still there has its socket. *)
Definition ending (impl : Impl) : Prop :=
  ad_running impl = false ∧ (ad_thread impl ≠ NoThread → ad_socket impl ≠ NoSocket).

Inductive phase (impl : Impl) : list statement → Prop :=
  | ph_rest : at_rest impl NoSocket → phase impl []
  | ph_work : at_work impl → phase impl []
  | ph_advertisement advertisement secret handler rest :
      at_rest impl NoSocket → typed_advertisement advertisement = true →
      discovery_advertisement_is_valid advertisement = true → outcome rest →
      phase impl (StoreAdvertisement advertisement :: StoreSecret secret
                  :: StoreHandler handler :: CreateSocket :: rest)
  | ph_secret secret handler rest :
      at_rest impl NoSocket → valid_now impl → outcome rest →
      phase impl (StoreSecret secret :: StoreHandler handler :: CreateSocket :: rest)
  | ph_handler handler rest :
      at_rest impl NoSocket → valid_now impl → outcome rest →
      phase impl (StoreHandler handler :: CreateSocket :: rest)
  | ph_create rest :
      at_rest impl NoSocket → valid_now impl → outcome rest → phase impl (CreateSocket :: rest)
  | ph_outcome rest : at_rest impl SocketClosed → valid_now impl → outcome rest → phase impl rest
  | ph_give_up socket : at_rest impl socket → phase impl [ResetSocket]
  | ph_bound :
      at_rest impl SocketOpen → valid_now impl →
      phase impl [ClearMemberships; SetRunning; CreateThread]
  | ph_set : at_rest impl SocketOpen → valid_now impl → phase impl [SetRunning; CreateThread]
  | ph_thread :
      ad_running impl = true → ad_thread impl = NoThread → ad_socket impl = SocketOpen →
      valid_now impl → phase impl [CreateThread]
  | ph_stop : at_rest impl NoSocket ∨ at_work impl → phase impl stop
  | ph_close :
      ending impl →
      phase impl [CloseSocket; JoinThread; ResetSocket; ClearMemberships; ClearReported]
  | ph_join :
      ending impl → phase impl [JoinThread; ResetSocket; ClearMemberships; ClearReported]
  | ph_reset :
      ad_running impl = false → ad_thread impl = NoThread →
      phase impl [ResetSocket; ClearMemberships; ClearReported]
  | ph_clear :
      ad_running impl = false → ad_thread impl = NoThread → ad_socket impl = NoSocket →
      phase impl [ClearMemberships; ClearReported]
  | ph_reported :
      ad_running impl = false → ad_thread impl = NoThread → ad_socket impl = NoSocket →
      ad_multicast_memberships impl = ∅ → phase impl [ClearReported].

Definition sys_ok (sys : system) : Prop :=
  typed_advertisement (ad_advertisement sys.1) = true ∧ phase sys.1 sys.2.

Lemma rest_not_alive impl socket : at_rest impl socket → ¬ alive impl.
Proof. intros [_ H _ _ _]. unfold alive. rewrite H. tauto. Qed.

Lemma work_thread impl : alive impl → ad_thread impl ≠ NoThread.
Proof. unfold alive. intros H E. by rewrite E in H. Qed.

Ltac open_phase :=
  repeat match goal with
    | H : at_rest _ _ |- _ => destruct H
    | H : at_work _ |- _ => destruct H
    | H : ending _ |- _ => destruct H
    end.

(** The phases say what the theorem does. *)
Lemma phase_ok impl call : sys_ok (impl, call) → advertiser_ok (impl, call).
Proof.
  unfold sys_ok. cbn [fst snd]. intros [Ht Hp]. split; cbn [fst snd]; [done|..].
  - intros ->. inversion Hp as [| | | | | |? ? ? Ho| | | | | | | | | |]; subst; auto.
    by destruct Ho as [|[|]].
  - intros Hth. destruct Hp; destruct_or?; open_phase; auto; congruence.
  - intros Hr. destruct Hp; destruct_or?; open_phase; auto; congruence.
  - intros what rest ->. inversion Hp as [| | | | | |? ? ? Ho| | | |? Hth| |He|He| | |]; subst;
      try (left; eexists; reflexivity).
    + destruct Ho as [[= -> ->]|[[= -> ->]|[= -> ->]]]; left; by eexists.
    + left. cbn. rewrite Hth. by eexists.
    + left. cbn. destruct (ad_socket impl); by eexists.
    + destruct He as [Hr _]. cbn. unfold alive. destruct (ad_thread impl);
        (left; by eexists) || (right; by split_and!).
Qed.

(** *** Every step keeps the phases *)
Lemma phase_advertise advertisement impl call :
  discovery_advertisement_is_valid advertisement = true → phase impl call →
  phase (with_advertisement advertisement impl) call.
Proof.
  intros Hv.
  assert (Hrest : ∀ socket, at_rest impl socket →
    at_rest (with_advertisement advertisement impl) socket) by (by intros ? []).
  assert (Hwork : at_work impl → at_work (with_advertisement advertisement impl))
    by (intros []; by split).
  intros []; destruct_or?; try by (econstructor; eauto).
Qed.

Lemma set_advertisement_ok advertisement impl call :
  typed_advertisement advertisement = true → sys_ok (impl, call) →
  sys_ok (set_advertisement advertisement impl, call).
Proof.
  unfold sys_ok. cbn [fst snd]. intros Ht [Hta Hp]. unfold set_advertisement. case_if; [done|].
  bool_hyps. destruct (typed_fields _ Hta) as [Hst Hsq]. split.
  - cbn. apply typed_sequence; [done|]. case_if; [by apply typed_started_at|done].
  - apply phase_advertise; [by case_if|done].
Qed.

Lemma thread_ok impl impl' call :
  thread_step impl impl' → sys_ok (impl, call) → sys_ok (impl', call).
Proof.
  unfold sys_ok. cbn [fst snd]. intros [Ha Hr Hs Hth Hty Hv]%thread_moves [Ht Hp].
  split; [auto|].
  assert (Hwork : at_work impl → at_work impl').
  { intros [Hrun _ Hso Hva]. destruct Hth as [Hth|[_ ?]]; [|congruence]. split; congruence. }
  assert (Hend : ending impl → ending impl').
  { intros [Hrun Hso]. split; [congruence|]. intros _. rewrite Hs. by apply Hso, work_thread. }
  destruct Hp; try (by exfalso; eapply rest_not_alive);
    try (by exfalso; apply (work_thread impl)); eauto using phase.
  match goal with H : _ ∨ at_work impl |- _ => destruct H end; [by exfalso; eapply rest_not_alive|].
  eauto using phase.
Qed.

Lemma at_rest_socket impl socket socket' :
  at_rest impl socket → at_rest (with_socket socket' impl) socket'.
Proof. intros []. by split. Qed.

Lemma outcome_ok what rest impl impl' :
  at_rest impl SocketClosed → valid_now impl → outcome (what :: rest) →
  execute what impl = Some impl' → phase impl' rest.
Proof.
  intros Hr Hv [[= -> ->]|[[= -> ->]|[= -> ->]]] [= <-];
    apply (at_rest_socket _ _ NoSocket) in Hr as Hno;
    apply (at_rest_socket _ _ SocketOpen) in Hr as Hopen; eauto using phase.
Qed.

Lemma close_ok impl impl' :
  ending impl → execute CloseSocket impl = Some impl' →
  ending impl' ∧ ad_advertisement impl' = ad_advertisement impl.
Proof.
  intros [Hr Hs]. cbn. destruct (ad_socket impl) eqn:E; intros [= <-];
    (split; [split; cbn|]); try done. by rewrite E.
Qed.

Lemma join_ok_statement impl impl' :
  ending impl → execute JoinThread impl = Some impl' →
  ad_running impl' = false ∧ ad_thread impl' = NoThread
  ∧ ad_advertisement impl' = ad_advertisement impl.
Proof. intros [Hr _]. cbn. destruct (ad_thread impl) eqn:E; intros [= <-]; by rewrite ?E. Qed.

Lemma statement_ok what rest impl impl' :
  execute what impl = Some impl' → sys_ok (impl, what :: rest) → sys_ok (impl', rest).
Proof.
  unfold sys_ok. cbn [fst snd]. intros He [Ht Hp].
  assert (Hadv : (∀ a, what ≠ StoreAdvertisement a) →
    ad_advertisement impl' = ad_advertisement impl).
  { intros Hn. destruct what; cbn in He; simplify_eq; try done; [by edestruct Hn|..];
      [destruct (ad_thread impl)|destruct (ad_socket impl)|destruct (ad_thread impl)];
      by simplify_eq. }
  inversion Hp as [| |? ? ? ? Hr ? ? Ho|? ? ? Hr ? Ho|? ? Hr ? Ho|? Hr ? Ho|? Hr ? Ho|? Hr|Hr|Hr
    |? Hth|Hw|Hw|Hw| | |]; subst;
    (split; [first [by rewrite Hadv by done|idtac]|]).
  1: injection He as <-; done.
  1: injection He as <-; apply ph_secret; [by destruct Hr|done..].
  1: injection He as <-; apply ph_handler; [by destruct Hr|done..].
  1: injection He as <-; apply ph_create; [by destruct Hr|done..].
  1: injection He as <-; apply ph_outcome; [by eapply at_rest_socket|done..].
  1: by rewrite Hadv by (intros a ->; by destruct Ho as [|[|]]).
  1: by eapply outcome_ok.
  1: injection He as <-; eapply ph_rest, at_rest_socket, Hr.
  1: injection He as <-; apply ph_set; [by destruct Hr|done].
  1: injection He as <-; destruct Hr; by apply ph_thread.
  - cbn in He. rewrite Hth in He. injection He as <-. by apply ph_work.
  - injection He as <-. apply ph_close. destruct Hw as [[]|[]]; split; cbn; congruence.
  - apply ph_join. by eapply close_ok.
  - destruct (join_ok_statement impl impl' Hw He) as (? & ? & _). by apply ph_reset.
  - injection He as <-. by apply ph_clear.
  - injection He as <-. by apply ph_reported.
  - injection He as <-. by apply ph_rest.
Qed.

Lemma start_ok port advertisement secret handler now bound non_blocking impl :
  typed_advertisement advertisement = true → in_uint 64 now = true → sys_ok (impl, []) →
  sys_ok (impl, (start port advertisement secret handler now bound non_blocking impl).2).
Proof.
  unfold sys_ok. cbn [fst snd]. intros Ht Hnow [Hty Hp]. split; [done|].
  unfold start. destruct (_ || _ || _)%bool eqn:Hg; [done|]. bool_hyps.
  assert (Hr : at_rest impl NoSocket).
  { inversion Hp as [| [] | | | | |? ? ? Ho| | | | | | | | | |]; subst; try done;
      [congruence|by destruct Ho as [|[|]]]. }
  set (adv := if da_started_at_ms advertisement =? 0 then _ else _).
  assert (typed_advertisement adv = true)
    by (subst adv; case_if; [by apply typed_started_at|done]).
  assert (discovery_advertisement_is_valid adv = true) by (subst adv; by case_if).
  unfold outcome. destruct bound, non_blocking; cbn; apply ph_advertisement;
    unfold outcome; auto.
Qed.

Lemma step_ok sys sys' : step sys sys' → sys_ok sys → sys_ok sys'.
Proof.
  intros [] Hok; [by apply start_ok| |by eapply statement_ok|by apply set_advertisement_ok
    |by eapply thread_ok].
  destruct Hok as [Ht Hp]. split; [done|]. cbn in *. apply ph_stop.
  inversion Hp as [| | | | | |? ? ? Ho| | | | | | | | | |]; subst; auto.
  by destruct Ho as [|[|]].
Qed.

Lemma reachable_phase sys : rtc step (default_Impl, []) sys → sys_ok sys.
Proof.
  intros H. apply (rtc_ind_r sys_ok (default_Impl, [])) in H; [done| |].
  - split; [done|]. by apply ph_rest.
  - intros i j _ Hstep Hok. by eapply step_ok.
Qed.

(** *** Calls come to an end *)

(** A thread that has been told to end has at most three steps left. *)
Lemma thread_ends impl :
  alive impl → ad_running impl = false →
  ∃ impl', rtc thread_step impl impl' ∧ ad_thread impl' = ThreadEnded.
Proof.
  assert (Hloop : ∀ next i, ad_thread i = ThreadAtLoop next → ad_running i = false →
    ∃ i', rtc thread_step i i' ∧ ad_thread i' = ThreadEnded).
  { intros next i Ht Hr. exists (with_thread ThreadEnded i). split; [|done].
    apply rtc_once. by apply (thread_leave i next). }
  assert (Hone : ∀ i i' next, thread_step i i' → ad_thread i' = ThreadAtLoop next →
    ad_running i = false → ∃ i', rtc thread_step i i' ∧ ad_thread i' = ThreadEnded).
  { intros i i' next Hstep Ht Hr. destruct (Hloop next i') as (e & He & Hth); [done| |].
    - by rewrite (mv_running _ _ (thread_moves _ _ Hstep)).
    - exists e. split; [by eapply rtc_l|done]. }
  unfold alive. intros Ha Hr. destruct (ad_thread impl) as [| |next|next|] eqn:E; try done.
  - by apply (Hone _ _ _ (thread_first impl None (λ _, Joined) 0 E) eq_refl).
  - by eapply Hloop.
  - by apply (Hone _ _ _ (thread_pass impl
      (mkPassEnv 0 0 None (λ _, Joined) ReceiveWouldBlock false false) next E) eq_refl).
Qed.

Lemma threads_step impl impl' call :
  rtc thread_step impl impl' → rtc step (impl, call) (impl', call).
Proof. induction 1; [done|]. eapply rtc_l; [by apply step_thread|done]. Qed.

(** From every state of a call the call can come to its end. *)
Lemma call_completes call impl :
  sys_ok (impl, call) → ∃ impl', rtc step (impl, call) (impl', []).
Proof.
  revert impl. induction call as [|what rest IH]; intros impl Hok; [by exists impl|].
  assert (Hgo : ∀ i i', sys_ok (i, what :: rest) → execute what i = Some i' →
    ∃ e, rtc step (i, what :: rest) (e, [])).
  { intros i i' Hi He. destruct (IH i') as [e Hrun]; [by eapply statement_ok|].
    exists e. eapply rtc_l; [by apply step_statement|done]. }
  destruct (ok_goes_on _ (phase_ok _ _ Hok) what rest eq_refl) as [[i' He]|(-> & Ha & Hr)].
  - by eapply Hgo.
  - destruct (thread_ends impl Ha Hr) as (i & Hrun & Hth).
    apply (threads_step _ _ (JoinThread :: rest)) in Hrun.
    assert (Hi : sys_ok (i, JoinThread :: rest)).
    { clear -Hrun Hok. revert Hok. remember (impl, JoinThread :: rest) as s eqn:Es.
      remember (i, JoinThread :: rest) as s' eqn:Es'. clear Es Es'.
      induction Hrun; [done|]. intros Hok. by eapply IHHrun, step_ok. }
    destruct (Hgo i (with_thread NoThread i) Hi) as [e He]; [cbn; by rewrite Hth|].
    exists e. by etrans.
Qed.

(** C25 Whatever the interleaving of the statements of [start] and [stop] with the thread's
    steps and calls of [set_advertisement]: between the calls an advertiser is either at
    work, with an open socket, its thread and a valid advertisement, or at rest, with
    neither socket nor thread nor memberships; while a call is under way, the thread never
    is without its socket, [running] is true only of a responder that is complete or one
    statement short of its thread, and the call goes on unless [stop] waits for a thread
    that it has told to end.  Every call can come to its end, and the integers of the
    advertisement always fit their fields. *)
Theorem reachable_advertiser sys :
  rtc step (default_Impl, []) sys →
  advertiser_ok sys ∧ ∃ impl, rtc step sys (impl, []).
Proof.
  intros H%reachable_phase. destruct sys as [impl call].
  split; [by apply phase_ok|by apply call_completes].
Qed.
End system.

(** *** Numbering *)

(** What happens to a running advertiser, in the order in which the mutex is taken. *)
Inductive action :=
  | Serve (remote : Endpoint) (request : Bytes) (sent : bool)
  | Advertise (advertisement : DiscoveryAdvertisement)
  | Refresh (entries : option (list Interface)) (join : Address → JoinResult).

Definition act (to_string : Address → option string) (impl : Impl) (what : action) : Impl :=
  match what with
  | Serve remote request sent => (serve to_string remote request sent impl).1
  | Advertise advertisement => set_advertisement advertisement impl
  | Refresh entries join => (refresh_multicast to_string entries join impl).1
  end.

(** The queries among the actions. *)
Definition is_query (secret : string) (what : action) : bool :=
  match what with
  | Serve _ request _ =>
    match decode_discovery_query request secret with Some _ => true | None => false end
  | _ => false
  end.

Definition accepted (secret : string) (actions : list action) : list action :=
  filter (λ what, is_query secret what = true) actions.

Lemma act_number to_string impl what :
  ad_shared_secret (act to_string impl what) = ad_shared_secret impl
  ∧ (in_uint 64 (da_sequence (ad_advertisement impl)) = true →
     da_sequence (ad_advertisement (act to_string impl what))
     = uint64 (da_sequence (ad_advertisement impl)
               + vsize (accepted (ad_shared_secret impl) [what]))).
Proof.
  assert (Hone : vsize (accepted (ad_shared_secret impl) [what])
    = if is_query (ad_shared_secret impl) what then 1 else 0).
  { unfold accepted. rewrite filter_cons, filter_nil. case_decide as Hq; [by rewrite Hq|].
    by apply not_true_iff_false in Hq as ->. }
  rewrite Hone. destruct what as [remote request sent|advertisement|entries join];
    cbn [act is_query].
  - unfold serve. destruct (decode_discovery_query _ _) as [q|].
    + rewrite next_advertisement_eq. by case_if.
    + split; [done|]. intros Hs. by rewrite Z.add_0_r, uint_small.
  - rewrite Z.add_0_r. unfold set_advertisement.
    case_if; (split; [done|]); intros Hs; by rewrite uint_small.
  - rewrite Z.add_0_r. pose proof (refresh_service to_string entries join impl) as E.
    destruct (refresh_multicast _ _ _ _).1 as [r so th adv se h ms rep].
    injection E as -> -> -> -> -> ->. cbn [ad_shared_secret ad_advertisement].
    split; [done|]. intros Hs. by rewrite uint_small.
Qed.

(** The replies of a running advertiser are numbered without gap: after any actions, new
    advertisements and refreshes included, the sequence number has grown by the number of
    queries accepted, modulo 2^64. *)
Theorem replies_numbered to_string actions impl :
  in_uint 64 (da_sequence (ad_advertisement impl)) = true →
  da_sequence (ad_advertisement (foldl (act to_string) impl actions))
  = uint64 (da_sequence (ad_advertisement impl)
            + vsize (accepted (ad_shared_secret impl) actions)).
Proof.
  revert impl. induction actions as [|what actions IH]; intros impl Hs.
  { cbn -[uint]. by rewrite Z.add_0_r, uint_small. }
  cbn [foldl]. destruct (act_number to_string impl what) as [Hsec Hnum].
  specialize (Hnum Hs). rewrite IH by (rewrite Hnum; by apply uint_in_range).
  rewrite Hsec, Hnum. unfold accepted.
  change (what :: actions) with ([what] ++ actions). rewrite filter_app, length_app.
  unfold uint. rewrite Zplus_mod_idemp_l. f_equal. lia.
Qed.

(** *** A concrete advertiser *)

Definition sample_to_string (address : Address) : option string :=
  if address =? 2130706433 then Some "127.0.0.1" else None.

Definition sample_start : list statement :=
  (start kDefaultDiscoveryPort sample_advertisement sample_secret true 1 true true
     default_Impl).2.
Definition sample_impl : Impl := default default_Impl (run sample_start default_Impl).

Definition sample_remote : Endpoint := mkEndpoint 2130706433 40000.

Lemma serve_correct_witness :
  ∃ reply,
    decode_discovery_reply reply sample_secret 44 = Some (upcoming sample_impl).
Proof.
  destruct (serve_correct sample_to_string sample_remote sample_seen true sample_impl)
    as [Hquery _].
  - vm_compute. reflexivity.
  - vm_compute. reflexivity.
  - destruct (Hquery sample_query) as (more & _ & Hmore).
    + reflexivity.
    + reflexivity.
    + assert (Hfits : reply_fits sample_query (upcoming sample_impl) = true)
        by (vm_compute; reflexivity).
      rewrite Hfits in Hmore. destruct Hmore as (reply & _ & Hreply).
      exists reply. exact Hreply.
Defined.

(** A [stop] under way after a start: it waits for the thread. *)
Lemma run_steps to_string statements rest impl impl' :
  run statements impl = Some impl' →
  rtc (step to_string) (impl, statements ++ rest) (impl', rest).
Proof.
  assert (Hnone : ∀ l, foldl (λ result what, i ← result; execute what i) None l = None)
    by (by induction l).
  unfold run. revert impl. induction statements as [|what statements IH]; intros impl; cbn.
  { by intros [= <-]. }
  destruct (execute what impl) as [i|] eqn:E; cbn; [|by rewrite Hnone].
  intros Hrun. eapply rtc_l; [by apply step_statement|by apply IH].
Qed.

Definition sample_stopping : Impl := with_socket SocketClosed (with_running false sample_impl).

Lemma reachable_advertiser_witness :
  advertiser_ok (sample_stopping, [JoinThread; ResetSocket; ClearMemberships; ClearReported])
  ∧ ∃ impl, rtc (step sample_to_string)
      (sample_stopping, [JoinThread; ResetSocket; ClearMemberships; ClearReported]) (impl, []).
Proof.
  apply (reachable_advertiser sample_to_string).
  eapply rtc_l.
  { apply (step_start _ kDefaultDiscoveryPort sample_advertisement sample_secret true 1 true true);
      vm_compute; reflexivity. }
  etrans.
  { rewrite <- (app_nil_r (start _ _ _ _ _ _ _ _).2).
    apply (run_steps _ _ [] _ sample_impl). vm_compute. reflexivity. }
  eapply rtc_l; [apply step_stop|].
  apply (run_steps _ [ClearRunning; CloseSocket]). vm_compute. reflexivity.
Defined.

Lemma replies_numbered_witness :
  da_sequence (ad_advertisement (foldl (act sample_to_string) sample_impl
    [Serve sample_remote sample_seen true; Refresh None (λ _, Joined);
     Serve sample_remote [] true; Serve sample_remote sample_seen false])) = 9.
Proof.
  rewrite (replies_numbered sample_to_string); [vm_compute; reflexivity|].
  vm_compute. reflexivity.
Defined.
