(* ===== verification/Validation.v ===== *)
(** * Validation: what the profile validators share

    The validators under src/profiles check messages of the generated protobuf classes.
    A message is a record of the fields its .proto file declares: an absent sub-message is
    [None] and reads as its default, an enumeration is the integer it is stored as (proto3
    enumerations are open), a [double] or a [float] is its bit pattern (see [Floats]), a
    [string] or [bytes] field is a [string].  A validator takes the [std::string*] for the
    error ([None] is the null pointer) and returns its verdict with the string it leaves.

    The file also models the two small profiles: shell_validation.cpp and
    system_validation.cpp. *)

From Stdlib Require Import ZArith Lia String Ascii Strings.Byte.
From stdpp Require Import base gmap strings list.
From S2P Require Import Prelude Codec WireTypes.
Local Open Scope string_scope.
Local Open Scope list_scope.
Local Open Scope Z_scope.

(** ** Validators *)

Definition validator : Type := option string → bool * option string.

(** [return fail(message, error)]. *)
Definition fail (message : string) : validator :=
  λ error, (false, (λ _, message) <$> error).

(** [return true], and [error->clear()] before it. *)
Definition accept : validator := λ error, (true, error).
Definition accept_clear : validator := λ error, (true, (λ _, EmptyString) <$> error).

(** [if (!v(error)) return false;] before the rest. *)
Definition require (v rest : validator) : validator :=
  λ error, let '(ok, error) := v error in if ok then rest error else (false, error).

(** [if (!v(error) || bad) return fail(message, error);] before the rest. *)
Definition reject_unless (v : validator) (bad : bool) (message : string) (rest : validator) :
    validator :=
  λ error, let '(ok, error) := v error in
    if negb ok || bad then fail message error else rest error.

Definition accepted (v : validator) : bool := (v None).1.

(** A validator whose verdict does not depend on the error string, which explains every
    rejection and leaves no explanation behind when it accepts. *)
Class Explains (v : validator) : Prop := {
  explains_verdict error : (v error).1 = accepted v;
  explains_rejection error :
    accepted v = false →
    ∃ message, message ≠ EmptyString ∧ (v error).2 = (λ _, message) <$> error;
  explains_acceptance error :
    accepted v = true →
    (v error).2 = error ∨ (v error).2 = (λ _, EmptyString) <$> error;
}.


#[export] Instance explains_fail_char c message : Explains (fail (String c message)).
Proof. split; [done| |done]. intros error _. by exists (String c message). Qed.

#[export] Instance explains_accept : Explains accept.
Proof. split; [done|done|]. intros error _. by left. Qed.

#[export] Instance explains_accept_clear : Explains accept_clear.
Proof. split; [done|done|]. intros error _. by right. Qed.

#[export] Instance explains_if (b : bool) v w :
  Explains v → Explains w → Explains (if b then v else w).
Proof. by destruct b. Qed.

Lemma accepted_require v w :
  Explains v → Explains w → accepted (require v w) = accepted v && accepted w.
Proof.
  intros Hv Hw. unfold accepted at 1, require.
  destruct (v None) as [ok error] eqn:E. pose proof (explains_verdict (v := v) None) as Hok.
  rewrite E in Hok. cbn in Hok. subst ok. destruct (accepted v); [|done].
  by rewrite explains_verdict.
Qed.

#[export] Instance explains_require v w :
  Explains v → Explains w → Explains (require v w).
Proof.
  intros Hv Hw.
  assert (Hr : ∀ error, (require v w error) =
    if accepted v then w (v error).2 else (false, (v error).2)).
  { intros error. unfold require. pose proof (explains_verdict (v := v) error) as E.
    destruct (v error) as [ok e]. cbn in *. by subst ok. }
  split.
  - intros error. rewrite Hr, accepted_require by done.
    destruct (accepted v); [|done]. by rewrite explains_verdict.
  - intros error. rewrite Hr, accepted_require by done.
    destruct (accepted v) eqn:Ev; cbn [andb snd].
    + intros Ew. destruct (explains_rejection (v := w) (v error).2 Ew) as (m & Hm & ->).
      exists m. split; [done|].
      destruct (explains_acceptance (v := v) error Ev) as [-> | ->]; [done|by destruct error].
    + intros _. by apply explains_rejection.
  - intros error. rewrite Hr, accepted_require by done.
    intros [Ev Ew]%andb_true_iff. rewrite Ev.
    destruct (explains_acceptance (v := v) error Ev) as [-> | ->];
      [by apply explains_acceptance|].
    right. destruct (explains_acceptance (v := w) ((λ _, EmptyString) <$> error) Ew) as [-> | ->];
      by destruct error.
Qed.

Lemma accepted_reject_unless v bad message rest :
  Explains v → Explains rest →
  accepted (reject_unless v bad message rest) = accepted v && negb bad && accepted rest.
Proof.
  intros Hv Hw. unfold accepted at 1, reject_unless.
  destruct (v None) as [ok error] eqn:E. pose proof (explains_verdict (v := v) None) as Hok.
  rewrite E in Hok. cbn in Hok. subst ok. destruct (accepted v), bad; cbn; try done.
  by rewrite explains_verdict.
Qed.

#[export] Instance explains_reject_unless v bad c message rest :
  Explains v → Explains rest →
  Explains (reject_unless v bad (String c message) rest).
Proof.
  intros Hv Hw.
  assert (Hr : ∀ error, reject_unless v bad (String c message) rest error =
    if accepted v && negb bad then rest (v error).2
    else (false, (λ _, String c message) <$> (v error).2)).
  { intros error. unfold reject_unless, fail. pose proof (explains_verdict (v := v) error) as E.
    destruct (v error) as [ok e]. cbn in *. subst ok. by destruct (accepted v), bad. }
  assert (He : ∀ error, (λ _ : string, String c message) <$> (v error).2
    = (λ _, String c message) <$> error).
  { intros error. destruct (accepted v) eqn:Ev.
    - destruct (explains_acceptance (v := v) error Ev) as [-> | ->]; by destruct error.
    - destruct (explains_rejection (v := v) error Ev) as (m & _ & ->). by destruct error. }
  split.
  - intros error. rewrite Hr, accepted_reject_unless by done.
    case_if; [by rewrite explains_verdict|done].
  - intros error. rewrite Hr, accepted_reject_unless by done.
    destruct (accepted v && negb bad) eqn:Ev; cbn [andb snd].
    + bool_hyps. intros Ew. destruct (explains_rejection (v := rest) (v error).2 Ew) as (m & Hm & ->).
      exists m. split; [done|].
      destruct (explains_acceptance (v := v) error ltac:(done)) as [-> | ->];
        [done|by destruct error].
    + intros _. exists (String c message). by rewrite He.
  - intros error. rewrite Hr, accepted_reject_unless by done.
    intros [Ev Ew]%andb_true_iff. rewrite Ev. bool_hyps.
    destruct (explains_acceptance (v := v) error ltac:(done)) as [-> | ->];
      [by apply explains_acceptance|].
    right. destruct (explains_acceptance (v := rest) ((λ _, EmptyString) <$> error) Ew) as [-> | ->];
      by destruct error.
Qed.

Lemma accepted_if (b : bool) v w :
  accepted (if b then v else w) = if b then accepted v else accepted w.
Proof. by destruct b. Qed.

(** The shape of most checks: a condition that rejects, then the rest. *)
Lemma accepted_check (bad : bool) message v :
  accepted (if bad then fail message else v) = negb bad && accepted v.
Proof. by destruct bad. Qed.

Create Rewrite HintDb validators.
#[export] Hint Rewrite accepted_check : validators.
#[export] Hint Rewrite accepted_require accepted_reject_unless using (typeclasses eauto) : validators.

(** Rejections by a list of conditions on the elements, the first one deciding. *)
Fixpoint each {A} (check_one : A → validator → validator) (values : list A) (rest : validator) :
    validator :=
  match values with
  | [] => rest
  | value :: values => check_one value (each check_one values rest)
  end.

(** A round of a loop that inserts keys into a set: [insert(key).second] is whether the key
    is new. *)
Fixpoint each_new {A K} `{Countable K} (key : A → K)
    (check_one : bool → A → validator → validator) (seen : gset K) (values : list A)
    (rest : validator) : validator :=
  match values with
  | [] => rest
  | value :: values =>
    check_one (bool_decide (key value ∉ seen)) value
      (each_new key check_one ({[key value]} ∪ seen) values rest)
  end.

#[export] Instance explains_each {A} (check_one : A → validator → validator) values rest :
  (∀ value v, Explains v → Explains (check_one value v)) → Explains rest →
  Explains (each check_one values rest).
Proof. intros Hc Hr. induction values; cbn; [done|by apply Hc]. Qed.

#[export] Instance explains_each_new {A K} `{Countable K} (key : A → K) check_one
    (seen : gset K) (values : list A) rest :
  (∀ new value v, Explains v → Explains (check_one new value v)) → Explains rest →
  Explains (each_new key check_one seen values rest).
Proof. intros Hc Hr. revert seen. induction values; intros seen; cbn; [done|by apply Hc]. Qed.

Lemma accepted_each {A} (check_one : A → validator → validator) (ok : A → bool) values rest :
  (∀ value v, Explains v → Explains (check_one value v)) → Explains rest →
  (∀ value v, Explains v → accepted (check_one value v) = ok value && accepted v) →
  accepted (each check_one values rest) = forallb ok values && accepted rest.
Proof.
  intros He Hr Hc. induction values as [|value values IH]; [done|]. cbn.
  rewrite Hc by (by apply explains_each). by rewrite IH, andb_assoc.
Qed.

(** The keys inserted one after the other are new when no key occurs twice. *)
Lemma accepted_each_new {A K} `{Countable K} (key : A → K) check_one (ok : A → bool)
    (seen : gset K) (values : list A) rest :
  (∀ new value v, Explains v → Explains (check_one new value v)) → Explains rest →
  (∀ new value v, Explains v →
     accepted (check_one new value v) = new && ok value && accepted v) →
  accepted (each_new key check_one seen values rest) = true ↔
  NoDup (key <$> values) ∧ (∀ value, value ∈ values → key value ∉ seen)
  ∧ forallb ok values = true ∧ accepted rest = true.
Proof.
  intros He Hr Hc. revert seen. induction values as [|value values IH]; intros seen; cbn.
  { split; [|naive_solver]. intros Ha. split_and!; [constructor|set_solver|done|done]. }
  rewrite Hc by (by apply explains_each_new). rewrite !andb_true_iff, IH, bool_decide_eq_true.
  rewrite NoDup_cons. setoid_rewrite elem_of_cons. split.
  - intros [[Hn Hok] (Hnd & Hs & Hall & Hrest)]. split_and!; try done.
    + intros (x & Hx & Hin)%list_elem_of_fmap. specialize (Hs x Hin). set_solver.
    + intros x [-> | Hin]; [done|]. specialize (Hs x Hin). set_solver.
  - intros ([Hnk Hnd] & Hs & [Hok Hall] & Hrest). split_and!; try done; [by apply Hs; left|].
    intros x Hin. pose proof (Hs x (or_intror Hin)).
    assert (key x ≠ key value); [|set_solver].
    intros E. apply Hnk, list_elem_of_fmap. by exists x.
Qed.

(** From the empty set, at the end of a validator. *)
Lemma accepted_unique {A K} `{Countable K} (key : A → K) check_one (ok : A → bool)
    (values : list A) rest :
  (∀ new value v, Explains v → Explains (check_one new value v)) → Explains rest →
  (∀ new value v, Explains v →
     accepted (check_one new value v) = new && ok value && accepted v) →
  accepted rest = true →
  accepted (each_new key check_one ∅ values rest) = true ↔
  NoDup (key <$> values) ∧ Forall (λ value, ok value = true) values.
Proof.
  intros He Hr Hc Hrest. rewrite (accepted_each_new key check_one ok) by done.
  rewrite forallb_forall, Forall_forall. setoid_rewrite <- list_elem_of_In. set_solver.
Qed.

(** ** Characters and segments *)

(** [value >= 'a' && value <= 'z'] and the like, on an [unsigned char]. *)
Definition lowercase (ch : Z) : bool := (97 <=? ch) && (ch <=? 122).
Definition uppercase (ch : Z) : bool := (65 <=? ch) && (ch <=? 90).
Definition digit (ch : Z) : bool := (48 <=? ch) && (ch <=? 57).

Definition all_chars (ok : Z → bool) (value : string) : bool :=
  forallb (λ b, ok (val b)) (bytes_of value).

Definition empty (value : string) : bool := bool_decide (value = EmptyString).

(** The segments of a text between the separators, never none. *)
Fixpoint segments (separator : Z) (text : Bytes) : list Bytes :=
  match text with
  | [] => [[]]
  | b :: text =>
    if val b =? separator then [] :: segments separator text
    else match segments separator text with
         | segment :: rest => (b :: segment) :: rest
         | [] => [[b]]
         end
  end.

Lemma segments_cons separator text :
  ∃ segment rest, segments separator text = segment :: rest.
Proof.
  induction text as [|b text (s & r & E)]; cbn; [eauto|]. rewrite E. case_if; eauto.
Qed.

(** The segments have no separator, and joining them gives the text back. *)
Fixpoint join (separator : byte) (parts : list Bytes) : Bytes :=
  match parts with
  | [] => []
  | [part] => part
  | part :: parts => part ++ separator :: join separator parts
  end.

Lemma join_segments separator text : join separator (segments (val separator) text) = text.
Proof.
  induction text as [|b text IH]; [done|]. cbn.
  destruct (segments_cons (val separator) text) as (s & r & E). rewrite E in *.
  case_if; bool_hyps.
  - apply val_inj in Heqb0 as ->. cbn. by rewrite <- IH.
  - rewrite <- IH. by destruct r.
Qed.

Lemma segments_free separator text :
  Forall (Forall (λ b, val b ≠ separator)) (segments separator text).
Proof.
  induction text as [|b text IH]; cbn; [by repeat constructor|].
  destruct (segments_cons separator text) as (s & r & E). rewrite E in *.
  case_if; [by constructor; [constructor|]|]. bool_hyps. apply Forall_cons in IH as [Hs Hr].
  constructor; [by constructor|done].
Qed.

(** ** org.yunlink.shell *)

Record ShellOpenRequest := mkShellOpenRequest { so_cols : Z; so_rows : Z }.
Record ShellWriteRequest := mkShellWriteRequest { sw_session_uid : string; sw_data : string }.
Record ShellResizeRequest := mkShellResizeRequest {
  sr_session_uid : string;
  sr_cols : Z;
  sr_rows : Z;
}.
Record ShellCloseRequest := mkShellCloseRequest { sc_session_uid : string }.

Definition valid_window (cols rows : Z) : bool :=
  (20 <=? cols) && (cols <=? 400) && (5 <=? rows) && (rows <=? 200).

Definition validate_open_request (request : ShellOpenRequest) : validator :=
  if valid_window (so_cols request) (so_rows request) then accept
  else fail "invalid shell window".

Definition validate_write_request (request : ShellWriteRequest) : validator :=
  if negb (empty (sw_session_uid request)) && (ssize (sw_data request) <=? 16 * 1024)
  then accept else fail "invalid shell write request".

Definition validate_resize_request (request : ShellResizeRequest) : validator :=
  if negb (empty (sr_session_uid request)) && valid_window (sr_cols request) (sr_rows request)
  then accept else fail "invalid shell resize request".

Definition validate_close_request (request : ShellCloseRequest) : validator :=
  if negb (empty (sc_session_uid request)) then accept
  else fail "shell session UID is required".

(** ** org.yunlink.system *)

Definition kMinimumTrustedUnixTimeMs : Z := 1704067200000.
Definition kMaximumTrustedUnixTimeMs : Z := 4102444800000.

Definition CLOCK_SYNC_UNSPECIFIED : Z := 0.
Definition CLOCK_SYNC_OK : Z := 1.
Definition CLOCK_SYNC_INTERNAL_ERROR : Z := 6.

Record ClockSyncRequest := mkClockSyncRequest { csq_unix_time_ms : Z; csq_source : string }.

Record ClockSyncResponse := mkClockSyncResponse {
  csr_error : Z;
  csr_message : string;
  csr_previous_unix_time_ms : Z;
  csr_applied_unix_time_ms : Z;
  csr_delta_ms : Z;
}.

Definition source_char (value : Z) : bool :=
  lowercase value || uppercase value || digit value || (value =? 45) || (value =? 95)
  || (value =? 46).

Definition valid_source (source : string) : bool :=
  negb (empty source) && (ssize source <=? 64) && all_chars source_char source.

Definition validate_clock_sync_request (request : ClockSyncRequest) : validator :=
  if (csq_unix_time_ms request <? kMinimumTrustedUnixTimeMs)
     || (csq_unix_time_ms request >? kMaximumTrustedUnixTimeMs)
  then fail "clock sync time is outside the product range"
  else if valid_source (csq_source request) then accept
  else fail "clock sync source is invalid".

(** The subtraction is one of [int64_t]. *)
Definition validate_clock_sync_response (response : ClockSyncResponse) : validator :=
  let previous := csr_previous_unix_time_ms response in
  let applied := csr_applied_unix_time_ms response in
  if (csr_error response <=? CLOCK_SYNC_UNSPECIFIED)
     || (csr_error response >? CLOCK_SYNC_INTERNAL_ERROR) || (ssize (csr_message response) >? 256)
  then fail "clock sync response enum or message is invalid"
  else
    let ok := csr_error response =? CLOCK_SYNC_OK in
    if ok && ((previous >? 2 ^ 63 - 1) || (applied <? kMinimumTrustedUnixTimeMs)
              || (applied >? kMaximumTrustedUnixTimeMs)
              || negb (csr_delta_ms response =? sint 64 applied - sint 64 previous))
    then fail "successful clock sync response has invalid timestamps"
    else if negb ok && (negb (previous =? 0) || negb (applied =? 0)
                        || negb (csr_delta_ms response =? 0))
    then fail "failed clock sync response must not contain applied timestamps"
    else accept.

(** ** Properties *)

(** A clock sync response is accepted exactly when it reports a failure without
    timestamps, or a success whose applied time lies in the trusted range and whose delta
    is the difference of its times; that difference never overflows the [int64_t] it is
    computed in. *)
Theorem clock_sync_response_accepted response :
  in_uint 64 (csr_previous_unix_time_ms response) = true →
  in_uint 64 (csr_applied_unix_time_ms response) = true →
  (accepted (validate_clock_sync_response response) = true ↔
   ssize (csr_message response) <= 256
   ∧ ((csr_error response = CLOCK_SYNC_OK
       ∧ kMinimumTrustedUnixTimeMs <= csr_applied_unix_time_ms response
          <= kMaximumTrustedUnixTimeMs
       ∧ csr_previous_unix_time_ms response < 2 ^ 63
       ∧ csr_delta_ms response
         = csr_applied_unix_time_ms response - csr_previous_unix_time_ms response
       ∧ in_sint 64 (csr_delta_ms response) = true)
      ∨ (CLOCK_SYNC_OK < csr_error response <= CLOCK_SYNC_INTERNAL_ERROR
         ∧ csr_previous_unix_time_ms response = 0 ∧ csr_applied_unix_time_ms response = 0
         ∧ csr_delta_ms response = 0))).
Proof.
  destruct response as [err msg previous applied delta]. cbn -[Z.pow].
  intros Hp%in_uint_range Ha%in_uint_range. unfold validate_clock_sync_response, in_sint.
  cbn -[Z.pow sint]. rewrite !accepted_check.
  unfold CLOCK_SYNC_OK, CLOCK_SYNC_UNSPECIFIED, CLOCK_SYNC_INTERNAL_ERROR,
    kMinimumTrustedUnixTimeMs, kMaximumTrustedUnixTimeMs.
  assert (Hs : ∀ v, 0 <= v < 2 ^ 63 → sint 64 v = v).
  { intros v Hv. unfold sint. by rewrite (proj2 (Z.ltb_lt _ _)) by lia. }
  change (accepted accept) with true. rewrite !Z.gtb_ltb.
  change (2 ^ (64 - 1)) with (2 ^ 63).
  destruct (Z.eqb_spec err 1) as [->|He]; cbn [negb andb orb].
  - destruct (Z.ltb_spec (2 ^ 63 - 1) previous); cbn [orb negb andb];
      [rewrite !andb_false_r; split; [done|lia]|].
    destruct (Z.ltb_spec applied 1704067200000); cbn [orb negb andb];
      [rewrite !andb_false_r; split; [done|lia]|].
    destruct (Z.ltb_spec 4102444800000 applied); cbn [orb negb andb];
      [rewrite !andb_false_r; split; [done|lia]|].
    rewrite !Hs by lia. split; intros H'.
    + bool_hyps. lia.
    + lia.
  - split; intros H'; bool_hyps; lia.
Qed.
