(* ===== verification/TelemetryValidation.v ===== *)
(** * TelemetryValidation: summaries of metrics

    src/profiles/org.yunlink.telemetry/v1: the messages of telemetry.proto,
    [valid_metric_key] and [validate_summary_snapshot] of summary_validation.cpp.
    [ByteSizeLong] belongs to the generated code and is a parameter. *)

From Stdlib Require Import ZArith Lia String Ascii Strings.Byte.
From stdpp Require Import base gmap strings list.
From S2P Require Import Prelude Codec Floats Validation.
Local Open Scope string_scope.
Local Open Scope list_scope.
Local Open Scope Z_scope.

(** ** Data *)

Definition kSummaryMaxMetrics : Z := 64.
Definition kSummaryMaxPayloadBytes : Z := 16 * 1024.
Definition kMetricMaxKeyBytes : Z := 128.
Definition kMetricMaxUnitBytes : Z := 16.
Definition kMetricMaxEnumBytes : Z := 64.
Definition kMetricMaxTextBytes : Z := 256.

Definition METRIC_QUALITY_UNSPECIFIED : Z := 0.
Definition METRIC_VALID : Z := 1.
Definition METRIC_STALE : Z := 2.
Definition METRIC_INVALID : Z := 3.
Definition METRIC_UNAVAILABLE : Z := 4.

(** The [oneof] of a metric; an absent [MetricValue] reads as one that is not set. *)
Inductive MetricValue :=
  | VALUE_NOT_SET
  | bool_value (value : bool)
  | int_value (value : Z)
  | double_value (value : Z)
  | enum_token (value : string)
  | text_value (value : string).

Record Metric := mkMetric {
  m_key : string;
  m_value : MetricValue;
  m_unit : string;
  m_quality : Z;
  m_source_timestamp_ns : Z;
}.

Record SummarySnapshot := mkSummarySnapshot {
  ss_generated_at_ns : Z;
  ss_metrics : list Metric;
}.

(** ** Keys *)

(** The loop of [valid_metric_key]; its result is the state after the last character, or
    [None] where it returns [false]. *)
Fixpoint metric_key_loop (key : Bytes) (segment_count : Z) (segment_start : bool) :
    option (Z * bool) :=
  match key with
  | [] => Some (segment_count, segment_start)
  | character :: key =>
    if val character =? 46 then
      if segment_start then None else metric_key_loop key (segment_count + 1) true
    else if segment_start then
      if (val character <? 97) || (val character >? 122) then None
      else metric_key_loop key segment_count false
    else if negb (lowercase (val character)) && negb (digit (val character))
            && negb (val character =? 95) then None
    else metric_key_loop key segment_count false
  end.

Definition valid_metric_key (key : string) : bool :=
  if empty key || (ssize key >? kMetricMaxKeyBytes) then false
  else match metric_key_loop (bytes_of key) 1 true with
       | Some (segment_count, segment_start) => negb segment_start && (segment_count >=? 3)
       | None => false
       end.

(** ** Snapshots *)

Section snapshot.
Context (ByteSizeLong : SummarySnapshot → Z).

(** A round of the loop over the metrics; [inserted] is the result of [keys.insert]. *)
Definition check_metric (inserted : bool) (metric : Metric) (rest : validator) : validator :=
  if negb (valid_metric_key (m_key metric)) then fail "invalid metric key"
  else if negb inserted then fail "duplicate metric key"
  else if ssize (m_unit metric) >? kMetricMaxUnitBytes then fail "metric unit exceeds limit"
  else if (m_quality metric =? METRIC_QUALITY_UNSPECIFIED)
          || (m_quality metric >? METRIC_UNAVAILABLE) then fail "invalid metric quality"
  else if ((m_quality metric =? METRIC_VALID) || (m_quality metric =? METRIC_STALE))
          && match m_value metric with VALUE_NOT_SET => true | _ => false end
  then fail "metric value is required"
  else if match m_value metric with
          | double_value value => negb (isfinite64 value) | _ => false end
  then fail "metric double is not finite"
  else if match m_value metric with
          | enum_token value => ssize value >? kMetricMaxEnumBytes | _ => false end
  then fail "metric enum token exceeds limit"
  else if match m_value metric with
          | text_value value => ssize value >? kMetricMaxTextBytes | _ => false end
  then fail "metric text exceeds limit"
  else rest.

Definition validate_summary_snapshot (snapshot : SummarySnapshot) : validator :=
  if vsize (ss_metrics snapshot) >? kSummaryMaxMetrics then fail "too many metrics"
  else if ByteSizeLong snapshot >? kSummaryMaxPayloadBytes
  then fail "summary payload exceeds limit"
  else each_new m_key check_metric ∅ (ss_metrics snapshot) accept_clear.
End snapshot.

(** ** Keys are three or more dotted words *)

Definition key_character (b : byte) : bool :=
  lowercase (val b) || digit (val b) || (val b =? 95).

(** A lower-case letter, then letters, digits and underscores. *)
Definition key_word (segment : Bytes) : bool :=
  match segment with
  | [] => false
  | b :: rest => lowercase (val b) && forallb key_character rest
  end.

Definition dotted_key (key : string) : bool :=
  (ssize key <=? kMetricMaxKeyBytes) && (3 <=? vsize (segments 46 (bytes_of key)))
  && forallb key_word (segments 46 (bytes_of key)).

(** The segment count of a loop that ended inside a segment. *)
Definition loop_count (result : option (Z * bool)) : option Z :=
  match result with Some (count, false) => Some count | _ => None end.

(** What the loop finds from the start and from the middle of a segment. *)
Lemma metric_key_loop_spec key count :
  loop_count (metric_key_loop key count true)
  = (if forallb key_word (segments 46 key)
     then Some (count + vsize (segments 46 key) - 1) else None)
  ∧ loop_count (metric_key_loop key count false)
    = match segments 46 key with
      | segment :: rest =>
        if forallb key_character segment && forallb key_word rest
        then Some (count + vsize rest) else None
      | [] => None
      end.
Proof.
  revert count. induction key as [|b key IH]; intros count; cbn -[key_word].
  { split; [done|]. by rewrite Z.add_0_r. }
  destruct (Z.eqb_spec (val b) 46) as [E|E].
  - split; [done|]. destruct (IH (count + 1)) as [-> _]. cbn.
    case_if; [|done]. f_equal. lia.
  - destruct (IH count) as [_ IHm]. destruct (segments_cons 46 key) as (s & r & Es).
    rewrite Es in *. split.
    + cbn [forallb key_word length].
      replace ((val b <? 97) || (val b >? 122)) with (negb (lowercase (val b)))
        by (unfold lowercase; lia).
      destruct (lowercase (val b)); cbn [negb andb]; [|done].
      rewrite IHm. case_if; [|done]. f_equal. lia.
    + cbn [forallb].
      replace (negb (lowercase (val b)) && negb (digit (val b)) && negb (val b =? 95))
        with (negb (key_character b)) by (unfold key_character; by rewrite !negb_orb).
      destruct (key_character b); cbn [negb andb]; [|done]. by rewrite IHm.
Qed.

(** ** Properties *)
Lemma metric_key_dotted key : valid_metric_key key = dotted_key key.
Proof.
  unfold valid_metric_key, dotted_key, empty. destruct (bool_decide_reflect (key = EmptyString)) as [->|Hne].
  { done. }
  cbn [orb]. rewrite Z.gtb_ltb, Z.ltb_antisym, <- (negb_involutive (_ <=? kMetricMaxKeyBytes)).
  destruct (ssize key <=? kMetricMaxKeyBytes); cbn [negb andb]; [|done].
  destruct (metric_key_loop_spec (bytes_of key) 1) as [Hl _]. unfold loop_count in Hl.
  destruct (metric_key_loop _ 1 true) as [[c []]|]; cbn [negb andb].
  - case_if_in Hl; [done|]. by rewrite andb_false_r.
  - case_if_in Hl; [|done]. injection Hl as ->. rewrite andb_true_r. lia.
  - case_if_in Hl; [done|]. by rewrite andb_false_r.
Qed.

(** C31 A metric key is valid exactly when it has at most 128 bytes and is three or more
    words between dots, each a lower-case letter followed by lower-case letters, digits
    and underscores. *)
Theorem valid_metric_key_dotted key : valid_metric_key key = dotted_key key.
Proof. apply metric_key_dotted. Qed.

(** *** What a well formed metric is

    The rules of telemetry.proto and of the limits above, in their own words: a quality
    is one of the four that say something, a metric said to be valid or stale has a
    value, and a value is finite and within its limit. *)

Definition declared_quality (quality : Z) : Prop :=
  quality ∈ [METRIC_VALID; METRIC_STALE; METRIC_INVALID; METRIC_UNAVAILABLE].

Definition within_limits (value : MetricValue) : Prop :=
  match value with
  | double_value value => isfinite64 value = true
  | enum_token value => ssize value <= kMetricMaxEnumBytes
  | text_value value => ssize value <= kMetricMaxTextBytes
  | VALUE_NOT_SET | bool_value _ | int_value _ => True
  end.

Record well_formed (metric : Metric) : Prop := {
  wm_key : dotted_key (m_key metric) = true;
  wm_unit : ssize (m_unit metric) <= kMetricMaxUnitBytes;
  wm_quality : declared_quality (m_quality metric);
  wm_present : m_quality metric ∈ [METRIC_VALID; METRIC_STALE] → m_value metric ≠ VALUE_NOT_SET;
  wm_value : within_limits (m_value metric);
}.

#[export] Instance explains_check_metric inserted metric rest :
  Explains rest → Explains (check_metric inserted metric rest).
Proof. intros. unfold check_metric. apply _. Qed.

#[export] Instance explains_summary ByteSizeLong snapshot :
  Explains (validate_summary_snapshot ByteSizeLong snapshot).
Proof. unfold validate_summary_snapshot. apply _. Qed.

(** A round passes when its key is new and the metric alone passes. *)
Definition passes (metric : Metric) : bool := accepted (check_metric true metric accept_clear).

Lemma accepted_check_metric inserted metric rest :
  Explains rest →
  accepted (check_metric inserted metric rest) = inserted && passes metric && accepted rest.
Proof.
  intros _. unfold passes, check_metric. autorewrite with validators. rewrite !andb_true_r.
  destruct inserted; cbn [negb andb]; [|by rewrite andb_false_r].
  by rewrite <- !andb_assoc.
Qed.

(** For a quality that is not negative the checks are the rules. *)
Lemma passes_well_formed metric :
  METRIC_QUALITY_UNSPECIFIED <= m_quality metric → passes metric = true ↔ well_formed metric.
Proof.
  intros Hq. unfold passes, check_metric. autorewrite with validators.
  rewrite !andb_true_iff, !negb_true_iff, negb_false_iff, metric_key_dotted.
  rewrite Z.gtb_ltb, Z.ltb_ge, orb_false_iff, Z.eqb_neq, Z.gtb_ltb, Z.ltb_ge.
  unfold METRIC_QUALITY_UNSPECIFIED, METRIC_UNAVAILABLE in *.
  assert (Hdecl : m_quality metric ≠ 0 ∧ m_quality metric <= 4
    ↔ declared_quality (m_quality metric)).
  { unfold declared_quality, METRIC_VALID, METRIC_STALE, METRIC_INVALID, METRIC_UNAVAILABLE.
    rewrite !elem_of_cons, elem_of_nil. lia. }
  assert (Hset : (m_quality metric =? METRIC_VALID) || (m_quality metric =? METRIC_STALE) = true
    ↔ m_quality metric ∈ [METRIC_VALID; METRIC_STALE]).
  { rewrite orb_true_iff, !Z.eqb_eq. set_solver. }
  destruct (_ || _) eqn:Eset.
  - split.
    + intros (Hk & _ & Hu & Hd & Hv & Hf & He & Ht & _).
      split; [done|done|by apply Hdecl| |]; destruct (m_value metric); cbn in *; try done;
        first [by apply negb_false_iff|by rewrite Z.gtb_ltb, Z.ltb_ge in *].
    + intros [Hk Hu Hd Hv Hl]. apply Hdecl in Hd. specialize (Hv (proj1 Hset eq_refl)).
      destruct (m_value metric); cbn in *; rewrite ?Hl, ?Z.gtb_ltb, ?(proj2 (Z.ltb_ge _ _)) by done;
        split_and!; done || tauto.
  - split.
    + intros (Hk & _ & Hu & Hd & Hv & Hf & He & Ht & _).
      split; [done|done|by apply Hdecl|by intros Hc%Hset|]; destruct (m_value metric); cbn in *;
        try done; first [by apply negb_false_iff|by rewrite Z.gtb_ltb, Z.ltb_ge in *].
    + intros [Hk Hu Hd _ Hl]. apply Hdecl in Hd.
      destruct (m_value metric); cbn in *; rewrite ?Hl, ?Z.gtb_ltb, ?(proj2 (Z.ltb_ge _ _)) by done;
        split_and!; done || tauto.
Qed.

Lemma summary_accepted ByteSizeLong snapshot :
  accepted (validate_summary_snapshot ByteSizeLong snapshot) = true ↔
  vsize (ss_metrics snapshot) <= kSummaryMaxMetrics
  ∧ ByteSizeLong snapshot <= kSummaryMaxPayloadBytes
  ∧ NoDup (m_key <$> ss_metrics snapshot)
  ∧ Forall (λ metric, passes metric = true) (ss_metrics snapshot).
Proof.
  unfold validate_summary_snapshot. autorewrite with validators.
  rewrite !andb_true_iff, !negb_true_iff, !Z.gtb_ltb, !Z.ltb_ge.
  rewrite (accepted_unique m_key check_metric passes) by
    (apply _ || done || apply accepted_check_metric). done.
Qed.

(** C32 A summary none of whose qualities is negative, as none that telemetry.proto declares
    is, is accepted exactly when it has at most 64 metrics in at most 16 KiB, under pairwise
    different keys, and each is well formed: a dotted key, a unit within its limit, one of
    the four qualities, a value where the quality promises one, and a value that is finite
    and within its limit.  A negative quality the validator lets pass
    ([negative_quality_accepted]), which those of the Rust and Python bindings refuse. *)
Theorem summary_snapshot_accepted ByteSizeLong snapshot :
  Forall (λ metric, METRIC_QUALITY_UNSPECIFIED <= m_quality metric) (ss_metrics snapshot) →
  accepted (validate_summary_snapshot ByteSizeLong snapshot) = true ↔
  vsize (ss_metrics snapshot) <= kSummaryMaxMetrics
  ∧ ByteSizeLong snapshot <= kSummaryMaxPayloadBytes
  ∧ NoDup (m_key <$> ss_metrics snapshot)
  ∧ Forall well_formed (ss_metrics snapshot).
Proof.
  intros Hq. rewrite summary_accepted. do 3 (apply and_iff_compat_l).
  rewrite !Forall_forall in *. split; intros H metric Hin; specialize (H metric Hin);
    by apply passes_well_formed; [apply Hq|].
Qed.

(** (finding) Every negative quality passes for a metric, with no value required, though
    the validator rejects the qualities it does not know: proto3 enumerations are open, and
    only the upper end is checked. *)
Theorem negative_quality_accepted ByteSizeLong key quality :
  let snapshot := mkSummarySnapshot 0 [mkMetric key VALUE_NOT_SET EmptyString quality 0] in
  quality < 0 → valid_metric_key key = true →
  ByteSizeLong snapshot <= kSummaryMaxPayloadBytes →
  accepted (validate_summary_snapshot ByteSizeLong snapshot) = true
  ∧ ¬ well_formed (mkMetric key VALUE_NOT_SET EmptyString quality 0).
Proof.
  intros snapshot Hq Hk Hsize. split.
  - apply summary_accepted. split_and!; [done|done| |].
    + apply NoDup_singleton.
    + constructor; [|constructor]. destruct quality; [lia|lia|].
      unfold passes, check_metric. autorewrite with validators. cbn -[valid_metric_key].
      by rewrite Hk.
  - intros [_ _ Hd _ _]. cbn in Hd. revert Hd.
    unfold declared_quality, METRIC_VALID, METRIC_STALE, METRIC_INVALID, METRIC_UNAVAILABLE.
    rewrite !elem_of_cons, elem_of_nil. lia.
Qed.

(** *** Witnesses *)

Definition sample_snapshot : SummarySnapshot :=
  mkSummarySnapshot 0
    [mkMetric "power.battery.voltage" (double_value 4627730092099895296) "V" METRIC_VALID 0;
     mkMetric "power.battery.percent" VALUE_NOT_SET "%" METRIC_UNAVAILABLE 0].

Lemma summary_snapshot_accepted_witness :
  Forall well_formed (ss_metrics sample_snapshot).
Proof.
  apply (summary_snapshot_accepted (λ _, 64) sample_snapshot).
  - repeat constructor; vm_compute; discriminate.
  - vm_compute. reflexivity.
Defined.

Lemma negative_quality_accepted_witness :
  accepted (validate_summary_snapshot (λ _, 10)
    (mkSummarySnapshot 0 [mkMetric "power.battery.voltage" VALUE_NOT_SET EmptyString (-1) 0]))
  = true
  ∧ ¬ well_formed (mkMetric "power.battery.voltage" VALUE_NOT_SET EmptyString (-1) 0).
Proof.
  apply (negative_quality_accepted (λ _, 10)).
  - lia.
  - vm_compute. reflexivity.
  - vm_compute. discriminate.
Defined.
