(* ===== verification/MediaValidation.v ===== *)
(** * MediaValidation: cameras, assets and files

    src/profiles/org.yunlink.media/v1: the messages of media.proto that media_validation.cpp
    checks, and its validators. *)

From Stdlib Require Import ZArith Lia String Ascii Strings.Byte.
From stdpp Require Import base gmap strings list.
From S2P Require Import Prelude Codec Floats Validation.
Local Open Scope string_scope.
Local Open Scope list_scope.
Local Open Scope Z_scope.

(** ** Data *)

Definition kMediaMaxCameras : Z := 32.
Definition kMediaMaxCameraUidBytes : Z := 96.
Definition kMediaMaxMessageBytes : Z := 256.
Definition kMediaMaxAssetIdBytes : Z := 128.
Definition kMediaMaxTransferIdBytes : Z := 128.
Definition kMediaMaxChunkBytes : Z := 256 * 1024.
Definition kMediaSha256Bytes : Z := 32.
Definition kMediaMaxSourceUriBytes : Z := 2048.
Definition kMediaMaxAssetPageSize : Z := 100.
Definition kMediaMaxPageTokenBytes : Z := 512.
Definition kMediaMaxDimensionPixels : Z := 32768.
Definition kMediaMaxStorageIdBytes : Z := 64.
Definition kMediaMaxRelativePathBytes : Z := 1024.
Definition kMediaMaxFileEntries : Z := 256.

Definition MEDIA_OK : Z := 1.
Definition MEDIA_NO_SPACE : Z := 12.
Definition MEDIA_PHOTO : Z := 1.
Definition MEDIA_THUMBNAIL : Z := 2.
Definition MEDIA_VIDEO : Z := 3.
Definition MEDIA_FILE : Z := 1.
Definition MEDIA_DIRECTORY : Z := 2.

Record CameraDescriptor := mkCameraDescriptor {
  cd_camera_uid : string;
  cd_camera_id : Z;
  cd_name : string;
  cd_image_topic : string;
  cd_camera_info_topic : string;
  cd_online : bool;
  cd_frame_rate_hz : Z;
  cd_width : Z;
  cd_height : Z;
  cd_encoding : string;
  cd_recording : bool;
  cd_live_view_supported : bool;
  cd_live_view_control_supported : bool;
  cd_live_view_active : bool;
  cd_error_message : string;
  cd_rtsp_url : string;
  cd_live_view_autostart : bool;
}.

Record CameraCatalogSnapshot := mkCameraCatalogSnapshot {
  cc_generated_at_ns : Z;
  cc_cameras : list CameraDescriptor;
  cc_camera_manager_available : bool;
}.

Record CameraStartRtspResponse := mkCameraStartRtspResponse {
  rtsp_error : Z;
  rtsp_message : string;
  rtsp_url : string;
}.

Record MediaAssetRef := mkMediaAssetRef {
  ma_asset_id : string;
  ma_kind : Z;
  ma_mime_type : string;
  ma_size_bytes : Z;
  ma_sha256 : string;
  ma_created_at_ns : Z;
  ma_camera_uid : string;
  ma_display_name : string;
}.

Record MediaAssetItem := mkMediaAssetItem {
  mi_asset : option MediaAssetRef;
  mi_thumbnail : option MediaAssetRef;
  mi_width : Z;
  mi_height : Z;
  mi_duration_ms : Z;
}.

Record MediaAssetListRequest := mkMediaAssetListRequest {
  alq_camera_uid : string;
  alq_kinds : list Z;
  alq_created_after_ns : Z;
  alq_created_before_ns : Z;
  alq_page_size : Z;
  alq_page_token : string;
}.

Record MediaAssetListResponse := mkMediaAssetListResponse {
  alr_error : Z;
  alr_message : string;
  alr_items : list MediaAssetItem;
  alr_next_page_token : string;
  alr_catalog_revision : Z;
}.

Record MediaAssetChunkResponse := mkMediaAssetChunkResponse {
  acr_error : Z;
  acr_message : string;
  acr_transfer_id : string;
  acr_offset : Z;
  acr_data : string;
  acr_eof : bool;
}.

Record MediaFileEntry := mkMediaFileEntry {
  fe_file_id : string;
  fe_entry_type : Z;
  fe_storage_id : string;
  fe_relative_path : string;
  fe_name : string;
  fe_mime_type : string;
  fe_size_bytes : Z;
  fe_sha256 : string;
  fe_modified_at_ns : Z;
}.

Record MediaFileListRequest := mkMediaFileListRequest {
  flq_storage_id : string;
  flq_path_prefix : string;
  flq_page_size : Z;
  flq_page_token : string;
}.

Record MediaFileListResponse := mkMediaFileListResponse {
  flr_error : Z;
  flr_message : string;
  flr_entries : list MediaFileEntry;
  flr_next_page_token : string;
  flr_catalog_revision : Z;
}.

Record MediaFileChunkResponse := mkMediaFileChunkResponse {
  fcr_error : Z;
  fcr_message : string;
  fcr_transfer_id : string;
  fcr_offset : Z;
  fcr_data : string;
  fcr_eof : bool;
}.

Record MediaFileStorageStatRequest := mkMediaFileStorageStatRequest {
  fss_storage_id : string;
}.

Record MediaFilePutOpen := mkMediaFilePutOpen {
  fpo_storage_id : string;
  fpo_relative_path : string;
  fpo_size_bytes : Z;
  fpo_sha256 : string;
  fpo_mime_type : string;
  fpo_desired_window_size : Z;
  fpo_capability : string;
}.

Record MediaFilePutChunk := mkMediaFilePutChunk {
  fpc_transfer_id : string;
  fpc_offset : Z;
  fpc_data : string;
}.

(** What the accessor of an absent [MediaAssetRef] reads. *)
Definition default_MediaAssetRef : MediaAssetRef :=
  mkMediaAssetRef EmptyString 0 EmptyString 0 EmptyString 0 EmptyString EmptyString.

Definition item_asset (item : MediaAssetItem) : MediaAssetRef :=
  default default_MediaAssetRef (mi_asset item).
Definition item_thumbnail (item : MediaAssetItem) : MediaAssetRef :=
  default default_MediaAssetRef (mi_thumbnail item).

Definition present {A} (field : option A) : bool :=
  match field with Some _ => true | None => false end.

(** ** Texts *)

Definition ascii_alphanumeric (character : Z) : bool :=
  lowercase character || uppercase character || digit character.

Definition token_char (character : Z) : bool :=
  ascii_alphanumeric character || (character =? 45) || (character =? 95) || (character =? 46).

Definition valid_token (value : string) (max_bytes : Z) : bool :=
  if empty value || (ssize value >? max_bytes) then false else all_chars token_char value.

Definition page_token_char (character : Z) : bool :=
  ascii_alphanumeric character || (character =? 45) || (character =? 95) || (character =? 61).

Definition valid_page_token (value : string) : bool :=
  (ssize value <=? kMediaMaxPageTokenBytes) && all_chars page_token_char value.

Definition valid_error (error : Z) : bool := (MEDIA_OK <=? error) && (error <=? MEDIA_NO_SPACE).

Definition contains_control (value : string) : bool :=
  existsb (λ b, (val b <? 32) || (val b =? 127)) (bytes_of value).

(** [value.find(character, start)]. *)
Fixpoint find_char (character : Z) (value : Bytes) : option nat :=
  match value with
  | [] => None
  | b :: value =>
    if val b =? character then Some 0%nat else S <$> find_char character value
  end.

Definition find_from (character : Z) (value : Bytes) (start : nat) : option nat :=
  (λ i, (start + i)%nat) <$> find_char character (drop start value).

Definition bad_segment (segment : Bytes) : bool :=
  bool_decide (segment = []) || bool_decide (segment = bytes_of ".")
  || bool_decide (segment = bytes_of "..").

(** The loop of [valid_relative_path]; [None] when [fuel] runs out. *)
Fixpoint path_loop (fuel : nat) (value : Bytes) (start : nat) : option bool :=
  match fuel with
  | O => None
  | S fuel =>
    if Z.of_nat start <=? vsize value then
      match find_from 47 value start with
      | None => Some (negb (bad_segment (drop start value)))
      | Some end_ =>
        if bad_segment (take (end_ - start) (drop start value)) then Some false
        else path_loop fuel value (end_ + 1)
      end
    else Some true
  end.

Definition path_fuel (value : string) : nat := S (String.length value).

Definition valid_relative_path (value : string) (allow_empty : bool) : bool :=
  if empty value then allow_empty
  else if match bytes_of value with b :: _ => val b =? 47 | [] => false end
          || existsb (λ b, val b =? 92) (bytes_of value) then false
  else default false (path_loop (path_fuel value) (bytes_of value) 0).

(** ** Cameras *)

Definition validate_camera_request (camera_uid : string) : validator :=
  if negb (valid_token camera_uid kMediaMaxCameraUidBytes) then fail "camera uid is invalid"
  else accept_clear.

(** [frame_rate_hz < 0.0]. *)
Definition negative (value : Z) : bool := lt64 value 0.

Definition validate_camera_descriptor (camera : CameraDescriptor) : validator :=
  if negb (valid_token (cd_camera_uid camera) kMediaMaxCameraUidBytes)
  then fail "camera uid is invalid"
  else if (ssize (cd_name camera) >? 128) || (ssize (cd_image_topic camera) >? 256)
    || (ssize (cd_camera_info_topic camera) >? 256) || (ssize (cd_encoding camera) >? 64)
    || (ssize (cd_error_message camera) >? kMediaMaxMessageBytes)
    || (ssize (cd_rtsp_url camera) >? kMediaMaxSourceUriBytes)
    || contains_control (cd_rtsp_url camera)
    || (cd_live_view_active camera
        && (negb (cd_live_view_supported camera) || empty (cd_rtsp_url camera)))
    || (negb (cd_live_view_supported camera)
        && (cd_live_view_control_supported camera || negb (empty (cd_rtsp_url camera))
            || cd_live_view_autostart camera))
    || negb (isfinite64 (cd_frame_rate_hz camera)) || negative (cd_frame_rate_hz camera)
  then fail "camera descriptor is invalid"
  else accept_clear.

Definition check_camera (inserted : bool) (camera : CameraDescriptor) (rest : validator) :
    validator :=
  require (validate_camera_descriptor camera)
    (if negb inserted then fail "duplicate camera uid" else rest).

Definition validate_camera_catalog_snapshot (snapshot : CameraCatalogSnapshot) : validator :=
  if vsize (cc_cameras snapshot) >? kMediaMaxCameras then fail "camera catalog is invalid"
  else each_new cd_camera_uid check_camera ∅ (cc_cameras snapshot) accept_clear.

Definition validate_camera_start_rtsp_response (response : CameraStartRtspResponse) : validator :=
  if negb (valid_error (rtsp_error response))
     || (ssize (rtsp_message response) >? kMediaMaxMessageBytes)
     || (ssize (rtsp_url response) >? kMediaMaxSourceUriBytes)
     || contains_control (rtsp_url response)
     || ((rtsp_error response =? MEDIA_OK) && empty (rtsp_url response))
     || (negb (rtsp_error response =? MEDIA_OK) && negb (empty (rtsp_url response)))
  then fail "camera start RTSP response is invalid"
  else accept_clear.

(** ** Assets *)

Definition validate_media_asset_ref (asset : MediaAssetRef) : validator :=
  if negb (valid_token (ma_asset_id asset) kMediaMaxAssetIdBytes)
     || (ma_kind asset <? MEDIA_PHOTO) || (ma_kind asset >? MEDIA_VIDEO)
     || empty (ma_mime_type asset) || (ssize (ma_mime_type asset) >? 96)
     || (ma_size_bytes asset =? 0) || negb (ssize (ma_sha256 asset) =? kMediaSha256Bytes)
     || negb (valid_token (ma_camera_uid asset) kMediaMaxCameraUidBytes)
     || (ssize (ma_display_name asset) >? 160)
  then fail "media asset reference is invalid"
  else accept_clear.

Definition validate_media_asset_item (item : MediaAssetItem) : validator :=
  if negb (present (mi_asset item)) then fail "media asset item is invalid"
  else
    reject_unless (validate_media_asset_ref (item_asset item))
      ((ma_kind (item_asset item) =? MEDIA_THUMBNAIL)
       || (mi_width item >? kMediaMaxDimensionPixels)
       || (mi_height item >? kMediaMaxDimensionPixels))
      "media asset item is invalid"
      (if present (mi_thumbnail item) then
         reject_unless (validate_media_asset_ref (item_thumbnail item))
           (negb (ma_kind (item_thumbnail item) =? MEDIA_THUMBNAIL)
            || negb (bool_decide (ma_camera_uid (item_thumbnail item)
                                  = ma_camera_uid (item_asset item)))
            || bool_decide (ma_asset_id (item_thumbnail item) = ma_asset_id (item_asset item)))
           "media asset thumbnail relation is invalid" accept_clear
       else accept_clear).

Definition check_kind (inserted : bool) (kind : Z) (rest : validator) : validator :=
  if (negb (kind =? MEDIA_PHOTO) && negb (kind =? MEDIA_VIDEO)) || negb inserted
  then fail "media asset list kind is invalid" else rest.

Definition validate_media_asset_list_request (request : MediaAssetListRequest) : validator :=
  if (negb (empty (alq_camera_uid request))
      && negb (valid_token (alq_camera_uid request) kMediaMaxCameraUidBytes))
     || (alq_page_size request =? 0) || (alq_page_size request >? kMediaMaxAssetPageSize)
     || negb (valid_page_token (alq_page_token request))
     || (negb (alq_created_after_ns request =? 0) && negb (alq_created_before_ns request =? 0)
         && (alq_created_after_ns request >? alq_created_before_ns request))
  then fail "media asset list request is invalid"
  else each_new (λ kind : Z, kind) check_kind ∅ (alq_kinds request) accept_clear.

Definition check_item (inserted : bool) (item : MediaAssetItem) (rest : validator) : validator :=
  reject_unless (validate_media_asset_item item) (negb inserted)
    "media asset list response contains duplicate or invalid asset" rest.

Definition validate_media_asset_list_response (response : MediaAssetListResponse) : validator :=
  if negb (valid_error (alr_error response))
     || (ssize (alr_message response) >? kMediaMaxMessageBytes)
     || (vsize (alr_items response) >? kMediaMaxAssetPageSize)
     || negb (valid_page_token (alr_next_page_token response))
  then fail "media asset list response is invalid"
  else if negb (alr_error response =? MEDIA_OK)
          && (negb (vsize (alr_items response) =? 0)
              || negb (empty (alr_next_page_token response)))
  then fail "failed media asset list response contains data"
  else each_new (λ item, ma_asset_id (item_asset item)) check_item ∅ (alr_items response)
         accept_clear.

Definition validate_media_asset_chunk (chunk : MediaAssetChunkResponse) : validator :=
  if negb (valid_error (acr_error chunk)) then fail "media error is invalid"
  else if (ssize (acr_message chunk) >? kMediaMaxMessageBytes)
          || (ssize (acr_data chunk) >? kMediaMaxChunkBytes)
          || (negb (empty (acr_transfer_id chunk))
              && negb (valid_token (acr_transfer_id chunk) kMediaMaxTransferIdBytes))
  then fail "media asset chunk is invalid"
  else if (acr_error chunk =? MEDIA_OK)
          && (empty (acr_transfer_id chunk) || (empty (acr_data chunk) && negb (acr_eof chunk)))
  then fail "empty non-final media chunk"
  else accept_clear.

(** ** Files *)

Definition validate_media_file_entry (entry : MediaFileEntry) : validator :=
  let directory := fe_entry_type entry =? MEDIA_DIRECTORY in
  if negb (valid_token (fe_file_id entry) kMediaMaxAssetIdBytes)
     || (negb (fe_entry_type entry =? MEDIA_FILE) && negb directory)
     || empty (fe_storage_id entry) || (ssize (fe_storage_id entry) >? kMediaMaxStorageIdBytes)
     || empty (fe_relative_path entry)
     || (ssize (fe_relative_path entry) >? kMediaMaxRelativePathBytes)
     || empty (fe_name entry) || (ssize (fe_name entry) >? 160)
     || contains_control (fe_relative_path entry)
     || negb (valid_relative_path (fe_relative_path entry) false)
     || contains_control (fe_name entry) || (negb directory && (fe_size_bytes entry =? 0))
     || (negb directory && negb (ssize (fe_sha256 entry) =? kMediaSha256Bytes))
     || (directory && (negb (empty (fe_mime_type entry)) || negb (fe_size_bytes entry =? 0)
                       || negb (empty (fe_sha256 entry))))
     || (ssize (fe_mime_type entry) >? 96)
  then fail "media file entry is invalid"
  else accept_clear.

Definition validate_media_file_list_request (request : MediaFileListRequest) : validator :=
  if empty (flq_storage_id request) || (ssize (flq_storage_id request) >? kMediaMaxStorageIdBytes)
     || (ssize (flq_path_prefix request) >? kMediaMaxRelativePathBytes)
     || contains_control (flq_path_prefix request)
     || negb (valid_relative_path (flq_path_prefix request) true)
     || (flq_page_size request =? 0) || (flq_page_size request >? kMediaMaxFileEntries)
     || negb (valid_page_token (flq_page_token request))
  then fail "media file list request is invalid"
  else accept_clear.

Definition check_entry (inserted : bool) (entry : MediaFileEntry) (rest : validator) : validator :=
  reject_unless (validate_media_file_entry entry) (negb inserted)
    "media file list response contains duplicate or invalid entry" rest.

Definition validate_media_file_list_response (response : MediaFileListResponse) : validator :=
  if negb (valid_error (flr_error response))
     || (ssize (flr_message response) >? kMediaMaxMessageBytes)
     || (vsize (flr_entries response) >? kMediaMaxFileEntries)
     || negb (valid_page_token (flr_next_page_token response))
  then fail "media file list response is invalid"
  else if negb (flr_error response =? MEDIA_OK)
          && (negb (vsize (flr_entries response) =? 0)
              || negb (empty (flr_next_page_token response)))
  then fail "failed media file list response contains data"
  else each_new fe_file_id check_entry ∅ (flr_entries response) accept_clear.

Definition validate_media_file_chunk (chunk : MediaFileChunkResponse) : validator :=
  if negb (valid_error (fcr_error chunk))
     || (ssize (fcr_message chunk) >? kMediaMaxMessageBytes)
     || (ssize (fcr_data chunk) >? kMediaMaxChunkBytes)
     || (negb (empty (fcr_transfer_id chunk))
         && negb (valid_token (fcr_transfer_id chunk) kMediaMaxTransferIdBytes))
     || ((fcr_error chunk =? MEDIA_OK)
         && (empty (fcr_transfer_id chunk)
             || (empty (fcr_data chunk) && negb (fcr_eof chunk))))
  then fail "media file chunk is invalid"
  else accept_clear.

Definition validate_media_file_storage_stat_request (request : MediaFileStorageStatRequest) :
    validator :=
  if empty (fss_storage_id request) || (ssize (fss_storage_id request) >? kMediaMaxStorageIdBytes)
  then fail "media storage stat request is invalid"
  else accept_clear.

Definition validate_media_file_put_open (request : MediaFilePutOpen) : validator :=
  if empty (fpo_storage_id request) || (ssize (fpo_storage_id request) >? kMediaMaxStorageIdBytes)
     || empty (fpo_relative_path request)
     || (ssize (fpo_relative_path request) >? kMediaMaxRelativePathBytes)
     || contains_control (fpo_relative_path request)
     || negb (valid_relative_path (fpo_relative_path request) false)
     || (fpo_size_bytes request =? 0)
     || negb (ssize (fpo_sha256 request) =? kMediaSha256Bytes)
     || (ssize (fpo_mime_type request) >? 96)
  then fail "media file put open is invalid"
  else accept_clear.

Definition validate_media_file_put_chunk (request : MediaFilePutChunk) : validator :=
  if negb (valid_token (fpc_transfer_id request) kMediaMaxTransferIdBytes)
     || empty (fpc_data request) || (ssize (fpc_data request) >? kMediaMaxChunkBytes)
  then fail "media file put chunk is invalid"
  else accept_clear.

(** ** Paths *)
Lemma find_char_segments separator text :
  segments separator text
  = match find_char separator text with
    | None => [text]
    | Some i => take i text :: segments separator (drop (S i) text)
    end.
Proof.
  induction text as [|b text IH]; [done|]. cbn [segments find_char].
  case_if; [done|]. rewrite IH. by destruct (find_char separator text).
Qed.

Lemma find_char_lt separator text i :
  find_char separator text = Some i → (i < length text)%nat.
Proof.
  revert i. induction text as [|b text IH]; intros i; [done|]. cbn. case_if.
  - intros [= <-]. lia.
  - destruct (find_char separator text) as [j|]; [|done]. intros [= <-].
    specialize (IH j eq_refl). lia.
Qed.

(** The loop looks at every segment from [start], and ends. *)
Lemma path_loop_spec fuel value start :
  (start <= length value)%nat → (length value - start < fuel)%nat →
  path_loop fuel value start
  = Some (forallb (λ s, negb (bad_segment s)) (segments 47 (drop start value))).
Proof.
  revert start. induction fuel as [|fuel IH]; intros start Hs Hf; [lia|]. cbn [path_loop].
  rewrite (proj2 (Z.leb_le _ _)) by lia. unfold find_from.
  rewrite (find_char_segments 47 (drop start value)).
  destruct (find_char 47 (drop start value)) as [i|] eqn:E; cbn [fmap option_fmap option_map].
  - apply find_char_lt in E. rewrite length_drop in E. rewrite Nat.add_comm, Nat.add_sub.
    cbn [forallb]. destruct (bad_segment _); [done|]. cbn [negb andb].
    rewrite IH by lia. rewrite drop_drop. do 3 f_equal. f_equal. lia.
  - cbn. by rewrite andb_true_r.
Qed.

(** A path of segments, none of them empty, [.] or [..], and without back slashes. *)
Definition plain_path (value : string) : bool :=
  negb (existsb (λ b, val b =? 92) (bytes_of value))
  && forallb (λ s, negb (bad_segment s)) (segments 47 (bytes_of value)).

(** Where a path of segments leads, as a depth below the directory it starts from; [None]
    when it leaves that directory. *)
Fixpoint walk (parts : list Bytes) (depth : nat) : option nat :=
  match parts with
  | [] => Some depth
  | part :: parts =>
    if bool_decide (part = []) || bool_decide (part = bytes_of ".") then walk parts depth
    else if bool_decide (part = bytes_of "..") then
      match depth with O => None | S depth => walk parts depth end
    else walk parts (S depth)
  end.

Lemma walk_plain parts depth :
  forallb (λ s, negb (bad_segment s)) parts = true →
  walk parts depth = Some (depth + length parts)%nat.
Proof.
  revert depth. induction parts as [|part parts IH]; intros depth; cbn -[bytes_of].
  { intros _. f_equal. lia. }
  unfold bad_segment. intros H. bool_hyps.
  rewrite !bool_decide_eq_false_2 by done. cbn. rewrite IH by done. f_equal. lia.
Qed.

Lemma relative_path_plain value allow_empty :
  valid_relative_path value allow_empty
  = if empty value then allow_empty else plain_path value.
Proof.
  unfold valid_relative_path, plain_path, path_fuel.
  destruct (empty value) eqn:Ee; [done|].
  rewrite path_loop_spec by (rewrite ?length_bytes_of; lia). rewrite drop_0. cbn [default].
  destruct (existsb _ _); [by rewrite orb_true_r|]. rewrite orb_false_r. cbn [negb andb].
  destruct (bytes_of value) as [|b text]; [done|]. cbn [segments].
  by destruct (val b =? 47).
Qed.

(** ** Rejections are explained *)

Ltac explain v := intros; unfold v; apply _.

#[export] Instance explains_camera_descriptor camera : Explains (validate_camera_descriptor camera).
Proof. explain validate_camera_descriptor. Qed.
#[export] Instance explains_check_camera inserted camera rest :
  Explains rest → Explains (check_camera inserted camera rest).
Proof. explain check_camera. Qed.
#[export] Instance explains_asset_ref asset : Explains (validate_media_asset_ref asset).
Proof. explain validate_media_asset_ref. Qed.
#[export] Instance explains_asset_item item : Explains (validate_media_asset_item item).
Proof. explain validate_media_asset_item. Qed.
#[export] Instance explains_check_kind inserted kind rest :
  Explains rest → Explains (check_kind inserted kind rest).
Proof. explain check_kind. Qed.
#[export] Instance explains_check_item inserted item rest :
  Explains rest → Explains (check_item inserted item rest).
Proof. explain check_item. Qed.
#[export] Instance explains_file_entry entry : Explains (validate_media_file_entry entry).
Proof. explain validate_media_file_entry. Qed.
#[export] Instance explains_check_entry inserted entry rest :
  Explains rest → Explains (check_entry inserted entry rest).
Proof. explain check_entry. Qed.

Lemma accepted_check_camera inserted camera rest :
  Explains rest →
  accepted (check_camera inserted camera rest)
  = inserted && accepted (validate_camera_descriptor camera) && accepted rest.
Proof.
  intros Hr. unfold check_camera. autorewrite with validators. rewrite negb_involutive.
  by destruct inserted, (accepted (validate_camera_descriptor camera)).
Qed.

Lemma accepted_check_item inserted item rest :
  Explains rest →
  accepted (check_item inserted item rest)
  = inserted && accepted (validate_media_asset_item item) && accepted rest.
Proof.
  intros Hr. unfold check_item. autorewrite with validators.
  by rewrite negb_involutive, (andb_comm inserted).
Qed.

Lemma accepted_check_entry inserted entry rest :
  Explains rest →
  accepted (check_entry inserted entry rest)
  = inserted && accepted (validate_media_file_entry entry) && accepted rest.
Proof.
  intros Hr. unfold check_entry. autorewrite with validators.
  by rewrite negb_involutive, (andb_comm inserted).
Qed.

(** The checks of a response before its entries. *)
Lemma accepted_frame {A} error message (items : list A) limit token v m1 m2 :
  accepted (if negb (valid_error error) || (ssize message >? kMediaMaxMessageBytes)
               || (vsize items >? limit) || negb (valid_page_token token)
            then fail m1
            else if negb (error =? MEDIA_OK) && (negb (vsize items =? 0) || negb (empty token))
            then fail m2 else v) = true ↔
  MEDIA_OK <= error <= MEDIA_NO_SPACE ∧ ssize message <= kMediaMaxMessageBytes
  ∧ vsize items <= limit ∧ valid_page_token token = true
  ∧ (error ≠ MEDIA_OK → items = [] ∧ token = EmptyString) ∧ accepted v = true.
Proof.
  rewrite !accepted_check, !andb_true_iff, !negb_true_iff, !orb_false_iff, !negb_false_iff.
  unfold valid_error. rewrite !Z.gtb_ltb, andb_true_iff, !Z.ltb_ge, !Z.leb_le.
  assert (Hi : (vsize items =? 0) = true ↔ items = []).
  { rewrite Z.eqb_eq. destruct items; cbn; split; (done || lia). }
  assert (Ht : empty token = true ↔ token = EmptyString).
  { unfold empty. by rewrite bool_decide_eq_true. }
  destruct (Z.eqb_spec error MEDIA_OK); cbn [negb andb]; [tauto|].
  rewrite orb_false_iff, !negb_false_iff, Hi, Ht. tauto.
Qed.

(** ** Properties *)

(** C29 The path loop ends, and a path is accepted exactly when it is empty and may be, or
    consists of segments none of which is empty, [.] or [..], without back slashes; such
    a path never leaves the directory it starts from. *)
Theorem relative_paths_stay_inside value allow_empty :
  path_loop (path_fuel value) (bytes_of value) 0 ≠ None
  ∧ valid_relative_path value allow_empty
    = (if empty value then allow_empty else plain_path value)
  ∧ (valid_relative_path value false = true →
     walk (segments 47 (bytes_of value)) 0 = Some (length (segments 47 (bytes_of value)))).
Proof.
  split; [by rewrite path_loop_spec by (unfold path_fuel; rewrite ?length_bytes_of; lia)|].
  split; [apply relative_path_plain|]. rewrite relative_path_plain.
  destruct (empty value); [done|]. unfold plain_path. intros H. bool_hyps.
  by rewrite walk_plain.
Qed.

(** C30 A listing is accepted exactly when its frame is well formed (a known error, bounded
    sizes, and no data beside an error), each of its entries is accepted, and no two
    entries have the same identifier: cameras, assets and files alike. *)
Theorem listings_accepted :
  (∀ snapshot, accepted (validate_camera_catalog_snapshot snapshot) = true ↔
     vsize (cc_cameras snapshot) <= kMediaMaxCameras
     ∧ NoDup (cd_camera_uid <$> cc_cameras snapshot)
     ∧ Forall (λ camera, accepted (validate_camera_descriptor camera) = true)
         (cc_cameras snapshot))
  ∧ (∀ response, accepted (validate_media_asset_list_response response) = true ↔
       MEDIA_OK <= alr_error response <= MEDIA_NO_SPACE
       ∧ ssize (alr_message response) <= kMediaMaxMessageBytes
       ∧ vsize (alr_items response) <= kMediaMaxAssetPageSize
       ∧ valid_page_token (alr_next_page_token response) = true
       ∧ (alr_error response ≠ MEDIA_OK →
          alr_items response = [] ∧ alr_next_page_token response = EmptyString)
       ∧ NoDup ((λ item, ma_asset_id (item_asset item)) <$> alr_items response)
       ∧ Forall (λ item, accepted (validate_media_asset_item item) = true)
           (alr_items response))
  ∧ (∀ response, accepted (validate_media_file_list_response response) = true ↔
       MEDIA_OK <= flr_error response <= MEDIA_NO_SPACE
       ∧ ssize (flr_message response) <= kMediaMaxMessageBytes
       ∧ vsize (flr_entries response) <= kMediaMaxFileEntries
       ∧ valid_page_token (flr_next_page_token response) = true
       ∧ (flr_error response ≠ MEDIA_OK →
          flr_entries response = [] ∧ flr_next_page_token response = EmptyString)
       ∧ NoDup (fe_file_id <$> flr_entries response)
       ∧ Forall (λ entry, accepted (validate_media_file_entry entry) = true)
           (flr_entries response)).
Proof.
  split; [|split].
  - intros snapshot. unfold validate_camera_catalog_snapshot.
    rewrite accepted_check, Z.gtb_ltb, andb_true_iff, negb_true_iff, Z.ltb_ge.
    rewrite (accepted_unique cd_camera_uid check_camera
      (λ camera, accepted (validate_camera_descriptor camera))) by
      (apply _ || done || apply accepted_check_camera). done.
  - intros response. unfold validate_media_asset_list_response. rewrite accepted_frame.
    rewrite (accepted_unique _ check_item (λ item, accepted (validate_media_asset_item item))) by
      (apply _ || done || apply accepted_check_item). done.
  - intros response. unfold validate_media_file_list_response. rewrite accepted_frame.
    rewrite (accepted_unique _ check_entry (λ entry, accepted (validate_media_file_entry entry)))
      by (apply _ || done || apply accepted_check_entry). done.
Qed.
