(* ===== verification/ControlValidation.v ===== *)
(** * ControlValidation: goals and states of the Sunray profile

    src/profiles/com.yundrone.sunray/v2: the messages of sunray.proto (and of
    mobility.proto) that control_validation.cpp checks, and its validators.  Fields no
    validator reads are left out of the larger messages. *)

From Stdlib Require Import ZArith Lia String Ascii Strings.Byte SpecFloat.
From stdpp Require Import base gmap strings list.
From S2P Require Import Prelude Codec Floats Validation.
Local Open Scope string_scope.
Local Open Scope list_scope.
Local Open Scope Z_scope.

(** ** Data *)

Definition kMinDirectControlLeaseMs : Z := 250.
Definition kMaxDirectControlLeaseMs : Z := 2000.
Definition kMaxWaypointCount : Z := 256.
Definition kMaxWaypointTaskNameBytes : Z := 96.

Definition ACTIVE_CONTROLLER_UNKNOWN : Z := 0.
Definition ACTIVE_CONTROLLER_NMPC : Z := 4.
Definition UAV_YAW_KEEP : Z := 0.
Definition UAV_YAW_SET_ANGLE : Z := 1.
Definition UAV_YAW_SET_RATE : Z := 2.
Definition UAV_CONTROLLER_DEFAULT : Z := 0.
Definition UAV_CONTROLLER_POSITION : Z := 1.
Definition UAV_CONTROLLER_ATTITUDE : Z := 2.
Definition UAV_WAYPOINT_NEXT : Z := 0.
Definition UAV_WAYPOINT_HOLD_CURRENT_YAW : Z := 1.
Definition UAV_WAYPOINT_HOLD_SET_YAW : Z := 2.
Definition UAV_MISSION_FINISH_HOVER : Z := 0.
Definition UAV_MISSION_FINISH_RETURN_HOME_AND_LAND : Z := 1.
Definition UAV_MISSION_FINISH_LAND_NOW : Z := 2.
Definition UGV_MOVE_LOCAL : Z := 0.
Definition UGV_MOVE_BODY : Z := 1.
Definition UGV_YAW_KEEP : Z := 0.
Definition UGV_YAW_SET : Z := 1.
Definition UGV_WAYPOINT_NEXT : Z := 0.
Definition UGV_WAYPOINT_HOLD_CURRENT_YAW : Z := 1.
Definition UGV_WAYPOINT_HOLD_SET_YAW : Z := 2.
Definition UGV_MISSION_HOLD : Z := 0.
Definition UGV_MISSION_RETURN_HOME_AND_HOLD : Z := 1.
Definition FORMATION_UNKNOWN : Z := 0.
Definition FORMATION_TAKEOFF : Z := 1.
Definition FORMATION_LAND : Z := 2.
Definition FORMATION_STATIC_LINE : Z := 10.
Definition FORMATION_STATIC_POLYGON : Z := 11.
Definition FORMATION_LEADER : Z := 12.
Definition FORMATION_DYNAMIC_POLYGON : Z := 20.
Definition FORMATION_DYNAMIC_RING : Z := 21.
Definition FORMATION_DYNAMIC_LEMNISCATE : Z := 22.
Definition FORMATION_PHASE_IDLE : Z := 0.
Definition FORMATION_PHASE_ERROR : Z := 4.
Definition FORMATION_LEADER_TARGET_FIXED_POSE : Z := 1.
Definition FORMATION_LEADER_TARGET_ODOM_TOPIC : Z := 2.

(** *** mobility.proto *)

Record Vector2 := mkVector2 { v2_x : Z; v2_y : Z }.
Record Vector3 := mkVector3 { v3_x : Z; v3_y : Z; v3_z : Z }.
Record Quaternion := mkQuaternion { q_x : Z; q_y : Z; q_z : Z; q_w : Z }.
Record Pose := mkPose { position : option Vector3; orientation : option Quaternion }.

(** *** sunray.proto *)

Record FlightControlState := mkFlightControlState {
  fcs_battery_voltage_v : Z;
  fcs_battery_percent : Z;
  fcs_controller_type : Z;
}.

Record UgvControlState := mkUgvControlState {
  ucs_battery_voltage_v : Z;
  ucs_battery_percent : Z;
}.

Record YawTarget := mkYawTarget { yt_mode : Z; yt_value : Z }.
Record HeightLock := mkHeightLock { height_m : Z }.

Record WorldPositionTarget := mkWorldPositionTarget {
  wp_frame_id : string;
  wp_position_m : option Vector3;
}.

Record BodyPositionTarget := mkBodyPositionTarget {
  bp_body_xy_position_m : option Vector2;
  bp_fixed_height_m : Z;
}.

Record TrajectorySetpointTarget := mkTrajectorySetpointTarget {
  ts_frame_id : string;
  ts_position_m : option Vector3;
  ts_velocity_mps : option Vector3;
  ts_acceleration_mps2 : option Vector3;
}.

Record WorldVelocityTarget := mkWorldVelocityTarget {
  wv_frame_id : string;
  wv_velocity_mps : option Vector3;
  wv_height_lock : option HeightLock;
}.

Record BodyVelocityTarget := mkBodyVelocityTarget {
  bv_body_xy_velocity_mps : option Vector2;
  bv_fixed_height_m : Z;
}.

(** The [oneof target]. *)
Inductive UavTarget :=
  | UAV_TARGET_NOT_SET
  | kWorldPosition (target : WorldPositionTarget)
  | kBodyPosition (target : BodyPositionTarget)
  | kTrajectorySetpoint (target : TrajectorySetpointTarget)
  | kWorldVelocity (target : WorldVelocityTarget)
  | kBodyVelocity (target : BodyVelocityTarget).

Record UavDirectControlGoal := mkUavDirectControlGoal {
  dc_target : UavTarget;
  dc_yaw : option YawTarget;
  dc_controller : Z;
  dc_lease_ms : Z;
}.

Record UavAccelerationCompensationGoal := mkUavAccelerationCompensationGoal {
  acceleration_ned_mps2 : option Vector3;
}.

Record EmergencyKillGoal := mkEmergencyKillGoal { confirmed : bool }.

Record TakeoffGoal := mkTakeoffGoal {
  takeoff_relative_height_m : Z;
  takeoff_max_velocity_mps : Z;
}.

Record LandGoal := mkLandGoal { land_max_velocity_mps : Z }.

Record UavWaypoint := mkUavWaypoint {
  uw_position_m : option Vector3;
  uw_yaw_rad : Z;
  uw_hold_time_s : Z;
  uw_arrival_action : Z;
}.

Record UavWaypointMissionGoal := mkUavWaypointMissionGoal {
  uwm_frame_id : string;
  uwm_waypoints : list UavWaypoint;
  uwm_task_name : string;
  uwm_completion_action : Z;
}.

Record UavNavGoal := mkUavNavGoal {
  un_frame_id : string;
  un_position_m : option Vector3;
  un_yaw_rad : Z;
}.

Record UgvMovePointGoal := mkUgvMovePointGoal {
  mp_frame : Z;
  mp_point_m : option Vector3;
  mp_yaw_mode : Z;
  mp_desired_yaw_rad : Z;
  mp_local_frame_id : string;
}.

Record UgvLocalVelocityTarget := mkUgvLocalVelocityTarget {
  lv_frame_id : string;
  lv_linear_mps : option Vector2;
  lv_desired_yaw_rad : Z;
}.

Record UgvBodyVelocityTarget := mkUgvBodyVelocityTarget {
  gbv_linear_mps : option Vector2;
  gbv_yaw_rate_radps : Z;
}.

Inductive UgvTarget :=
  | UGV_TARGET_NOT_SET
  | kLocal (target : UgvLocalVelocityTarget)
  | kBody (target : UgvBodyVelocityTarget).

Record UgvVelocityGoal := mkUgvVelocityGoal { gv_target : UgvTarget; gv_lease_ms : Z }.

Record UgvNavGoal := mkUgvNavGoal {
  gn_frame_id : string;
  gn_position_m : option Vector2;
  gn_yaw_rad : Z;
}.

Record UgvWaypoint := mkUgvWaypoint {
  gw_position_m : option Vector2;
  gw_yaw_rad : Z;
  gw_hold_time_s : Z;
  gw_arrival_action : Z;
}.

Record UgvWaypointMissionGoal := mkUgvWaypointMissionGoal {
  gwm_task_name : string;
  gwm_frame_id : string;
  gwm_waypoints : list UgvWaypoint;
  gwm_completion_action : Z;
}.

Record UgvPlanningState := mkUgvPlanningState {
  ps_main_state : Z;
  ps_task_state : Z;
  ps_current_waypoint_index : Z;
  ps_total_waypoints : Z;
  ps_current_waypoint : option UgvWaypoint;
  ps_distance_to_goal_m : Z;
  ps_hold_remaining_s : Z;
}.

Record PlannerSetHomeRequest := mkPlannerSetHomeRequest {
  home_m : option Vector3;
  home_frame_id : string;
}.

Record FormationLine := mkFormationLine { fl_spacing_m : Z; fl_angle_deg : Z }.
Record FormationPolygon := mkFormationPolygon { fp_side_length_m : Z; fp_move_speed_mps : Z }.
Record FormationRing := mkFormationRing { fr_radius_m : Z; fr_move_speed_mps : Z }.
Record FormationLemniscate := mkFormationLemniscate {
  lem_x_scale_m : Z;
  lem_y_scale_m : Z;
  lem_move_speed_mps : Z;
}.
Record FormationLeader := mkFormationLeader {
  ld_agent_slots : list Z;
  ld_spacing_m : Z;
  ld_virtual_leader_slots : list bool;
}.

(** With the numbers of the fields the parser did not know, which protobuf keeps. *)
Record FormationSetRequest := mkFormationSetRequest {
  fs_formation_type : Z;
  fs_line : option FormationLine;
  fs_polygon : option FormationPolygon;
  fs_ring : option FormationRing;
  fs_lemniscate : option FormationLemniscate;
  fs_leader : option FormationLeader;
  fs_unknown_fields : list Z;
}.

Record FormationLeaderTargetRequest := mkFormationLeaderTargetRequest {
  lt_target_mode : Z;
  lt_frame_id : string;
  lt_target_pose : option Pose;
  lt_odom_topic : string;
}.

Record TeamGoalRequest := mkTeamGoalRequest {
  tg_frame_id : string;
  tg_target_pose : option Pose;
  tg_team_id : string;
}.

Record FormationPreviewRequest := mkFormationPreviewRequest {
  fpr_goal : option FormationSetRequest;
  fpr_reference : option Pose;
  fpr_member_ids : list Z;
}.

Record FormationState := mkFormationState {
  fst_phase : Z;
  fst_formation_type : Z;
  fst_virtual_leader_target_valid : bool;
  fst_virtual_leader_target : option Pose;
  fst_formation_target_valid : bool;
  fst_formation_target : option Pose;
}.

Record FormationShapePoint := mkFormationShapePoint { sp_x : Z; sp_y : Z; sp_z : Z }.

Record FormationShape := mkFormationShape {
  fsh_formation_type : Z;
  fsh_valid : bool;
  fsh_move_speed_mps : Z;
  fsh_points : list FormationShapePoint;
}.

Record MappingLidarState := mkMappingLidarState {
  ml_lidar_rate_hz : Z;
  ml_imu_rate_hz : Z;
  ml_lidar_age_sec : Z;
  ml_imu_age_sec : Z;
}.

Record MappingState := mkMappingState {
  ms_status : string;
  ms_lidars : list MappingLidarState;
}.

Record GimbalAngleGoal := mkGimbalAngleGoal { ga_yaw_rad : Z; ga_pitch_rad : Z }.
Record GimbalRateGoal := mkGimbalRateGoal { gr_yaw_control : Z; gr_pitch_control : Z }.
Record GimbalZoomAbsoluteGoal := mkGimbalZoomAbsoluteGoal { zoom : Z }.

(** ** Numbers *)

(** The literals [0.0], [1.0], [30.9] and [1e-12]. *)
Definition zero64 : Z := 0.
Definition one64 : Z := 0x3FF0000000000000.
Definition max_zoom64 : Z := 0x403EE66666666666.
Definition min_norm64 : Z := 0x3D719799812DEA11.

Definition finite_Vector2 (value : Vector2) : bool :=
  isfinite64 (v2_x value) && isfinite64 (v2_y value).

Definition finite_Vector3 (value : Vector3) : bool :=
  isfinite64 (v3_x value) && isfinite64 (v3_y value) && isfinite64 (v3_z value).

Definition square64 (bits : Z) : spec_float :=
  mul64 (float_of_bits binary64 bits) (float_of_bits binary64 bits).

Definition norm_squared (value : Quaternion) : spec_float :=
  add64 (add64 (add64 (square64 (q_x value)) (square64 (q_y value))) (square64 (q_z value)))
    (square64 (q_w value)).

Definition finite_Quaternion (value : Quaternion) : bool :=
  is_finite (norm_squared value)
  && SFltb (float_of_bits binary64 min_norm64) (norm_squared value).

Definition finite_FormationShapePoint (value : FormationShapePoint) : bool :=
  isfinite64 (sp_x value) && isfinite64 (sp_y value) && isfinite64 (sp_z value).

(** [has_x() && f(x())]. *)
Definition has {A} (field : option A) (f : A → bool) : bool :=
  match field with Some value => f value | None => false end.

Definition finite_Pose (value : Pose) : bool :=
  has (position value) finite_Vector3 && has (orientation value) finite_Quaternion.

(** [std::isfinite(v) && v >= 0.0], [> 0.0] and [std::abs(v) > 0.0]. *)
Definition non_negative (value : Z) : bool := isfinite64 value && negb (lt64 value zero64).
Definition positive (value : Z) : bool := isfinite64 value && lt64 zero64 value.
Definition moving (value : Z) : bool :=
  isfinite64 value && SFltb (S754_zero false) (abs64 value).
(** [std::isfinite(v) && !(v <= 0.0)]. *)
Definition above_zero (value : Z) : bool :=
  isfinite64 value && negb (le64 value zero64).

(** ** Validators *)

Definition valid_yaw (goal : UavDirectControlGoal) : bool :=
  match dc_yaw goal with
  | None => false
  | Some yaw =>
    isfinite64 (yt_value yaw)
    && ((yt_mode yaw =? UAV_YAW_KEEP) || (yt_mode yaw =? UAV_YAW_SET_ANGLE)
        || (yt_mode yaw =? UAV_YAW_SET_RATE))
  end.

Definition valid_controller (goal : UavDirectControlGoal) : bool :=
  (dc_controller goal =? UAV_CONTROLLER_DEFAULT) || (dc_controller goal =? UAV_CONTROLLER_POSITION)
  || (dc_controller goal =? UAV_CONTROLLER_ATTITUDE).

Definition valid_continuous_lease (lease_ms : Z) : bool :=
  (kMinDirectControlLeaseMs <=? lease_ms) && (lease_ms <=? kMaxDirectControlLeaseMs).

Definition validate_uav_acceleration_compensation_goal (goal : UavAccelerationCompensationGoal) :
    validator :=
  if negb (has (acceleration_ned_mps2 goal) finite_Vector3)
  then fail "NED acceleration compensation must be present and finite" else accept.

(** [voltage < 0.0F], on a [float]. *)
Definition bad_battery (voltage percent : Z) : bool :=
  negb (isfinite32 voltage) || lt32 voltage 0 || (percent >? 100).

Definition validate_flight_control_state (state : FlightControlState) : validator :=
  if bad_battery (fcs_battery_voltage_v state) (fcs_battery_percent state)
     || (fcs_controller_type state <? ACTIVE_CONTROLLER_UNKNOWN)
     || (fcs_controller_type state >? ACTIVE_CONTROLLER_NMPC)
  then fail "flight control state is invalid" else accept.

Definition validate_ugv_control_state (state : UgvControlState) : validator :=
  if bad_battery (ucs_battery_voltage_v state) (ucs_battery_percent state)
  then fail "UGV control state is invalid" else accept.

Definition validate_uav_direct_control_goal (goal : UavDirectControlGoal) : validator :=
  if negb (valid_yaw goal) then fail "yaw target is missing or invalid"
  else if negb (valid_controller goal) then fail "controller is invalid"
  else
    match dc_target goal with
    | kWorldPosition target =>
      if negb (dc_lease_ms goal =? 0) || empty (wp_frame_id target)
         || negb (has (wp_position_m target) finite_Vector3)
      then fail "world position target is invalid" else accept
    | kBodyPosition target =>
      if negb (dc_lease_ms goal =? 0)
         || negb (has (bp_body_xy_position_m target) finite_Vector2)
         || negb (above_zero (bp_fixed_height_m target))
      then fail "body position target is invalid" else accept
    | kTrajectorySetpoint target =>
      if negb (valid_continuous_lease (dc_lease_ms goal)) || empty (ts_frame_id target)
         || negb (has (ts_position_m target) finite_Vector3)
         || negb (has (ts_velocity_mps target) finite_Vector3)
         || negb (has (ts_acceleration_mps2 target) finite_Vector3)
      then fail "trajectory setpoint target is invalid" else accept
    | kWorldVelocity target =>
      if negb (valid_continuous_lease (dc_lease_ms goal)) || empty (wv_frame_id target)
         || negb (has (wv_velocity_mps target) finite_Vector3)
         || has (wv_height_lock target) (λ lock, negb (above_zero (height_m lock)))
      then fail "world velocity target is invalid" else accept
    | kBodyVelocity target =>
      if negb (valid_continuous_lease (dc_lease_ms goal))
         || negb (has (bv_body_xy_velocity_mps target) finite_Vector2)
         || negb (above_zero (bv_fixed_height_m target))
      then fail "body velocity target is invalid" else accept
    | UAV_TARGET_NOT_SET => fail "direct control target is missing"
    end.

Definition validate_emergency_kill_goal (goal : EmergencyKillGoal) : validator :=
  if confirmed goal then accept else fail "emergency kill requires explicit confirmation".

Definition validate_takeoff_goal (goal : TakeoffGoal) : validator :=
  if negb (non_negative (takeoff_relative_height_m goal))
     || negb (non_negative (takeoff_max_velocity_mps goal))
  then fail "takeoff goal is invalid" else accept.

(** [std::isfinite(v) && v >= 0.0]. *)
Definition validate_land_goal (goal : LandGoal) : validator :=
  if isfinite64 (land_max_velocity_mps goal) && le64 zero64 (land_max_velocity_mps goal)
  then accept else fail "land goal is invalid".

Definition check_uav_waypoint (waypoint : UavWaypoint) (rest : validator) : validator :=
  let holding := (uw_arrival_action waypoint =? UAV_WAYPOINT_HOLD_CURRENT_YAW)
                 || (uw_arrival_action waypoint =? UAV_WAYPOINT_HOLD_SET_YAW) in
  if negb (has (uw_position_m waypoint) finite_Vector3) || negb (isfinite64 (uw_yaw_rad waypoint))
     || negb (non_negative (uw_hold_time_s waypoint))
     || (negb (uw_arrival_action waypoint =? UAV_WAYPOINT_NEXT) && negb holding)
  then fail "waypoint is invalid" else rest.

Definition validate_uav_waypoint_mission_goal (goal : UavWaypointMissionGoal) : validator :=
  if empty (uwm_frame_id goal) then fail "waypoint frame is missing"
  else if empty (uwm_task_name goal) || (ssize (uwm_task_name goal) >? kMaxWaypointTaskNameBytes)
  then fail "waypoint task name is invalid"
  else if negb (uwm_completion_action goal =? UAV_MISSION_FINISH_HOVER)
          && negb (uwm_completion_action goal =? UAV_MISSION_FINISH_RETURN_HOME_AND_LAND)
          && negb (uwm_completion_action goal =? UAV_MISSION_FINISH_LAND_NOW)
  then fail "waypoint completion action is invalid"
  else if (vsize (uwm_waypoints goal) =? 0) || (vsize (uwm_waypoints goal) >? kMaxWaypointCount)
  then fail "waypoint count is invalid"
  else each check_uav_waypoint (uwm_waypoints goal) accept.

Definition validate_uav_nav_goal (goal : UavNavGoal) : validator :=
  if empty (un_frame_id goal) || negb (has (un_position_m goal) finite_Vector3)
     || negb (isfinite64 (un_yaw_rad goal))
  then fail "UAV navigation goal is invalid" else accept.

Definition validate_ugv_move_point_goal (goal : UgvMovePointGoal) : validator :=
  if negb (has (mp_point_m goal) (λ point, finite_Vector3 point && eq64 (v3_z point) zero64))
     || negb (isfinite64 (mp_desired_yaw_rad goal))
  then fail "UGV move point goal is invalid"
  else if negb (mp_frame goal =? UGV_MOVE_LOCAL) && negb (mp_frame goal =? UGV_MOVE_BODY)
  then fail "UGV move point frame is invalid"
  else if negb (mp_yaw_mode goal =? UGV_YAW_KEEP) && negb (mp_yaw_mode goal =? UGV_YAW_SET)
  then fail "UGV yaw mode is invalid"
  else if xorb (mp_frame goal =? UGV_MOVE_LOCAL) (negb (empty (mp_local_frame_id goal)))
  then fail "UGV local frame contract is invalid"
  else accept.

Definition validate_ugv_velocity_goal (goal : UgvVelocityGoal) : validator :=
  if negb (valid_continuous_lease (gv_lease_ms goal)) then fail "UGV velocity lease is invalid"
  else
    match gv_target goal with
    | kLocal target =>
      if empty (lv_frame_id target) || negb (has (lv_linear_mps target) finite_Vector2)
         || negb (isfinite64 (lv_desired_yaw_rad target))
      then fail "UGV local velocity target is invalid" else accept
    | kBody target =>
      if negb (has (gbv_linear_mps target) finite_Vector2)
         || negb (isfinite64 (gbv_yaw_rate_radps target))
      then fail "UGV body velocity target is invalid" else accept
    | UGV_TARGET_NOT_SET => fail "UGV velocity target is missing"
    end.

Definition validate_ugv_nav_goal (goal : UgvNavGoal) : validator :=
  if empty (gn_frame_id goal) || negb (has (gn_position_m goal) finite_Vector2)
     || negb (isfinite64 (gn_yaw_rad goal))
  then fail "UGV navigation goal is invalid" else accept.

Definition check_ugv_waypoint (waypoint : UgvWaypoint) (rest : validator) : validator :=
  if negb (has (gw_position_m waypoint) finite_Vector2) || negb (isfinite64 (gw_yaw_rad waypoint))
     || negb (non_negative (gw_hold_time_s waypoint))
     || (negb (gw_arrival_action waypoint =? UGV_WAYPOINT_NEXT)
         && negb (gw_arrival_action waypoint =? UGV_WAYPOINT_HOLD_CURRENT_YAW)
         && negb (gw_arrival_action waypoint =? UGV_WAYPOINT_HOLD_SET_YAW))
  then fail "UGV waypoint is invalid" else rest.

Definition validate_ugv_waypoint_mission_goal (goal : UgvWaypointMissionGoal) : validator :=
  if empty (gwm_frame_id goal) then fail "UGV waypoint frame is missing"
  else if empty (gwm_task_name goal) || (ssize (gwm_task_name goal) >? kMaxWaypointTaskNameBytes)
  then fail "UGV waypoint task name is invalid"
  else if negb (gwm_completion_action goal =? UGV_MISSION_HOLD)
          && negb (gwm_completion_action goal =? UGV_MISSION_RETURN_HOME_AND_HOLD)
  then fail "UGV waypoint completion action is invalid"
  else if (vsize (gwm_waypoints goal) =? 0) || (vsize (gwm_waypoints goal) >? kMaxWaypointCount)
  then fail "UGV waypoint count is invalid"
  else each check_ugv_waypoint (gwm_waypoints goal) accept.

Definition validate_ugv_planning_state (state : UgvPlanningState) : validator :=
  if (ps_main_state state >? 3) || (ps_task_state state >? 5)
     || (ps_current_waypoint_index state >? ps_total_waypoints state)
     || negb (non_negative (ps_distance_to_goal_m state))
     || negb (non_negative (ps_hold_remaining_s state))
     || has (ps_current_waypoint state) (λ waypoint,
          negb (has (gw_position_m waypoint) finite_Vector2)
          || negb (isfinite64 (gw_yaw_rad waypoint))
          || negb (isfinite64 (gw_hold_time_s waypoint)))
  then fail "UGV planning state is invalid" else accept.

Definition validate_planner_set_home_request (request : PlannerSetHomeRequest) : validator :=
  if empty (home_frame_id request) || negb (has (home_m request) finite_Vector3)
  then fail "Planner home request is invalid" else accept.

(** *** Formations *)

(** The loop over the unknown fields: whether it meets one of the removed ones. *)
Definition removed_field (number : Z) : bool :=
  (number =? 8) || (number =? 9) || (number =? 10).

(** The loop over the agent slots, with the set of the agents seen; [None] where it fails. *)
Fixpoint agent_slots_loop (agents : gset Z) (slots : list Z) : option (gset Z) :=
  match slots with
  | [] => Some agents
  | slot :: slots =>
    if (slot >? 255) || (negb (slot =? 0) && bool_decide (slot ∈ agents)) then None
    else agent_slots_loop (if slot =? 0 then agents else {[slot]} ∪ agents) slots
  end.

Definition count_slots (slots : list bool) : Z :=
  foldl (λ leader_slots slot, leader_slots + (if slot : bool then 1 else 0)) 0 slots.

Definition validate_formation_leader (leader : FormationLeader) : validator :=
  if negb (vsize (ld_agent_slots leader) =? 25)
     || negb (vsize (ld_virtual_leader_slots leader) =? 25)
     || negb (positive (ld_spacing_m leader))
  then fail "formation leader layout is invalid"
  else
    match agent_slots_loop ∅ (ld_agent_slots leader) with
    | None => fail "formation leader agent slots are invalid"
    | Some agents =>
      if bool_decide (agents = ∅) then fail "formation leader has no agent slots"
      else if count_slots (ld_virtual_leader_slots leader) =? 1 then accept
      else fail "formation leader target slot is invalid"
    end.

Definition validate_formation_set_request (request : FormationSetRequest) : validator :=
  let type := fs_formation_type request in
  if existsb removed_field (fs_unknown_fields request)
  then fail "removed formation height or double-ring fields are not supported"
  else if (type =? FORMATION_TAKEOFF) || (type =? FORMATION_LAND) then accept
  else if type =? FORMATION_STATIC_LINE then
    if negb (has (fs_line request)
               (λ line, positive (fl_spacing_m line) && isfinite64 (fl_angle_deg line)))
    then fail "formation line is invalid" else accept
  else if type =? FORMATION_STATIC_POLYGON then
    if negb (has (fs_polygon request) (λ polygon, positive (fp_side_length_m polygon)))
    then fail "formation polygon is invalid" else accept
  else if type =? FORMATION_DYNAMIC_POLYGON then
    if negb (has (fs_polygon request)
               (λ polygon, positive (fp_side_length_m polygon) && moving (fp_move_speed_mps polygon)))
    then fail "dynamic formation polygon is invalid" else accept
  else if type =? FORMATION_DYNAMIC_RING then
    if negb (has (fs_ring request)
               (λ ring, positive (fr_radius_m ring) && moving (fr_move_speed_mps ring)))
    then fail "dynamic formation ring is invalid" else accept
  else if type =? FORMATION_DYNAMIC_LEMNISCATE then
    if negb (has (fs_lemniscate request)
               (λ lemniscate, positive (lem_x_scale_m lemniscate)
                  && positive (lem_y_scale_m lemniscate) && moving (lem_move_speed_mps lemniscate)))
    then fail "dynamic formation lemniscate is invalid" else accept
  else if (type =? 13) || (type =? 23) then fail "double-ring formations were removed"
  else if type =? FORMATION_LEADER then
    match fs_leader request with
    | None => fail "formation leader layout is invalid"
    | Some leader => validate_formation_leader leader
    end
  else fail "formation type is invalid".

Definition validate_formation_leader_target_request (request : FormationLeaderTargetRequest) :
    validator :=
  if lt_target_mode request =? FORMATION_LEADER_TARGET_FIXED_POSE then
    if negb (empty (lt_frame_id request)) && has (lt_target_pose request) finite_Pose then accept
    else fail "formation leader fixed pose is invalid"
  else if lt_target_mode request =? FORMATION_LEADER_TARGET_ODOM_TOPIC then
    if (ssize (lt_odom_topic request) >? 1)
       && match bytes_of (lt_odom_topic request) with b :: _ => val b =? 47 | [] => false end
    then accept else fail "formation leader odometry topic is invalid"
  else fail "formation leader target mode is invalid".

Definition validate_team_goal_request (request : TeamGoalRequest) : validator :=
  if empty (tg_team_id request) then fail "team goal request team_id must not be empty"
  else if empty (tg_frame_id request) then fail "team goal request frame_id must not be empty"
  else if negb (has (tg_target_pose request) finite_Pose) then fail "team goal target pose is invalid"
  else accept.

Definition check_member (member : Z) (rest : validator) : validator :=
  if member =? 0 then fail "formation preview member id must be non-zero" else rest.

Definition validate_formation_preview_request (request : FormationPreviewRequest) : validator :=
  match fpr_goal request with
  | None => fail "formation preview request is invalid"
  | Some goal =>
    if negb (has (fpr_reference request) finite_Pose)
    then fail "formation preview request is invalid"
    else reject_unless (validate_formation_set_request goal) false
           "formation preview request is invalid"
           (each check_member (fpr_member_ids request) accept)
  end.

Definition valid_formation_type (type : Z) : bool :=
  (type =? FORMATION_UNKNOWN) || (type =? FORMATION_TAKEOFF) || (type =? FORMATION_LAND)
  || (type =? FORMATION_STATIC_LINE) || (type =? FORMATION_STATIC_POLYGON)
  || (type =? FORMATION_LEADER) || (type =? FORMATION_DYNAMIC_POLYGON)
  || (type =? FORMATION_DYNAMIC_RING) || (type =? FORMATION_DYNAMIC_LEMNISCATE).

Definition validate_formation_state (state : FormationState) : validator :=
  if (fst_phase state <? FORMATION_PHASE_IDLE) || (fst_phase state >? FORMATION_PHASE_ERROR)
     || negb (valid_formation_type (fst_formation_type state))
     || (fst_virtual_leader_target_valid state
         && negb (has (fst_virtual_leader_target state) finite_Pose))
     || (fst_formation_target_valid state && negb (has (fst_formation_target state) finite_Pose))
  then fail "formation state is invalid" else accept.

Definition check_point (point : FormationShapePoint) (rest : validator) : validator :=
  if negb (finite_FormationShapePoint point)
  then fail "formation shape has a non-finite point" else rest.

Definition validate_formation_shape (shape : FormationShape) : validator :=
  if negb (fsh_valid shape) then
    if vsize (fsh_points shape) =? 0 then accept else fail "formation shape is invalid"
  else if negb (fsh_formation_type shape =? FORMATION_DYNAMIC_POLYGON)
          && negb (fsh_formation_type shape =? FORMATION_DYNAMIC_RING)
          && negb (fsh_formation_type shape =? FORMATION_DYNAMIC_LEMNISCATE)
  then fail "formation shape type is not dynamic planar"
  else if vsize (fsh_points shape) <? 3 then fail "formation shape needs at least 3 points"
  else each check_point (fsh_points shape)
         (if isfinite64 (fsh_move_speed_mps shape) then accept
          else fail "formation shape move speed is not finite").

(** *** Mapping and gimbal *)

Definition check_lidar (lidar : MappingLidarState) (rest : validator) : validator :=
  if negb (isfinite64 (ml_lidar_rate_hz lidar)) || negb (isfinite64 (ml_imu_rate_hz lidar))
     || negb (isfinite64 (ml_lidar_age_sec lidar)) || negb (isfinite64 (ml_imu_age_sec lidar))
  then fail "mapping state contains a non-finite value" else rest.

Definition validate_mapping_state (state : MappingState) : validator :=
  if negb (bool_decide (ms_status state = EmptyString))
     && negb (bool_decide (ms_status state = "UNAVAILABLE"))
     && negb (bool_decide (ms_status state = "IDLE"))
     && negb (bool_decide (ms_status state = "ACCUMULATING"))
     && negb (bool_decide (ms_status state = "ERROR"))
  then fail "mapping state status is invalid"
  else each check_lidar (ms_lidars state) accept.

Definition validate_gimbal_angle_goal (goal : GimbalAngleGoal) : validator :=
  if negb (isfinite64 (ga_yaw_rad goal)) || negb (isfinite64 (ga_pitch_rad goal))
  then fail "gimbal angle goal is invalid" else accept.

Definition validate_gimbal_rate_goal (goal : GimbalRateGoal) : validator :=
  if (gr_yaw_control goal <? -100) || (gr_yaw_control goal >? 100)
     || (gr_pitch_control goal <? -100) || (gr_pitch_control goal >? 100)
  then fail "gimbal rate control must be between -100 and 100" else accept.

Definition validate_gimbal_zoom_absolute_goal (goal : GimbalZoomAbsoluteGoal) : validator :=
  if negb (isfinite64 (zoom goal)) || lt64 (zoom goal) one64 || lt64 max_zoom64 (zoom goal)
  then fail "gimbal zoom must be between 1.0 and 30.9" else accept.

(** ** What the checks of numbers mean

    Everything is stated with [exact64], the number a pattern stands for in units of
    [2 ^ -1074]. *)
Lemma has_iff {A} (field : option A) f :
  has field f = true ↔ ∃ value, field = Some value ∧ f value = true.
Proof. destruct field as [a|]; cbn; naive_solver. Qed.

Lemma empty_false value : empty value = false ↔ value ≠ EmptyString.
Proof. unfold empty. apply bool_decide_eq_false. Qed.

Lemma non_negative_iff v :
  non_negative v = true ↔ isfinite64 v = true ∧ 0 <= exact64 v.
Proof.
  unfold non_negative. rewrite andb_true_iff. split; intros [Hf Hv]; (split; [done|]).
  - rewrite lt64_exact in Hv by done. bool_hyps. exact Hv.
  - rewrite lt64_exact by done. apply negb_true_iff, Z.ltb_ge. exact Hv.
Qed.

Lemma positive_iff v : positive v = true ↔ isfinite64 v = true ∧ 0 < exact64 v.
Proof.
  unfold positive. rewrite andb_true_iff. split; intros [Hf Hv]; (split; [done|]).
  - rewrite lt64_exact in Hv by done. apply Z.ltb_lt in Hv. exact Hv.
  - rewrite lt64_exact by done. apply Z.ltb_lt. exact Hv.
Qed.

Lemma above_zero_iff v : above_zero v = true ↔ isfinite64 v = true ∧ 0 < exact64 v.
Proof.
  unfold above_zero. rewrite andb_true_iff. split; intros [Hf Hv]; (split; [done|]).
  - rewrite le64_exact in Hv by done. apply negb_true_iff, Z.leb_gt in Hv. exact Hv.
  - rewrite le64_exact by done. apply negb_true_iff, Z.leb_gt. exact Hv.
Qed.

Lemma moving_iff v : moving v = true ↔ isfinite64 v = true ∧ exact64 v ≠ 0.
Proof.
  unfold moving. rewrite andb_true_iff. split; intros [Hf Hv]; (split; [done|]).
  - rewrite abs64_positive in Hv by done. by apply negb_true_iff, Z.eqb_neq in Hv.
  - rewrite abs64_positive by done. by apply negb_true_iff, Z.eqb_neq.
Qed.

Lemma finite_Vector3_iff v :
  finite_Vector3 v = true ↔
  isfinite64 (v3_x v) = true ∧ isfinite64 (v3_y v) = true ∧ isfinite64 (v3_z v) = true.
Proof. unfold finite_Vector3. rewrite !andb_true_iff. tauto. Qed.

(** A quaternion that passes has finite components which are not all zero. *)
Lemma finite_Quaternion_sound q :
  finite_Quaternion q = true →
  (isfinite64 (q_x q) = true ∧ isfinite64 (q_y q) = true ∧ isfinite64 (q_z q) = true
   ∧ isfinite64 (q_w q) = true)
  ∧ ¬ (exact64 (q_x q) = 0 ∧ exact64 (q_y q) = 0 ∧ exact64 (q_z q) = 0 ∧ exact64 (q_w q) = 0).
Proof.
  unfold finite_Quaternion. intros [Hf Hn]%andb_true_iff.
  assert (Hc : isfinite64 (q_x q) = true ∧ isfinite64 (q_y q) = true
    ∧ isfinite64 (q_z q) = true ∧ isfinite64 (q_w q) = true).
  { unfold norm_squared in Hf.
    apply add64_finite in Hf as [Hf Hw]. apply add64_finite in Hf as [Hf Hz].
    apply add64_finite in Hf as [Hx Hy].
    split_and!; by apply mul64_square_finite. }
  split; [done|]. intros (Hx & Hy & Hz & Hw).
  assert (Hsq : ∀ v, isfinite64 v = true → exact64 v = 0 → square64 v = S754_zero false).
  { intros v Hv He. unfold square64. pose proof (float_of_bits_canonical binary64 v) as Hcan.
    unfold isfinite64, isfinite, exact64 in *.
    destruct (float_of_bits binary64 v) as [[]| | |s m e]; try done.
    destruct Hcan as [Hemin _].
    pose proof (Z.pow_pos_nonneg 2 (e - emin binary64) ltac:(lia) ltac:(lia)).
    exfalso. cbn -[Z.pow emin] in He. destruct s; cbn -[Z.pow emin] in He; nia. }
  destruct Hc as (Fx & Fy & Fz & Fw). unfold norm_squared in Hn.
  rewrite !Hsq in Hn by done. vm_compute in Hn. done.
Qed.

Lemma finite_Pose_sound pose :
  finite_Pose pose = true →
  ∃ p q, pose = mkPose (Some p) (Some q) ∧ finite_Vector3 p = true
  ∧ finite_Quaternion q = true.
Proof.
  destruct pose as [p q]. unfold finite_Pose. cbn. intros H. bool_hyps.
  apply has_iff in H as (p' & -> & ?). apply has_iff in H0 as (q' & -> & ?). eauto.
Qed.

(** ** Rejections are explained *)

Ltac explain v := intros; unfold v; repeat (case_match || apply _); try apply _.

#[export] Instance explains_uav_waypoint waypoint rest :
  Explains rest → Explains (check_uav_waypoint waypoint rest).
Proof. explain check_uav_waypoint. Qed.
#[export] Instance explains_ugv_waypoint waypoint rest :
  Explains rest → Explains (check_ugv_waypoint waypoint rest).
Proof. explain check_ugv_waypoint. Qed.
#[export] Instance explains_member member rest :
  Explains rest → Explains (check_member member rest).
Proof. explain check_member. Qed.
#[export] Instance explains_point point rest :
  Explains rest → Explains (check_point point rest).
Proof. explain check_point. Qed.
#[export] Instance explains_lidar lidar rest :
  Explains rest → Explains (check_lidar lidar rest).
Proof. explain check_lidar. Qed.
#[export] Instance explains_formation_leader leader : Explains (validate_formation_leader leader).
Proof. explain validate_formation_leader. Qed.
#[export] Instance explains_formation_set request :
  Explains (validate_formation_set_request request).
Proof. explain validate_formation_set_request. Qed.

(** ** Properties *)

Ltac read_checks :=
  rewrite ?accepted_check, ?accepted_if, ?andb_true_iff, ?negb_true_iff, ?orb_false_iff,
    ?negb_false_iff, ?has_iff, ?empty_false, ?above_zero_iff, ?positive_iff, ?non_negative_iff,
    ?Z.gtb_ltb, ?Z.ltb_ge, ?Z.eqb_eq.

Lemma valid_yaw_iff goal :
  valid_yaw goal = true ↔
  ∃ yaw, dc_yaw goal = Some yaw ∧ isfinite64 (yt_value yaw) = true ∧ 0 <= yt_mode yaw <= 2.
Proof.
  unfold valid_yaw, UAV_YAW_KEEP, UAV_YAW_SET_ANGLE, UAV_YAW_SET_RATE.
  destruct (dc_yaw goal) as [yaw|]; [|naive_solver].
  rewrite andb_true_iff. split.
  - intros [Hf Hm]. exists yaw. split_and!; [done|done| |]; lia.
  - intros (? & [= <-] & Hf & Hm). split; [done|]. lia.
Qed.

Lemma valid_controller_iff goal :
  valid_controller goal = true ↔ 0 <= dc_controller goal <= 2.
Proof.
  unfold valid_controller, UAV_CONTROLLER_DEFAULT, UAV_CONTROLLER_POSITION,
    UAV_CONTROLLER_ATTITUDE. lia.
Qed.

(** The lease a continuous target needs, in milliseconds. *)
Definition continuous_lease (lease_ms : Z) : Prop :=
  kMinDirectControlLeaseMs <= lease_ms <= kMaxDirectControlLeaseMs.

Lemma valid_lease_iff lease_ms :
  valid_continuous_lease lease_ms = true ↔ continuous_lease lease_ms.
Proof. unfold valid_continuous_lease, continuous_lease. lia. Qed.

(** A present vector of finite components. *)
Definition given3 (field : option Vector3) : Prop :=
  ∃ value, field = Some value ∧ finite_Vector3 value = true.
Definition given2 (field : option Vector2) : Prop :=
  ∃ value, field = Some value ∧ finite_Vector2 value = true.

(** What a UAV may be told to do directly: a position once, without lease, or a continuous
    motion under a lease of 250 to 2000 ms; fixed heights are above the ground. *)
Definition direct_target_ok (target : UavTarget) (lease_ms : Z) : Prop :=
  match target with
  | UAV_TARGET_NOT_SET => False
  | kWorldPosition t => lease_ms = 0 ∧ wp_frame_id t ≠ EmptyString ∧ given3 (wp_position_m t)
  | kBodyPosition t =>
    lease_ms = 0 ∧ given2 (bp_body_xy_position_m t)
    ∧ isfinite64 (bp_fixed_height_m t) = true ∧ 0 < exact64 (bp_fixed_height_m t)
  | kTrajectorySetpoint t =>
    continuous_lease lease_ms ∧ ts_frame_id t ≠ EmptyString ∧ given3 (ts_position_m t)
    ∧ given3 (ts_velocity_mps t) ∧ given3 (ts_acceleration_mps2 t)
  | kWorldVelocity t =>
    continuous_lease lease_ms ∧ wv_frame_id t ≠ EmptyString ∧ given3 (wv_velocity_mps t)
    ∧ ∀ lock, wv_height_lock t = Some lock →
        isfinite64 (height_m lock) = true ∧ 0 < exact64 (height_m lock)
  | kBodyVelocity t =>
    continuous_lease lease_ms ∧ given2 (bv_body_xy_velocity_mps t)
    ∧ isfinite64 (bv_fixed_height_m t) = true ∧ 0 < exact64 (bv_fixed_height_m t)
  end.

(** C16 A direct control goal is accepted exactly when it names a yaw mode with a finite
    value and a controller, and its target is complete: positions carry no lease,
    continuous motions one of 250 to 2000 ms, all coordinates are finite, and heights are
    above zero. *)
Theorem direct_control_accepted goal :
  accepted (validate_uav_direct_control_goal goal) = true ↔
  (∃ yaw, dc_yaw goal = Some yaw ∧ isfinite64 (yt_value yaw) = true ∧ 0 <= yt_mode yaw <= 2)
  ∧ 0 <= dc_controller goal <= 2 ∧ direct_target_ok (dc_target goal) (dc_lease_ms goal).
Proof.
  unfold validate_uav_direct_control_goal.
  rewrite !accepted_check, !negb_involutive, !andb_true_iff, valid_yaw_iff, valid_controller_iff.
  do 2 f_equiv. unfold direct_target_ok, given2, given3.
  destruct (dc_target goal) as [|t|t|t|t|t]; [done|read_checks; rewrite ?valid_lease_iff..].
  - tauto.
  - tauto.
  - tauto.
  - destruct (wv_height_lock t) as [lock|]; cbn; read_checks; naive_solver.
  - tauto.
Qed.

Lemma zoom_range v :
  negb (isfinite64 v) || lt64 v one64 || lt64 max_zoom64 v = false ↔
  isfinite64 v = true ∧ exact64 one64 <= exact64 v <= exact64 max_zoom64.
Proof.
  rewrite !orb_false_iff, negb_false_iff. split.
  - intros [[Hf Hl] Hh]. rewrite lt64_exact in Hl, Hh by done.
    apply Z.ltb_ge in Hl, Hh. done.
  - intros (Hf & Hl & Hh). rewrite !lt64_exact by done.
    by rewrite (proj2 (Z.ltb_ge _ _) Hl), (proj2 (Z.ltb_ge _ _) Hh).
Qed.

Lemma battery_range voltage percent :
  bad_battery voltage percent = false ↔
  isfinite32 voltage = true ∧ 0 <= exact32 voltage ∧ percent <= 100.
Proof.
  unfold bad_battery. rewrite !orb_false_iff, negb_false_iff, Z.gtb_ltb, Z.ltb_ge.
  split; [intros [[Hf Hv] Hp]|intros (Hf & Hv & Hp)].
  - rewrite lt32_exact in Hv by done. apply Z.ltb_ge in Hv. done.
  - rewrite lt32_exact by done. change (exact32 0) with 0.
    by rewrite (proj2 (Z.ltb_ge _ _) Hv).
Qed.

(** The bounds of the scalar goals are bounds on numbers: heights and speeds of takeoff
    and landing are finite and not negative, a zoom lies between 1.0 and the double
    nearest 30.9, gimbal rates between -100 and 100, angles are finite; a battery voltage
    is finite and not negative and its charge at most 100 percent. *)
Theorem scalar_goals_accepted :
  (∀ goal, accepted (validate_takeoff_goal goal) = true ↔
     (isfinite64 (takeoff_relative_height_m goal) = true
      ∧ 0 <= exact64 (takeoff_relative_height_m goal))
     ∧ isfinite64 (takeoff_max_velocity_mps goal) = true
     ∧ 0 <= exact64 (takeoff_max_velocity_mps goal))
  ∧ (∀ goal, accepted (validate_land_goal goal) = true ↔
       isfinite64 (land_max_velocity_mps goal) = true
       ∧ 0 <= exact64 (land_max_velocity_mps goal))
  ∧ (∀ goal, accepted (validate_gimbal_zoom_absolute_goal goal) = true ↔
       isfinite64 (zoom goal) = true
       ∧ exact64 one64 <= exact64 (zoom goal) <= exact64 max_zoom64)
  ∧ (∀ goal, accepted (validate_gimbal_rate_goal goal) = true ↔
       -100 <= gr_yaw_control goal <= 100 ∧ -100 <= gr_pitch_control goal <= 100)
  ∧ (∀ goal, accepted (validate_gimbal_angle_goal goal) = true ↔
       isfinite64 (ga_yaw_rad goal) = true ∧ isfinite64 (ga_pitch_rad goal) = true)
  ∧ (∀ state, accepted (validate_flight_control_state state) = true ↔
       isfinite32 (fcs_battery_voltage_v state) = true
       ∧ 0 <= exact32 (fcs_battery_voltage_v state) ∧ fcs_battery_percent state <= 100
       ∧ 0 <= fcs_controller_type state <= 4).
Proof.
  split_and!.
  - intros goal. unfold validate_takeoff_goal. read_checks. tauto.
  - intros goal. unfold validate_land_goal.
    destruct (isfinite64 (land_max_velocity_mps goal)) eqn:Hf; [|split; [done|by intros []]].
    rewrite le64_exact by done. cbn [andb].
    change (exact64 zero64) with 0. destruct (Z.leb_spec 0 (exact64 (land_max_velocity_mps goal)));
      cbn; split; (done || lia).
  - intros goal. unfold validate_gimbal_zoom_absolute_goal.
    rewrite accepted_check, andb_true_iff, negb_true_iff, zoom_range. tauto.
  - intros goal. unfold validate_gimbal_rate_goal. read_checks.
    change (accepted accept) with true. lia.
  - intros goal. unfold validate_gimbal_angle_goal. read_checks. tauto.
  - intros state. unfold validate_flight_control_state, ACTIVE_CONTROLLER_UNKNOWN,
      ACTIVE_CONTROLLER_NMPC.
    rewrite accepted_check, andb_true_iff, negb_true_iff, !orb_false_iff, battery_range.
    rewrite Z.gtb_ltb, !Z.ltb_ge. tauto.
Qed.

(** *** Formations *)

(** The agents of a leader layout: at most 255, and each in one slot. *)
Lemma agent_slots_loop_spec agents slots :
  match agent_slots_loop agents slots with
  | Some seen =>
    Forall (λ slot, slot <= 255) slots ∧ NoDup (filter (λ slot, slot ≠ 0) slots)
    ∧ (∀ slot, slot ∈ slots → slot ≠ 0 → slot ∉ agents)
    ∧ seen = agents ∪ list_to_set (filter (λ slot, slot ≠ 0) slots)
  | None =>
    ¬ (Forall (λ slot, slot <= 255) slots ∧ NoDup (filter (λ slot, slot ≠ 0) slots)
       ∧ (∀ slot, slot ∈ slots → slot ≠ 0 → slot ∉ agents))
  end.
Proof.
  revert agents. induction slots as [|slot slots IH]; intros agents; cbn [agent_slots_loop].
  { split_and!; [constructor|constructor|set_solver|set_solver]. }
  rewrite Z.gtb_ltb. destruct (Z.ltb_spec 255 slot) as [Hs|Hs]; cbn [orb].
  { intros (Hf & _). apply Forall_cons in Hf as [? _]. lia. }
  rewrite filter_cons. destruct (Z.eqb_spec slot 0) as [->|Hz]; cbn [negb andb].
  - rewrite decide_False by (intros ?; done). specialize (IH agents).
    destruct (agent_slots_loop agents slots); rewrite Forall_cons; set_solver by lia.
  - rewrite decide_True by done. destruct (bool_decide_reflect (slot ∈ agents)) as [Hin|Hin].
    { intros (_ & _ & Hnew). by apply (Hnew slot); [left|..]. }
    specialize (IH ({[slot]} ∪ agents)). destruct (agent_slots_loop _ slots) as [seen|].
    + destruct IH as (Hf & Hnd & Hnew & ->). split_and!; [by constructor| |set_solver|].
      * constructor; [|done]. rewrite list_elem_of_filter. set_solver.
      * cbn. set_solver.
    + rewrite Forall_cons, NoDup_cons, list_elem_of_filter.
      intros ([_ Hf] & [Hn Hnd] & Hnew). apply IH. split_and!; [done..|].
      intros x Hx Hxz. rewrite elem_of_union, elem_of_singleton. intros [->|Hx'].
      * apply Hn. done.
      * by apply (Hnew x); [right|..].
Qed.

Lemma count_slots_spec slots :
  count_slots slots = Z.of_nat (length (filter (λ slot, slot = true) slots)).
Proof.
  unfold count_slots.
  assert (H : ∀ n, foldl (λ leader_slots slot, leader_slots + (if slot : bool then 1 else 0)) n slots
    = n + Z.of_nat (length (filter (λ slot, slot = true) slots))).
  { induction slots as [|slot slots IH]; intros n; [cbn; lia|]. cbn [foldl]. rewrite IH, filter_cons.
    destruct slot; case_decide; try done; cbn [length]; lia. }
  rewrite H. lia.
Qed.

(** A leader layout: 25 slots of each kind, every agent in one slot, at least one agent, and
    one slot for the virtual leader. *)
Definition leader_ok (leader : FormationLeader) : Prop :=
  length (ld_agent_slots leader) = 25%nat ∧ length (ld_virtual_leader_slots leader) = 25%nat
  ∧ (isfinite64 (ld_spacing_m leader) = true ∧ 0 < exact64 (ld_spacing_m leader))
  ∧ Forall (λ slot, slot <= 255) (ld_agent_slots leader)
  ∧ NoDup (filter (λ slot, slot ≠ 0) (ld_agent_slots leader))
  ∧ (∃ slot, slot ∈ ld_agent_slots leader ∧ slot ≠ 0)
  ∧ length (filter (λ slot, slot = true) (ld_virtual_leader_slots leader)) = 1%nat.

Lemma formation_leader_accepted leader :
  accepted (validate_formation_leader leader) = true ↔ leader_ok leader.
Proof.
  unfold validate_formation_leader, leader_ok. read_checks.
  change 25 with (Z.of_nat 25). rewrite !Nat2Z.inj_iff.
  pose proof (agent_slots_loop_spec ∅ (ld_agent_slots leader)) as Hloop.
  destruct (agent_slots_loop ∅ (ld_agent_slots leader)) as [seen|].
  - destruct Hloop as (Hf & Hnd & _ & ->). rewrite accepted_check, accepted_if, count_slots_spec.
    assert (He : bool_decide ((∅ ∪ list_to_set (filter (λ slot, slot ≠ 0) (ld_agent_slots leader))
        : gset Z) = ∅) = false ↔ ∃ slot, slot ∈ ld_agent_slots leader ∧ slot ≠ 0).
    { rewrite bool_decide_eq_false, union_empty_l_L. split.
      - intros (x & Hx)%set_choose_L.
        apply elem_of_list_to_set, list_elem_of_filter in Hx as [Hz Hx]. by exists x.
      - intros (x & Hx & Hz) E. apply (not_elem_of_empty (C := gset Z) x).
        rewrite <- E. by apply elem_of_list_to_set, list_elem_of_filter. }
    rewrite andb_true_iff, negb_true_iff, He.
    change (accepted accept) with true. change (accepted (fail _)) with false.
    change 1 with (Z.of_nat 1).
    destruct (Z.eqb_spec (Z.of_nat (length (filter (λ slot, slot = true)
      (ld_virtual_leader_slots leader)))) (Z.of_nat 1)) as [E|E];
      rewrite Nat2Z.inj_iff in E;
      (split; [intros ([[? ?] ?] & ? & ?)|intros (? & ? & ? & _ & _ & ? & ?)]);
      try done; by split_and!.
  - split; [by intros [_ ?]|]. intros (_ & _ & _ & Hf & Hnd & _). destruct Hloop.
    split_and!; [done..|set_solver].
Qed.

(** What each formation type needs: the double rings and every unknown type are refused. *)
Definition formation_ok (request : FormationSetRequest) : Prop :=
  let type := fs_formation_type request in
  type = FORMATION_TAKEOFF ∨ type = FORMATION_LAND
  ∨ (type = FORMATION_STATIC_LINE ∧ ∃ line, fs_line request = Some line
     ∧ positive (fl_spacing_m line) = true ∧ isfinite64 (fl_angle_deg line) = true)
  ∨ (type = FORMATION_STATIC_POLYGON ∧ ∃ polygon, fs_polygon request = Some polygon
     ∧ positive (fp_side_length_m polygon) = true)
  ∨ (type = FORMATION_DYNAMIC_POLYGON ∧ ∃ polygon, fs_polygon request = Some polygon
     ∧ positive (fp_side_length_m polygon) = true ∧ moving (fp_move_speed_mps polygon) = true)
  ∨ (type = FORMATION_DYNAMIC_RING ∧ ∃ ring, fs_ring request = Some ring
     ∧ positive (fr_radius_m ring) = true ∧ moving (fr_move_speed_mps ring) = true)
  ∨ (type = FORMATION_DYNAMIC_LEMNISCATE ∧ ∃ lemniscate,
       fs_lemniscate request = Some lemniscate
     ∧ positive (lem_x_scale_m lemniscate) = true ∧ positive (lem_y_scale_m lemniscate) = true
     ∧ moving (lem_move_speed_mps lemniscate) = true)
  ∨ (type = FORMATION_LEADER ∧ ∃ leader, fs_leader request = Some leader ∧ leader_ok leader).

Lemma removed_fields numbers :
  existsb removed_field numbers = false ↔
  8 ∉ numbers ∧ 9 ∉ numbers ∧ 10 ∉ numbers.
Proof.
  induction numbers as [|n numbers IH]; cbn; [set_solver|].
  rewrite orb_false_iff, IH, !not_elem_of_cons. unfold removed_field.
  rewrite !orb_false_iff, !Z.eqb_neq. naive_solver.
Qed.

(** C17 A formation request is accepted exactly when it carries none of the removed fields
    8, 9 and 10 and is complete for its type: positive sizes, non-zero speeds for the
    moving formations, and for a leader layout 25 slots of each kind with every agent in
    one slot and one slot for the virtual leader.  The removed double rings 13 and 23 and
    every unknown type are refused. *)
Theorem formation_set_accepted request :
  accepted (validate_formation_set_request request) = true ↔
  (8 ∉ fs_unknown_fields request ∧ 9 ∉ fs_unknown_fields request
   ∧ 10 ∉ fs_unknown_fields request) ∧ formation_ok request.
Proof.
  rewrite <- removed_fields. unfold validate_formation_set_request, formation_ok.
  rewrite accepted_check, andb_true_iff, negb_true_iff. f_equiv.
  unfold FORMATION_TAKEOFF, FORMATION_LAND, FORMATION_STATIC_LINE, FORMATION_STATIC_POLYGON,
    FORMATION_DYNAMIC_POLYGON, FORMATION_DYNAMIC_RING, FORMATION_DYNAMIC_LEMNISCATE,
    FORMATION_LEADER.
  generalize (fs_formation_type request) as type. intros type.
  assert (Hleaf : ∀ (bad : bool) m, accepted (if negb bad then fail m else accept) = bad)
    by by intros [] ?.
  repeat match goal with
  | |- context [type =? ?k] => destruct (Z.eqb_spec type k) as [->|?];
      [cbn [orb]; rewrite ?Hleaf, ?has_iff; repeat setoid_rewrite andb_true_iff|cbn [orb]]
  end.
  all: try (destruct (fs_leader request) as [leader|]; rewrite ?formation_leader_accepted).
  all: try (split; [naive_solver|naive_solver]).
Qed.

(** *** Poses *)

(** A pose whose position is finite and whose orientation can be normalised: finite and not
    the zero quaternion. *)
Definition sound_pose (pose : Pose) : Prop :=
  ∃ p q, pose = mkPose (Some p) (Some q)
  ∧ (isfinite64 (v3_x p) = true ∧ isfinite64 (v3_y p) = true ∧ isfinite64 (v3_z p) = true)
  ∧ (isfinite64 (q_x q) = true ∧ isfinite64 (q_y q) = true ∧ isfinite64 (q_z q) = true
     ∧ isfinite64 (q_w q) = true)
  ∧ ¬ (exact64 (q_x q) = 0 ∧ exact64 (q_y q) = 0 ∧ exact64 (q_z q) = 0 ∧ exact64 (q_w q) = 0).

Lemma finite_pose_sound field :
  has field finite_Pose = true → ∃ pose, field = Some pose ∧ sound_pose pose.
Proof.
  intros (pose & -> & (p & q & -> & Hp%finite_Vector3_iff & Hq%finite_Quaternion_sound)%finite_Pose_sound)
    %has_iff.
  eexists. split; [done|]. exists p, q. tauto.
Qed.

(** No message with a pose target passes without a sound pose: a team goal, which must
    also name its team and frame, a fixed leader pose, the reference of a preview (whose
    goal is accepted and whose members are not zero), and the targets a formation state
    declares valid. *)
Theorem pose_targets_sound :
  (∀ request, accepted (validate_team_goal_request request) = true →
     tg_team_id request ≠ EmptyString ∧ tg_frame_id request ≠ EmptyString
     ∧ ∃ pose, tg_target_pose request = Some pose ∧ sound_pose pose)
  ∧ (∀ request, accepted (validate_formation_leader_target_request request) = true →
       lt_target_mode request = FORMATION_LEADER_TARGET_FIXED_POSE →
       lt_frame_id request ≠ EmptyString
       ∧ ∃ pose, lt_target_pose request = Some pose ∧ sound_pose pose)
  ∧ (∀ request, accepted (validate_formation_preview_request request) = true →
       (∃ goal, fpr_goal request = Some goal
        ∧ accepted (validate_formation_set_request goal) = true)
       ∧ (∃ pose, fpr_reference request = Some pose ∧ sound_pose pose)
       ∧ Forall (λ member, member ≠ 0) (fpr_member_ids request))
  ∧ (∀ state, accepted (validate_formation_state state) = true →
       (fst_virtual_leader_target_valid state = true →
        ∃ pose, fst_virtual_leader_target state = Some pose ∧ sound_pose pose)
       ∧ (fst_formation_target_valid state = true →
          ∃ pose, fst_formation_target state = Some pose ∧ sound_pose pose)).
Proof.
  split_and!.
  - intros request. unfold validate_team_goal_request. rewrite !accepted_check.
    rewrite !andb_true_iff, !negb_true_iff, negb_false_iff, !empty_false.
    intros (Ht & Hf & Hp & _). split_and!; [done|done|by apply finite_pose_sound].
  - intros request Ha Hm. unfold validate_formation_leader_target_request in Ha.
    rewrite Hm in Ha. cbn in Ha. case_if_in Ha; [|done]. bool_hyps.
    split; [by apply empty_false|by apply finite_pose_sound].
  - intros request. unfold validate_formation_preview_request.
    destruct (fpr_goal request) as [goal|]; [|done].
    rewrite accepted_check, andb_true_iff, negb_true_iff, negb_false_iff.
    rewrite accepted_reject_unless by (apply _). rewrite !andb_true_iff.
    rewrite (accepted_each check_member (λ member, negb (member =? 0)))
      by (apply _ || (intros; unfold check_member; apply accepted_check)).
    rewrite andb_true_iff, forallb_forall, Forall_forall.
    intros (Hp & (Hg & _) & Hm & _). split; [eauto|]. split; [by apply finite_pose_sound|].
    intros x Hx%list_elem_of_In. specialize (Hm x Hx). by bool_hyps.
  - intros state. unfold validate_formation_state. rewrite accepted_check.
    rewrite andb_true_iff, negb_true_iff, !orb_false_iff. intros [[[_ Hv] Hf] _].
    split; intros Hd; apply finite_pose_sound.
    + rewrite Hd in Hv. by apply negb_false_iff in Hv.
    + rewrite Hd in Hf. by apply negb_false_iff in Hf.
Qed.

(** *** Missions *)

Definition waypoint_ok (waypoint : UavWaypoint) : bool :=
  has (uw_position_m waypoint) finite_Vector3 && isfinite64 (uw_yaw_rad waypoint)
  && non_negative (uw_hold_time_s waypoint)
  && (0 <=? uw_arrival_action waypoint) && (uw_arrival_action waypoint <=? 2).

Lemma accepted_uav_waypoint waypoint rest :
  accepted (check_uav_waypoint waypoint rest) = waypoint_ok waypoint && accepted rest.
Proof.
  unfold check_uav_waypoint, waypoint_ok, UAV_WAYPOINT_NEXT, UAV_WAYPOINT_HOLD_CURRENT_YAW,
    UAV_WAYPOINT_HOLD_SET_YAW.
  rewrite accepted_check, !negb_orb, !negb_involutive, negb_andb, !negb_involutive, <- !andb_assoc.
  do 3 f_equal. rewrite andb_assoc. f_equal. lia.
Qed.

(** A waypoint mission of a UAV is accepted exactly when it names a frame, a task of at
    most 96 bytes and a way to finish, and has between 1 and 256 waypoints, each with a
    finite position and yaw, a hold time that is not negative and a known arrival action. *)
Theorem uav_mission_accepted goal :
  accepted (validate_uav_waypoint_mission_goal goal) = true ↔
  uwm_frame_id goal ≠ EmptyString
  ∧ 0 < ssize (uwm_task_name goal) <= kMaxWaypointTaskNameBytes
  ∧ 0 <= uwm_completion_action goal <= 2
  ∧ 0 < vsize (uwm_waypoints goal) <= kMaxWaypointCount
  ∧ Forall (λ waypoint, waypoint_ok waypoint = true) (uwm_waypoints goal).
Proof.
  unfold validate_uav_waypoint_mission_goal, UAV_MISSION_FINISH_HOVER,
    UAV_MISSION_FINISH_RETURN_HOME_AND_LAND, UAV_MISSION_FINISH_LAND_NOW.
  rewrite !accepted_check, !andb_true_iff, !negb_true_iff, !orb_false_iff.
  rewrite (accepted_each check_uav_waypoint waypoint_ok)
    by (apply _ || (intros; apply accepted_uav_waypoint)).
  rewrite andb_true_iff, forallb_forall, Forall_forall. setoid_rewrite <- list_elem_of_In.
  assert (Ht : empty (uwm_task_name goal) = false ↔ 0 < ssize (uwm_task_name goal)).
  { rewrite empty_false. destruct (uwm_task_name goal); cbn; split; (done || lia). }
  rewrite !empty_false in *. rewrite !Z.gtb_ltb, !Z.ltb_ge, Z.eqb_neq.
  split.
  - intros (? & (Hn%Ht & ?) & Hc & (? & ?) & ? & _). split_and!; try done; lia.
  - intros (? & (Hn%Ht & ?) & Hc & (? & ?) & ?). split_and!; try done; lia.
Qed.

(** Every rejection by these validators says why: when the verdict is false the error
    string, if there is one, holds a message, when it is true it holds none of the
    validator's, and the verdict does not depend on it. *)
Theorem control_rejections_explained :
  (∀ goal, Explains (validate_uav_direct_control_goal goal))
  ∧ (∀ goal, Explains (validate_uav_acceleration_compensation_goal goal))
  ∧ (∀ state, Explains (validate_flight_control_state state))
  ∧ (∀ state, Explains (validate_ugv_control_state state))
  ∧ (∀ goal, Explains (validate_emergency_kill_goal goal))
  ∧ (∀ goal, Explains (validate_takeoff_goal goal))
  ∧ (∀ goal, Explains (validate_land_goal goal))
  ∧ (∀ goal, Explains (validate_uav_waypoint_mission_goal goal))
  ∧ (∀ goal, Explains (validate_uav_nav_goal goal))
  ∧ (∀ goal, Explains (validate_ugv_move_point_goal goal))
  ∧ (∀ goal, Explains (validate_ugv_velocity_goal goal))
  ∧ (∀ goal, Explains (validate_ugv_nav_goal goal))
  ∧ (∀ goal, Explains (validate_ugv_waypoint_mission_goal goal))
  ∧ (∀ state, Explains (validate_ugv_planning_state state))
  ∧ (∀ request, Explains (validate_planner_set_home_request request))
  ∧ (∀ request, Explains (validate_formation_set_request request))
  ∧ (∀ request, Explains (validate_formation_leader_target_request request))
  ∧ (∀ request, Explains (validate_team_goal_request request))
  ∧ (∀ request, Explains (validate_formation_preview_request request))
  ∧ (∀ state, Explains (validate_formation_state state))
  ∧ (∀ shape, Explains (validate_formation_shape shape))
  ∧ (∀ state, Explains (validate_mapping_state state))
  ∧ (∀ goal, Explains (validate_gimbal_angle_goal goal))
  ∧ (∀ goal, Explains (validate_gimbal_rate_goal goal))
  ∧ (∀ goal, Explains (validate_gimbal_zoom_absolute_goal goal)).
Proof.
  split_and!.
  - explain validate_uav_direct_control_goal.
  - explain validate_uav_acceleration_compensation_goal.
  - explain validate_flight_control_state.
  - explain validate_ugv_control_state.
  - explain validate_emergency_kill_goal.
  - explain validate_takeoff_goal.
  - explain validate_land_goal.
  - explain validate_uav_waypoint_mission_goal.
  - explain validate_uav_nav_goal.
  - explain validate_ugv_move_point_goal.
  - explain validate_ugv_velocity_goal.
  - explain validate_ugv_nav_goal.
  - explain validate_ugv_waypoint_mission_goal.
  - explain validate_ugv_planning_state.
  - explain validate_planner_set_home_request.
  - explain validate_formation_set_request.
  - explain validate_formation_leader_target_request.
  - explain validate_team_goal_request.
  - explain validate_formation_preview_request.
  - explain validate_formation_state.
  - explain validate_formation_shape.
  - explain validate_mapping_state.
  - explain validate_gimbal_angle_goal.
  - explain validate_gimbal_rate_goal.
  - explain validate_gimbal_zoom_absolute_goal.
Qed.
