(* ===== verification/Framing.v ===== *)
(** * Framing: reassembling frames from a TCP stream

    [pop_frame] and the receive loop of [src/runtime/v2/io/runtime_receive.cpp],
    and [recover_receive_overflow] of [src/runtime/v2/runtime_network.cpp].  The
    outer [option] of the definitions is again the one of [WireCodec]: [None] is
    a read outside a buffer. *)

From Stdlib Require Import ZArith Lia String Ascii Strings.Byte.
From stdpp Require Import base gmap strings list fin_maps.
From S2P Require Import Prelude StdMap Codec WireTypes WireCodec.
Local Open Scope Z_scope.

(** ** Definitions *)

(** The inner loop of [pop_frame]: how many bytes precede the magic, or, when
    there is none, the first position with fewer than four bytes left. *)
Fixpoint scan_magic (buffer : Bytes) : nat :=
  match buffer with
  | [] => O
  | _ :: rest =>
    if (3 <? vsize buffer) && negb (has_magic buffer) then S (scan_magic rest) else O
  end.

(** What [pop_frame] reports when it returns true. *)
Inductive Popped :=
  | PoppedError (code : ErrorCode)
  | PoppedEnvelope (envelope : Envelope).

(** [pop_frame] once the lengths of the frame at the front are known. *)
Definition pop_sized (max_buffer now_ms : Z) (buffer : Bytes)
    (header_len payload_len : Z) : option (option Popped * Bytes) :=
  let frame_len := header_len + payload_len + kTrailerSize in
  if (header_len <? kFixedHeaderSize) || (frame_len >? max_buffer)
  then Some (Some (PoppedError kDecodeError), drop 1 buffer)
  else if vsize buffer <? frame_len then Some (None, buffer)
  else
  decoded ← decode (take (Z.to_nat frame_len) buffer) now_ms;
  if bool_decide (dr_code decoded = kOk)
  then Some (Some (PoppedEnvelope (dr_envelope decoded)),
             drop (Z.to_nat (dr_consumed decoded)) buffer)
  else Some (Some (PoppedError (dr_code decoded)), drop (Z.to_nat frame_len) buffer).

(** [pop_frame]: [None] in the result is [return false].  Every path through the
    body of its [while] returns, so the loop runs at most once. *)
Definition pop_frame (max_buffer now_ms : Z) (buffer : Bytes) :
    option (option Popped * Bytes) :=
  if vsize buffer <? 4 then Some (None, buffer)
  else
  let magic := scan_magic buffer in
  if Z.of_nat magic + 3 >=? vsize buffer then Some (None, [])
  else
  let buffer := drop magic buffer in
  if vsize buffer <? 14 then Some (None, buffer)
  else
  b8 ← load_u8 buffer 8; b9 ← load_u8 buffer 9;
  b10 ← load_u8 buffer 10; b11 ← load_u8 buffer 11;
  b12 ← load_u8 buffer 12; b13 ← load_u8 buffer 13;
  pop_sized max_buffer now_ms buffer
    (Z.lor b8 (uint16 (b9 ≪ 8)))
    (Z.lor (Z.lor (Z.lor b10 (b11 ≪ 8)) (b12 ≪ 16)) (b13 ≪ 24)).

(** The [while (true)] around [pop_frame]; the handling of each result is the
    caller's.  [fuel] bounds the iterations; [None] is a read outside the buffer or a
    loop that goes on after them. *)
Fixpoint drain (fuel : nat) (max_buffer now_ms : Z) (buffer : Bytes) :
    option (list Popped * Bytes) :=
  match fuel with
  | O => None
  | S fuel =>
    r ← pop_frame max_buffer now_ms buffer;
    match r with
    | (None, buffer) => Some ([], buffer)
    | (Some p, buffer) =>
      rest ← drain fuel max_buffer now_ms buffer;
      Some (p :: rest.1, rest.2)
    end
  end.

(** *** Overflow recovery *)

Definition qos_may_drop (qos : QosClass) : bool :=
  bool_decide (qos = kBestEffort) || bool_decide (qos = kBulk).

(** [peek_frame_header]; the inner [None] is [return false]. *)
Definition peek_frame_header (buffer : Bytes) : option (option (Z * Z * QosClass)) :=
  if (vsize buffer <? 15) || negb (has_magic buffer) then Some None
  else
  header_len ← read_u16 buffer 8;
  payload_len ← read_u32 buffer 10;
  qos_value ← load_u8 buffer 14;
  if (header_len <? kFixedHeaderSize)
     || (qos_value <? QosClass_value kReliableOrdered)
     || (qos_value >? QosClass_value kBulk)
  then Some None
  else Some (Some (header_len, payload_len, QosClass_cast qos_value)).

(** [recover_receive_overflow]: the result and the buffer it leaves.  [fuel] bounds the
    iterations of the outer loop, [None] as for [drain]. *)
Fixpoint recover_receive_overflow (fuel : nat) (max_bytes : Z) (buffer : Bytes) :
    option (bool * Bytes) :=
  match fuel with
  | O => None
  | S fuel =>
    if vsize buffer >? max_bytes then
      header ← peek_frame_header buffer;
      match header with
      | Some (header_len, payload_len, qos) =>
        if negb (qos_may_drop qos) then Some (false, buffer)
        else
          let frame_len := header_len + payload_len + kTrailerSize in
          recover_receive_overflow fuel max_bytes
            (drop (Z.to_nat (Z.min (vsize buffer) frame_len)) buffer)
      | None =>
        (* [magic] starts at 1 *)
        let magic := S (scan_magic (drop 1 buffer)) in
        if Z.of_nat magic + 3 >=? vsize buffer then Some (true, [])
        else recover_receive_overflow fuel max_bytes (drop magic buffer)
      end
    else Some (true, buffer)
  end.

(** *** The receive loop *)

(** [sizeof chunk] of the receive loop. *)
Definition kReceiveChunk : Z := 8192.

(** What one successful [read_some] leads to. *)
Inductive ReceiveEvent :=
  | ReceiveDropped                    (* "receive buffer dropped lossy frames" *)
  | ReceiveLimit                      (* "receive buffer limit exceeded" *)
  | ReceiveRejected (code : ErrorCode) (* "wire frame rejected" *)
  | ReceiveEnvelope (envelope : Envelope).

Definition receive_event (p : Popped) : ReceiveEvent :=
  match p with
  | PoppedError code => ReceiveRejected code
  | PoppedEnvelope envelope => ReceiveEnvelope envelope
  end.

(** The body of the receive loop after a read of [chunk]: the events in order,
    the buffer, and whether the loop goes on. *)
Definition receive_chunk (max_buffer now_ms : Z) (buffer chunk : Bytes) :
    option (list ReceiveEvent * Bytes * bool) :=
  let buffer := buffer ++ chunk in
  if vsize buffer >? max_buffer then
    recovered ← recover_receive_overflow (S (length buffer)) max_buffer buffer;
    match recovered with
    | (false, buffer) => Some ([ReceiveLimit], buffer, false)
    | (true, buffer) =>
      drained ← drain (S (length buffer)) max_buffer now_ms buffer;
      Some (ReceiveDropped :: map receive_event drained.1, drained.2, true)
    end
  else
    drained ← drain (S (length buffer)) max_buffer now_ms buffer;
    Some (map receive_event drained.1, drained.2, true).

(** The loop over successive reads, until one of them ends it. *)
Fixpoint receive_all (max_buffer now_ms : Z) (buffer : Bytes) (chunks : list Bytes) :
    option (list ReceiveEvent * Bytes * bool) :=
  match chunks with
  | [] => Some ([], buffer, true)
  | chunk :: chunks =>
    r ← receive_chunk max_buffer now_ms buffer chunk;
    match r with
    | (events, buffer, false) => Some (events, buffer, false)
    | (events, buffer, true) =>
      rest ← receive_all max_buffer now_ms buffer chunks;
      match rest with (events', buffer, go) => Some (events ++ events', buffer, go) end
    end
  end.

(** ** Scanning *)
Lemma scan_magic_le buffer : (scan_magic buffer <= length buffer)%nat.
Proof.
  induction buffer as [|b buffer IH]; [done|]. cbn [scan_magic].
  destruct (_ && _); simpl; lia.
Qed.

Lemma scan_magic_here buffer : has_magic buffer = true → scan_magic buffer = O.
Proof.
  intros Hm. destruct buffer as [|b buffer]; [done|]. cbn [scan_magic].
  by rewrite Hm, andb_false_r.
Qed.

(** Bytes that cannot start the magic are skipped. *)
Lemma scan_magic_skip garbage buffer :
  Forall (λ b, val b ≠ kMagic0) garbage → has_magic buffer = true →
  scan_magic (garbage ++ buffer) = length garbage.
Proof.
  intros Hg Hm. induction Hg as [|b garbage Hb Hg IH]; [by apply scan_magic_here|].
  cbn [app scan_magic].
  assert (Hlen : (4 <= length buffer)%nat).
  { destruct buffer as [|? [|? [|? [|? buffer]]]]; try done. simpl. lia. }
  replace (3 <? vsize (b :: garbage ++ buffer)) with true.
  2: { symmetry. apply Z.ltb_lt. simpl. rewrite length_app. lia. }
  replace (has_magic (b :: garbage ++ buffer)) with false; [simpl; by rewrite IH|].
  symmetry. destruct (garbage ++ buffer) as [|? [|? [|? ?]]]; try done. cbn [has_magic].
  by replace (val b =? kMagic0) with false by (symmetry; by apply Z.eqb_neq).
Qed.

(** ** One call of [pop_frame] *)
Lemma load_u8_range data off x : load_u8 data off = Some x → 0 <= x < 256.
Proof. intros H. apply load_u8_slice, proj1, in_uint_range in H. lia. Qed.

(** The length field as [pop_frame] computes it is the one [decode] reads. *)
Lemma inline_u32 data off b0 b1 b2 b3 :
  0 <= off → load_u8 data off = Some b0 → load_u8 data (off + 1) = Some b1 →
  load_u8 data (off + 2) = Some b2 → load_u8 data (off + 3) = Some b3 →
  read_u32 data off
  = Some (Z.lor (Z.lor (Z.lor b0 (b1 ≪ 8)) (b2 ≪ 16)) (b3 ≪ 24)).
Proof.
  intros Hoff. unfold load_u8.
  rewrite !Z2Nat.inj_add by lia.
  destruct (data !! Z.to_nat off) as [c0|] eqn:E0; [|done].
  destruct (data !! (Z.to_nat off + Z.to_nat 1)%nat) as [c1|] eqn:E1; [|done].
  destruct (data !! (Z.to_nat off + Z.to_nat 2)%nat) as [c2|] eqn:E2; [|done].
  destruct (data !! (Z.to_nat off + Z.to_nat 3)%nat) as [c3|] eqn:E3; [|done].
  simpl. intros [= <-] [= <-] [= <-] [= <-].
  pose proof (lookup_lt_Some _ _ _ E3). unfold read_u32, load.
  destruct (Z.leb_spec (Z.of_nat 4 + off) (vsize data)); [|lia].
  replace (Z.to_nat off + Z.to_nat 1)%nat with (S (Z.to_nat off)) in E1 by lia.
  replace (Z.to_nat off + Z.to_nat 2)%nat with (S (S (Z.to_nat off))) in E2 by lia.
  replace (Z.to_nat off + Z.to_nat 3)%nat with (S (S (S (Z.to_nat off)))) in E3 by lia.
  rewrite (drop_S _ _ _ E0), (drop_S _ _ _ E1), (drop_S _ _ _ E2), (drop_S _ _ _ E3).
  cbn [take mbind option_bind read_le]. by rewrite Z.shiftl_0_r.
Qed.

(** What the two inline reads yield on a buffer of at least fourteen bytes. *)
Lemma frame_lengths buffer :
  14 <= vsize buffer →
  ∃ hl pl, read_u16 buffer 8 = Some hl ∧ read_u32 buffer 10 = Some pl
  ∧ 0 <= hl < 65536 ∧ 0 <= pl < 4294967296
  ∧ ∀ A (k : Z → Z → option A),
      (b8 ← load_u8 buffer 8; b9 ← load_u8 buffer 9;
       b10 ← load_u8 buffer 10; b11 ← load_u8 buffer 11;
       b12 ← load_u8 buffer 12; b13 ← load_u8 buffer 13;
       k (Z.lor b8 (uint16 (b9 ≪ 8)))
         (Z.lor (Z.lor (Z.lor b10 (b11 ≪ 8)) (b12 ≪ 16)) (b13 ≪ 24)))
      = k hl pl.
Proof.
  intros Hlen.
  destruct (load_u8_is_Some buffer 8) as [b8 E8]; [lia|].
  destruct (load_u8_is_Some buffer 9) as [b9 E9]; [lia|].
  destruct (load_u8_is_Some buffer 10) as [b10 E10]; [lia|].
  destruct (load_u8_is_Some buffer 11) as [b11 E11]; [lia|].
  destruct (load_u8_is_Some buffer 12) as [b12 E12]; [lia|].
  destruct (load_u8_is_Some buffer 13) as [b13 E13]; [lia|].
  assert (H16 : read_u16 buffer 8 = Some (Z.lor b8 (uint16 (b9 ≪ 8)))).
  { unfold read_u16. rewrite E8. change (8 + 1) with 9. by rewrite E9. }
  pose proof (inline_u32 buffer 10 _ _ _ _ ltac:(lia) E10 E11 E12 E13) as H32.
  eexists _, _. split; [exact H16|]. split; [exact H32|].
  apply read_u16_slice in H16 as [H16%in_uint_range _]; [|lia].
  apply read_u32_slice in H32 as [H32%in_uint_range _]; [|lia].
  split; [lia|]. split; [lia|]. intros A k.
  rewrite E8. cbn [mbind option_bind]. rewrite E9. cbn [mbind option_bind].
  rewrite E10. cbn [mbind option_bind]. rewrite E11. cbn [mbind option_bind].
  rewrite E12. cbn [mbind option_bind]. by rewrite E13.
Qed.

Lemma drop_suffix {A} n (l : list A) : drop n l `suffix_of` l.
Proof. exists (take n l). by rewrite take_drop. Qed.

(** Every call answers; what it leaves is a suffix of the buffer, and a strictly
    shorter one when it reports something. *)
Lemma pop_frame_spec max now buffer :
  ∃ p buffer', pop_frame max now buffer = Some (p, buffer')
  ∧ buffer' `suffix_of` buffer
  ∧ (p ≠ None → length buffer' < length buffer)%nat.
Proof.
  unfold pop_frame. destruct (_ <? 4); [by eexists _, _|].
  rewrite Z.geb_leb. pose proof (scan_magic_le buffer).
  destruct (vsize buffer <=? _) eqn:Hm.
  { eexists _, _. split; [done|]. split; [apply suffix_nil|done]. }
  bool_hyps. set (buf := drop (scan_magic buffer) buffer).
  assert (Hsuf : buf `suffix_of` buffer) by apply drop_suffix.
  assert (Hlen : (4 <= length buf <= length buffer)%nat).
  { unfold buf. rewrite length_drop. lia. }
  destruct (vsize buf <? 14) eqn:H14; [by eexists _, _|]. bool_hyps.
  destruct (frame_lengths buf ltac:(lia)) as (hl & pl & _ & _ & Hhl & Hpl & Hk).
  rewrite (Hk _ (pop_sized max now buf)). clear Hk. unfold pop_sized.
  destruct (_ || _) eqn:Hbad.
  { eexists _, _. split; [done|]. split.
    - etrans; [apply drop_suffix|done].
    - intros _. rewrite length_drop. lia. }
  unfold kFixedHeaderSize, kTrailerSize in *. bool_hyps.
  destruct (vsize buf <? _) eqn:Hshort; [by eexists _, _|]. bool_hyps.
  destruct (decode_spec (take (Z.to_nat (hl + pl + 4)) buf) now) as (r & Hr & Hc & Hacc).
  rewrite Hr. cbn [mbind option_bind]. case_bool_decide as Hok.
  - destruct (accepted_consumed _ _ (Hacc Hok)) as [_ Hmin].
    eexists _, _. split; [done|]. split; [etrans; [apply drop_suffix|done]|].
    intros _. rewrite length_drop. lia.
  - eexists _, _. split; [done|]. split; [etrans; [apply drop_suffix|done]|].
    intros _. rewrite length_drop. lia.
Qed.

(** The magic is where [scan_magic] says. *)
Lemma scan_magic_drop buffer : scan_magic (drop (scan_magic buffer) buffer) = O.
Proof.
  induction buffer as [|b buffer IH]; [done|]. cbn [scan_magic].
  destruct (_ && _) eqn:E; [exact IH|]. cbn [drop scan_magic]. by rewrite E.
Qed.

(** Skipping to the magic first changes nothing. *)
Lemma pop_frame_skip max now buffer :
  Z.of_nat (scan_magic buffer) + 3 < vsize buffer →
  pop_frame max now (drop (scan_magic buffer) buffer) = pop_frame max now buffer.
Proof.
  intros Hm. unfold pop_frame. rewrite scan_magic_drop, drop_0, length_drop, !Z.geb_leb.
  pose proof (scan_magic_le buffer).
  repeat match goal with |- context [?a <? 4] => destruct (Z.ltb_spec a 4); [lia|] end.
  repeat match goal with |- context [?a <=? ?b + 3] => destruct (Z.leb_spec a (b + 3)); [lia|] end.
  done.
Qed.

(** A call that reports nothing leaves nothing to report. *)
Lemma pop_frame_none max now buffer buffer' :
  pop_frame max now buffer = Some (None, buffer') →
  pop_frame max now buffer' = Some (None, buffer').
Proof.
  intros Hpop. pose proof Hpop as Hp. unfold pop_frame in Hp. case_if_in Hp.
  { injection Hp as <-. exact Hpop. }
  rewrite Z.geb_leb in Hp. case_if_in Hp; [by injection Hp as <-|]. bool_hyps.
  set (buf := drop (scan_magic buffer) buffer) in *.
  assert (buffer' = buf) as ->.
  { case_if_in Hp; [by injection Hp as <-|]. bool_hyps.
    destruct (frame_lengths buf ltac:(lia)) as (hl & pl & _ & _ & _ & _ & Hk).
    rewrite (Hk _ (pop_sized max now buf)) in Hp. unfold pop_sized in Hp.
    case_if_in Hp; [done|]. case_if_in Hp; [by injection Hp as <-|].
    destruct (decode _ _) as [r|]; [|done]. cbn [mbind option_bind] in Hp.
    by case_bool_decide. }
  unfold buf. rewrite pop_frame_skip by lia. exact Hpop.
Qed.

(** ** Draining a buffer *)
Lemma drain_spec fuel max now buffer :
  (length buffer < fuel)%nat →
  ∃ ps buffer', drain fuel max now buffer = Some (ps, buffer')
  ∧ buffer' `suffix_of` buffer ∧ pop_frame max now buffer' = Some (None, buffer').
Proof.
  revert buffer. induction fuel as [|fuel IH]; intros buffer Hf; [lia|].
  cbn [drain]. destruct (pop_frame_spec max now buffer) as (p & buf & Hp & Hs & Hlt).
  rewrite Hp. cbn [mbind option_bind]. destruct p as [p|].
  2: { eexists _, _. split; [done|]. split; [done|]. by eapply pop_frame_none. }
  destruct (IH buf) as (ps & buf' & -> & Hs' & Hend); [specialize (Hlt ltac:(done)); lia|].
  cbn [mbind option_bind]. eexists _, _. split; [done|]. split; [by etrans|done].
Qed.

(** More fuel than bytes changes nothing: the loop has terminated. *)
Lemma drain_fuel fuel fuel' max now buffer :
  (length buffer < fuel)%nat → (length buffer < fuel')%nat →
  drain fuel max now buffer = drain fuel' max now buffer.
Proof.
  revert fuel' buffer. induction fuel as [|fuel IH]; intros [|fuel'] buffer Hf Hf'; try lia.
  cbn [drain]. destruct (pop_frame_spec max now buffer) as (p & buf & Hp & Hs & Hlt).
  rewrite Hp. cbn [mbind option_bind]. destruct p as [p|]; [|done].
  specialize (Hlt ltac:(done)). by rewrite (IH fuel' buf) by lia.
Qed.

(** ** Frames in a stream *)

(** The envelope a frame decodes to. *)
Definition decoded (v : Envelope) : Envelope :=
  with_payload (env_payload v) (checksum (frame_body v)) v.

(** A filled envelope whose frame a receiver with [max_buffer] takes. *)
Definition sendable (max_buffer : Z) (v : Envelope) : bool :=
  encodable v && envelope_typed v
  && (env_header_len v =? kFixedHeaderSize + variable_size v)
  && (env_payload_len v =? vsize (env_payload v))
  && (vsize (frame v) <=? max_buffer).

Lemma sendable_spec max v :
  sendable max v = true →
  encodable v = true ∧ envelope_typed v = true
  ∧ env_header_len v = kFixedHeaderSize + variable_size v
  ∧ env_payload_len v = vsize (env_payload v) ∧ vsize (frame v) <= max.
Proof. unfold sendable. intros. by bool_hyps. Qed.

Lemma frame_split v rest :
  frame v ++ rest = header_bytes v ++ variable_bytes v ++ env_payload v
                    ++ write_le 0 4 (checksum (frame_body v)) ++ rest.
Proof. unfold frame, frame_body. by rewrite <- !app_assoc. Qed.

Lemma frame_min v : 84 <= vsize (frame v).
Proof.
  rewrite length_frame. unfold kFixedHeaderSize, kTrailerSize.
  pose proof (variable_size_nonneg v). lia.
Qed.

(** The length fields of a frame. *)
Lemma frame_header_lengths max v rest :
  sendable max v = true →
  read_u16 (frame v ++ rest) 8 = Some (env_header_len v)
  ∧ read_u32 (frame v ++ rest) 10 = Some (env_payload_len v).
Proof.
  intros (_ & Hty & _)%sendable_spec. unfold envelope_typed in Hty. bool_hyps.
  rewrite frame_split. split; read_field; by rewrite uint_small.
Qed.

Lemma frame_total_len max v :
  sendable max v = true →
  env_header_len v + env_payload_len v + kTrailerSize = vsize (frame v).
Proof. intros (_ & _ & -> & -> & _)%sendable_spec. by rewrite length_frame. Qed.

(** A complete frame at the front is taken off. *)
Lemma pop_frame_frame max now v rest :
  sendable max v = true →
  pop_frame max now (frame v ++ rest) = Some (Some (PoppedEnvelope (decoded v)), rest).
Proof.
  intros Hs. pose proof (frame_min v) as Hmin.
  pose proof (frame_header_lengths max v rest Hs) as [H8 H10].
  pose proof (frame_total_len max v Hs) as Htot.
  destruct (sendable_spec _ _ Hs) as (Hen & Hty & Hhl & Hpl & Hmax).
  unfold pop_frame. rewrite scan_magic_here by (by rewrite frame_split).
  rewrite drop_0, length_app, Nat2Z.inj_add.
  destruct (Z.ltb_spec (vsize (frame v) + vsize rest) 4); [lia|].
  rewrite Z.geb_leb.
  destruct (Z.leb_spec (vsize (frame v) + vsize rest) (Z.of_nat 0 + 3)); [lia|].
  destruct (Z.ltb_spec (vsize (frame v) + vsize rest) 14); [lia|].
  destruct (frame_lengths (frame v ++ rest)) as (hl & pl & E8 & E10 & _ & _ & Hk).
  { rewrite length_app. lia. }
  rewrite (Hk _ (pop_sized max now (frame v ++ rest))). simplify_eq. unfold pop_sized.
  rewrite Htot, Z.gtb_ltb.
  destruct (Z.ltb_spec (env_header_len v) kFixedHeaderSize).
  { pose proof (variable_size_nonneg v). lia. }
  destruct (Z.ltb_spec max (vsize (frame v))); [lia|]. cbn [orb].
  rewrite length_app. destruct (Z.ltb_spec (Z.of_nat (length (frame v) + length rest))
    (vsize (frame v))); [lia|].
  rewrite Nat2Z.id, take_app_length.
  pose proof (decode_frame v [] now Hen Hty Hhl Hpl) as Hd. rewrite app_nil_r in Hd.
  rewrite Hd. cbn [mbind option_bind dr_code dr_consumed dr_envelope].
  rewrite bool_decide_true by done. by rewrite Nat2Z.id, drop_app_length.
Qed.

(** The first bytes of a frame wait for the rest. *)
Lemma pop_frame_partial max now v p q :
  sendable max v = true → frame v = p ++ q → q ≠ [] →
  pop_frame max now p = Some (None, p).
Proof.
  intros Hs Hpq Hq. pose proof (frame_total_len max v Hs) as Htot.
  pose proof (frame_header_lengths max v [] Hs) as [H8 H10]. rewrite app_nil_r in H8, H10.
  destruct (sendable_spec _ _ Hs) as (Hen & Hty & Hhl & Hpl & Hmax).
  assert (Hlt : vsize p < vsize (frame v)).
  { rewrite Hpq, length_app. destruct q; [done|]. simpl. lia. }
  unfold pop_frame. destruct (Z.ltb_spec (vsize p) 4); [done|].
  assert (Hm : has_magic p = true).
  { assert (Hf : has_magic (p ++ q) = true).
    { rewrite <- Hpq, <- (app_nil_r (frame v)), frame_split. apply has_magic_header. }
    by destruct p as [|? [|? [|? [|? p]]]]; simpl in *; try lia. }
  rewrite scan_magic_here by done. rewrite Z.geb_leb, drop_0.
  destruct (Z.leb_spec (vsize p) (Z.of_nat 0 + 3)); [lia|].
  destruct (Z.ltb_spec (vsize p) 14); [done|].
  destruct (frame_lengths p) as (hl & pl & E8 & E10 & _ & _ & Hk); [lia|].
  rewrite (Hk _ (pop_sized max now p)). unfold pop_sized.
  rewrite Hpq, read_u16_app in H8 by lia. rewrite Hpq, read_u32_app in H10 by lia.
  simplify_eq. rewrite Z.gtb_ltb, Htot.
  destruct (Z.ltb_spec (env_header_len v) kFixedHeaderSize).
  { pose proof (variable_size_nonneg v). lia. }
  destruct (Z.ltb_spec max (vsize (frame v))); [lia|]. cbn [orb].
  by destruct (Z.ltb_spec (vsize p) (vsize (frame v))); [|lia].
Qed.

(** The bytes left over between two reads. *)
Definition incomplete (p : Bytes) (vs : list Envelope) : Prop :=
  p = [] ∨ ∃ v vs' q, vs = v :: vs' ∧ frame v = p ++ q ∧ q ≠ [].

(** Any cut of a stream of frames leaves some complete frames and the beginning
    of the next. *)
Lemma split_stream vs s t :
  s ++ t = concat (frame <$> vs) →
  ∃ vs1 vs2 p, vs = vs1 ++ vs2 ∧ s = concat (frame <$> vs1) ++ p
  ∧ p ++ t = concat (frame <$> vs2) ∧ incomplete p vs2.
Proof.
  revert s. induction vs as [|v vs IH]; intros s Hst.
  { simpl in Hst. apply app_nil in Hst as [-> ->].
    exists [], [], []. repeat split; by left. }
  cbn [fmap list_fmap concat] in Hst.
  destruct (decide (length s < length (frame v))%nat) as [Hlt|Hge].
  - exists [], (v :: vs), s. repeat split; [done|].
    right. exists v, vs, (drop (length s) (frame v)).
    apply (f_equal (take (length s))) in Hst as Htk.
    rewrite take_app_length, take_app_le in Htk by lia.
    split; [done|]. split.
    + rewrite Htk at 1. by rewrite take_drop.
    + intros Hn%(f_equal length). rewrite length_drop in Hn. change (length []) with 0%nat in Hn. lia.
  - assert (Hs : s = frame v ++ drop (length (frame v)) s).
    { apply (f_equal (take (length (frame v)))) in Hst as Htk.
      rewrite take_app_length, take_app_le in Htk by lia.
      rewrite <- Htk at 1. by rewrite take_drop. }
    destruct (IH (drop (length (frame v)) s)) as (vs1 & vs2 & p & -> & Hs1 & Ht & Hp).
    { rewrite Hs, <- app_assoc in Hst. by apply app_inv_head in Hst. }
    exists (v :: vs1), vs2, p. repeat split; [|done|done].
    rewrite Hs, Hs1. cbn [fmap list_fmap concat]. by rewrite app_assoc.
Qed.

(** Draining complete frames followed by the beginning of another. *)
Lemma drain_frames fuel max now vs vs' p :
  Forall (λ v, sendable max v = true) (vs ++ vs') → incomplete p vs' →
  (length (concat (frame <$> vs) ++ p) < fuel)%nat →
  drain fuel max now (concat (frame <$> vs) ++ p)
  = Some (map (λ v, PoppedEnvelope (decoded v)) vs, p).
Proof.
  revert fuel. induction vs as [|v vs IH]; intros [|fuel] Hs Hp Hf; try lia.
  - cbn [fmap list_fmap concat app drain map].
    destruct Hp as [->|(v & vs1 & q & -> & Hv & Hq)]; [done|].
    rewrite (pop_frame_partial _ _ v p q); [done| |done|done]. by inversion Hs.
  - cbn [fmap list_fmap concat app drain map] in *. rewrite <- app_assoc in *.
    inversion Hs as [|? ? Hv Hs']; subst.
    rewrite pop_frame_frame by done. cbn [mbind option_bind].
    rewrite IH; [done|done|done|]. rewrite length_app in Hf.
    pose proof (frame_min v). lia.
Qed.

(** ** Overflow recovery *)
Lemma peek_frame_header_spec buffer :
  ∃ h, peek_frame_header buffer = Some h
  ∧ ∀ hl pl q, h = Some (hl, pl, q) → 80 <= hl ∧ 0 <= pl ∧ 15 <= vsize buffer.
Proof.
  unfold peek_frame_header. destruct (Z.ltb_spec (vsize buffer) 15); [by eexists|].
  destruct (has_magic buffer); [|by eexists]. cbn [negb orb].
  destruct (read_u16_is_Some buffer 8) as [hl Hhl]; [lia..|].
  destruct (read_u32_is_Some buffer 10) as [pl Hpl]; [lia|].
  destruct (load_u8_is_Some buffer 14) as [q Hq]; [lia|].
  rewrite Hhl, Hpl, Hq. cbn [mbind option_bind].
  destruct (_ || _) eqn:Hb; [by eexists|]. eexists. split; [done|].
  intros ? ? ? [= <- <- _]. unfold kFixedHeaderSize in *. bool_hyps.
  apply read_u32_slice in Hpl as [Hpl%in_uint_range _]; [|lia]. lia.
Qed.

(** Recovery always ends.  When it succeeds the buffer is within its bound; when
    it fails a reliable frame is at its front, and that frame is still there. *)
Lemma recover_spec fuel max buffer :
  0 <= max → (length buffer < fuel)%nat →
  ∃ ok buffer', recover_receive_overflow fuel max buffer = Some (ok, buffer')
  ∧ buffer' `suffix_of` buffer
  ∧ (ok = true → vsize buffer' <= max)
  ∧ (ok = false → ∃ hl pl q, peek_frame_header buffer' = Some (Some (hl, pl, q))
                             ∧ qos_may_drop q = false).
Proof.
  intros Hmax. revert buffer. induction fuel as [|fuel IH]; intros buffer Hf; [lia|].
  cbn [recover_receive_overflow]. rewrite Z.gtb_ltb.
  destruct (Z.ltb_spec max (vsize buffer)).
  2: { eexists _, _. split; [done|]. repeat split; done. }
  destruct (peek_frame_header_spec buffer) as (h & Hh & Hlen).
  rewrite Hh. cbn [mbind option_bind]. destruct h as [[[hl pl] q]|].
  - destruct (Hlen _ _ _ eq_refl) as (? & ? & ?).
    destruct (qos_may_drop q) eqn:Hq; cbn [negb].
    + destruct (IH (drop (Z.to_nat (Z.min (vsize buffer) (hl + pl + kTrailerSize))) buffer))
        as (ok & buf & Hr & Hs & Hok & Hko).
      { rewrite length_drop. unfold kTrailerSize. lia. }
      eexists _, _. split; [done|]. split; [etrans; [done|apply drop_suffix]|done].
    + eexists _, _. split; [done|]. split; [done|]. split; [done|]. intros _. eauto 6.
  - rewrite Z.geb_leb. destruct (_ <=? _).
    + eexists _, _. split; [done|]. split; [apply suffix_nil|done].
    + destruct (IH (drop (S (scan_magic (drop 1 buffer))) buffer))
        as (ok & buf & Hr & Hs & Hok & Hko).
      { rewrite length_drop. lia. }
      eexists _, _. split; [done|]. split; [etrans; [done|apply drop_suffix]|done].
Qed.

Lemma recover_fuel fuel fuel' max buffer :
  (length buffer < fuel)%nat → (length buffer < fuel')%nat →
  recover_receive_overflow fuel max buffer = recover_receive_overflow fuel' max buffer.
Proof.
  revert fuel' buffer. induction fuel as [|fuel IH]; intros [|fuel'] buffer Hf Hf'; try lia.
  cbn [recover_receive_overflow]. destruct (_ >? _); [|done].
  destruct (peek_frame_header_spec buffer) as (h & Hh & Hlen).
  rewrite Hh. cbn [mbind option_bind]. destruct h as [[[hl pl] q]|].
  - destruct (Hlen _ _ _ eq_refl) as (? & ? & ?).
    destruct (negb _); [done|]. apply IH; rewrite length_drop; unfold kTrailerSize; lia.
  - destruct (_ >=? _) eqn:Hm; [done|]. rewrite Z.geb_leb in Hm. bool_hyps.
    apply IH; rewrite length_drop; lia.
Qed.

(** ** Properties *)
Lemma receive_all_frames max now vs chunks :
  Forall (λ v, sendable (max - kReceiveChunk) v = true) vs →
  Forall (λ c, vsize c <= kReceiveChunk) chunks → kReceiveChunk <= max →
  concat chunks = concat (frame <$> vs) →
  receive_all max now [] chunks
  = Some (map (λ v, ReceiveEnvelope (decoded v)) vs, [], true).
Proof.
  intros Hvs Hch Hmax Hst.
  assert (Hmono : ∀ v, sendable (max - kReceiveChunk) v = true → sendable max v = true).
  { intros v. unfold sendable, kReceiveChunk in *. rewrite !andb_true_iff, !Z.leb_le.
    intros [Hv Hle]. split; [done|lia]. }
  cut (∀ buffer, incomplete buffer vs → buffer ++ concat chunks = concat (frame <$> vs) →
    receive_all max now buffer chunks
    = Some (map (λ v, ReceiveEnvelope (decoded v)) vs, [], true)).
  { intros Hall. apply Hall; [by left|done]. }
  clear Hst. revert vs Hvs. induction Hch as [|c chunks Hc Hch IH]; intros vs Hvs buffer Hinc Hst.
  { cbn [concat] in Hst. rewrite app_nil_r in Hst. cbn [receive_all].
    destruct Hinc as [->|(v & vs' & q & -> & Hv & Hq)].
    - destruct vs as [|v vs]; [done|]. cbn [fmap list_fmap concat] in Hst.
      pose proof (frame_min v) as Hmin. symmetry in Hst. apply app_nil in Hst as [Hst _].
      rewrite Hst in Hmin. cbn [length] in Hmin. lia.
    - exfalso. cbn [fmap list_fmap concat] in Hst. rewrite Hv in Hst.
      rewrite <- (app_nil_r buffer), <- !app_assoc in Hst.
      apply app_inv_head in Hst. destruct q; done. }
  assert (Hsize : vsize buffer + kReceiveChunk <= max).
  { destruct Hinc as [->|(v & vs' & q & -> & Hv & Hq)]; [cbn [length]; lia|].
    inversion Hvs as [|? ? (_ & _ & _ & _ & Hl)%sendable_spec _]; subst.
    rewrite Hv, length_app in Hl. lia. }
  cbn [concat] in Hst. rewrite app_assoc in Hst.
  destruct (split_stream _ _ _ Hst) as (vs1 & vs2 & p & -> & Hs & Ht & Hp).
  assert (Hsend : Forall (λ v, sendable max v = true) (vs1 ++ vs2)).
  { eapply Forall_impl; [exact Hvs|]. exact Hmono. }
  cbn [receive_all]. unfold receive_chunk. rewrite Z.gtb_ltb.
  destruct (Z.ltb_spec max (vsize (buffer ++ c))) as [Hov|_].
  { rewrite length_app in Hov. lia. }
  rewrite Hs. rewrite (drain_frames _ _ _ _ vs2) by (done || lia).
  cbn [mbind option_bind fst snd].
  apply Forall_app in Hvs as [_ Hvs2].
  rewrite (IH vs2 Hvs2 p Hp Ht). cbn [mbind option_bind].
  by rewrite map_app, map_map.
Qed.

(** C5 Frames survive the stream whole and in order: however TCP cuts the bytes
    of any sequence of frames into reads, the receive loop delivers exactly their
    envelopes, rejects nothing and ends with an empty buffer, as long as each
    frame leaves room for one more read in the receive buffer. *)
Theorem receive_reassembles max now vs chunks :
  Forall (λ v, sendable (max - kReceiveChunk) v = true) vs →
  Forall (λ c, vsize c <= kReceiveChunk) chunks → kReceiveChunk <= max →
  concat chunks = concat (frame <$> vs) →
  receive_all max now [] chunks
  = Some (map (λ v, ReceiveEnvelope (decoded v)) vs, [], true).
Proof. apply receive_all_frames. Qed.

(** C35 Whatever a peer sends, the work of the receive loop on one read ends: the
    overflow recovery and the loop over [pop_frame] take no more passes than the buffer
    has bytes and read only inside it.  The connection goes on exactly with a buffer
    within the configured bound in which no further frame or error is waiting; it is
    given up only when the overflowing buffer starts with a reliable frame, and then
    nothing has been delivered. *)
Theorem receive_chunk_bounded max now buffer chunk :
  0 <= max →
  ∃ events buffer' go, receive_chunk max now buffer chunk = Some (events, buffer', go)
  ∧ (go = true → vsize buffer' <= max ∧ pop_frame max now buffer' = Some (None, buffer'))
  ∧ (go = false → events = [ReceiveLimit]
     ∧ ∃ hl pl q, peek_frame_header buffer' = Some (Some (hl, pl, q))
       ∧ qos_may_drop q = false).
Proof.
  intros Hmax. unfold receive_chunk. rewrite Z.gtb_ltb.
  destruct (Z.ltb_spec max (vsize (buffer ++ chunk))).
  - destruct (recover_spec (S (length (buffer ++ chunk))) max (buffer ++ chunk))
      as (ok & buf & Hr & _ & Hok & Hko); [done|lia|].
    rewrite Hr. cbn [mbind option_bind]. destruct ok.
    + destruct (drain_spec (S (length buf)) max now buf) as (ps & buf' & Hd & Hs & He); [lia|].
      rewrite Hd. cbn [mbind option_bind fst snd]. eexists _, _, _. split; [done|].
      split; [|done]. specialize (Hok eq_refl). apply suffix_length in Hs. split; [lia|done].
    + eexists _, _, _. split; [done|]. split; [done|]. auto.
  - destruct (drain_spec (S (length (buffer ++ chunk))) max now (buffer ++ chunk))
      as (ps & buf' & Hd & Hs & He); [lia|].
    rewrite Hd. cbn [mbind option_bind fst snd]. eexists _, _, _. split; [done|].
    split; [|done]. apply suffix_length in Hs. split; [lia|done].
Qed.

(** The receiver resynchronises: bytes that cannot start a frame are skipped
    and the frame after them is delivered. *)
Theorem pop_frame_resync max now garbage v rest :
  sendable max v = true → Forall (λ b, val b ≠ kMagic0) garbage →
  pop_frame max now (garbage ++ frame v ++ rest)
  = Some (Some (PoppedEnvelope (decoded v)), rest).
Proof.
  intros Hs Hg. pose proof (pop_frame_frame max now v rest Hs) as Hpop.
  pose proof (frame_min v) as Hmin.
  assert (Hm : has_magic (frame v ++ rest) = true).
  { rewrite frame_split. apply has_magic_header. }
  unfold pop_frame in *. rewrite scan_magic_skip by done.
  rewrite scan_magic_here in Hpop by done. rewrite drop_0 in Hpop.
  rewrite drop_app_length. rewrite length_app.
  destruct (Z.ltb_spec (vsize (frame v ++ rest)) 4); [rewrite length_app in *; lia|].
  rewrite !Z.geb_leb in *.
  destruct (Z.leb_spec (vsize (frame v ++ rest)) (Z.of_nat 0 + 3)); [lia|].
  destruct (Z.ltb_spec (Z.of_nat (length garbage + length (frame v ++ rest))) 4); [lia|].
  destruct (Z.leb_spec (Z.of_nat (length garbage + length (frame v ++ rest)))
    (Z.of_nat (length garbage) + 3)); [lia|]. exact Hpop.
Qed.

(** *** Witnesses *)

Definition sample_filled : Envelope := fill_header 1000 sample_envelope.

Lemma receive_reassembles_witness :
  receive_all 10000 5 []
    [take 50 (frame sample_filled); drop 50 (frame sample_filled) ++ take 3 (frame sample_filled);
     drop 3 (frame sample_filled)]
  = Some ([ReceiveEnvelope (decoded sample_filled); ReceiveEnvelope (decoded sample_filled)],
          [], true).
Proof.
  apply (receive_reassembles 10000 5 [sample_filled; sample_filled]);
    [repeat constructor; vm_compute; reflexivity
    |repeat constructor; vm_compute; intros Hx; discriminate Hx
    |vm_compute; intros Hx; discriminate Hx
    |vm_compute; reflexivity].
Defined.

Lemma receive_chunk_bounded_witness :
  ∃ events buffer' go,
    receive_chunk 100 5 (take 90 (frame sample_filled)) (drop 90 (frame sample_filled))
    = Some (events, buffer', go)
  ∧ (go = true → vsize buffer' <= 100 ∧ pop_frame 100 5 buffer' = Some (None, buffer'))
  ∧ (go = false → events = [ReceiveLimit]
     ∧ ∃ hl pl q, peek_frame_header buffer' = Some (Some (hl, pl, q))
       ∧ qos_may_drop q = false).
Proof. apply receive_chunk_bounded. lia. Defined.

Lemma pop_frame_resync_witness :
  pop_frame 10000 5 ([Byte.x00; Byte.xff] ++ frame sample_filled ++ [Byte.x01])
  = Some (Some (PoppedEnvelope (decoded sample_filled)), [Byte.x01]).
Proof.
  apply pop_frame_resync; [vm_compute; reflexivity|].
  repeat constructor; vm_compute; intros Hx; discriminate Hx.
Defined.

(** The one case in which resynchronisation loses a frame: when the bytes
    before it and its first three bytes end a read, [pop_frame] clears them with
    the garbage, and the frame, all of whose bytes arrived, is never delivered. *)
Theorem split_magic_loses_frame :
  let garbage := [Byte.x00; Byte.x00] in
  let stream := garbage ++ frame sample_filled in
  receive_all 10000 5 [] [stream] = Some ([ReceiveEnvelope (decoded sample_filled)], [], true)
  ∧ receive_all 10000 5 [] [take 5 stream; drop 5 stream] = Some ([], [], true).
Proof. split; vm_compute; reflexivity. Qed.
