(* ===== verification/SendQueue.v ===== *)
(** * SendQueue: the four outbound queues of a connection

    [runtime_enqueue], [make_room], [drop_oldest], [enqueue_limit] and
    [take_next_frame] of [src/runtime/v2/runtime_network.cpp], each under the
    connection's [send_mutex], and the structure of
    [src/runtime/v2/runtime_internal.hpp] they work on.  [size_t] arithmetic wraps
    modulo [2 ^ 64] as in the code; the invariant shows that it never does. *)

From Stdlib Require Import ZArith Lia String Ascii Strings.Byte.
From stdpp Require Import base gmap strings list fin_maps.
From S2P Require Import Prelude StdMap Codec WireTypes WireCodec Framing.
Local Open Scope Z_scope.

(** ** State *)

Record OutboundFrame := mkOutboundFrame {
  of_bytes : Bytes;
  of_qos : QosClass;
  of_latest_key : string;
}.

(** [send_queues[4]], [queued_bytes] and [max_queued_bytes]. *)
Record SendState := mkSendState {
  send_queues : list (list OutboundFrame);
  queued_bytes : Z;
  max_queued_bytes : Z;
}.

Definition empty_send_state (max : Z) : SendState := mkSendState [[]; []; []; []] 0 max.

Definition send_queue (s : SendState) (i : nat) : list OutboundFrame :=
  default [] (send_queues s !! i).

Definition set_queue (i : nat) (q : list OutboundFrame) (s : SendState) : SendState :=
  mkSendState (<[i := q]> (send_queues s)) (queued_bytes s) (max_queued_bytes s).

Definition set_queued_bytes (n : Z) (s : SendState) : SendState :=
  mkSendState (send_queues s) n (max_queued_bytes s).

(** [bytes.size()]. *)
Definition frame_size (f : OutboundFrame) : Z := vsize (of_bytes f).

(** ** Operations *)

Definition kReliableOrderedReserveFraction : Z := 4.

Definition qos_index (qos : QosClass) : nat :=
  match qos with
  | kReliableOrdered => 0 | kReliableLatest => 1 | kBestEffort => 2 | kBulk => 3
  end.

Definition enqueue_limit (s : SendState) (qos : QosClass) : Z :=
  if bool_decide (qos = kReliableOrdered) then max_queued_bytes s
  else max_queued_bytes s - max_queued_bytes s / kReliableOrderedReserveFraction.

(** [drop_oldest]; [None] is [return false]. *)
Definition drop_oldest (queue_index : nat) (s : SendState) : option SendState :=
  match send_queue s queue_index with
  | [] => None
  | front :: queue =>
    Some (set_queue queue_index queue
            (set_queued_bytes (uint64 (queued_bytes s - frame_size front)) s))
  end.

(** The loop of [make_room]; each iteration drops a frame, so as many iterations
    as there are frames that may be dropped, and one, suffice. *)
Fixpoint make_room_loop (fuel : nat) (limit bytes : Z) (s : SendState) : bool * SendState :=
  match fuel with
  | O => (true, s)
  | S fuel =>
    if uint64 (queued_bytes s + bytes) >? limit then
      match drop_oldest 3 s with
      | Some s => make_room_loop fuel limit bytes s
      | None =>
        match drop_oldest 2 s with
        | Some s => make_room_loop fuel limit bytes s
        | None => (false, s)
        end
      end
    else (true, s)
  end.

Definition make_room (s : SendState) (bytes : Z) (qos : QosClass) : bool * SendState :=
  make_room_loop (S (length (send_queue s 3) + length (send_queue s 2)))
    (enqueue_limit s qos) bytes s.

(** The end of [runtime_enqueue]: make room and append. *)
Definition enqueue_append (bytes : Bytes) (qos : QosClass) (latest_key : string)
    (s : SendState) : bool * SendState :=
  match make_room s (vsize bytes) qos with
  | (false, s) => (false, s)
  | (true, s) =>
    let s := set_queued_bytes (uint64 (queued_bytes s + vsize bytes)) s in
    (true, set_queue (qos_index qos)
             (send_queue s (qos_index qos) ++ [mkOutboundFrame bytes qos latest_key]) s)
  end.

(** The branch of [runtime_enqueue] that replaces the [frame], the [i]-th of its
    queue, that has the same key. *)
Definition enqueue_replace (bytes : Bytes) (qos : QosClass) (i : nat)
    (frame : OutboundFrame) (s : SendState) : bool * SendState :=
  let s := set_queued_bytes (uint64 (queued_bytes s - frame_size frame)) s in
  match make_room s (vsize bytes) qos with
  | (false, s) => (false, set_queued_bytes (uint64 (queued_bytes s + frame_size frame)) s)
  | (true, s) =>
    let frame := mkOutboundFrame bytes (of_qos frame) (of_latest_key frame) in
    let s := set_queue (qos_index qos)
               (<[i := frame]> (send_queue s (qos_index qos))) s in
    (true, set_queued_bytes (uint64 (queued_bytes s + vsize bytes)) s)
  end.

(** [runtime_enqueue] on a connection whose [running] flag is [running]. *)
Definition runtime_enqueue (running : bool) (bytes : Bytes) (qos : QosClass)
    (latest_key : string) (s : SendState) : bool * SendState :=
  if bool_decide (bytes = []) || negb running then (false, s)
  else if vsize bytes >? enqueue_limit s qos then (false, s)
  else if bool_decide (qos = kReliableLatest)
          && negb (bool_decide (latest_key = EmptyString))
  then
    match list_find (λ f, of_latest_key f = latest_key) (send_queue s (qos_index qos)) with
    | Some (i, frame) => enqueue_replace bytes qos i frame s
    | None => enqueue_append bytes qos latest_key s
    end
  else enqueue_append bytes qos latest_key s.

(** The search of [take_next_frame] for the first queue that is not empty. *)
Fixpoint first_nonempty (index : nat) (queues : list (list OutboundFrame)) :
    option (nat * OutboundFrame * list OutboundFrame) :=
  match queues with
  | [] => None
  | [] :: queues => first_nonempty (S index) queues
  | (front :: queue) :: _ => Some (index, front, queue)
  end.

(** [take_next_frame]; [None] is [return false]. *)
Definition take_next_frame (s : SendState) : option (OutboundFrame * SendState) :=
  match first_nonempty 0 (send_queues s) with
  | Some (index, frame, queue) =>
    Some (frame, set_queued_bytes (uint64 (queued_bytes s - frame_size frame))
                   (set_queue index queue s))
  | None => None
  end.

(** [runtime_write]. *)
Definition runtime_write (running : bool) (bytes : Bytes) (s : SendState) :
    bool * SendState :=
  runtime_enqueue running bytes kReliableOrdered EmptyString s.

(** ** Invariant *)

Definition queue_size (q : list OutboundFrame) : Z :=
  foldr (λ f n, frame_size f + n) 0 q.

(** The latest-value keys of a queue; the empty key stands for none. *)
Definition latest_keys (q : list OutboundFrame) : list string :=
  filter (λ k, k ≠ EmptyString) (of_latest_key <$> q).

Record send_wf (s : SendState) : Prop := {
  wf_queues : ∃ q0 q1 q2 q3, send_queues s = [q0; q1; q2; q3];
  wf_qos i f : f ∈ send_queue s i → qos_index (of_qos f) = i ∧ of_bytes f ≠ [];
  wf_keys : NoDup (latest_keys (send_queue s 1));
  wf_queued :
    queued_bytes s = queue_size (send_queue s 0) + queue_size (send_queue s 1)
                     + queue_size (send_queue s 2) + queue_size (send_queue s 3);
  wf_max : 0 <= max_queued_bytes s < 2 ^ 62;
  wf_bound : queued_bytes s <= max_queued_bytes s;
  wf_reserve :
    queue_size (send_queue s 1) + queue_size (send_queue s 2) + queue_size (send_queue s 3)
    <= max_queued_bytes s - max_queued_bytes s / 4;
}.

Lemma queue_size_nil : queue_size [] = 0.
Proof. done. Qed.

Lemma queue_size_cons f q : queue_size (f :: q) = frame_size f + queue_size q.
Proof. done. Qed.

Lemma queue_size_nonneg q : 0 <= queue_size q.
Proof. induction q as [|f q IH]; simpl; [lia|]. unfold frame_size. lia. Qed.

Lemma queue_size_app q q' : queue_size (q ++ q') = queue_size q + queue_size q'.
Proof. induction q as [|f q IH]; simpl; [done|]. rewrite IH. lia. Qed.

Lemma queue_size_insert q i f f' :
  q !! i = Some f →
  queue_size (<[i := f']> q) = queue_size q - frame_size f + frame_size f'.
Proof.
  revert i. induction q as [|g q IH]; intros [|i] Hi; simplify_eq/=; [lia|].
  rewrite (IH _ Hi). lia.
Qed.

Lemma queue_size_pos q :
  (∀ f, f ∈ q → of_bytes f ≠ []) → queue_size q = 0 → q = [].
Proof.
  destruct q as [|f q]; [done|]. intros Hf. simpl. pose proof (queue_size_nonneg q).
  assert (of_bytes f ≠ []) as Hne by (apply Hf; set_solver).
  unfold frame_size. destruct (of_bytes f); [done|]. simpl length. lia.
Qed.

Lemma empty_wf max : 0 <= max < 2 ^ 62 → send_wf (empty_send_state max).
Proof.
  intros Hmax. split.
  - by eexists _, _, _, _.
  - intros i f. unfold send_queue. destruct i as [|[|[|[|i]]]]; simpl; set_solver.
  - constructor.
  - done.
  - done.
  - simpl. lia.
  - simpl. pose proof (Z.div_le_upper_bound max 4 max ltac:(lia)). lia.
Qed.

(** ** Making room *)
Lemma drop_oldest_3 q0 q1 q2 q3 n max :
  drop_oldest 3 (mkSendState [q0; q1; q2; q3] n max) =
  match q3 with
  | [] => None
  | f :: q => Some (mkSendState [q0; q1; q2; q] (uint64 (n - frame_size f)) max)
  end.
Proof. by destruct q3. Qed.

Lemma drop_oldest_2 q0 q1 q2 q3 n max :
  drop_oldest 2 (mkSendState [q0; q1; q2; q3] n max) =
  match q2 with
  | [] => None
  | f :: q => Some (mkSendState [q0; q1; q; q3] (uint64 (n - frame_size f)) max)
  end.
Proof. by destruct q2. Qed.

(** [make_room] drops from the front of the bulk queue, then from the front of the
    best-effort queue, never from a reliable one, and stops as soon as there is
    room; [base] is what the reliable queues hold. *)
Lemma make_room_loop_spec fuel limit bytes q0 q1 q2 q3 base max :
  0 <= base → 0 <= bytes < 2 ^ 62 → base + queue_size q2 + queue_size q3 < 2 ^ 62 →
  (length q3 + length q2 < fuel)%nat →
  ∃ ok q2' q3',
    make_room_loop fuel limit bytes
      (mkSendState [q0; q1; q2; q3] (base + queue_size q2 + queue_size q3) max)
    = (ok, mkSendState [q0; q1; q2'; q3'] (base + queue_size q2' + queue_size q3') max)
    ∧ q2' `suffix_of` q2 ∧ q3' `suffix_of` q3
    ∧ (q2' = q2 ∨ q3' = [])
    ∧ (if ok then base + queue_size q2' + queue_size q3' + bytes <= limit
       else q2' = [] ∧ q3' = [] ∧ limit < base + bytes).
Proof.
  intros Hb Hby. revert q2 q3. induction fuel as [|fuel IH]; intros q2 q3 Hn Hf; [lia|].
  pose proof (queue_size_nonneg q2). pose proof (queue_size_nonneg q3).
  pose proof queue_size_nil as Hnil.
  cbn [make_room_loop queued_bytes]. rewrite uint_small by (apply in_uint_range; lia).
  rewrite Z.gtb_ltb. destruct (Z.ltb_spec limit (base + queue_size q2 + queue_size q3 + bytes)).
  2: { eexists true, q2, q3. split; [done|]. repeat split; auto; lia. }
  rewrite drop_oldest_3. destruct q3 as [|f q3].
  - rewrite drop_oldest_2. destruct q2 as [|f q2].
    + eexists false, [], []. split; [done|].
      repeat split; auto; lia.
    + pose proof (queue_size_nonneg q2). rewrite queue_size_cons in *.
      assert (0 <= frame_size f) by (unfold frame_size; lia).
      rewrite uint_small by (apply in_uint_range; lia).
      destruct (IH q2 []) as (ok & q2' & q3' & Hr & Hs2 & Hs3 & _ & Hok);
        [lia|cbn [length] in *; lia|].
      exists ok, q2', q3'. split.
      { rewrite <- Hr. do 2 f_equal. lia. }
      split; [by apply suffix_cons_r|]. split; [done|]. split; [|done].
      right. by apply suffix_nil_inv.
  - pose proof (queue_size_nonneg q3). rewrite queue_size_cons in *.
    assert (0 <= frame_size f) by (unfold frame_size; lia).
    rewrite uint_small by (apply in_uint_range; lia).
    destruct (IH q2 q3) as (ok & q2' & q3' & Hr & Hs2 & Hs3 & Hord & Hok);
      [lia|cbn [length] in *; lia|].
    exists ok, q2', q3'. split.
    { rewrite <- Hr. do 2 f_equal. lia. }
    split; [done|]. split; [by apply suffix_cons_r|]. done.
Qed.

Lemma queue_size_suffix q q' : q' `suffix_of` q → queue_size q' <= queue_size q.
Proof. intros [k ->]. rewrite queue_size_app. pose proof (queue_size_nonneg k). lia. Qed.

(** ** Enqueueing *)

(** What a latest-value frame does to its queue: it takes the place of the frame
    with its key, or goes to the back. *)
Definition put_latest (bytes : Bytes) (latest_key : string)
    (q : list OutboundFrame) : list OutboundFrame :=
  match list_find (λ f, of_latest_key f = latest_key) q with
  | Some (i, f) =>
    if bool_decide (latest_key = EmptyString)
    then q ++ [mkOutboundFrame bytes kReliableLatest latest_key]
    else <[i := mkOutboundFrame bytes (of_qos f) (of_latest_key f)]> q
  | None => q ++ [mkOutboundFrame bytes kReliableLatest latest_key]
  end.

(** The part of an appended frame that lands in the queue of [qos]. *)
Definition added (ok : bool) (bytes : Bytes) (qos qos' : QosClass) (key : string) :
    list OutboundFrame :=
  if ok && bool_decide (qos = qos') then [mkOutboundFrame bytes qos key] else [].

(** The relation between the queues before and after an attempt to enqueue. *)
Record enqueued (ok : bool) (bytes : Bytes) (qos : QosClass) (key : string)
    (s s' : SendState) : Prop := {
  enq_max : max_queued_bytes s' = max_queued_bytes s;
  enq_ordered :
    send_queue s' 0 = send_queue s 0 ++ added ok bytes qos kReliableOrdered key;
  enq_latest :
    send_queue s' 1 = (if ok && bool_decide (qos = kReliableLatest)
                       then put_latest bytes key (send_queue s 1) else send_queue s 1);
  enq_lossy : ∃ q2 q3, q2 `suffix_of` send_queue s 2 ∧ q3 `suffix_of` send_queue s 3
    ∧ (q2 = send_queue s 2 ∨ q3 = [])
    ∧ send_queue s' 2 = q2 ++ added ok bytes qos kBestEffort key
    ∧ send_queue s' 3 = q3 ++ added ok bytes qos kBulk key;
}.

Lemma enqueued_refl bytes qos key s : enqueued false bytes qos key s s.
Proof.
  split; unfold added; cbn [andb]; rewrite ?app_nil_r; try done.
  exists (send_queue s 2), (send_queue s 3). rewrite !app_nil_r.
  repeat split; auto.
Qed.

Lemma latest_keys_put bytes key q :
  NoDup (latest_keys q) → NoDup (latest_keys (put_latest bytes key q)).
Proof.
  intros Hnd. unfold put_latest.
  assert (Happ : (∀ f, f ∈ q → of_latest_key f = key → key = EmptyString) →
    NoDup (latest_keys (q ++ [mkOutboundFrame bytes kReliableLatest key]))).
  { intros Hne. unfold latest_keys. rewrite fmap_app, filter_app. apply NoDup_app.
    split; [done|]. split.
    - intros k [Hk (f & -> & Hf)%list_elem_of_fmap]%list_elem_of_filter.
      intros [_ Hk'%list_elem_of_singleton]%list_elem_of_filter. simpl in Hk'.
      apply Hk. rewrite Hk'. eauto.
    - apply NoDup_filter. simpl. apply NoDup_singleton. }
  destruct (list_find _ q) as [[i f]|] eqn:E.
  - apply list_find_Some in E as (Hi & Hk & _). case_bool_decide as Hemp.
    + apply Happ. by intros.
    + unfold latest_keys. rewrite list_fmap_insert. simpl.
      rewrite list_insert_id; [done|]. by rewrite list_lookup_fmap, Hi.
  - apply Happ. intros f Hf Hk. exfalso. apply list_find_None in E.
    rewrite Forall_forall in E. by eapply E.
Qed.

Lemma put_latest_qos bytes key q f :
  (∀ f, f ∈ q → qos_index (of_qos f) = 1%nat ∧ of_bytes f ≠ []) → bytes ≠ [] →
  f ∈ put_latest bytes key q → qos_index (of_qos f) = 1%nat ∧ of_bytes f ≠ [].
Proof.
  intros Hq Hb. unfold put_latest.
  assert (Happ : f ∈ q ++ [mkOutboundFrame bytes kReliableLatest key] →
    qos_index (of_qos f) = 1%nat ∧ of_bytes f ≠ []).
  { intros [Hf|Hf%list_elem_of_singleton]%elem_of_app; [auto|]. by subst. }
  destruct (list_find _ q) as [[i g]|] eqn:E; [|done].
  case_bool_decide; [done|]. apply list_find_Some in E as (Hi & _).
  intros [j Hj]%list_elem_of_lookup. apply list_lookup_insert_Some in Hj as
    [(_ & <- & _)|[_ Hj]].
  - split; [|done]. simpl. by apply list_elem_of_lookup_2, Hq in Hi as [? _].
  - by eapply Hq, list_elem_of_lookup_2.
Qed.

(** Frames that belong in queue [i]. *)
Definition queue_qos (i : nat) (q : list OutboundFrame) : Prop :=
  ∀ f, f ∈ q → qos_index (of_qos f) = i ∧ of_bytes f ≠ [].

(** The invariant of a state given by its queues. *)
Lemma send_wf_iff q0 q1 q2 q3 n max :
  send_wf (mkSendState [q0; q1; q2; q3] n max) ↔
  queue_qos 0 q0
  ∧ queue_qos 1 q1
  ∧ queue_qos 2 q2
  ∧ queue_qos 3 q3
  ∧ NoDup (latest_keys q1)
  ∧ n = queue_size q0 + queue_size q1 + queue_size q2 + queue_size q3
  ∧ 0 <= max < 2 ^ 62 ∧ n <= max
  ∧ queue_size q1 + queue_size q2 + queue_size q3 <= max - max / 4.
Proof.
  split.
  - intros [_ Hq Hk Hn Hm Hb Hr].
    split; [exact (Hq 0%nat)|]. split; [exact (Hq 1%nat)|].
    split; [exact (Hq 2%nat)|]. by split; [exact (Hq 3%nat)|].
  - intros (H0 & H1 & H2 & H3 & Hk & Hn & Hm & Hb & Hr). split; try done.
    + by eexists _, _, _, _.
    + intros [|[|[|[|i]]]] f; unfold send_queue; simpl; [by apply H0|by apply H1|by apply H2|by apply H3|].
      set_solver.
Qed.

Lemma suffix_elem {A} (l l' : list A) x : l `suffix_of` l' → x ∈ l → x ∈ l'.
Proof. intros [k ->] Hx. set_solver. Qed.

Lemma enqueue_limit_le s qos :
  0 <= max_queued_bytes s →
  enqueue_limit s qos <= max_queued_bytes s
  ∧ (qos ≠ kReliableOrdered →
     enqueue_limit s qos = max_queued_bytes s - max_queued_bytes s / 4).
Proof.
  intros Hm. unfold enqueue_limit, kReliableOrderedReserveFraction.
  pose proof (Z.div_pos (max_queued_bytes s) 4 Hm ltac:(lia)).
  case_bool_decide; split; try done; lia.
Qed.

Lemma queue_qos_snoc i q bytes qos key :
  queue_qos i q → bytes ≠ [] → qos_index qos = i →
  queue_qos i (q ++ [mkOutboundFrame bytes qos key]).
Proof.
  intros Hq Hb Hi f [Hf|Hf%list_elem_of_singleton]%elem_of_app; [auto|]. by subst.
Qed.

Lemma queue_qos_suffix i q q' : queue_qos i q → q' `suffix_of` q → queue_qos i q'.
Proof. intros Hq Hs f Hf. eapply Hq, suffix_elem; eauto. Qed.

Lemma queue_qos_nil i : queue_qos i [].
Proof. intros f Hf. by apply not_elem_of_nil in Hf. Qed.

#[export] Hint Resolve queue_qos_nil queue_qos_snoc queue_qos_suffix : yunlink.
#[export] Hint Extern 0 (qos_index _ = _) => reflexivity : yunlink.

Lemma latest_keys_snoc_put bytes key q :
  put_latest bytes key q = q ++ [mkOutboundFrame bytes kReliableLatest key] →
  NoDup (latest_keys q) →
  NoDup (latest_keys (q ++ [mkOutboundFrame bytes kReliableLatest key])).
Proof. intros <-. apply latest_keys_put. Qed.

(** A frame that finds no room leaves the reliable queues and nothing else. *)
Lemma room_refused bytes qos key q0 q1 q2 q3 n n' max :
  send_wf (mkSendState [q0; q1; q2; q3] n max) → n' = queue_size q0 + queue_size q1 →
  send_wf (mkSendState [q0; q1; []; []] n' max)
  ∧ enqueued false bytes qos key (mkSendState [q0; q1; q2; q3] n max)
      (mkSendState [q0; q1; []; []] n' max).
Proof.
  intros Hwf ->. apply send_wf_iff in Hwf as (H0 & H1 & H2 & H3 & Hk & Hn & Hm & Hbd & Hr).
  pose proof (queue_size_nonneg q2). pose proof (queue_size_nonneg q3). split.
  - apply send_wf_iff. do 5 (split; [by eauto with yunlink|]).
    rewrite !queue_size_nil. lia.
  - split; try done; unfold added; cbn; rewrite ?app_nil_r; try done.
    exists [], []. rewrite ?app_nil_r. repeat split; auto using suffix_nil.
Qed.

Lemma enqueue_append_spec bytes qos key s :
  send_wf s → bytes ≠ [] → vsize bytes <= enqueue_limit s qos →
  (qos = kReliableLatest → put_latest bytes key (send_queue s 1)
     = send_queue s 1 ++ [mkOutboundFrame bytes kReliableLatest key]) →
  ∃ ok s', enqueue_append bytes qos key s = (ok, s')
  ∧ send_wf s' ∧ enqueued ok bytes qos key s s'
  ∧ (ok = false → enqueue_limit s qos
       < queue_size (send_queue s 0) + queue_size (send_queue s 1) + vsize bytes).
Proof.
  intros Hwf Hb Hlim Hput. destruct (wf_queues s Hwf) as (q0 & q1 & q2 & q3 & Hqs).
  destruct s as [qs n max]. simpl in Hqs. subst qs.
  destruct (enqueue_limit_le (mkSendState [q0; q1; q2; q3] n max) qos
    ltac:(apply Hwf)) as [Hle Hne].
  pose proof Hwf as Hwf'. apply send_wf_iff in Hwf as (H0 & H1 & H2 & H3 & Hk & Hn & Hm & Hbd & Hr).
  pose proof (queue_size_nonneg q0). pose proof (queue_size_nonneg q1).
  unfold enqueue_append, make_room. cbn [send_queue send_queues] in *.
  set (limit := enqueue_limit _ _) in *. cbn [max_queued_bytes] in Hle, Hne.
  destruct (make_room_loop_spec (S (length q3 + length q2)) limit (vsize bytes)
    q0 q1 q2 q3 (queue_size q0 + queue_size q1) max)
    as (ok & q2' & q3' & Hroom & Hs2 & Hs3 & Hord & Hok); [lia..|].
  change (send_queue (mkSendState [q0; q1; q2; q3] n max) 3) with q3.
  change (send_queue (mkSendState [q0; q1; q2; q3] n max) 2) with q2.
  replace n with (queue_size q0 + queue_size q1 + queue_size q2 + queue_size q3) by lia.
  rewrite Hroom. pose proof (queue_size_suffix _ _ Hs2). pose proof (queue_size_suffix _ _ Hs3).
  pose proof (queue_size_nonneg q2'). pose proof (queue_size_nonneg q3').
  destruct ok; cbn [queued_bytes].
  - rewrite uint_small by (apply in_uint_range; lia).
    assert (Hf : frame_size (mkOutboundFrame bytes qos key) = vsize bytes) by done.
    assert (Hsz : ∀ q, queue_size (q ++ [mkOutboundFrame bytes qos key])
                       = queue_size q + vsize bytes).
    { intros q. rewrite queue_size_app, queue_size_cons, queue_size_nil, Hf. lia. }
    eexists _, _. split; [done|].
    split; [|split; [|done]].
    + destruct qos; cbn [qos_index];
        unfold send_queue, set_queue, set_queued_bytes; simpl; apply send_wf_iff;
        try specialize (Hne ltac:(done));
        (split; [by eauto with yunlink|]); (split; [by eauto with yunlink|]);
        (split; [by eauto with yunlink|]); (split; [by eauto with yunlink|]);
        (split; [auto using latest_keys_snoc_put|]);
        rewrite Hsz; repeat split; try lia; try apply Hm.
    + assert (Hput' : qos = kReliableLatest →
        q1 ++ [mkOutboundFrame bytes qos key] = put_latest bytes key q1).
      { intros ->. symmetry. by apply Hput. }
      destruct qos; split; unfold added; cbn; rewrite ?app_nil_r;
        first [done|by apply Hput'|exists q2', q3'; by rewrite ?app_nil_r].
  - destruct Hok as (-> & -> & Hlt). rewrite queue_size_nil in *. subst n.
    eexists _, _. split; [done|].
    apply and_assoc. split; [|done]. apply room_refused; [exact Hwf'|lia].
Qed.

Lemma queue_size_lookup q i f : q !! i = Some f → frame_size f <= queue_size q.
Proof.
  revert i. induction q as [|g q IH]; intros [|i] Hi; simplify_eq/=.
  - pose proof (queue_size_nonneg q). lia.
  - apply IH in Hi. unfold frame_size at 2. lia.
Qed.

Lemma enqueue_replace_spec bytes key i frame s :
  send_wf s → bytes ≠ [] → vsize bytes <= enqueue_limit s kReliableLatest →
  key ≠ EmptyString →
  list_find (λ f, of_latest_key f = key) (send_queue s 1) = Some (i, frame) →
  ∃ ok s', enqueue_replace bytes kReliableLatest i frame s = (ok, s')
  ∧ send_wf s' ∧ enqueued ok bytes kReliableLatest key s s'
  ∧ (ok = false → enqueue_limit s kReliableLatest
       < queue_size (send_queue s 0) + queue_size (send_queue s 1) + vsize bytes).
Proof.
  intros Hwf Hb Hlim Hkey Hfind. destruct (wf_queues s Hwf) as (q0 & q1 & q2 & q3 & Hqs).
  destruct s as [qs n max]. simpl in Hqs. subst qs.
  destruct (enqueue_limit_le (mkSendState [q0; q1; q2; q3] n max) kReliableLatest
    ltac:(apply Hwf)) as [Hle Hne]. specialize (Hne ltac:(done)).
  cbn [max_queued_bytes] in Hle, Hne.
  change (send_queue (mkSendState [q0; q1; q2; q3] n max) 1) with q1 in *.
  change (send_queue (mkSendState [q0; q1; q2; q3] n max) 0) with q0 in *.
  pose proof Hwf as Hwf'. apply send_wf_iff in Hwf as (H0 & H1 & H2 & H3 & Hk & Hn & Hm & Hbd & Hr).
  pose proof Hfind as Hput. apply list_find_Some in Hfind as (Hi & Hfk & _).
  pose proof (queue_size_nonneg q0). pose proof (queue_size_lookup _ _ _ Hi).
  pose proof (queue_size_nonneg q2). pose proof (queue_size_nonneg q3).
  assert (0 <= frame_size frame) by (unfold frame_size; lia).
  unfold enqueue_replace, make_room, set_queued_bytes.
  cbn [queued_bytes send_queues max_queued_bytes qos_index].
  set (limit := enqueue_limit _ _) in *.
  rewrite uint_small by (apply in_uint_range; lia).
  destruct (make_room_loop_spec (S (length q3 + length q2)) limit (vsize bytes)
    q0 q1 q2 q3 (queue_size q0 + queue_size q1 - frame_size frame) max)
    as (ok & q2' & q3' & Hroom & Hs2 & Hs3 & Hord & Hok); [lia..|].
  change (send_queue (mkSendState [q0; q1; q2; q3] (n - frame_size frame) max) 3) with q3.
  change (send_queue (mkSendState [q0; q1; q2; q3] (n - frame_size frame) max) 2) with q2.
  change (enqueue_limit (mkSendState [q0; q1; q2; q3] (n - frame_size frame) max)
    kReliableLatest) with limit.
  replace (n - frame_size frame) with
    (queue_size q0 + queue_size q1 - frame_size frame + queue_size q2 + queue_size q3) by lia.
  rewrite Hroom. pose proof (queue_size_suffix _ _ Hs2). pose proof (queue_size_suffix _ _ Hs3).
  pose proof (queue_size_nonneg q2'). pose proof (queue_size_nonneg q3').
  assert (Heq : put_latest bytes key q1
    = <[i := mkOutboundFrame bytes (of_qos frame) (of_latest_key frame)]> q1).
  { unfold put_latest. rewrite Hput. by rewrite bool_decide_false. }
  assert (Hq1 : queue_qos 1 (put_latest bytes key q1)).
  { intros f. by apply put_latest_qos. }
  pose proof (latest_keys_put bytes key q1 Hk) as Hk'. rewrite Heq in Hq1, Hk'.
  destruct ok.
  - eexists _, _. split; [done|].
    unfold set_queue, send_queue; simpl.
    pose proof (queue_size_insert q1 i frame
      (mkOutboundFrame bytes (of_qos frame) (of_latest_key frame)) Hi) as Hsz.
    change (frame_size (mkOutboundFrame bytes (of_qos frame) (of_latest_key frame)))
      with (vsize bytes) in Hsz.
    rewrite uint_small by (apply in_uint_range; lia).
    split; [|split; [|done]].
    + apply send_wf_iff. do 5 (split; [by eauto with yunlink|]). rewrite Hsz. lia.
    + split; unfold added; cbn; rewrite ?app_nil_r; try done.
      exists q2', q3'. by rewrite ?app_nil_r.
  - destruct Hok as (-> & -> & Hlt). cbn [queued_bytes]. rewrite queue_size_nil in *.
    rewrite uint_small by (apply in_uint_range; lia).
    eexists _, _. split; [done|].
    apply and_assoc. split; [|intros _; lia]. apply room_refused; [exact Hwf'|lia].
Qed.

Lemma enqueue_spec running bytes qos key s :
  send_wf s →
  ∃ ok s', runtime_enqueue running bytes qos key s = (ok, s')
  ∧ send_wf s' ∧ enqueued ok bytes qos key s s'
  ∧ (ok = false → bytes = [] ∨ running = false
     ∨ enqueue_limit s qos
       < queue_size (send_queue s 0) + queue_size (send_queue s 1) + vsize bytes).
Proof.
  intros Hwf. unfold runtime_enqueue.
  case_bool_decide as Hb.
  { eexists _, _. split; [done|]. split; [done|]. split; [apply enqueued_refl|auto]. }
  destruct running; cbn [negb orb].
  2: { eexists _, _. split; [done|]. split; [done|]. split; [apply enqueued_refl|auto]. }
  rewrite Z.gtb_ltb. destruct (Z.ltb_spec (enqueue_limit s qos) (vsize bytes)) as [Hlt|Hle].
  { eexists _, _. split; [done|]. split; [done|]. split; [apply enqueued_refl|].
    intros _. do 2 right. pose proof (queue_size_nonneg (send_queue s 0)).
    pose proof (queue_size_nonneg (send_queue s 1)). lia. }
  assert (Happ : (qos = kReliableLatest → put_latest bytes key (send_queue s 1)
     = send_queue s 1 ++ [mkOutboundFrame bytes kReliableLatest key]) →
    ∃ ok s', enqueue_append bytes qos key s = (ok, s')
    ∧ send_wf s' ∧ enqueued ok bytes qos key s s'
    ∧ (ok = false → bytes = [] ∨ true = false
     ∨ enqueue_limit s qos
       < queue_size (send_queue s 0) + queue_size (send_queue s 1) + vsize bytes)).
  { intros Hput. destruct (enqueue_append_spec bytes qos key s) as (ok & s' & ? & ? & ? & ?);
      eauto 10. }
  destruct (bool_decide (qos = kReliableLatest)
            && negb (bool_decide (key = EmptyString))) eqn:Hl.
  - bool_hyps. subst qos. cbn [qos_index].
    destruct (list_find _ (send_queue s 1)) as [[i frame]|] eqn:Hfind.
    + destruct (enqueue_replace_spec bytes key i frame s) as (ok & s' & ? & ? & ? & ?);
        eauto 10.
    + apply Happ. intros _. unfold put_latest. by rewrite Hfind.
  - apply Happ. intros ->. unfold put_latest. rewrite bool_decide_true in Hl by done.
    cbn [andb] in Hl. bool_hyps. subst key.
    destruct (list_find _ _) as [[]|]; [|done]. by rewrite bool_decide_true.
Qed.

(** ** Taking frames *)
Lemma latest_keys_tail f q : NoDup (latest_keys (f :: q)) → NoDup (latest_keys q).
Proof.
  unfold latest_keys. cbn [fmap list_fmap]. rewrite filter_cons.
  destruct (decide _); [|done]. by intros [_ ?]%NoDup_cons.
Qed.

Lemma take_next_spec s :
  send_wf s →
  match take_next_frame s with
  | None => queued_bytes s = 0 ∧ ∀ i, send_queue s i = []
  | Some (f, s') =>
    send_wf s' ∧ max_queued_bytes s' = max_queued_bytes s ∧ 0 < queued_bytes s
    ∧ send_queue s (qos_index (of_qos f)) = f :: send_queue s' (qos_index (of_qos f))
    ∧ (∀ j, j ≠ qos_index (of_qos f) → send_queue s' j = send_queue s j)
    ∧ (∀ j, (j < qos_index (of_qos f))%nat → send_queue s j = [])
  end.
Proof.
  intros Hwf. destruct (wf_queues s Hwf) as (q0 & q1 & q2 & q3 & Hqs).
  destruct s as [qs n max]. simpl in Hqs. subst qs.
  apply send_wf_iff in Hwf as (H0 & H1 & H2 & H3 & Hk & Hn & Hm & Hbd & Hr).
  pose proof (queue_size_nonneg q0). pose proof (queue_size_nonneg q1).
  pose proof (queue_size_nonneg q2). pose proof (queue_size_nonneg q3).
  assert (Hpop : ∀ i f q, queue_qos i (f :: q) →
    qos_index (of_qos f) = i ∧ queue_qos i q ∧ 0 < frame_size f
    ∧ 0 <= queue_size q).
  { intros i f q Hq. destruct (Hq f) as [Hi Hb]; [by apply elem_of_cons; left|].
    split; [done|]. split.
    - intros g Hg. apply Hq. apply elem_of_cons. by right.
    - split; [|apply queue_size_nonneg].
      unfold frame_size. destruct (of_bytes f); [done|]. simpl. lia. }
  pose proof queue_size_nil as Hnil.
  unfold take_next_frame. cbn [send_queues].
  destruct q0 as [|f q0]; [destruct q1 as [|f q1]; [destruct q2 as [|f q2];
    [destruct q3 as [|f q3]|]|]|]; cbn [first_nonempty queued_bytes];
    [split; [rewrite Hn; done|by intros [|[|[|[|i]]]]]|..].
  all: match goal with
  | |- context [set_queue ?i _ _] =>
    match goal with Hq : queue_qos i (_ :: _) |- _ =>
      destruct (Hpop _ _ _ Hq) as (Hi & Hq' & Hpos & Hq'')
    end
  end.
  all: rewrite queue_size_cons in *.
  all: rewrite uint_small by (apply in_uint_range; lia).
  all: rewrite Hi; unfold set_queued_bytes, set_queue; cbn.
  all: split; [apply send_wf_iff; do 4 (split; [eauto with yunlink|]);
    split; [eauto using latest_keys_tail; done|lia]|].
  all: split; [done|]; split; [lia|]; split; [done|].
  all: split; intros [|[|[|[|j]]]] ?; try done; lia.
Qed.

(** A non-empty key marks at most one frame. *)
Lemma latest_keys_unique q i j f g :
  NoDup (latest_keys q) → q !! i = Some f → q !! j = Some g →
  of_latest_key g = of_latest_key f → of_latest_key f ≠ EmptyString → j = i.
Proof.
  revert i j. induction q as [|h q IH]; intros [|i] [|j] Hnd Hi Hj Hk Hne; simplify_eq/=; auto.
  - exfalso. unfold latest_keys in Hnd. cbn [fmap list_fmap] in Hnd.
    rewrite filter_cons_True in Hnd by done. apply NoDup_cons in Hnd as [Hin _].
    apply Hin. apply list_elem_of_filter. split; [done|].
    apply list_elem_of_fmap. exists g. split; [done|]. by eapply list_elem_of_lookup_2.
  - exfalso. unfold latest_keys in Hnd. cbn [fmap list_fmap] in Hnd.
    rewrite filter_cons_True in Hnd by congruence. apply NoDup_cons in Hnd as [Hin _].
    apply Hin. apply list_elem_of_filter. split; [congruence|].
    apply list_elem_of_fmap. exists f. split; [congruence|]. by eapply list_elem_of_lookup_2.
  - f_equal. eapply IH; eauto using latest_keys_tail.
Qed.

(** ** Properties *)

(** C9 Every attempt to enqueue, whatever its outcome, keeps the queues
    consistent: the byte counter is exact and never exceeds [max_queued_bytes],
    the slice reserved for control frames stays free of other traffic, and no two
    frames share a latest-value key.  The reliable queues lose nothing; only the
    oldest bulk frames, and after all of those the oldest best-effort frames, are
    dropped, and an accepted frame goes to the back of its queue or takes the place
    of the frame with its key. *)
Theorem enqueue_correct running bytes qos key s :
  send_wf s →
  ∃ ok s', runtime_enqueue running bytes qos key s = (ok, s')
  ∧ send_wf s' ∧ enqueued ok bytes qos key s s'.
Proof.
  intros Hwf. destruct (enqueue_spec running bytes qos key s Hwf)
    as (ok & s' & ? & ? & ? & _). eauto.
Qed.

(** A burst of other traffic cannot starve the control plane: a
    reliable-ordered frame that fits the reserved quarter together with the
    reliable-ordered frames already queued is always accepted. *)
Theorem control_frame_admitted bytes key s :
  send_wf s → bytes ≠ [] →
  queue_size (send_queue s 0) + vsize bytes
    <= max_queued_bytes s / kReliableOrderedReserveFraction →
  (runtime_enqueue true bytes kReliableOrdered key s).1 = true.
Proof.
  intros Hwf Hb Hfit. unfold kReliableOrderedReserveFraction in Hfit.
  destruct (enqueue_spec true bytes kReliableOrdered key s Hwf)
    as ([|] & s' & -> & _ & _ & Hno); [done|].
  destruct (Hno eq_refl) as [?|[?|Hlt]]; [done|done|].
  pose proof (wf_reserve s Hwf). pose proof (wf_max s Hwf).
  pose proof (queue_size_nonneg (send_queue s 2)).
  pose proof (queue_size_nonneg (send_queue s 3)).
  unfold enqueue_limit in Hlt. rewrite bool_decide_true in Hlt by done. lia.
Qed.

(** Frames leave by strict priority and first in, first out within a priority,
    the byte counter following exactly; nothing is taken exactly when nothing is
    queued, which is the condition the send thread waits on. *)
Theorem take_next_correct s :
  send_wf s →
  match take_next_frame s with
  | None => queued_bytes s = 0 ∧ ∀ i, send_queue s i = []
  | Some (f, s') =>
    send_wf s' ∧ max_queued_bytes s' = max_queued_bytes s ∧ 0 < queued_bytes s
    ∧ send_queue s (qos_index (of_qos f)) = f :: send_queue s' (qos_index (of_qos f))
    ∧ (∀ j, j ≠ qos_index (of_qos f) → send_queue s' j = send_queue s j)
    ∧ (∀ j, (j < qos_index (of_qos f))%nat → send_queue s j = [])
  end.
Proof. apply take_next_spec. Qed.

(** After a latest-value frame is accepted, the queue holds exactly one frame
    with its key, and it carries the newest bytes. *)
Theorem latest_value_wins running bytes key s s' :
  send_wf s → key ≠ EmptyString →
  runtime_enqueue running bytes kReliableLatest key s = (true, s') →
  ∃ i f, send_queue s' 1 !! i = Some f ∧ of_latest_key f = key ∧ of_bytes f = bytes
  ∧ ∀ j g, send_queue s' 1 !! j = Some g → of_latest_key g = key → j = i.
Proof.
  intros Hwf Hkey He. destruct (enqueue_spec running bytes kReliableLatest key s Hwf)
    as (ok & s1 & He' & Hwf' & Henq & _).
  assert (ok = true ∧ s1 = s') as [-> ->] by (by rewrite He' in He; simplify_eq).
  assert (Hfrom : ∃ i f, send_queue s' 1 !! i = Some f ∧ of_latest_key f = key
                         ∧ of_bytes f = bytes).
  { rewrite (enq_latest _ _ _ _ _ _ Henq). cbn. rewrite bool_decide_true by done.
    unfold put_latest. destruct (list_find _ _) as [[i f]|] eqn:E.
    - apply list_find_Some in E as (Hi & Hk & _). rewrite bool_decide_false by done.
      eexists i, _. rewrite list_lookup_insert_eq by (by eapply lookup_lt_Some). done.
    - eexists (length (send_queue s 1)), _.
      rewrite lookup_app_r, Nat.sub_diag by lia. done. }
  destruct Hfrom as (i & f & Hi & Hk & Hb). exists i, f. repeat split; try done.
  intros j g Hj Hg. pose proof (wf_keys s' Hwf') as Hnd.
  eapply (latest_keys_unique (send_queue s' 1) i j f g); try done; congruence.
Qed.

(** *** The send queue over time *)

(** What other threads do to the queue of a running connection: an attempt to
    enqueue, or the send thread taking a frame. *)
Inductive send_op :=
  | OpEnqueue (bytes : Bytes) (qos : QosClass) (latest_key : string)
  | OpTake.

Definition is_ordered (f : OutboundFrame) : bool :=
  bool_decide (of_qos f = kReliableOrdered).

(** Runs a sequence of operations; the reliable-ordered frames accepted, and those
    taken, in order. *)
Fixpoint run_send (ops : list send_op) (s : SendState) :
    list OutboundFrame * list OutboundFrame * SendState :=
  match ops with
  | [] => ([], [], s)
  | OpEnqueue bytes qos key :: ops =>
    let r := runtime_enqueue true bytes qos key s in
    let rest := run_send ops r.2 in
    ((if r.1 && bool_decide (qos = kReliableOrdered)
      then [mkOutboundFrame bytes qos key] else []) ++ rest.1.1, rest.1.2, rest.2)
  | OpTake :: ops =>
    match take_next_frame s with
    | None => run_send ops s
    | Some (f, s) =>
      let rest := run_send ops s in
      (rest.1.1, (if is_ordered f then [f] else []) ++ rest.1.2, rest.2)
    end
  end.

Lemma run_send_spec ops s :
  send_wf s →
  send_wf (run_send ops s).2
  ∧ send_queue s 0 ++ (run_send ops s).1.1
    = (run_send ops s).1.2 ++ send_queue (run_send ops s).2 0.
Proof.
  revert s. induction ops as [|[bytes qos key|] ops IH]; intros s Hwf; cbn [run_send].
  - simpl. by rewrite app_nil_r.
  - destruct (enqueue_spec true bytes qos key s Hwf) as (ok & s' & He & Hwf' & Henq & _).
    rewrite He. cbn [fst snd]. destruct (IH s' Hwf') as [Hwf'' Hq]. split; [done|].
    rewrite <- Hq, (enq_ordered _ _ _ _ _ _ Henq), <- app_assoc. by unfold added.
  - pose proof (take_next_spec s Hwf) as Ht.
    destruct (take_next_frame s) as [[f s']|]; [|by apply IH].
    destruct Ht as (Hwf' & _ & _ & Hq & Hsame & _). cbn [fst snd].
    destruct (IH s' Hwf') as [Hwf'' Hr]. split; [done|].
    unfold is_ordered. case_bool_decide as Ho.
    + rewrite Ho in Hq. cbn [qos_index] in Hq. rewrite Hq. simpl. by rewrite Hr.
    + cbn [app]. rewrite <- Hr. f_equal. symmetry. apply Hsame.
      by destruct (of_qos f).
Qed.

(** C6 The reliable-ordered channel is a lossless FIFO: over any interleaving of
    enqueues of all classes with the send thread, the frames taken followed by
    those still queued are the frames accepted, in order. *)
Theorem reliable_ordered_fifo max ops :
  0 <= max < 2 ^ 62 →
  (run_send ops (empty_send_state max)).1.1
  = (run_send ops (empty_send_state max)).1.2
    ++ send_queue (run_send ops (empty_send_state max)).2 0.
Proof.
  intros Hmax. destruct (run_send_spec ops (empty_send_state max) (empty_wf max Hmax))
    as [_ Hq]. exact Hq.
Qed.

(** *** Witnesses *)

Definition sample_bytes (n : nat) : Bytes := replicate n Byte.x2a.

(** A connection of 100 bytes with every queue in use. *)
Definition sample_queue : SendState :=
  (run_send [OpEnqueue (sample_bytes 10) kReliableOrdered EmptyString;
             OpEnqueue (sample_bytes 20) kReliableLatest "pose"%string;
             OpEnqueue (sample_bytes 15) kBestEffort EmptyString;
             OpEnqueue (sample_bytes 25) kBulk EmptyString]
    (empty_send_state 100)).2.

Lemma sample_queue_wf : send_wf sample_queue.
Proof. apply run_send_spec, empty_wf. lia. Qed.

Lemma enqueue_correct_witness :
  ∃ ok s', runtime_enqueue true (sample_bytes 30) kBestEffort EmptyString sample_queue
           = (ok, s')
  ∧ send_wf s'
  ∧ enqueued ok (sample_bytes 30) kBestEffort EmptyString sample_queue s'.
Proof. apply enqueue_correct, sample_queue_wf. Defined.

Lemma control_frame_admitted_witness :
  (runtime_enqueue true (sample_bytes 15) kReliableOrdered EmptyString sample_queue).1 = true.
Proof.
  apply control_frame_admitted;
    [apply sample_queue_wf|done|vm_compute; intros Hx; discriminate Hx].
Defined.

Lemma take_next_correct_witness :
  match take_next_frame sample_queue with
  | None => queued_bytes sample_queue = 0 ∧ ∀ i, send_queue sample_queue i = []
  | Some (f, s') =>
    send_wf s' ∧ max_queued_bytes s' = max_queued_bytes sample_queue
    ∧ 0 < queued_bytes sample_queue
    ∧ send_queue sample_queue (qos_index (of_qos f))
      = f :: send_queue s' (qos_index (of_qos f))
    ∧ (∀ j, j ≠ qos_index (of_qos f) → send_queue s' j = send_queue sample_queue j)
    ∧ (∀ j, (j < qos_index (of_qos f))%nat → send_queue sample_queue j = [])
  end.
Proof. apply take_next_correct, sample_queue_wf. Defined.

Lemma latest_value_wins_witness :
  ∃ i f, send_queue (runtime_enqueue true (sample_bytes 22) kReliableLatest "pose"
                       sample_queue).2 1 !! i = Some f
  ∧ of_latest_key f = "pose"%string ∧ of_bytes f = sample_bytes 22
  ∧ ∀ j g, send_queue (runtime_enqueue true (sample_bytes 22) kReliableLatest "pose"
                         sample_queue).2 1 !! j = Some g →
      of_latest_key g = "pose"%string → j = i.
Proof.
  apply (latest_value_wins true (sample_bytes 22) "pose" sample_queue);
    [apply sample_queue_wf|done|vm_compute; reflexivity].
Defined.

Lemma reliable_ordered_fifo_witness :
  let ops := [OpEnqueue (sample_bytes 10) kReliableOrdered EmptyString; OpTake;
              OpEnqueue (sample_bytes 11) kReliableOrdered EmptyString] in
  (run_send ops (empty_send_state 100)).1.1
  = (run_send ops (empty_send_state 100)).1.2
    ++ send_queue (run_send ops (empty_send_state 100)).2 0.
Proof. apply reliable_ordered_fifo. lia. Defined.
