(* ===== verification/SocketWrite.v ===== *)
(** * SocketWrite: putting frames on the wire

    [write_frame_chunks], [write_socket] and the body of [runtime_send_loop] of
    [src/runtime/v2/runtime_network.cpp].  The socket and the other threads are an
    environment: the outcome of every [write_some] and the value of every read of
    the [running] flag.  Besides the program's result the definitions return the
    bytes the socket took, which the program does not keep but its peer sees. *)

From Stdlib Require Import ZArith Lia String Ascii Strings.Byte.
From stdpp Require Import base gmap strings list fin_maps.
From S2P Require Import Prelude StdMap Codec WireTypes WireCodec Framing SendQueue.
Local Open Scope Z_scope.

(** ** Definitions *)

Inductive SocketWriteStatus := kComplete | kCongested | kDisconnected.

#[export] Instance SocketWriteStatus_eq_dec : EqDecision SocketWriteStatus.
Proof. solve_decision. Defined.

Record SocketWriteResult := mkSocketWriteResult {
  swr_status : SocketWriteStatus;
  swr_bytes_written : Z;
  swr_error : string;
}.

(** The [std::error_code] a [write_some] leaves: none, [would_block] or
    [try_again], or another one; with its message. *)
Inductive SendError :=
  | NoError
  | WouldBlock (message : string)
  | OtherError (message : string).

(** The environment of one call of [write_frame_chunks]: what its [i]-th
    [send_chunk] does with the bytes it is offered, and its [i]-th reading of
    [running]. *)
Record SocketEnv := mkSocketEnv {
  env_send : nat → Bytes → nat * SendError;
  env_running : nat → bool;
}.

(** [write_some] takes at most the bytes it is offered. *)
Definition env_valid (env : SocketEnv) : Prop :=
  ∀ i data, ((env_send env i data).1 <= length data)%nat.

Definition kWriteQuantumBytes : nat := Pos.to_nat 16384.
Definition kCongestionRetryLimit : Z := 1000.

(** The loop of [write_frame_chunks], [i] and [j] being the numbers of the next
    [send_chunk] and the next reading of [running].  The result is [None] when
    [fuel] runs out; the second component is what the socket took. *)
Fixpoint write_loop (fuel : nat) (env : SocketEnv) (bytes : Bytes) (retry_limit : Z)
    (offset : nat) (retry_count : Z) (i j : nat) (wire : Bytes) :
    option (SocketWriteResult * Bytes) :=
  match fuel with
  | O => None
  | S fuel =>
    if (Z.of_nat offset <? vsize bytes) && env_running env j then
      let j := S j in
      let chunk := take kWriteQuantumBytes (drop offset bytes) in
      let sent := (env_send env i chunk).1 in
      let offset := (offset + sent)%nat in
      let wire := wire ++ take sent chunk in
      match (env_send env i chunk).2 with
      | NoError =>
        if bool_decide (sent = O)
        then Some (mkSocketWriteResult kDisconnected (Z.of_nat offset) "zero-byte write",
                   wire)
        else write_loop fuel env bytes retry_limit offset 0 (S i) j wire
      | OtherError message =>
        Some (mkSocketWriteResult kDisconnected (Z.of_nat offset) message, wire)
      | WouldBlock message =>
        let retry_count := if bool_decide (sent = O) then retry_count else 0 in
        if retry_count + 1 >? retry_limit
        then Some (mkSocketWriteResult kCongested (Z.of_nat offset) message, wire)
        else write_loop fuel env bytes retry_limit offset (retry_count + 1) (S i) j wire
      end
    else
      let j := if Z.of_nat offset <? vsize bytes then S j else j in
      Some (if Z.of_nat offset =? vsize bytes
            then mkSocketWriteResult kComplete (Z.of_nat offset) EmptyString
            else mkSocketWriteResult
                   (if env_running env j then kCongested else kDisconnected)
                   (Z.of_nat offset) "socket stopped during write", wire)
  end.

(** Enough iterations for a frame of [n] bytes: between two bytes at most
    [retry_limit] retries. *)
Definition write_fuel (n : nat) (retry_limit : Z) : nat :=
  S (S n * S (Z.to_nat retry_limit)).

Definition write_frame_chunks (env : SocketEnv) (bytes : Bytes) (retry_limit : Z) :
    option (SocketWriteResult * Bytes) :=
  if bool_decide (bytes = []) || negb (env_running env 0)
  then Some (mkSocketWriteResult kDisconnected 0 "socket unavailable", [])
  else write_loop (write_fuel (length bytes) retry_limit) env bytes retry_limit
         0 0 0 1 [].

(** [may_drop_congested_frame]. *)
Definition may_drop_congested_frame (qos : QosClass) (bytes_written : Z) : bool :=
  (bytes_written =? 0) && qos_may_drop qos.

(** What the body of [runtime_send_loop] does with a frame: go on after a complete
    write, go on without the frame, or report the failure and close the socket. *)
Inductive SendOutcome := SendDone | SendSkipped | SendClosed (result : SocketWriteResult).

Definition send_frame (env : SocketEnv) (frame : OutboundFrame) :
    option (SendOutcome * Bytes) :=
  r ← write_frame_chunks env (of_bytes frame) kCongestionRetryLimit;
  let result := r.1 in
  if bool_decide (swr_status result = kComplete) then Some (SendDone, r.2)
  else if bool_decide (swr_status result = kCongested)
          && may_drop_congested_frame (of_qos frame) (swr_bytes_written result)
  then Some (SendSkipped, r.2)
  else Some (SendClosed result, r.2).

(** The send thread over the frames it takes, each with its own environment, until
    a failed write ends it: the outcomes and the bytes on the wire. *)
Fixpoint send_frames (frames : list (OutboundFrame * SocketEnv)) :
    option (list SendOutcome * Bytes) :=
  match frames with
  | [] => Some ([], [])
  | (frame, env) :: frames =>
    r ← send_frame env frame;
    match r with
    | (SendClosed result, wire) => Some ([SendClosed result], wire)
    | (outcome, wire) =>
      rest ← send_frames frames;
      Some (outcome :: rest.1, wire ++ rest.2)
    end
  end.

(** ** One write *)

(** A write that ends has put a prefix of the frame on the wire, of the length it
    reports, and reports completion only for the whole frame. *)
Definition write_ok (bytes : Bytes) (r : SocketWriteResult * Bytes) : Prop :=
  r.2 = take (Z.to_nat (swr_bytes_written r.1)) bytes
  ∧ 0 <= swr_bytes_written r.1 <= vsize bytes
  ∧ (swr_status r.1 = kComplete → r.2 = bytes).

Lemma write_loop_spec fuel env bytes retry_limit offset retry_count i j wire :
  env_valid env → 0 <= retry_limit → (offset <= length bytes)%nat →
  wire = take offset bytes → 0 <= retry_count <= retry_limit →
  ((length bytes - offset) * S (Z.to_nat retry_limit)
   + (Z.to_nat retry_limit - Z.to_nat retry_count) + 1 < fuel)%nat →
  ∃ r, write_loop fuel env bytes retry_limit offset retry_count i j wire = Some r
  ∧ write_ok bytes r.
Proof.
  intros Henv Hlim. revert offset retry_count i j wire.
  induction fuel as [|fuel IH]; intros offset retry i j wire Hoff Hwire Hretry Hfuel; [by apply Nat.nlt_0_r in Hfuel|].
  assert (Hok : ∀ status off message, (off <= length bytes)%nat → status ≠ kComplete →
    write_ok bytes (mkSocketWriteResult status (Z.of_nat off) message, take off bytes)).
  { intros status off message Hle Hst. split; cbn; [by rewrite Nat2Z.id|].
    split; [lia|done]. }
  cbn [write_loop]. destruct (Z.ltb_spec (Z.of_nat offset) (vsize bytes)) as [Hlt|Hge]; cbn [andb].
  2: { assert (offset = length bytes) as -> by lia. rewrite Z.eqb_refl.
       eexists. split; [done|]. subst wire. split; cbn; [by rewrite Nat2Z.id|].
       split; [lia|]. intros _. by rewrite firstn_all. }
  destruct (env_running env j) eqn:Hrun; cbn [andb].
  2: { destruct (Z.eqb_spec (Z.of_nat offset) (vsize bytes)); [lia|].
       eexists. split; [done|]. subst wire. apply Hok; [lia|]. by case_match. }
  set (chunk := take kWriteQuantumBytes (drop offset bytes)).
  pose proof (Henv i chunk) as Hsent.
  destruct (env_send env i chunk) as [sent err]. cbn [fst snd] in *.
  assert (Hchunk : (length chunk <= length bytes - offset)%nat).
  { unfold chunk. rewrite length_take, length_drop. lia. }
  assert (Hw : wire ++ take sent chunk = take (offset + sent) bytes).
  { subst wire. unfold chunk in *. rewrite take_take.
    rewrite length_take in Hsent. rewrite Nat.min_l by lia.
    by rewrite take_take_drop. }
  rewrite Hw. destruct err as [|message|message].
  - case_bool_decide as Hz.
    + eexists. split; [done|]. apply Hok; [lia|done].
    + apply IH; [lia|done|lia|]. nia.
  - case_bool_decide as Hz; rewrite Z.gtb_ltb.
    + destruct (Z.ltb_spec retry_limit (retry + 1)).
      { eexists. split; [done|]. apply Hok; [lia|done]. }
      apply IH; [lia|done|lia|]. subst sent. rewrite Nat.add_0_r. lia.
    + destruct (Z.ltb_spec retry_limit (0 + 1)).
      { eexists. split; [done|]. apply Hok; [lia|done]. }
      apply IH; [lia|done|lia|]. nia.
  - eexists. split; [done|]. apply Hok; [lia|done].
Qed.

Lemma write_frame_chunks_spec env bytes retry_limit :
  env_valid env → 0 <= retry_limit →
  ∃ r, write_frame_chunks env bytes retry_limit = Some r
  ∧ write_ok bytes r ∧ (swr_status r.1 = kComplete → bytes ≠ []).
Proof.
  intros Henv Hlim. unfold write_frame_chunks. case_bool_decide as Hb; cbn [orb].
  { eexists. split; [done|]. split; [|done]. split; [done|]. split; [cbn; lia|done]. }
  destruct (env_running env 0); cbn [negb].
  2: { eexists. split; [done|]. split; [|done]. split; [done|]. split; [cbn; lia|done]. }
  destruct (write_loop_spec (write_fuel (length bytes) retry_limit) env bytes retry_limit
    0 0 0 1 []) as (r & Hr & Hok); [done|done|lia|done|lia| |].
  { unfold write_fuel. lia. }
  exists r. auto.
Qed.

(** What was left on the wire by a write that ended in failure: the beginning of the
    frame, as long as the write reports. *)
Definition cut_off (bytes : Bytes) (r : SocketWriteResult) (wire : Bytes) : Prop :=
  swr_status r ≠ kComplete ∧ 0 <= swr_bytes_written r <= vsize bytes
  ∧ wire = take (Z.to_nat (swr_bytes_written r)) bytes.

Lemma send_frame_spec env frame :
  env_valid env →
  ∃ outcome wire, send_frame env frame = Some (outcome, wire)
  ∧ match outcome with
    | SendDone => wire = of_bytes frame
    | SendSkipped => wire = [] ∧ qos_may_drop (of_qos frame) = true
    | SendClosed r =>
      cut_off (of_bytes frame) r wire
      ∧ (swr_status r = kCongested → qos_may_drop (of_qos frame) = true →
         swr_bytes_written r ≠ 0)
    end.
Proof.
  intros Henv. unfold send_frame.
  destruct (write_frame_chunks_spec env (of_bytes frame) kCongestionRetryLimit)
    as (r & Hr & (Hw & Hn & Hc) & _); [done|done|].
  rewrite Hr. cbn [mbind option_bind].
  case_bool_decide as Hst; [eexists _, _; split; [done|]; by apply Hc|].
  destruct (_ && _) eqn:Hd.
  - unfold may_drop_congested_frame in Hd. bool_hyps.
    eexists _, _. split; [done|]. split; [|done].
    rewrite Hw. by replace (swr_bytes_written r.1) with 0.
  - eexists _, _. split; [done|]. split; [done|]. intros Hcong Hdrop Hz.
    rewrite bool_decide_eq_true_2 in Hd by done. unfold may_drop_congested_frame in Hd.
    by rewrite Hdrop, Hz in Hd.
Qed.

(** ** Properties *)

(** C37 Writing a frame ends, whatever the socket does: at most [retry_limit] waits
    separate two bytes.  The bytes on the wire are then a prefix of the frame, of
    the length reported, and the write counts as complete only when that prefix is
    the whole frame. *)
Theorem write_frame_chunks_terminates env bytes retry_limit :
  env_valid env → 0 <= retry_limit →
  ∃ r, write_frame_chunks env bytes retry_limit = Some r
  ∧ r.2 = take (Z.to_nat (swr_bytes_written r.1)) bytes
  ∧ 0 <= swr_bytes_written r.1 <= vsize bytes
  ∧ (swr_status r.1 = kComplete → r.2 = bytes).
Proof.
  intros Henv Hlim. destruct (write_frame_chunks_spec env bytes retry_limit Henv Hlim)
    as (r & Hr & (? & ? & ?) & _). eauto 6.
Qed.

(** The frames a run of the send thread completed. *)
Definition completed (frames : list (OutboundFrame * SocketEnv))
    (outcomes : list SendOutcome) : list OutboundFrame :=
  omap (λ p, match p.2 with SendDone => Some p.1.1 | _ => None end)
    (zip frames outcomes).

(** How a run of the send thread ended: with a frame whose write failed, as the last
    one it took and with nothing on the wire but the beginning of that frame, or with
    all its frames handled and nothing more on the wire. *)
Definition run_end (frames : list (OutboundFrame * SocketEnv)) (outcomes : list SendOutcome)
    (partial : Bytes) : Prop :=
  match last outcomes with
  | Some (SendClosed r) =>
    ∃ p, frames !! pred (length outcomes) = Some p ∧ cut_off (of_bytes p.1) r partial
    ∧ (swr_status r = kCongested → qos_may_drop (of_qos p.1) = true →
       swr_bytes_written r ≠ 0)
  | _ => partial = [] ∧ length outcomes = length frames
  end.

Lemma run_end_cons p frames o outcomes partial :
  (∀ r, o ≠ SendClosed r) → run_end frames outcomes partial →
  run_end (p :: frames) (o :: outcomes) partial.
Proof.
  unfold run_end. intros Ho. destruct outcomes as [|o' outcomes].
  - cbn. intros [-> Hl]. destruct o; [by rewrite <- Hl..|]. by edestruct Ho.
  - rewrite last_cons_cons. destruct (last (o' :: outcomes)) as [[| |r]|]; cbn;
      [intros [-> ->]; done..|done|intros [-> ->]; done].
Qed.

(** C36 The stream a peer receives stays framed: over any run of the send thread, the
    wire carries exactly the completed frames, whole and in order, and after them
    nothing, or, when the connection was closed, the first bytes of the frame whose
    write failed, as many as that write reports.  No frame is taken after the failed
    one.  A frame is skipped without closing the connection only if it is best-effort
    or bulk and none of its bytes were sent, and congestion closes the connection over
    such a frame only once some of it was sent. *)
Theorem send_frames_framed frames :
  Forall (λ p, env_valid p.2) frames →
  ∃ outcomes wire partial, send_frames frames = Some (outcomes, wire)
  ∧ wire = concat (of_bytes <$> completed frames outcomes) ++ partial
  ∧ run_end frames outcomes partial
  ∧ (∀ i r, outcomes !! i = Some (SendClosed r) → S i = length outcomes)
  ∧ (∀ i, outcomes !! i = Some SendSkipped →
       ∃ p, frames !! i = Some p ∧ qos_may_drop (of_qos p.1) = true).
Proof.
  intros Hf. induction Hf as [|[frame env] frames Henv Hf IH]; cbn [send_frames].
  { eexists [], [], []. repeat split; try done. }
  destruct (send_frame_spec env frame Henv) as (outcome & wire & -> & Hout).
  cbn [mbind option_bind].
  destruct IH as (outcomes & wire' & partial & Hs & Hw & Hend & Hlast & Hskip).
  destruct outcome as [| |r]; rewrite ?Hs; cbn [mbind option_bind fst snd].
  - eexists (SendDone :: outcomes), _, partial. split; [done|].
    split; [by rewrite Hw, Hout; cbn; rewrite <- app_assoc|].
    split; [by apply run_end_cons|]. split; intros [|i]; [done| |done|apply Hskip].
    intros r Hi. cbn. f_equal. by eapply Hlast.
  - destruct Hout as [-> Hd]. eexists (SendSkipped :: outcomes), _, partial. split; [done|].
    split; [by rewrite Hw|]. split; [by apply run_end_cons|].
    split; intros [|i]; [done| |by exists (frame, env)|apply Hskip].
    intros r Hi. cbn. f_equal. by eapply Hlast.
  - eexists [SendClosed r], _, wire. split; [done|]. split; [by destruct frames|].
    split; [by exists (frame, env)|]. split; intros [|[|i]]; try done.
Qed.

(** *** Witnesses *)

(** A socket that takes at most five bytes at a time and blocks every third call. *)
Definition slow_socket : SocketEnv :=
  mkSocketEnv (λ i data, if decide (i mod 3 = 2)%nat then (0%nat, WouldBlock "busy")
                         else (Nat.min 5 (length data), NoError))
    (λ _, true).

(** A socket that fails after its first call. *)
Definition failing_socket : SocketEnv :=
  mkSocketEnv (λ i data, match i with
                         | O => (Nat.min 5 (length data), NoError)
                         | _ => (0%nat, OtherError "reset")
                         end) (λ _, true).

Lemma slow_socket_valid : env_valid slow_socket.
Proof. intros i data. cbn -[Nat.min]. case_decide; cbn -[Nat.min]; lia. Qed.

Lemma failing_socket_valid : env_valid failing_socket.
Proof. intros [|i] data; cbn -[Nat.min]; lia. Qed.

Lemma write_frame_chunks_terminates_witness :
  ∃ r, write_frame_chunks slow_socket (sample_bytes 23) 1000 = Some r
  ∧ r.2 = take (Z.to_nat (swr_bytes_written r.1)) (sample_bytes 23)
  ∧ 0 <= swr_bytes_written r.1 <= vsize (sample_bytes 23)
  ∧ (swr_status r.1 = kComplete → r.2 = sample_bytes 23).
Proof. apply write_frame_chunks_terminates; [apply slow_socket_valid|lia]. Defined.

Definition sample_frames : list (OutboundFrame * SocketEnv) :=
  [(mkOutboundFrame (sample_bytes 12) kReliableOrdered EmptyString, slow_socket);
   (mkOutboundFrame (sample_bytes 9) kBestEffort EmptyString, failing_socket)].

Lemma send_frames_framed_witness :
  ∃ outcomes wire partial, send_frames sample_frames = Some (outcomes, wire)
  ∧ wire = concat (of_bytes <$> completed sample_frames outcomes) ++ partial
  ∧ run_end sample_frames outcomes partial
  ∧ (∀ i r, outcomes !! i = Some (SendClosed r) → S i = length outcomes)
  ∧ (∀ i, outcomes !! i = Some SendSkipped →
       ∃ p, sample_frames !! i = Some p ∧ qos_may_drop (of_qos p.1) = true).
Proof.
  apply send_frames_framed.
  constructor; [apply slow_socket_valid|]. constructor; [apply failing_socket_valid|].
  constructor.
Defined.
