(* ===== verification/RuntimeCommon.v ===== *)
(** * RuntimeCommon: the state of a Runtime and its helpers

    The types of [include/yunlink/runtime/runtime_v2.hpp] and
    [src/runtime/v2/runtime_internal.hpp] and the functions of
    [src/runtime/v2/runtime_common.cpp].

    - [std::shared_ptr<RuntimeConnection>] is a handle into a heap of connection
      objects, so that a connection taken out of [connections] and kept in a local
      variable is still the same object.
    - [sessions] and [authority_leases] are [std::map]s and keep their order;
      [connections] and [lane_owner] are hash maps.
    - The two clocks are arguments: [system_clock] in milliseconds and
      [steady_clock] in nanoseconds.
    - Calling the event handlers appends to a trace the event with the tokens of
      the handlers that receive it. *)

From Stdlib Require Import ZArith Lia String Ascii Strings.Byte.
From stdpp Require Import base gmap strings list fin_maps.
From S2P Require Import Prelude StdMap Codec WireTypes WireCodec CoreMessages Framing SendQueue.
Local Open Scope Z_scope.

(** ** Enumerations of runtime_v2.hpp *)

Module SessionOperation.
Definition kHello : Z := 1.
Definition kAuthenticate : Z := 2.
Definition kProfiles : Z := 3.
Definition kReady : Z := 4.
Definition kLaneBind : Z := 5.
Definition kLaneReady : Z := 6.
End SessionOperation.

Module AuthorityOperation.
Definition kClaim : Z := 1.
Definition kRenew : Z := 2.
Definition kRelease : Z := 3.
Definition kStatus : Z := 4.
End AuthorityOperation.

Module ActionOperation.
Definition kGoal : Z := 1.
Definition kUpdate : Z := 2.
Definition kCancel : Z := 3.
End ActionOperation.

Inductive SessionState :=
  | kHandshaking | kAuthenticated | kNegotiated | kActive | kInvalid | kLost.

Definition SessionState_value (s : SessionState) : Z :=
  match s with
  | kHandshaking => 1 | kAuthenticated => 2 | kNegotiated => 3
  | kActive => 4 | kInvalid => 5 | kLost => 6
  end.

Inductive RuntimeEventKind := EventEnvelope | EventLink | EventSession | EventError.

Definition RuntimeEventKind_value (k : RuntimeEventKind) : Z :=
  match k with EventEnvelope => 1 | EventLink => 2 | EventSession => 3 | EventError => 4 end.

#[export] Instance SessionState_eq_dec : EqDecision SessionState.
Proof. solve_decision. Defined.
#[export] Instance RuntimeEventKind_eq_dec : EqDecision RuntimeEventKind.
Proof. solve_decision. Defined.

(** ** Structures of runtime_v2.hpp *)

(** [qos_policies], [capabilities] and the two timing parameters are not read by the
    functions modelled here. *)
Record RuntimeConfig := mkRuntimeConfig {
  cfg_endpoint_uid : string;
  cfg_display_name : string;
  cfg_entities : list EntityDescriptor;
  cfg_profiles : list ProfileDescriptor;
  cfg_required_profiles : list ProfileDescriptor;
  cfg_group_uids : list string;
  cfg_action_authority_scope_resolver : option (TypeRef → string);
  cfg_shared_secret : string;
  cfg_tcp_listen_port : Z;
  cfg_max_buffer_bytes_per_peer : Z;
}.

Record Peer := mkPeer {
  peer_id : string;
  peer_ip : string;
  peer_port : Z;
}.

Record SessionInfo := mkSessionInfo {
  si_session_id : Z;
  si_peer_id : string;
  si_remote_endpoint_uid : string;
  si_state : SessionState;
  si_authenticated : bool;
  si_negotiated_profiles : stdmap string ProfileDescriptor;
  si_rejected_profiles : list string;
  si_lossy_peer_id : string;
}.

Definition default_SessionInfo : SessionInfo :=
  mkSessionInfo 0 EmptyString EmptyString kHandshaking false ∅ [] EmptyString.

Record RuntimeEvent := mkRuntimeEvent {
  ev_kind : RuntimeEventKind;
  ev_peer : Peer;
  ev_envelope : Envelope;
  ev_session : SessionInfo;
  ev_error : ErrorCode;
  ev_message : string;
  ev_link_up : bool;
}.

Record MessageHandle := mkMessageHandle {
  mh_session_id : Z;
  mh_message_id : Z;
  mh_correlation_id : Z;
}.

(** [has_profile], [supports_profile]. *)
Definition supports_profile (session : SessionInfo) (profile_id : string)
    (major minimum_minor : Z) : bool :=
  match si_negotiated_profiles session !! profile_id with
  | Some it => (pd_major it =? major) && (minimum_minor <=? pd_minor it)
  | None => false
  end.

Definition has_profile (session : SessionInfo) (profile_id : string) (major : Z) : bool :=
  supports_profile session profile_id major 0.

(** ** Structures of runtime_internal.hpp *)

(** The socket, the threads and the mutexes are not state of the model. *)
Record RuntimeConnection := mkRuntimeConnection {
  rc_peer : Peer;
  rc_running : bool;
  rc_send : SendState;
  rc_receive_buffer : Bytes;
}.

Record AuthorityLease := mkAuthorityLease {
  al_peer_id : string;
  al_session_id : Z;
  al_expires_at : Z;
}.

(** A [std::shared_ptr<RuntimeConnection>]. *)
Abbreviation handle := nat.

Record Impl := mkImpl {
  im_config : RuntimeConfig;
  im_running : bool;
  im_next_message_id : Z;
  im_next_session_id : Z;
  im_heap : gmap handle RuntimeConnection;
  im_connections : gmap string handle;
  im_sessions : stdmap (string * Z) SessionInfo;
  im_lane_owner : gmap string (string * Z);
  im_authority_leases : stdmap (string * string) AuthorityLease;
  im_next_subscription : Z;
  im_handlers : gset Z;
  im_trace : list (list Z * RuntimeEvent);
}.

(** *** Updates of one field *)

Definition set_config (x : RuntimeConfig) (impl : Impl) : Impl :=
  mkImpl x (im_running impl) (im_next_message_id impl) (im_next_session_id impl)
    (im_heap impl) (im_connections impl) (im_sessions impl) (im_lane_owner impl)
    (im_authority_leases impl) (im_next_subscription impl) (im_handlers impl)
    (im_trace impl).
Definition set_running (x : bool) (impl : Impl) : Impl :=
  mkImpl (im_config impl) x (im_next_message_id impl) (im_next_session_id impl)
    (im_heap impl) (im_connections impl) (im_sessions impl) (im_lane_owner impl)
    (im_authority_leases impl) (im_next_subscription impl) (im_handlers impl)
    (im_trace impl).
Definition set_next_message_id (x : Z) (impl : Impl) : Impl :=
  mkImpl (im_config impl) (im_running impl) x (im_next_session_id impl)
    (im_heap impl) (im_connections impl) (im_sessions impl) (im_lane_owner impl)
    (im_authority_leases impl) (im_next_subscription impl) (im_handlers impl)
    (im_trace impl).
Definition set_next_session_id (x : Z) (impl : Impl) : Impl :=
  mkImpl (im_config impl) (im_running impl) (im_next_message_id impl) x
    (im_heap impl) (im_connections impl) (im_sessions impl) (im_lane_owner impl)
    (im_authority_leases impl) (im_next_subscription impl) (im_handlers impl)
    (im_trace impl).
Definition set_heap (x : gmap handle RuntimeConnection) (impl : Impl) : Impl :=
  mkImpl (im_config impl) (im_running impl) (im_next_message_id impl)
    (im_next_session_id impl) x (im_connections impl) (im_sessions impl)
    (im_lane_owner impl) (im_authority_leases impl) (im_next_subscription impl)
    (im_handlers impl) (im_trace impl).
Definition set_connections (x : gmap string handle) (impl : Impl) : Impl :=
  mkImpl (im_config impl) (im_running impl) (im_next_message_id impl)
    (im_next_session_id impl) (im_heap impl) x (im_sessions impl)
    (im_lane_owner impl) (im_authority_leases impl) (im_next_subscription impl)
    (im_handlers impl) (im_trace impl).
Definition set_sessions (x : stdmap (string * Z) SessionInfo) (impl : Impl) : Impl :=
  mkImpl (im_config impl) (im_running impl) (im_next_message_id impl)
    (im_next_session_id impl) (im_heap impl) (im_connections impl) x
    (im_lane_owner impl) (im_authority_leases impl) (im_next_subscription impl)
    (im_handlers impl) (im_trace impl).
Definition set_lane_owner (x : gmap string (string * Z)) (impl : Impl) : Impl :=
  mkImpl (im_config impl) (im_running impl) (im_next_message_id impl)
    (im_next_session_id impl) (im_heap impl) (im_connections impl) (im_sessions impl)
    x (im_authority_leases impl) (im_next_subscription impl) (im_handlers impl)
    (im_trace impl).
Definition set_authority_leases (x : stdmap (string * string) AuthorityLease)
    (impl : Impl) : Impl :=
  mkImpl (im_config impl) (im_running impl) (im_next_message_id impl)
    (im_next_session_id impl) (im_heap impl) (im_connections impl) (im_sessions impl)
    (im_lane_owner impl) x (im_next_subscription impl) (im_handlers impl)
    (im_trace impl).
Definition set_subscriptions (next : Z) (handlers : gset Z) (impl : Impl) : Impl :=
  mkImpl (im_config impl) (im_running impl) (im_next_message_id impl)
    (im_next_session_id impl) (im_heap impl) (im_connections impl) (im_sessions impl)
    (im_lane_owner impl) (im_authority_leases impl) next handlers (im_trace impl).
Definition set_trace (x : list (list Z * RuntimeEvent)) (impl : Impl) : Impl :=
  mkImpl (im_config impl) (im_running impl) (im_next_message_id impl)
    (im_next_session_id impl) (im_heap impl) (im_connections impl) (im_sessions impl)
    (im_lane_owner impl) (im_authority_leases impl) (im_next_subscription impl)
    (im_handlers impl) x.

(** The state a [Runtime] is constructed in, once [start] has stored [config]. *)
Definition started (config : RuntimeConfig) : Impl :=
  mkImpl config true 1 1 ∅ ∅ ∅ ∅ ∅ 1 ∅ [].

(** The readings of the two clocks. *)
Record Clock := mkClock {
  runtime_now_ms : Z;
  runtime_steady_now : Z;
}.

(** [std::chrono::milliseconds(n)] on the steady clock. *)
Definition milliseconds (n : Z) : Z := n * 1000000.

(** [next_message_id.fetch_add(1)], [next_session_id.fetch_add(1)]. *)
Definition fetch_message_id (impl : Impl) : Z * Impl :=
  (im_next_message_id impl,
   set_next_message_id (uint64 (im_next_message_id impl + 1)) impl).
Definition fetch_session_id (impl : Impl) : Z * Impl :=
  (im_next_session_id impl,
   set_next_session_id (uint64 (im_next_session_id impl + 1)) impl).

(** ** runtime_common.cpp *)

(** [runtime_emit]. *)
Definition runtime_emit (event : RuntimeEvent) (impl : Impl) : Impl :=
  set_trace (im_trace impl ++ [(elements (im_handlers impl), event)]) impl.

Definition no_peer : Peer := mkPeer EmptyString EmptyString 0.

(** [{RuntimeEventKind::kError, peer, envelope, {}, error, message}]. *)
Definition error_event (peer : Peer) (envelope : Envelope) (error : ErrorCode)
    (message : string) : RuntimeEvent :=
  mkRuntimeEvent EventError peer envelope default_SessionInfo error message false.

(** [runtime_enqueue] on a connection object. *)
Definition connection_enqueue (connection : handle) (bytes : Bytes) (qos : QosClass)
    (latest_key : string) (impl : Impl) : bool * Impl :=
  match im_heap impl !! connection with
  | None => (false, impl)
  | Some c =>
    let r := runtime_enqueue (rc_running c) bytes qos latest_key (rc_send c) in
    (r.1, set_heap (<[connection :=
            mkRuntimeConnection (rc_peer c) (rc_running c) r.2 (rc_receive_buffer c)]>
            (im_heap impl)) impl)
  end.

(** [runtime_write] to the connection filed under [peer], if there is one. *)
Definition write_to_peer (peer : string) (bytes : Bytes) (impl : Impl) : Impl :=
  match im_connections impl !! peer with
  | Some connection =>
    (connection_enqueue connection bytes kReliableOrdered EmptyString impl).2
  | None => impl
  end.

(** [running.store(false)] on a connection object. *)
Definition stop_connection (connection : handle) (impl : Impl) : Impl :=
  match im_heap impl !! connection with
  | None => impl
  | Some c =>
    set_heap (<[connection :=
      mkRuntimeConnection (rc_peer c) false (rc_send c) (rc_receive_buffer c)]>
      (im_heap impl)) impl
  end.

Definition runtime_is_lane_peer (impl : Impl) (peer : string) : bool :=
  bool_decide (is_Some (im_lane_owner impl !! peer)).

Definition runtime_control_peer_id (impl : Impl) (peer : string) : string :=
  match im_lane_owner impl !! peer with
  | Some lane => lane.1
  | None => peer
  end.

Definition runtime_connection_for_send (impl : Impl) (peer : string) (session_id : Z)
    (qos : QosClass) : option handle :=
  let route :=
    if qos_may_drop qos then
      match im_sessions impl !! (peer, session_id) with
      | Some session =>
        if bool_decide (si_lossy_peer_id session = EmptyString) then peer
        else si_lossy_peer_id session
      | None => peer
      end
    else peer in
  im_connections impl !! route.

(** *** Session payloads *)

Definition take_u16 : reader Z := r_u16.
Definition take_text : reader string := r_text.

(** [append_text] casts the size to [uint16_t]. *)
Definition append_text (value : string) : writer :=
  w_u16 (ssize value) ;;; w_bytes (bytes_of value).

Definition encode_text (value : string) : Bytes :=
  if ssize value >? uint16_max then [] else w_run (append_text value).

Definition decode_text (payload : Bytes) : option string := r_run take_text payload.

Definition write_profile (profile : ProfileDescriptor) : writer :=
  append_text (pd_profile_id profile) ;;; w_u16 (pd_major profile) ;;;
  w_u16 (pd_minor profile) ;;; append_text (pd_schema_digest profile).

(** The early return inside the loop leaves nothing, as does a list too long. *)
Definition encode_profile_list (profiles : list ProfileDescriptor) : Bytes :=
  if vsize profiles >? uint16_max then []
  else if existsb (λ profile, negb (valid_profile_id (pd_profile_id profile))
                    || (ssize (pd_schema_digest profile) >? uint16_max)) profiles
  then []
  else w_run (w_u16 (vsize profiles) ;;; w_for write_profile profiles).

Definition read_profile : reader ProfileDescriptor :=
  profile_id ← take_text; major ← take_u16; minor ← take_u16; schema_digest ← take_text;
  _ ← check (negb (negb (valid_profile_id profile_id) || (major =? 0)));
  mret (mkProfileDescriptor profile_id major minor schema_digest).

Definition decode_profile_list (payload : Bytes) : option (list ProfileDescriptor) :=
  r_run (count ← take_u16; r_times (Z.to_nat count) read_profile) payload.

(** ** The session payloads are canonical *)

Definition wf_profile (p : ProfileDescriptor) : bool :=
  wf_text (pd_profile_id p) && in_uint 16 (pd_major p) && in_uint 16 (pd_minor p)
  && wf_text (pd_schema_digest p)
  && negb (negb (valid_profile_id (pd_profile_id p)) || (pd_major p =? 0)).

Definition write_wf_profile (p : ProfileDescriptor) : writer :=
  w_text (pd_profile_id p) ;;; w_u16 (pd_major p) ;;; w_u16 (pd_minor p) ;;;
  w_text (pd_schema_digest p).

Lemma codec_profile : codec eq write_wf_profile read_profile wf_profile.
Proof.
  unfold read_profile, take_text, take_u16. split.
  - intros v. unfold write_wf_profile. auto 40 with codec.
  - intros v Hv. unfold wf_profile in Hv. unfold write_wf_profile. bool_hyps. message_valid.
  - intros v Hv. unfold wf_profile in Hv. unfold write_wf_profile.
    rewrite !andb_true_iff in Hv. destruct Hv as ((((?&?)&?)&?)&?).
    rewrite !output_seq by (auto 40 with codec). rewrite <- (app_nil_r (output (w_text (pd_schema_digest v)))).
    do 4 (eapply parses_bind; [eapply codec_parses; [codec_block|done]|]).
    apply parses_check; [done|]. destruct v. apply parses_ret.
  - message_reads. unfold wf_profile, write_wf_profile. cbn. split.
    + repeat match goal with H : _ = true |- _ => rewrite H; clear H end. done.
    + message_rel.
Qed.

Lemma append_text_wf v : wf_text v = true → append_text v = w_text v.
Proof.
  unfold wf_text, append_text, w_text. intros Hv. by rewrite Z.gtb_ltb, Z.ltb_antisym, Hv.
Qed.

Lemma w_for_ext {A} (f g : A → writer) l :
  (∀ x, x ∈ l → f x = g x) → w_for f l = w_for g l.
Proof.
  unfold w_for. induction l as [|x l IH]; intros Hfg; [done|].
  assert (Hl : (λ w, foldl (λ w x, f x w) w l) = (λ w, foldl (λ w x, g x w) w l)).
  { apply IH. intros y Hy. apply Hfg. by apply elem_of_cons; right. }
  cbn [foldl]. rewrite (Hfg x) by (by apply elem_of_cons; left).
  change ((λ w, (λ w, foldl (λ w x, f x w) w l) (g x w))
          = (λ w, (λ w, foldl (λ w x, g x w) w l) (g x w))). by rewrite Hl.
Qed.

Lemma encode_profile_list_wf profiles :
  wf_list wf_profile profiles = true →
  encode_profile_list profiles = w_run (w_list write_wf_profile profiles).
Proof.
  unfold wf_list, encode_profile_list, w_list. rewrite andb_true_iff, Z.gtb_ltb, Z.ltb_antisym.
  intros [-> Hwf]. cbn [negb]. rewrite forallb_forall in Hwf.
  assert (Hin : ∀ p, p ∈ profiles → valid_profile_id (pd_profile_id p) = true
    ∧ wf_text (pd_profile_id p) = true ∧ wf_text (pd_schema_digest p) = true).
  { intros p Hp%list_elem_of_In%Hwf. unfold wf_profile in Hp.
    rewrite negb_orb, negb_involutive in Hp. by bool_hyps. }
  destruct (existsb _ profiles) eqn:E.
  { apply existsb_exists in E as (p & Hp%list_elem_of_In & Hbad).
    destruct (Hin p Hp) as (Hid & _ & Hd). rewrite Hid in Hbad. cbn [negb orb] in Hbad.
    unfold wf_text in Hd. by rewrite Z.gtb_ltb, Z.ltb_antisym, Hd in Hbad. }
  do 2 f_equal. apply w_for_ext. intros p Hp. destruct (Hin p Hp) as (_ & Hid & Hd).
  unfold write_profile. by rewrite !append_text_wf.
Qed.

(** The two payloads of the session handshake have one encoding each: a byte
    string is accepted as a text, or as a profile list, exactly when it is the
    encoding of a value the protocol allows, and then that value is returned. *)
Theorem session_payloads_canonical :
  (∀ payload value, decode_text payload = Some value ↔
     wf_text value = true ∧ payload = encode_text value)
  ∧ (∀ payload profiles, decode_profile_list payload = Some profiles ↔
     wf_list wf_profile profiles = true ∧ payload = encode_profile_list profiles).
Proof.
  split; intros payload value.
  - unfold decode_text, take_text. rewrite (codec_iff _ _ _ _ _ codec_text).
    split; intros [Hv ->]; (split; [done|]); unfold encode_text; unfold wf_text in Hv;
      rewrite Z.gtb_ltb, Z.ltb_antisym, Hv; cbn [negb]; by rewrite append_text_wf.
  - change (decode_profile_list payload) with (r_run (r_list read_profile) payload).
    rewrite (codec_iff _ _ _ _ _ (codec_list eq _ _ _ codec_profile)).
    split; intros [Hv ->]; (split; [done|]); by rewrite encode_profile_list_wf.
Qed.

(** What the handshake needs of the two encoders. *)
Lemma decode_encode_text value :
  wf_text value = true → decode_text (encode_text value) = Some value.
Proof.
  intros Hv. unfold decode_text, take_text, encode_text.
  pose proof Hv as Hv'. unfold wf_text in Hv'.
  rewrite Z.gtb_ltb, Z.ltb_antisym, Hv'. cbn [negb]. rewrite append_text_wf by done.
  by apply (codec_roundtrip _ _ _ _ _ codec_text).
Qed.

Lemma decode_encode_profile_list profiles :
  wf_list wf_profile profiles = true →
  decode_profile_list (encode_profile_list profiles) = Some profiles.
Proof.
  intros Hv. rewrite encode_profile_list_wf by done.
  change (decode_profile_list ?p) with (r_run (r_list read_profile) p).
  by apply (codec_roundtrip eq _ _ _ _ (codec_list eq _ _ _ codec_profile)).
Qed.

(** ** Frame conditions

    What sending leaves alone: everything but the connection objects and the
    message counter. *)

(** The parts of the connection objects that only their receive thread uses. *)
Definition receivers (impl : Impl) : gmap handle (Peer * Bytes) :=
  (λ c, (rc_peer c, rc_receive_buffer c)) <$> im_heap impl.

Record quiet (impl impl' : Impl) : Prop := {
  q_config : im_config impl' = im_config impl;
  q_running : im_running impl' = im_running impl;
  q_next_session_id : im_next_session_id impl' = im_next_session_id impl;
  q_connections : im_connections impl' = im_connections impl;
  q_sessions : im_sessions impl' = im_sessions impl;
  q_lane_owner : im_lane_owner impl' = im_lane_owner impl;
  q_authority_leases : im_authority_leases impl' = im_authority_leases impl;
  q_next_subscription : im_next_subscription impl' = im_next_subscription impl;
  q_handlers : im_handlers impl' = im_handlers impl;
  q_trace : im_trace impl' = im_trace impl;
  q_heap : receivers impl' = receivers impl;
}.

#[export] Instance quiet_preorder : PreOrder quiet.
Proof.
  split; [done|]. intros x y z [] []. split; congruence.
Qed.

Lemma receivers_insert impl connection c c' :
  im_heap impl !! connection = Some c → rc_peer c' = rc_peer c →
  rc_receive_buffer c' = rc_receive_buffer c →
  receivers (set_heap (<[connection := c']> (im_heap impl)) impl) = receivers impl.
Proof.
  intros Hc Hp Hb. unfold receivers. cbn. rewrite fmap_insert, Hp, Hb.
  apply insert_id. by rewrite lookup_fmap, Hc.
Qed.

Lemma quiet_heap impl connection c c' :
  im_heap impl !! connection = Some c → rc_peer c' = rc_peer c →
  rc_receive_buffer c' = rc_receive_buffer c →
  quiet impl (set_heap (<[connection := c']> (im_heap impl)) impl).
Proof. intros Hc Hp Hb. split; try done. by eapply receivers_insert. Qed.

Lemma quiet_enqueue connection bytes qos key impl :
  quiet impl (connection_enqueue connection bytes qos key impl).2.
Proof.
  unfold connection_enqueue. destruct (im_heap impl !! connection) as [c|] eqn:E; [|done].
  by eapply quiet_heap.
Qed.

Lemma quiet_write peer bytes impl : quiet impl (write_to_peer peer bytes impl).
Proof.
  unfold write_to_peer. destruct (_ !! peer); [|done]. apply quiet_enqueue.
Qed.

Lemma quiet_fetch_message_id impl : quiet impl (fetch_message_id impl).2.
Proof. done. Qed.

Lemma quiet_stop connection impl : quiet impl (stop_connection connection impl).
Proof.
  unfold stop_connection. destruct (im_heap impl !! connection) as [c|] eqn:E; [|done].
  by eapply quiet_heap.
Qed.

#[export] Hint Resolve quiet_enqueue quiet_write quiet_fetch_message_id quiet_stop : yunlink.
