(* ===== verification/Authority.v ===== *)
(** * Authority: leases on entities

    [src/runtime/v2/authority.cpp].  A lease gives one session of one peer the
    authority over an entity and a scope until a point of the steady clock.  Each
    critical section of the code is a function on the lease table; the handlers
    around them are the ones of the code. *)

From Stdlib Require Import ZArith Lia String Ascii Strings.Byte.
From stdpp Require Import base gmap strings list fin_maps.
From S2P Require Import Prelude StdMap Codec WireTypes WireCodec CoreMessages Framing SendQueue RuntimeCommon.
Local Open Scope Z_scope.

(** ** Definitions *)

Abbreviation Leases := (stdmap (string * string) AuthorityLease).

#[export] Instance AuthorityLease_eq_dec : EqDecision AuthorityLease.
Proof. solve_decision. Defined.

Definition kMaximumAuthorityLeaseMs : Z := 60 * 60 * 1000.

Definition authority_status_type : TypeRef :=
  mkTypeRef "yunlink.core" 2 0 "authority.status".

(** The only element of [target.uids], when [target] is a single entity. *)
Definition single_entity (t : TargetSelector) : option string :=
  match ts_scope t, ts_uids t with
  | ScopeEntity, [uid] => Some uid
  | _, _ => None
  end.

(** The envelope [send_status] fills in. *)
Definition status_envelope (clock : Clock) (endpoint_uid : string) (message_id : Z)
    (request : Envelope) (status : AuthorityStatus) : Envelope :=
  {| env_protocol_major := kProtocolMajor;
     env_header_version := kHeaderVersion;
     env_flags := 0;
     env_header_len := 0;
     env_payload_len := 0;
     env_qos_class := kReliableOrdered;
     env_family := FamilyAuthority;
     env_operation := AuthorityOperation.kStatus;
     env_schema_version := kSchemaVersion;
     env_session_id := env_session_id request;
     env_message_id := message_id;
     env_correlation_id := env_message_id request;
     env_source := mkSourceIdentity endpoint_uid
       (default EmptyString (single_entity (env_target request)));
     env_target := target_endpoint (src_endpoint_uid (env_source request));
     env_type := authority_status_type;
     env_created_at_ms := runtime_now_ms clock;
     env_ttl_ms := 5000;
     env_payload := CoreMessages.encode status;
     env_security := mkSecurityContext 0 [];
     env_checksum := 0 |}.

Definition send_status (clock : Clock) (peer : Peer) (request : Envelope)
    (status : AuthorityStatus) (impl : Impl) : Impl :=
  let r := fetch_message_id impl in
  let response :=
    status_envelope clock (cfg_endpoint_uid (im_config impl)) r.1 request status in
  write_to_peer (peer_id peer)
    (WireCodec.encode (runtime_now_ms clock) response true) r.2.

(** The entry the iterator [existing] points to, and the table.  An expired lease is
    erased and [existing] becomes what [erase] returns: the next entry of the map. *)
Definition existing_lease (now : Z) (key : string * string) (leases : Leases) :
    option ((string * string) * AuthorityLease) * Leases :=
  match leases !! key with
  | Some lease =>
    if al_expires_at lease <=? now
    then (successor key (delete key leases), delete key leases)
    else (Some (key, lease), leases)
  | None => (None, leases)
  end.

Definition owns (peer : string) (session_id : Z) (lease : AuthorityLease) : bool :=
  bool_decide (al_peer_id lease = peer) && (al_session_id lease =? session_id).

(** The critical section of [runtime_handle_authority]: [status.state],
    [status.reason_code] and [status.detail], and the lease table. *)
Definition authority_update (now : Z) (peer : string) (session_id operation : Z)
    (key : string * string) (request : AuthorityRequest) (leases : Leases) :
    (string * Z * string) * Leases :=
  let r := existing_lease now key leases in
  let existing := r.1 in
  let leases := r.2 in
  let owner :=
    match existing with Some entry => owns peer session_id entry.2 | None => false end in
  let position := match existing with Some entry => entry.1 | None => key end in
  let expires := now + milliseconds (ar_lease_ttl_ms request) in
  if operation =? AuthorityOperation.kRelease then
    if owner then (("released", 0, "authority released"), delete position leases)
    else (("rejected", ErrorCode_value kUnauthorized,
           "authority is not owned by this session"), leases)
  else if operation =? AuthorityOperation.kRenew then
    if owner then
      (("controller", 0, "authority renewed"),
       alter (λ lease, mkAuthorityLease (al_peer_id lease) (al_session_id lease) expires)
         position leases)
    else (("rejected", ErrorCode_value kUnauthorized,
           "authority cannot be renewed by this session"), leases)
  else if operation =? AuthorityOperation.kClaim then
    if bool_decide (existing = None) || owner || ar_allow_preempt request then
      (("controller", 0, if owner then "authority refreshed" else "authority granted"),
       <[key := mkAuthorityLease peer session_id expires]> leases)
    else (("rejected", ErrorCode_value kConflict,
           "authority is held by another session"), leases)
  else (("rejected", ErrorCode_value kInvalidArgument, "invalid authority request"), leases).

(** The request and the entity of an authority message that passes the checks. *)
Definition authority_request (envelope : Envelope) : option (AuthorityRequest * string) :=
  match CoreMessages.decode (env_payload envelope), single_entity (env_target envelope) with
  | Some request, Some uid =>
    if bool_decide (ar_authority_scope request = EmptyString)
       || (ar_lease_ttl_ms request =? 0)
       || (ar_lease_ttl_ms request >? kMaximumAuthorityLeaseMs)
    then None else Some (request, uid)
  | _, _ => None
  end.

Definition runtime_handle_authority (clock : Clock) (peer : Peer) (envelope : Envelope)
    (impl : Impl) : bool * Impl :=
  if negb (bool_decide (env_family envelope = FamilyAuthority))
     || (env_operation envelope =? AuthorityOperation.kStatus)
  then (false, impl)
  else
  match authority_request envelope with
  | None =>
    (true, send_status clock peer envelope
             (mkAuthorityStatus EmptyString "rejected" 0 (ErrorCode_value kInvalidArgument)
                "invalid authority request") impl)
  | Some (request, uid) =>
    let key := (uid, ar_authority_scope request) in
    let r := authority_update (runtime_steady_now clock) (peer_id peer)
               (env_session_id envelope) (env_operation envelope) key request
               (im_authority_leases impl) in
    let status := mkAuthorityStatus (ar_authority_scope request) r.1.1.1
                    (ar_lease_ttl_ms request) r.1.1.2 r.1.2 in
    (true, send_status clock peer envelope status (set_authority_leases r.2 impl))
  end.

(** [lease != end && lease->expires_at > now && ...], as [runtime_action_authorized]
    and [has_authority] test it. *)
Definition holds_lease (now : Z) (peer : string) (session_id : Z)
    (key : string * string) (leases : Leases) : bool :=
  match leases !! key with
  | Some lease => (now <? al_expires_at lease) && owns peer session_id lease
  | None => false
  end.

(** The scope an action needs: what the resolver says, or the profile. *)
Definition action_scope (config : RuntimeConfig) (type : TypeRef) : string :=
  match cfg_action_authority_scope_resolver config with
  | Some resolver =>
    if bool_decide (resolver type = EmptyString) then tr_profile_id type else resolver type
  | None => tr_profile_id type
  end.

(** [runtime_action_authorized]: the verdict, and [detail] when it is false. *)
Definition runtime_action_authorized (clock : Clock) (peer : Peer) (envelope : Envelope)
    (impl : Impl) : bool * string :=
  if negb (bool_decide (env_family envelope = FamilyAction))
     || (negb (env_operation envelope =? ActionOperation.kGoal)
         && negb (env_operation envelope =? ActionOperation.kCancel))
  then (true, EmptyString)
  else
  match single_entity (env_target envelope) with
  | None => (false, "actions require exactly one entity target"%string)
  | Some uid =>
    let key := (uid, action_scope (im_config impl) (env_type envelope)) in
    if holds_lease (runtime_steady_now clock) (peer_id peer) (env_session_id envelope) key
         (im_authority_leases impl)
    then (true, EmptyString)
    else (false, "no active authority lease for entity and profile scope"%string)
  end.

(** [runtime_revoke_authority]: erases the session's leases on the listed entities,
    on all of them when the list is empty. *)
Definition revoked (peer : string) (session_id : Z) (entity_uids : list string)
    (entry : (string * string) * AuthorityLease) : Prop :=
  (entity_uids = [] ∨ entry.1.1 ∈ entity_uids) ∧ owns peer session_id entry.2 = true.

#[export] Instance revoked_dec peer session_id uids entry :
  Decision (revoked peer session_id uids entry).
Proof. unfold revoked. solve_decision. Defined.

Definition runtime_revoke_authority (peer : string) (session_id : Z)
    (entity_uids : list string) (impl : Impl) : Impl :=
  set_authority_leases
    (filter (λ entry, ¬ revoked peer session_id entity_uids entry)
       (im_authority_leases impl)) impl.

(** [Runtime::has_authority]. *)
Definition has_authority (clock : Clock) (peer : string) (session_id : Z)
    (entity_uid authority_scope : string) (impl : Impl) : bool :=
  holds_lease (runtime_steady_now clock) peer session_id (entity_uid, authority_scope)
    (im_authority_leases impl).

(** The lease is absent or unexpired, or no lease follows it in the table. *)
Definition settled (now : Z) (key : string * string) (leases : Leases) : Prop :=
  match leases !! key with
  | Some lease => now < al_expires_at lease ∨ successor key (delete key leases) = None
  | None => True
  end.


(** ** The abstract lock *)

(** Who holds the authority [key] at [now]. *)
Definition holder (now : Z) (key : string * string) (leases : Leases) : option (string * Z) :=
  match leases !! key with
  | Some lease =>
    if now <? al_expires_at lease then Some (al_peer_id lease, al_session_id lease) else None
  | None => None
  end.

(** The same, and until when. *)
Definition held (now : Z) (key : string * string) (leases : Leases) :
    option ((string * Z) * Z) :=
  match leases !! key with
  | Some lease =>
    if now <? al_expires_at lease
    then Some ((al_peer_id lease, al_session_id lease), al_expires_at lease) else None
  | None => None
  end.

(** What an authority operation of session [me] promises, in terms of the holder and
    his time alone: the state and the reason code of the answer, who holds the
    authority afterwards, and until when.  [expires] is the time the request asks for. *)
Definition lock_spec (operation : Z) (me : string * Z) (preempt : bool) (expires : Z)
    (held_by : option ((string * Z) * Z)) : (string * Z) * option ((string * Z) * Z) :=
  let mine := bool_decide (fst <$> held_by = Some me) in
  if operation =? AuthorityOperation.kRelease then
    if mine then (("released"%string, 0), None)
    else (("rejected"%string, ErrorCode_value kUnauthorized), held_by)
  else if operation =? AuthorityOperation.kRenew then
    if mine then (("controller"%string, 0), Some (me, expires))
    else (("rejected"%string, ErrorCode_value kUnauthorized), held_by)
  else if operation =? AuthorityOperation.kClaim then
    if bool_decide (held_by = None) || mine || preempt
    then (("controller"%string, 0), Some (me, expires))
    else (("rejected"%string, ErrorCode_value kConflict), held_by)
  else (("rejected"%string, ErrorCode_value kInvalidArgument), held_by).

(** ** Lemmas *)
Lemma existing_lease_table now key leases :
  let l := (existing_lease now key leases).2 in
  (∀ k, k ≠ key → l !! k = leases !! k)
  ∧ (∀ k lease, l !! k = Some lease → leases !! k = Some lease)
  ∧ held now key l = held now key leases.
Proof.
  cbv zeta. unfold existing_lease, held.
  destruct (leases !! key) as [lease|] eqn:E; [|cbn; by rewrite ?E].
  destruct (Z.leb_spec (al_expires_at lease) now); cbn [fst snd].
  - split_and!.
    + intros k Hk. by rewrite lookup_delete_ne.
    + by intros k l [_ ?]%lookup_delete_Some.
    + rewrite lookup_delete_eq. by destruct (Z.ltb_spec now (al_expires_at lease)); [lia|].
  - by rewrite E.
Qed.

(** Where the table is settled, [existing] is the holder's lease. *)
Lemma existing_lease_settled now key leases :
  settled now key leases →
  match (existing_lease now key leases).1 with
  | Some (k, lease) => k = key ∧ (existing_lease now key leases).2 !! key = Some lease
      ∧ held now key leases
        = Some ((al_peer_id lease, al_session_id lease), al_expires_at lease)
  | None => held now key leases = None
  end.
Proof.
  unfold settled, existing_lease, held. destruct (leases !! key) as [lease|] eqn:E; [|done].
  destruct (Z.leb_spec (al_expires_at lease) now); cbn [fst snd].
  - intros [?|Hn]; [lia|]. rewrite Hn. by destruct (Z.ltb_spec now (al_expires_at lease)); [lia|].
  - intros _. destruct (Z.ltb_spec now (al_expires_at lease)); [|lia]. by rewrite E.
Qed.

Lemma owns_spec peer session_id lease :
  owns peer session_id lease = true
  ↔ (al_peer_id lease, al_session_id lease) = (peer, session_id).
Proof.
  unfold owns. rewrite andb_true_iff, bool_decide_eq_true, Z.eqb_eq. naive_solver.
Qed.

Lemma owns_holder peer session_id lease :
  owns peer session_id lease
  = bool_decide (Some (al_peer_id lease, al_session_id lease) = Some (peer, session_id)).
Proof. apply eq_true_iff_eq. rewrite owns_spec, bool_decide_eq_true. naive_solver. Qed.

Lemma held_insert now key peer session_id expires leases :
  now < expires →
  held now key (<[key := mkAuthorityLease peer session_id expires]> leases)
  = Some ((peer, session_id), expires).
Proof.
  intros Ht. unfold held. rewrite lookup_insert_eq. cbn.
  by destruct (Z.ltb_spec now expires); [|lia].
Qed.

Lemma holder_Some now key leases who :
  holder now key leases = Some who →
  ∃ lease, leases !! key = Some lease ∧ now < al_expires_at lease
  ∧ who = (al_peer_id lease, al_session_id lease).
Proof.
  unfold holder. destruct (leases !! key) as [lease|]; [|done].
  destruct (Z.ltb_spec now (al_expires_at lease)); [|done]. intros [= <-]. eauto.
Qed.

(** A lease after an authority operation is one from before or a fresh one. *)
Lemma authority_update_expiry now peer session_id operation key request leases k lease :
  (authority_update now peer session_id operation key request leases).2 !! k = Some lease →
  leases !! k = Some lease
  ∨ al_expires_at lease = now + milliseconds (ar_lease_ttl_ms request).
Proof.
  destruct (existing_lease_table now key leases) as (_ & Hstay & _).
  unfold authority_update. cbv zeta. set (l := (existing_lease now key leases).2) in *.
  specialize (Hstay k lease).
  destruct (operation =? AuthorityOperation.kRelease).
  { destruct (match _ with Some _ => _ | None => _ end); cbn; [|auto].
    intros [_ Hl]%lookup_delete_Some. auto. }
  destruct (operation =? AuthorityOperation.kRenew).
  { destruct (match _ with Some _ => _ | None => _ end); cbn; [|auto].
    intros [[<- (old & _ & ->)]|[_ Hl]]%lookup_alter_Some; auto. }
  destruct (operation =? AuthorityOperation.kClaim); cbn; [|auto].
  destruct (_ || _ || _); cbn; [|auto].
  intros [[_ <-]|[_ Hl]]%lookup_insert_Some; auto.
Qed.

(** ** Properties *)

(** C2 Where no expired lease is in the way, the lease table implements the abstract
    lock: every authority operation answers with the state and the code, and leaves the
    holder and the time of his authority, that [lock_spec] gives from those before it.
    A claim or a renewal that is answered with "controller" runs exactly the requested
    time to live from now; one that is rejected, and any other operation, leaves holder
    and time as they were.  Other keys are untouched. *)
Theorem authority_update_refines now peer session_id operation key request leases :
  0 < ar_lease_ttl_ms request → settled now key leases →
  let r := authority_update now peer session_id operation key request leases in
  (r.1.1, held now key r.2)
    = lock_spec operation (peer, session_id) (ar_allow_preempt request)
        (now + milliseconds (ar_lease_ttl_ms request)) (held now key leases)
  ∧ (∀ k, k ≠ key → r.2 !! k = leases !! k).
Proof.
  intros Httl Hset. cbv zeta.
  assert (Hnow : now < now + milliseconds (ar_lease_ttl_ms request)) by (unfold milliseconds; lia).
  destruct (existing_lease_table now key leases) as (Hother & _ & Hkeep).
  apply existing_lease_settled in Hset. unfold authority_update, lock_spec; cbv zeta.
  set (l := (existing_lease now key leases).2) in *.
  set (expires := now + milliseconds (ar_lease_ttl_ms request)) in *.
  destruct (existing_lease now key leases).1 as [[k0 lease]|]; split.
  - destruct Hset as (-> & Hl & Hh). cbn [fst snd]. rewrite owns_holder, Hh. cbn [fmap option_fmap option_map fst].
    rewrite !(bool_decide_false (Some _ = None)) by done. cbn [orb].
    destruct (operation =? AuthorityOperation.kRelease).
    { destruct (bool_decide _); cbn; [|by rewrite Hkeep, Hh].
      unfold held. by rewrite lookup_delete_eq. }
    destruct (operation =? AuthorityOperation.kRenew).
    { case_bool_decide as Ho; cbn; [|by rewrite Hkeep, Hh]. injection Ho as <- <-.
      unfold held. rewrite lookup_alter_eq, Hl. cbn.
      by destruct (Z.ltb_spec now expires); [|lia]. }
    destruct (operation =? AuthorityOperation.kClaim); [|cbn; by rewrite Hkeep, Hh].
    destruct (_ || _); cbn; [by rewrite held_insert|by rewrite Hkeep, Hh].
  - destruct Hset as (-> & _ & _). intros k Hk.
    repeat case_match; cbn; rewrite ?lookup_delete_ne, ?lookup_alter_ne, ?lookup_insert_ne
      by done; by apply Hother.
  - rewrite Hset. cbn [fmap option_fmap option_map].
    rewrite !(bool_decide_false (None = Some _)) by done. cbn [orb].
    destruct (operation =? AuthorityOperation.kRelease); [by cbn; rewrite Hkeep, Hset|].
    destruct (operation =? AuthorityOperation.kRenew); [by cbn; rewrite Hkeep, Hset|].
    destruct (operation =? AuthorityOperation.kClaim); [|by cbn; rewrite Hkeep, Hset].
    cbn. by rewrite held_insert.
  - intros k Hk.
    repeat case_match; cbn; rewrite ?lookup_insert_ne by done; by apply Hother.
Qed.

(** (finding) After erasing the expired lease of the key it was asked about, the
    handler goes on with the lease that follows it in the table, of another entity or
    scope.  So nobody holds the key, but a claim is refused because of that other
    lease; and the owner of that other lease loses it by a release, and has it
    renewed, although the message names another key. *)
Theorem expired_lease_misdirects now peer session_id key request leases expired key' lease' :
  leases !! key = Some expired → al_expires_at expired <= now →
  successor key (delete key leases) = Some (key', lease') →
  let update operation :=
    authority_update now peer session_id operation key request leases in
  key' ≠ key ∧ leases !! key' = Some lease' ∧ holder now key leases = None
  ∧ (owns peer session_id lease' = false → ar_allow_preempt request = false →
     (update AuthorityOperation.kClaim).1.1.2 = ErrorCode_value kConflict
     ∧ holder now key (update AuthorityOperation.kClaim).2 = None)
  ∧ (owns peer session_id lease' = true →
     (update AuthorityOperation.kRelease).1.1.2 = 0
     ∧ (update AuthorityOperation.kRelease).2 !! key' = None
     ∧ (update AuthorityOperation.kRenew).1.1.2 = 0
     ∧ (update AuthorityOperation.kRenew).2 !! key'
       = Some (mkAuthorityLease (al_peer_id lease') (al_session_id lease')
                 (now + milliseconds (ar_lease_ttl_ms request)))).
Proof.
  intros Hkey Hexp Hsucc. cbv zeta. unfold authority_update, existing_lease.
  rewrite Hkey. destruct (Z.leb_spec (al_expires_at expired) now); [|lia].
  destruct (successor_Some _ _ _ _ Hsucc) as (Hl & _ & Hne).
  assert (Hl' : leases !! key' = Some lease') by by apply lookup_delete_Some in Hl as [_ ?].
  rewrite Hsucc. cbn [fst snd]. split; [done|]. split; [done|]. split.
  { unfold holder. rewrite Hkey. by destruct (Z.ltb_spec now (al_expires_at expired)); [lia|]. }
  split.
  - intros Ho Hp. rewrite Ho, Hp. cbn. unfold holder. by rewrite lookup_delete_eq.
  - intros Ho. rewrite Ho. cbn. rewrite lookup_delete_eq, lookup_alter_eq, Hl. done.
Qed.

Lemma action_authorized_holder clock peer envelope impl :
  (runtime_action_authorized clock peer envelope impl).1 = true ↔
  (env_family envelope = FamilyAction →
   env_operation envelope = ActionOperation.kGoal
   ∨ env_operation envelope = ActionOperation.kCancel →
   ∃ uid, single_entity (env_target envelope) = Some uid
   ∧ holder (runtime_steady_now clock)
       (uid, action_scope (im_config impl) (env_type envelope))
       (im_authority_leases impl) = Some (peer_id peer, env_session_id envelope)).
Proof.
  unfold runtime_action_authorized.
  destruct (_ || _) eqn:Hfam; cbn.
  { split; [|done]. intros _ Hf Hop. exfalso. apply orb_true_iff in Hfam as [Hfam|Hfam].
    - by rewrite bool_decide_true in Hfam by done.
    - bool_hyps. by destruct Hop. }
  bool_hyps. assert (Hop : env_operation envelope = ActionOperation.kGoal
    ∨ env_operation envelope = ActionOperation.kCancel).
  { match goal with H : (_ && _)%bool = false |- _ => apply andb_false_iff in H as [H|H] end;
      bool_hyps; auto. }
  destruct (single_entity _) as [uid|]; cbn.
  2: { split; [done|]. intros Hall. by destruct (Hall ltac:(done) Hop) as (? & ? & _). }
  set (key := (uid, _)). set (now := runtime_steady_now clock).
  assert (Hhold : holds_lease now (peer_id peer) (env_session_id envelope) key
                    (im_authority_leases impl) = true
    ↔ holder now key (im_authority_leases impl) = Some (peer_id peer, env_session_id envelope)).
  { unfold holds_lease, holder. destruct (_ !! key) as [lease|]; [|done].
    rewrite andb_true_iff, owns_spec. destruct (now <? _); cbn.
    - split; [by intros [_ ->]|by intros [= -> ->]].
    - split; [by intros [? _]|done]. }
  destruct (holds_lease _ _ _ _ _); cbn.
  - split; [|done]. intros _ _ _. exists uid. split; [done|]. by apply Hhold.
  - split; [done|]. intros Hall. destruct (Hall ltac:(done) Hop) as (? & [= <-] & Hh).
    by apply Hhold in Hh.
Qed.

(** A goal or a cancel is delivered only to the holder of the authority it
    needs: [runtime_action_authorized] accepts it exactly when it targets a single
    entity and the lease on that entity, for the scope the resolver or the profile
    gives, is unexpired and belongs to the sending session.  Every other message
    passes. *)
Theorem action_authorized_iff clock peer envelope impl :
  (runtime_action_authorized clock peer envelope impl).1 = true ↔
  (env_family envelope = FamilyAction →
   env_operation envelope = ActionOperation.kGoal
   ∨ env_operation envelope = ActionOperation.kCancel →
   ∃ uid, single_entity (env_target envelope) = Some uid
   ∧ holder (runtime_steady_now clock)
       (uid, action_scope (im_config impl) (env_type envelope))
       (im_authority_leases impl) = Some (peer_id peer, env_session_id envelope)).
Proof. apply action_authorized_holder. Qed.

(** C38 Revoking takes away exactly what it names: afterwards the session holds no
    authority over any listed entity (any entity at all when none is listed), and
    every lease of another session or another entity is as it was. *)
Theorem revoke_authority_exact peer session_id entity_uids impl :
  let impl' := runtime_revoke_authority peer session_id entity_uids impl in
  (∀ clock uid scope, entity_uids = [] ∨ uid ∈ entity_uids →
     has_authority clock peer session_id uid scope impl' = false)
  ∧ (∀ key lease, im_authority_leases impl !! key = Some lease →
       (entity_uids ≠ [] ∧ key.1 ∉ entity_uids) ∨ owns peer session_id lease = false →
       im_authority_leases impl' !! key = Some lease)
  ∧ (∀ key lease, im_authority_leases impl' !! key = Some lease →
       im_authority_leases impl !! key = Some lease).
Proof.
  cbn. repeat split.
  - intros clock uid scope Hin. unfold has_authority, holds_lease. cbn.
    destruct (filter _ _ !! _) as [lease|] eqn:E; [|done].
    apply map_lookup_filter_Some in E as [_ Hn].
    apply andb_false_iff. right. apply not_true_iff_false. intros Ho. by apply Hn.
  - intros key lease Hl Hnot. apply map_lookup_filter_Some. split; [done|].
    intros [Hin Ho]. cbn in *. destruct Hnot as [[? ?]|Hno]; [naive_solver|congruence].
  - intros key lease [Hl _]%map_lookup_filter_Some. done.
Qed.

(** *** Witness *)

Definition sample_leases : Leases :=
  <[("uav-1"%string, "flight"%string) := mkAuthorityLease "tcp://10.0.0.2:9696" 3 5000]> ∅.

Lemma authority_update_refines_witness :
  let request := mkAuthorityRequest "flight" 2000 false in
  let r := authority_update 4000 "tcp://10.0.0.2:9696" 3 AuthorityOperation.kRenew
             ("uav-1", "flight")%string request sample_leases in
  (r.1.1, held 4000 ("uav-1", "flight")%string r.2)
    = (("controller"%string, 0), Some (("tcp://10.0.0.2:9696"%string, 3), 2000004000))
  ∧ (∀ k, k ≠ ("uav-1", "flight")%string → r.2 !! k = sample_leases !! k).
Proof.
  intros request r.
  pose proof (authority_update_refines 4000 "tcp://10.0.0.2:9696" 3 AuthorityOperation.kRenew
    ("uav-1", "flight")%string request sample_leases) as H.
  apply H; [reflexivity|]. left. vm_compute. reflexivity.
Defined.

(** The expired flight lease stands before the live camera lease. *)
Lemma expired_lease_misdirects_witness :
  let camera := mkAuthorityLease "tcp://10.0.0.2:9696" 3 9000 in
  let key := ("uav-1", "flight")%string in
  let key' := ("uav-1", "zoom")%string in
  let leases := <[key' := camera]> sample_leases in
  let update operation :=
    authority_update 6000 "tcp://10.0.0.2:9696" 3 operation key
      (mkAuthorityRequest "flight" 2000 false) leases in
  key' ≠ key ∧ leases !! key' = Some camera ∧ holder 6000 key leases = None
  ∧ (owns "tcp://10.0.0.2:9696" 3 camera = false → false = false →
     (update AuthorityOperation.kClaim).1.1.2 = ErrorCode_value kConflict
     ∧ holder 6000 key (update AuthorityOperation.kClaim).2 = None)
  ∧ (owns "tcp://10.0.0.2:9696" 3 camera = true →
     (update AuthorityOperation.kRelease).1.1.2 = 0
     ∧ (update AuthorityOperation.kRelease).2 !! key' = None
     ∧ (update AuthorityOperation.kRenew).1.1.2 = 0
     ∧ (update AuthorityOperation.kRenew).2 !! key'
       = Some (mkAuthorityLease "tcp://10.0.0.2:9696" 3 (6000 + milliseconds 2000))).
Proof.
  intros camera key key' leases update.
  apply (expired_lease_misdirects 6000 "tcp://10.0.0.2:9696" 3 key
    (mkAuthorityRequest "flight" 2000 false) leases
    (mkAuthorityLease "tcp://10.0.0.2:9696" 3 5000) key' camera);
    vm_compute; (reflexivity || discriminate).
Defined.
