(* ===== verification/Session.v ===== *)
(** * Session: handshake, lanes and the dispatch of envelopes

    [src/runtime/v2/session.cpp].  A handler that releases the runtime mutex
    between two critical sections is the composition of one function per section;
    [Concurrency] reasons about their interleavings. *)

From Stdlib Require Import ZArith Lia String Ascii Strings.Byte.
From stdpp Require Import base gmap strings list fin_maps.
From S2P Require Import Prelude StdMap Codec WireTypes WireCodec CoreMessages Framing SendQueue RuntimeCommon Authority.
Local Open Scope Z_scope.

(** ** Profiles *)

Definition session_type (type_name : string) : TypeRef :=
  mkTypeRef "yunlink.core" 2 0 type_name.

(** A default [ProfileDescriptor]. *)
Definition no_profile : ProfileDescriptor := mkProfileDescriptor EmptyString 0 0 EmptyString.

(** [negotiate_profile]: the result and [digest_conflict]. *)
Definition negotiate_profile (local remote : ProfileDescriptor) : ProfileDescriptor * bool :=
  if negb (bool_decide (pd_profile_id local = pd_profile_id remote))
     || negb (pd_major local =? pd_major remote)
  then (no_profile, false)
  else
  let negotiated_minor := Z.min (pd_minor local) (pd_minor remote) in
  if (pd_minor local =? pd_minor remote)
     && negb (bool_decide (pd_schema_digest local = pd_schema_digest remote))
  then (no_profile, true)
  else
  let result := if pd_minor local <=? pd_minor remote then local else remote in
  (mkProfileDescriptor (pd_profile_id result) (pd_major result) negotiated_minor
     (pd_schema_digest result), false).

(** One iteration of the loop over [remote_profiles]: the negotiated and the
    rejected profiles. *)
Definition negotiate_step (local_profiles : list ProfileDescriptor)
    (acc : stdmap string ProfileDescriptor * list string) (remote : ProfileDescriptor) :
    stdmap string ProfileDescriptor * list string :=
  match list_find (λ value, pd_profile_id value = pd_profile_id remote) local_profiles with
  | None => (acc.1, acc.2 ++ [pd_profile_id remote])
  | Some (_, local) =>
    let negotiated := (negotiate_profile local remote).1 in
    if bool_decide (pd_profile_id negotiated = EmptyString)
    then (acc.1, acc.2 ++ [pd_profile_id remote])
    else (<[pd_profile_id remote := negotiated]> acc.1, acc.2)
  end.

Definition negotiate_profiles (local_profiles remote_profiles : list ProfileDescriptor) :
    stdmap string ProfileDescriptor * list string :=
  foldl (negotiate_step local_profiles) (∅, []) remote_profiles.

(** ** Sending session messages *)

Definition emit_session (peer : Peer) (session : SessionInfo) (impl : Impl) : Impl :=
  runtime_emit (mkRuntimeEvent EventSession peer default_Envelope session kOk EmptyString
                  false) impl.

(** The envelope [send_session] fills in. *)
Definition session_envelope (clock : Clock) (endpoint_uid : string) (message_id : Z)
    (session_id operation : Z) (type_name : string) (payload : Bytes)
    (correlation_id : Z) : Envelope :=
  {| env_protocol_major := kProtocolMajor;
     env_header_version := kHeaderVersion;
     env_flags := 0;
     env_header_len := 0;
     env_payload_len := 0;
     env_qos_class := kReliableOrdered;
     env_family := FamilySession;
     env_operation := operation;
     env_schema_version := kSchemaVersion;
     env_session_id := session_id;
     env_message_id := message_id;
     env_correlation_id := correlation_id;
     env_source := mkSourceIdentity endpoint_uid EmptyString;
     env_target := target_broadcast;
     env_type := session_type type_name;
     env_created_at_ms := runtime_now_ms clock;
     env_ttl_ms := 5000;
     env_payload := payload;
     env_security := mkSecurityContext 0 [];
     env_checksum := 0 |}.

Definition send_session (clock : Clock) (peer : string) (session_id operation : Z)
    (type_name : string) (payload : Bytes) (correlation_id : Z) (impl : Impl) : Impl :=
  let r := fetch_message_id impl in
  let envelope := session_envelope clock (cfg_endpoint_uid (im_config impl)) r.1
                    session_id operation type_name payload correlation_id in
  write_to_peer peer (WireCodec.encode (runtime_now_ms clock) envelope true) r.2.

(** [Runtime::open_session]. *)
Definition open_session (clock : Clock) (peer : string) (impl : Impl) : Z * Impl :=
  match im_connections impl !! peer with
  | None => (0, impl)
  | Some _ =>
    let r := fetch_session_id impl in
    let session_id := r.1 in
    let impl := r.2 in
    let info := mkSessionInfo session_id peer EmptyString kHandshaking false ∅ []
                  EmptyString in
    let impl := set_sessions (<[(peer, session_id) := info]> (im_sessions impl)) impl in
    let impl := send_session clock peer session_id SessionOperation.kHello "session.hello"
                  (encode_text (cfg_endpoint_uid (im_config impl))) 0 impl in
    let impl := send_session clock peer session_id SessionOperation.kAuthenticate
                  "session.authenticate"
                  (encode_text (cfg_shared_secret (im_config impl))) 0 impl in
    let impl := send_session clock peer session_id SessionOperation.kProfiles
                  "session.profiles"
                  (encode_profile_list (cfg_profiles (im_config impl))) 0 impl in
    let impl := send_session clock peer session_id SessionOperation.kReady "session.ready"
                  [] 0 impl in
    (session_id, impl)
  end.

(** ** The session state machine *)

(** Assignments to one field of a [SessionInfo]. *)
Definition with_state (state : SessionState) (s : SessionInfo) : SessionInfo :=
  mkSessionInfo (si_session_id s) (si_peer_id s) (si_remote_endpoint_uid s) state
    (si_authenticated s) (si_negotiated_profiles s) (si_rejected_profiles s)
    (si_lossy_peer_id s).
Definition with_authenticated (authenticated : bool) (s : SessionInfo) : SessionInfo :=
  mkSessionInfo (si_session_id s) (si_peer_id s) (si_remote_endpoint_uid s) (si_state s)
    authenticated (si_negotiated_profiles s) (si_rejected_profiles s) (si_lossy_peer_id s).
Definition with_profiles (profiles : stdmap string ProfileDescriptor * list string)
    (s : SessionInfo) : SessionInfo :=
  mkSessionInfo (si_session_id s) (si_peer_id s) (si_remote_endpoint_uid s) (si_state s)
    (si_authenticated s) profiles.1 profiles.2 (si_lossy_peer_id s).
Definition with_lossy_peer_id (lossy : string) (s : SessionInfo) : SessionInfo :=
  mkSessionInfo (si_session_id s) (si_peer_id s) (si_remote_endpoint_uid s) (si_state s)
    (si_authenticated s) (si_negotiated_profiles s) (si_rejected_profiles s) lossy.
Definition with_identity (session_id : Z) (peer : string) (remote : string)
    (s : SessionInfo) : SessionInfo :=
  mkSessionInfo session_id peer remote (si_state s) (si_authenticated s)
    (si_negotiated_profiles s) (si_rejected_profiles s) (si_lossy_peer_id s).

(** The session after a message, and the three flags of the handler. *)
Record SessionUpdate := mkSessionUpdate {
  su_session : SessionInfo;
  su_reply_profiles : bool;
  su_reply_ready : bool;
  su_source_mismatch : bool;
}.

(** The operations, once the source has been checked. *)
Definition session_operation (config : RuntimeConfig) (envelope : Envelope)
    (session : SessionInfo) : SessionUpdate :=
  let operation := env_operation envelope in
  let opening := env_correlation_id envelope =? 0 in
  if operation =? SessionOperation.kHello then
    let valid :=
      match decode_text (env_payload envelope) with
      | Some endpoint_uid =>
        bool_decide (endpoint_uid = src_endpoint_uid (env_source envelope))
        && valid_uid endpoint_uid
      | None => false
      end in
    mkSessionUpdate (if valid then session else with_state kInvalid session)
      false false false
  else if operation =? SessionOperation.kAuthenticate then
    let authenticated :=
      bool_decide (decode_text (env_payload envelope) = Some (cfg_shared_secret config)) in
    mkSessionUpdate
      (with_state (if authenticated then kAuthenticated else kInvalid)
         (with_authenticated authenticated session)) false false false
  else if operation =? SessionOperation.kProfiles then
    match decode_profile_list (env_payload envelope) with
    | None => mkSessionUpdate (with_state kInvalid session) false false false
    | Some remote_profiles =>
      let session :=
        with_profiles (negotiate_profiles (cfg_profiles config) remote_profiles) session in
      mkSessionUpdate
        (if bool_decide (si_state session = kInvalid) then session
         else with_state kNegotiated session) opening false false
    end
  else if operation =? SessionOperation.kReady then
    if bool_decide (si_state session = kNegotiated) then
      mkSessionUpdate (with_authenticated true (with_state kActive session))
        false opening false
    else if bool_decide (si_state session = kActive) then
      mkSessionUpdate session false false false
    else mkSessionUpdate (with_state kInvalid session) false false false
  else mkSessionUpdate session false false false.

(** The critical section of the session branch, on the session it looked up. *)
Definition session_update (config : RuntimeConfig) (peer : string) (envelope : Envelope)
    (session : SessionInfo) : SessionUpdate :=
  let source := src_endpoint_uid (env_source envelope) in
  if bool_decide (si_remote_endpoint_uid session = EmptyString) then
    session_operation config envelope
      (with_identity (env_session_id envelope) peer source session)
  else
    let session := with_identity (env_session_id envelope) peer
                     (si_remote_endpoint_uid session) session in
    if bool_decide (si_remote_endpoint_uid session = source)
    then session_operation config envelope session
    else mkSessionUpdate (with_state kInvalid session) false false true.

(** ** Lossy lanes *)

(** The condition under which the loop of [handle_lane_bind] takes a session. *)
Definition lane_candidate (peer : string) (envelope : Envelope)
    (entry : (string * Z) * SessionInfo) : Prop :=
  si_session_id entry.2 = env_session_id envelope
  ∧ si_state entry.2 = kActive
  ∧ si_remote_endpoint_uid entry.2 = src_endpoint_uid (env_source envelope)
  ∧ (si_lossy_peer_id entry.2 = EmptyString ∨ si_lossy_peer_id entry.2 = peer).

#[export] Instance lane_candidate_dec peer envelope entry :
  Decision (lane_candidate peer envelope entry).
Proof. unfold lane_candidate. solve_decision. Defined.

(** The critical section of [handle_lane_bind]: the session's key, if one takes the
    lane. *)
Definition lane_bind_section (peer : Peer) (envelope : Envelope) (impl : Impl) :
    option (string * Z) * Impl :=
  match im_connections impl !! peer_id peer with
  | None => (None, impl)
  | Some _ =>
    match list_find (lane_candidate (peer_id peer) envelope)
            (map_to_list (im_sessions impl)) with
    | None => (None, impl)
    | Some (_, (key, session)) =>
      let impl := set_sessions
        (<[key := with_lossy_peer_id (peer_id peer) session]> (im_sessions impl)) impl in
      (Some key, set_lane_owner
        (<[peer_id peer := (key.1, env_session_id envelope)]> (im_lane_owner impl)) impl)
    end
  end.

Definition handle_lane_bind (clock : Clock) (peer : Peer) (envelope : Envelope)
    (impl : Impl) : bool * Impl :=
  if negb (bool_decide (decode_text (env_payload envelope)
                        = Some (cfg_shared_secret (im_config impl))))
  then (false, impl)
  else
  let r := lane_bind_section peer envelope impl in
  match r.1 with
  | None => (false, r.2)
  | Some key =>
    if bool_decide (key.1 = EmptyString) then (false, r.2)
    else (true, send_session clock (peer_id peer) (env_session_id envelope)
                  SessionOperation.kLaneReady "session.lane_ready" []
                  (env_message_id envelope) r.2)
  end.

Definition handle_lane_ready (peer : Peer) (envelope : Envelope) (impl : Impl) :
    bool * Impl :=
  match im_lane_owner impl !! peer_id peer with
  | None => (false, impl)
  | Some owner =>
    if negb (owner.2 =? env_session_id envelope) then (false, impl)
    else
    match im_sessions impl !! (owner.1, env_session_id envelope) with
    | None => (false, impl)
    | Some session =>
      if negb (bool_decide (si_state session = kActive)) then (false, impl)
      else (true, set_sessions
              (<[(owner.1, env_session_id envelope) :=
                   with_lossy_peer_id (peer_id peer) session]> (im_sessions impl)) impl)
    end
  end.

(** ** Dispatch *)

(** [logical]: the control peer of a lane, the peer itself otherwise. *)
Definition logical_peer (peer : Peer) (impl : Impl) : Peer :=
  match im_lane_owner impl !! peer_id peer with
  | None => peer
  | Some owner =>
    match im_connections impl !! owner.1 with
    | Some control =>
      match im_heap impl !! control with
      | Some c => rc_peer c
      | None => peer
      end
    | None => mkPeer owner.1 (peer_ip peer) (peer_port peer)
    end
  end.

(** [authorized] and [profile_supported]. *)
Definition envelope_checks (logical : Peer) (envelope : Envelope) (impl : Impl) : bool * bool :=
  match im_sessions impl !! (peer_id logical, env_session_id envelope) with
  | None => (false, false)
  | Some it =>
    if bool_decide (si_state it = kActive)
       && bool_decide (si_remote_endpoint_uid it = src_endpoint_uid (env_source envelope))
    then
      (matches (env_target envelope) (cfg_endpoint_uid (im_config impl))
         (ent_uid <$> cfg_entities (im_config impl)) (cfg_group_uids (im_config impl)),
       is_core (env_type envelope)
       || supports_profile it (tr_profile_id (env_type envelope))
            (tr_major (env_type envelope)) (tr_minor (env_type envelope)))
    else (false, false)
  end.

Definition envelope_event (peer : Peer) (envelope : Envelope) : RuntimeEvent :=
  mkRuntimeEvent EventEnvelope peer envelope default_SessionInfo kOk EmptyString false.

(** The branch of [runtime_handle_envelope] for the other families. *)
Definition handle_message (clock : Clock) (peer logical : Peer) (envelope : Envelope)
    (impl : Impl) : Impl :=
  let checks := envelope_checks logical envelope impl in
  if negb checks.1 then
    runtime_emit (error_event peer envelope kUnauthorized
      "inactive session, source mismatch, or target mismatch") impl
  else if negb checks.2 then
    runtime_emit (error_event peer envelope kUnsupported
      "message type exceeds the negotiated profile version") impl
  else
  let handled := runtime_handle_authority clock peer envelope impl in
  if handled.1 then handled.2
  else
  let impl := handled.2 in
  let authorized := runtime_action_authorized clock peer envelope impl in
  if negb authorized.1 then
    runtime_emit (error_event peer envelope kUnauthorized authorized.2) impl
  else runtime_emit (envelope_event logical envelope) impl.

(** The branch of [runtime_handle_envelope] for sessions. *)
Definition handle_session (clock : Clock) (peer : Peer) (envelope : Envelope)
    (impl : Impl) : Impl :=
  let key := (peer_id peer, env_session_id envelope) in
  let update := session_update (im_config impl) (peer_id peer) envelope
                  (default default_SessionInfo (im_sessions impl !! key)) in
  let impl := set_sessions (<[key := su_session update]> (im_sessions impl)) impl in
  let impl := emit_session peer (su_session update) impl in
  if su_source_mismatch update then impl
  else
  let impl :=
    if su_reply_profiles update then
      send_session clock (peer_id peer) (env_session_id envelope) SessionOperation.kProfiles
        "session.profiles" (encode_profile_list (cfg_profiles (im_config impl)))
        (env_message_id envelope) impl
    else impl in
  if su_reply_ready update then
    send_session clock (peer_id peer) (env_session_id envelope) SessionOperation.kReady
      "session.ready" [] (env_message_id envelope) impl
  else impl.

Definition runtime_handle_envelope (clock : Clock) (peer : Peer) (envelope : Envelope)
    (impl : Impl) : Impl :=
  if bool_decide (env_family envelope = FamilySession) then
    if env_operation envelope =? SessionOperation.kLaneBind
    then (handle_lane_bind clock peer envelope impl).2
    else if env_operation envelope =? SessionOperation.kLaneReady
    then (handle_lane_ready peer envelope impl).2
    else handle_session clock peer envelope impl
  else handle_message clock peer (logical_peer peer impl) envelope impl.

(** ** Losing a peer *)

(** The sessions of a peer, in the order of the map. *)
Definition peer_sessions (peer : string) (impl : Impl) : list ((string * Z) * SessionInfo) :=
  filter (λ entry, entry.1.1 = peer) (map_to_list (im_sessions impl)).

(** The loop over the sessions of a lost control peer: [lossy_to_close] is the lane
    of the last session that has one, but every lane loses its owner. *)
Definition lossy_lanes (sessions : list ((string * Z) * SessionInfo)) : list string :=
  filter (λ lossy, lossy ≠ EmptyString) ((λ entry, si_lossy_peer_id entry.2) <$> sessions).

Definition drop_control_section (peer : string) (impl : Impl) : Impl :=
  let lost := peer_sessions peer impl in
  let impl := set_lane_owner (foldr delete (im_lane_owner impl) (lossy_lanes lost)) impl in
  let impl := set_sessions (filter (λ entry, entry.1.1 ≠ peer) (im_sessions impl)) impl in
  set_authority_leases
    (filter (λ entry, al_peer_id entry.2 ≠ peer) (im_authority_leases impl)) impl.

Definition drop_lane_section (peer : string) (lane : string * Z) (impl : Impl) : Impl :=
  let impl :=
    match im_sessions impl !! lane with
    | Some session =>
      if bool_decide (si_lossy_peer_id session = peer)
      then set_sessions (<[lane := with_lossy_peer_id EmptyString session]>
                           (im_sessions impl)) impl
      else impl
    | None => impl
    end in
  set_lane_owner (delete peer (im_lane_owner impl)) impl.

(** [runtime_drop_peer_state]. *)
Definition runtime_drop_peer_state (peer : Peer) (impl : Impl) : Impl :=
  match im_lane_owner impl !! peer_id peer with
  | Some lane => drop_lane_section (peer_id peer) lane impl
  | None =>
    let lost := peer_sessions (peer_id peer) impl in
    let impl := drop_control_section (peer_id peer) impl in
    let impl :=
      match last (lossy_lanes lost) with
      | Some lossy_to_close =>
        match im_connections impl !! lossy_to_close with
        | Some lossy => stop_connection lossy impl
        | None => impl
        end
      | None => impl
      end in
    foldl (λ impl entry, emit_session peer (with_state kLost entry.2) impl) impl lost
  end.

(** ** Frame conditions *)
Lemma quiet_send_session clock peer session_id operation type_name payload correlation impl :
  quiet impl (send_session clock peer session_id operation type_name payload correlation impl).
Proof.
  unfold send_session. cbv zeta.
  transitivity (fetch_message_id impl).2; [apply quiet_fetch_message_id|apply quiet_write].
Qed.

Lemma quiet_send_status clock peer request status impl :
  quiet impl (send_status clock peer request status impl).
Proof.
  unfold send_status. cbv zeta.
  transitivity (fetch_message_id impl).2; [apply quiet_fetch_message_id|apply quiet_write].
Qed.

#[export] Hint Resolve quiet_send_session quiet_send_status : yunlink.

(** ** Negotiation *)
Lemma negotiate_profile_spec local remote :
  match (negotiate_profile local remote).1 with
  | p =>
    p = no_profile
    ∨ (pd_profile_id local = pd_profile_id remote ∧ pd_major local = pd_major remote
       ∧ pd_profile_id p = pd_profile_id remote ∧ pd_major p = pd_major remote
       ∧ pd_minor p = Z.min (pd_minor local) (pd_minor remote)
       ∧ (pd_schema_digest p = pd_schema_digest local
          ∨ pd_schema_digest p = pd_schema_digest remote))
  end.
Proof.
  unfold negotiate_profile. case_bool_decide as Hid; [|by left]. cbn [negb orb].
  destruct (Z.eqb_spec (pd_major local) (pd_major remote)); [|by left]. cbn [negb].
  destruct (_ && _); [by left|]. right. cbn.
  destruct (_ <=? _); repeat split; try done; auto.
Qed.

(** Both ends of a session negotiate the same profile: [negotiate_profile] is
    symmetric, in its result and in the digest conflict it reports. *)
Theorem negotiate_profile_symmetric local remote :
  negotiate_profile local remote = negotiate_profile remote local.
Proof.
  unfold negotiate_profile.
  destruct (decide (pd_profile_id local = pd_profile_id remote)) as [Hid|Hid].
  2: { by rewrite (bool_decide_false (pd_profile_id local = _)),
         (bool_decide_false (pd_profile_id remote = _)) by congruence. }
  rewrite (bool_decide_true (pd_profile_id local = _)),
    (bool_decide_true (pd_profile_id remote = _)) by congruence. cbn [negb orb].
  rewrite (Z.eqb_sym (pd_major remote)).
  destruct (Z.eqb_spec (pd_major local) (pd_major remote)) as [Hmaj|]; [|done]. cbn [negb].
  rewrite (Z.eqb_sym (pd_minor remote)), (Z.min_comm (pd_minor remote)).
  destruct (Z.eqb_spec (pd_minor local) (pd_minor remote)) as [Hmin|Hmin]; cbn [andb].
  - destruct (decide (pd_schema_digest local = pd_schema_digest remote)) as [Hd|Hd].
    + rewrite (bool_decide_true (pd_schema_digest local = _)),
        (bool_decide_true (pd_schema_digest remote = _)) by congruence. cbn [negb].
      rewrite Hmin, Z.leb_refl. by rewrite Hid, Hmaj, Hd.
    + by rewrite (bool_decide_false (pd_schema_digest local = _)),
        (bool_decide_false (pd_schema_digest remote = _)) by congruence.
  - destruct (Z.leb_spec (pd_minor local) (pd_minor remote)),
      (Z.leb_spec (pd_minor remote) (pd_minor local)); try lia; done.
Qed.

Lemma negotiate_step_spec (local remotes : list ProfileDescriptor) acc remote :
  (∀ id p, acc.1 !! id = Some p → ∃ l r, l ∈ local ∧ r ∈ remotes
     ∧ pd_profile_id l = id ∧ pd_profile_id r = id
     ∧ p = (negotiate_profile l r).1 ∧ pd_profile_id p ≠ EmptyString) →
  remote ∈ remotes →
  (∀ id p, (negotiate_step local acc remote).1 !! id = Some p →
     ∃ l r, l ∈ local ∧ r ∈ remotes ∧ pd_profile_id l = id ∧ pd_profile_id r = id
     ∧ p = (negotiate_profile l r).1 ∧ pd_profile_id p ≠ EmptyString)
  ∧ (is_Some ((negotiate_step local acc remote).1 !! pd_profile_id remote)
     ∨ pd_profile_id remote ∈ (negotiate_step local acc remote).2)
  ∧ (∀ id, is_Some (acc.1 !! id) → is_Some ((negotiate_step local acc remote).1 !! id))
  ∧ (∀ id, id ∈ acc.2 → id ∈ (negotiate_step local acc remote).2).
Proof.
  intros Hacc Hin. unfold negotiate_step.
  destruct (list_find _ local) as [[i l]|] eqn:E; cbn.
  2: { repeat split; try done; set_solver. }
  apply list_find_Some in E as (Hi & Hid & _). case_bool_decide as Hne; cbn.
  { repeat split; try done; set_solver. }
  repeat split.
  - intros id p [[<- <-]|[Hn Hp]]%lookup_insert_Some; [|by apply Hacc].
    exists l, remote. repeat split; try done. by eapply list_elem_of_lookup_2.
  - left. rewrite lookup_insert_eq. by eexists.
  - intros id Hs. rewrite lookup_insert_is_Some. destruct (decide (pd_profile_id remote = id)); auto.
  - done.
Qed.

Lemma negotiate_profiles_spec (local remotes : list ProfileDescriptor) :
  (∀ id p, (negotiate_profiles local remotes).1 !! id = Some p →
     ∃ l r, l ∈ local ∧ r ∈ remotes ∧ pd_profile_id l = id ∧ pd_profile_id r = id
     ∧ p = (negotiate_profile l r).1 ∧ pd_profile_id p ≠ EmptyString)
  ∧ (∀ r, r ∈ remotes → is_Some ((negotiate_profiles local remotes).1 !! pd_profile_id r)
       ∨ pd_profile_id r ∈ (negotiate_profiles local remotes).2).
Proof.
  unfold negotiate_profiles.
  cut (∀ (done todo : list ProfileDescriptor) acc, remotes = done ++ todo →
    (∀ id p, acc.1 !! id = Some p → ∃ l r, l ∈ local ∧ r ∈ remotes
       ∧ pd_profile_id l = id ∧ pd_profile_id r = id
       ∧ p = (negotiate_profile l r).1 ∧ pd_profile_id p ≠ EmptyString) →
    (∀ r, r ∈ done → is_Some (acc.1 !! pd_profile_id r) ∨ pd_profile_id r ∈ acc.2) →
    (∀ id p, (foldl (negotiate_step local) acc todo).1 !! id = Some p →
       ∃ l r, l ∈ local ∧ r ∈ remotes ∧ pd_profile_id l = id ∧ pd_profile_id r = id
       ∧ p = (negotiate_profile l r).1 ∧ pd_profile_id p ≠ EmptyString)
    ∧ (∀ r, r ∈ remotes → is_Some ((foldl (negotiate_step local) acc todo).1
                                     !! pd_profile_id r)
         ∨ pd_profile_id r ∈ (foldl (negotiate_step local) acc todo).2)).
  { intros H. apply (H [] remotes (∅, [])); [done|intros ? ? Hp; cbn in Hp; by rewrite lookup_empty in Hp|set_solver]. }
  intros done todo. revert done. induction todo as [|r todo IH]; intros done acc Hr Hacc Hd.
  { rewrite app_nil_r in Hr. subst done. auto. }
  cbn [foldl]. destruct (negotiate_step_spec local remotes acc r Hacc) as (H1 & H2 & H3 & H4).
  { rewrite Hr. set_solver. }
  apply (IH (done ++ [r])); [by rewrite <- app_assoc|done|].
  intros r' [Hr'|Hr'%list_elem_of_singleton]%elem_of_app.
  - destruct (Hd r' Hr'); auto.
  - by subst.
Qed.

(** C39 A negotiated profile is one both sides offered: it has their common id and
    major version and the smaller of their minors, so neither side is sent anything
    newer than it announced.  Every profile the remote offered is either negotiated
    or reported as rejected. *)
Theorem negotiated_by_both (local remotes : list ProfileDescriptor) :
  (∀ id p, (negotiate_profiles local remotes).1 !! id = Some p →
     ∃ l r, l ∈ local ∧ r ∈ remotes ∧ pd_profile_id l = id ∧ pd_profile_id r = id
     ∧ pd_profile_id p = id ∧ pd_major p = pd_major l ∧ pd_major p = pd_major r
     ∧ pd_minor p = Z.min (pd_minor l) (pd_minor r))
  ∧ (∀ r, r ∈ remotes → is_Some ((negotiate_profiles local remotes).1 !! pd_profile_id r)
       ∨ pd_profile_id r ∈ (negotiate_profiles local remotes).2).
Proof.
  destruct (negotiate_profiles_spec local remotes) as [Hneg Hall]. split; [|done].
  intros id p (l & r & Hl & Hr & Hlid & Hrid & Hp & Hne)%Hneg.
  destruct (negotiate_profile_spec l r) as [Hno|(Hid & Hmaj & Hpid & Hpmaj & Hpmin & _)].
  { exfalso. apply Hne. rewrite Hp, Hno. done. }
  exists l, r. rewrite Hp. repeat split; try done; congruence.
Qed.

(** ** The session state machine *)

(** The session after a sequence of messages. *)
Definition session_run (config : RuntimeConfig) (peer : string) (messages : list Envelope)
    (session : SessionInfo) : SessionInfo :=
  foldl (λ s e, su_session (session_update config peer e s)) session messages.

(** A message that authenticates: it carries the shared secret. *)
Definition authenticates (config : RuntimeConfig) (envelope : Envelope) : bool :=
  (env_operation envelope =? SessionOperation.kAuthenticate)
  && bool_decide (decode_text (env_payload envelope) = Some (cfg_shared_secret config)).

(** Destructs the branches of the session state machine. *)
Ltac session_cases :=
  repeat first
    [ progress cbn [su_session si_state with_state with_authenticated with_profiles
        with_identity si_authenticated si_remote_endpoint_uid]
    | match goal with
      | |- context [if ?b then _ else _] => destruct b eqn:?
      | |- context [match decode_profile_list ?p with _ => _ end] =>
        destruct (decode_profile_list p) eqn:?
      end ].

Lemma session_operation_state config envelope s :
  si_state (su_session (session_operation config envelope s)) = si_state s
  ∨ si_state (su_session (session_operation config envelope s)) = kInvalid
  ∨ (si_state (su_session (session_operation config envelope s)) = kAuthenticated
     ∧ authenticates config envelope = true)
  ∨ (si_state (su_session (session_operation config envelope s)) = kNegotiated
     ∧ si_state s ≠ kInvalid ∧ env_operation envelope = SessionOperation.kProfiles
     ∧ is_Some (decode_profile_list (env_payload envelope)))
  ∨ (si_state (su_session (session_operation config envelope s)) = kActive
     ∧ si_state s = kNegotiated ∧ env_operation envelope = SessionOperation.kReady).
Proof.
  unfold session_operation, authenticates.
  destruct (Z.eqb_spec (env_operation envelope) SessionOperation.kHello) as [E|_].
  { destruct (match _ with Some _ => _ | None => _ end); cbn; auto. }
  destruct (env_operation envelope =? SessionOperation.kAuthenticate) eqn:E.
  { case_bool_decide; cbn; auto. }
  destruct (Z.eqb_spec (env_operation envelope) SessionOperation.kProfiles) as [E'|_].
  { destruct (decode_profile_list _) as [ps|]; [|cbn; auto].
    case_bool_decide as Hi; cbn in *; [auto|]. do 3 right. left. eauto. }
  destruct (Z.eqb_spec (env_operation envelope) SessionOperation.kReady) as [E'|_]; [|auto].
  case_bool_decide; cbn; [auto 10|]. case_bool_decide; cbn; auto.
Qed.

(** A refused session stays refused: once invalid (wrong secret, malformed
    greeting or profiles, or a change of source), it leaves that state only through
    a message that carries the shared secret. *)
Theorem invalid_until_authenticated config peer messages session :
  si_state session = kInvalid → Forall (λ e, authenticates config e = false) messages →
  si_state (session_run config peer messages session) = kInvalid.
Proof.
  intros Hs Hm. revert session Hs. induction Hm as [|e messages He Hm IH]; intros s Hs; [done|].
  cbn [session_run foldl]. apply IH.
  unfold session_update. destruct (bool_decide (si_remote_endpoint_uid s = EmptyString));
    [|case_bool_decide; [|done]].
  all: match goal with
  | |- si_state (su_session (session_operation _ _ ?s')) = _ =>
    destruct (session_operation_state config e s') as [Hst|[Hst|[[_ Hst]|[(_ & Hst & _)|(_ & Hst & _)]]]]
  end; try congruence; cbn in *; congruence.
Qed.

(** C10 A session becomes active only by a Ready message from its own source while
    it is negotiated, and negotiated only by a well-formed profile list while it is
    not invalid. *)
Theorem session_transitions config peer envelope session :
  let after := su_session (session_update config peer envelope session) in
  (si_state after = kActive → si_state session ≠ kActive →
     si_state session = kNegotiated ∧ env_operation envelope = SessionOperation.kReady
     ∧ si_remote_endpoint_uid after = src_endpoint_uid (env_source envelope))
  ∧ (si_state after = kNegotiated → si_state session ≠ kNegotiated →
     si_state session ≠ kInvalid ∧ env_operation envelope = SessionOperation.kProfiles
     ∧ is_Some (decode_profile_list (env_payload envelope)))
  ∧ (si_state after = kAuthenticated → si_state session ≠ kAuthenticated →
     authenticates config envelope = true).
Proof.
  cbv zeta. unfold session_update.
  assert (Hremote : ∀ s, si_remote_endpoint_uid (su_session (session_operation config envelope s))
                         = si_remote_endpoint_uid s).
  { intros s. unfold session_operation. session_cases; try done; by destruct (_ : bool). }
  destruct (bool_decide (si_remote_endpoint_uid session = EmptyString));
    [|case_bool_decide as Hsrc; [|cbn; naive_solver]].
  all: match goal with
  | |- context [session_operation _ _ ?s'] =>
    pose proof (Hremote s') as Hr; cbn in Hr;
    destruct (session_operation_state config envelope s')
      as [Hst|[Hst|[[Hst ?]|[(Hst & ? & ? & ?)|(Hst & ? & ?)]]]]
  end; rewrite ?Hst; cbn in *; repeat split; intros; try congruence; done.
Qed.

(** The four messages of the handshake, as [send_session] writes them. *)
Section handshake_messages.
Context (config : RuntimeConfig) (clock : Clock) (source : string) (message_id : Z)
  (session_id : Z) (type_name : string) (correlation_id : Z).

Let message (operation : Z) (payload : Bytes) : Envelope :=
  session_envelope clock source message_id session_id operation type_name payload
    correlation_id.

Lemma operation_hello s :
  valid_uid source = true →
  session_operation config (message SessionOperation.kHello (encode_text source)) s
  = mkSessionUpdate s false false false.
Proof.
  intros Huid. pose proof (valid_uid_length source Huid) as Hlen. unfold kMaxUidBytes in Hlen.
  unfold session_operation, message. cbn -[decode_text encode_text bool_decide valid_uid].
  rewrite decode_encode_text by (unfold wf_text, uint16_max; bool_solve).
  by rewrite Huid, bool_decide_true.
Qed.

Lemma operation_authenticate s secret :
  wf_text secret = true →
  session_operation config (message SessionOperation.kAuthenticate (encode_text secret)) s
  = mkSessionUpdate
      (with_state (if bool_decide (secret = cfg_shared_secret config)
                   then kAuthenticated else kInvalid)
         (with_authenticated (bool_decide (secret = cfg_shared_secret config)) s))
      false false false.
Proof.
  intros Hs. unfold session_operation, message. cbn -[decode_text encode_text bool_decide].
  rewrite decode_encode_text by done.
  destruct (decide (secret = cfg_shared_secret config)) as [->|Hne].
  - by rewrite !bool_decide_true.
  - by rewrite !bool_decide_false by congruence.
Qed.

Lemma operation_profiles s profiles :
  wf_list wf_profile profiles = true →
  session_operation config
    (message SessionOperation.kProfiles (encode_profile_list profiles)) s
  = mkSessionUpdate
      (if bool_decide (si_state s = kInvalid)
       then with_profiles (negotiate_profiles (cfg_profiles config) profiles) s
       else with_state kNegotiated
              (with_profiles (negotiate_profiles (cfg_profiles config) profiles) s))
      (correlation_id =? 0) false false.
Proof.
  intros Hp. unfold session_operation, message.
  cbn -[decode_profile_list encode_profile_list bool_decide negotiate_profiles Z.eqb].
  change (SessionOperation.kProfiles =? SessionOperation.kHello) with false.
  change (SessionOperation.kProfiles =? SessionOperation.kAuthenticate) with false.
  change (SessionOperation.kProfiles =? SessionOperation.kProfiles) with true.
  cbv iota. by rewrite decode_encode_profile_list.
Qed.

Lemma operation_ready s payload :
  session_operation config (message SessionOperation.kReady payload) s
  = if bool_decide (si_state s = kNegotiated)
    then mkSessionUpdate (with_authenticated true (with_state kActive s)) false
           (correlation_id =? 0) false
    else if bool_decide (si_state s = kActive) then mkSessionUpdate s false false false
    else mkSessionUpdate (with_state kInvalid s) false false false.
Proof. done. Qed.
End handshake_messages.

(** A message from the source a session is bound to, and the first of a session. *)
Lemma session_update_same config peer e s :
  si_remote_endpoint_uid s = src_endpoint_uid (env_source e) →
  session_update config peer e s
  = session_operation config e
      (with_identity (env_session_id e) peer (src_endpoint_uid (env_source e)) s).
Proof.
  intros Hr. unfold session_update. rewrite Hr. case_bool_decide; [done|].
  cbn [with_identity si_remote_endpoint_uid]. by rewrite bool_decide_true.
Qed.

Lemma session_update_first config peer e s :
  si_remote_endpoint_uid s = EmptyString →
  session_update config peer e s
  = session_operation config e
      (with_identity (env_session_id e) peer (src_endpoint_uid (env_source e)) s).
Proof. intros Hr. unfold session_update. by rewrite Hr, bool_decide_true. Qed.

Lemma session_run_cons config peer e messages s :
  session_run config peer (e :: messages) s
  = session_run config peer messages (su_session (session_update config peer e s)).
Proof. done. Qed.

(** (finding) The session channel does not enforce that Ready and Profiles
    follow Authenticate: a peer that never sends the secret, only a profile list and
    then Ready, ends with an active session marked authenticated, whatever the
    configuration. *)
Theorem ready_without_authenticate config peer session_id source profiles :
  source ≠ EmptyString → wf_list wf_profile profiles = true →
  let message operation payload :=
    session_envelope (mkClock 1 1) source 1 session_id operation "session" payload 0 in
  let session := session_run config peer
    [message SessionOperation.kProfiles (encode_profile_list profiles);
     message SessionOperation.kReady []] default_SessionInfo in
  si_state session = kActive ∧ si_authenticated session = true.
Proof.
  intros Hsource Hwf. cbv zeta.
  rewrite session_run_cons, session_update_first, operation_profiles by done.
  rewrite (bool_decide_false (si_state (with_identity _ _ _ _) = kInvalid)) by done.
  by rewrite session_run_cons, session_update_same, operation_ready.
Qed.

(** The handshake the protocol intends succeeds: Hello, Authenticate with the
    shared secret, Profiles and Ready from one source make a new session active and
    authenticated, with the profiles negotiated from the two lists. *)
Theorem handshake_activates config peer session_id source profiles :
  valid_uid source = true → wf_list wf_profile profiles = true →
  wf_text (cfg_shared_secret config) = true →
  let message operation payload :=
    session_envelope (mkClock 1 1) source 1 session_id operation "session" payload 0 in
  let session := session_run config peer
    [message SessionOperation.kHello (encode_text source);
     message SessionOperation.kAuthenticate (encode_text (cfg_shared_secret config));
     message SessionOperation.kProfiles (encode_profile_list profiles);
     message SessionOperation.kReady []] default_SessionInfo in
  session = mkSessionInfo session_id peer source kActive true
    (negotiate_profiles (cfg_profiles config) profiles).1
    (negotiate_profiles (cfg_profiles config) profiles).2 EmptyString.
Proof.
  intros Huid Hwf Hsecret. cbv zeta.
  rewrite session_run_cons, session_update_first, operation_hello by done.
  rewrite session_run_cons, session_update_same, operation_authenticate by done.
  rewrite bool_decide_true by done.
  rewrite session_run_cons, session_update_same, operation_profiles by done.
  rewrite bool_decide_false by done.
  by rewrite session_run_cons, session_update_same, operation_ready.
Qed.

(** ** Dispatch of the other messages *)

(** The session a message belongs to: it is active, bound to the sender, and this
    endpoint is among the message's targets.  [logical] is the control peer of the
    connection [peer] the message came over. *)
Definition bound (logical : Peer) (envelope : Envelope) (impl : Impl)
    (session : SessionInfo) : Prop :=
  im_sessions impl !! (peer_id logical, env_session_id envelope) = Some session
  ∧ si_state session = kActive
  ∧ si_remote_endpoint_uid session = src_endpoint_uid (env_source envelope)
  ∧ matches (env_target envelope) (cfg_endpoint_uid (im_config impl))
      (ent_uid <$> cfg_entities (im_config impl)) (cfg_group_uids (im_config impl)) = true.

(** The type is of the core or of a profile the session negotiated. *)
Definition negotiated (envelope : Envelope) (session : SessionInfo) : Prop :=
  is_core (env_type envelope) = true
  ∨ supports_profile session (tr_profile_id (env_type envelope))
      (tr_major (env_type envelope)) (tr_minor (env_type envelope)) = true.

Definition asks_authority (envelope : Envelope) : Prop :=
  env_family envelope = FamilyAuthority ∧ env_operation envelope ≠ AuthorityOperation.kStatus.

(** A goal or a cancel needs the authority over its only target. *)
Definition may_act (now : Z) (peer : Peer) (envelope : Envelope) (impl : Impl) : Prop :=
  env_family envelope = FamilyAction →
  env_operation envelope = ActionOperation.kGoal
  ∨ env_operation envelope = ActionOperation.kCancel →
  ∃ uid, single_entity (env_target envelope) = Some uid
  ∧ holder now (uid, action_scope (im_config impl) (env_type envelope))
      (im_authority_leases impl) = Some (peer_id peer, env_session_id envelope).

(** What becomes of a message. *)
Inductive verdict :=
  | Deliver
  | Report (error : ErrorCode) (message : string)
  | Answer.

(** The rules, of which exactly one applies. *)
Inductive judged (now : Z) (peer logical : Peer) (envelope : Envelope) (impl : Impl) :
    verdict → Prop :=
  | judged_stranger :
    (∀ session, ¬ bound logical envelope impl session) →
    judged now peer logical envelope impl
      (Report kUnauthorized "inactive session, source mismatch, or target mismatch")
  | judged_unsupported session :
    bound logical envelope impl session → ¬ negotiated envelope session →
    judged now peer logical envelope impl
      (Report kUnsupported "message type exceeds the negotiated profile version")
  | judged_authority session :
    bound logical envelope impl session → negotiated envelope session →
    asks_authority envelope → judged now peer logical envelope impl Answer
  | judged_action session :
    bound logical envelope impl session → negotiated envelope session →
    ¬ asks_authority envelope → ¬ may_act now peer envelope impl →
    judged now peer logical envelope impl
      (Report kUnauthorized
         (if bool_decide (single_entity (env_target envelope) = None)
          then "actions require exactly one entity target"
          else "no active authority lease for entity and profile scope"))
  | judged_deliver session :
    bound logical envelope impl session → negotiated envelope session →
    ¬ asks_authority envelope → may_act now peer envelope impl →
    judged now peer logical envelope impl Deliver.

(** One status is sent back: on an ill-formed request a rejection, otherwise what the
    update of the lease table says. *)
Definition answered (clock : Clock) (peer : Peer) (envelope : Envelope) (impl impl' : Impl) :
    Prop :=
  match authority_request envelope with
  | None =>
    impl' = send_status clock peer envelope
      (mkAuthorityStatus EmptyString "rejected" 0 (ErrorCode_value kInvalidArgument)
         "invalid authority request") impl
  | Some (request, uid) =>
    let r := authority_update (runtime_steady_now clock) (peer_id peer)
               (env_session_id envelope) (env_operation envelope)
               (uid, ar_authority_scope request) request (im_authority_leases impl) in
    impl' = send_status clock peer envelope
      (mkAuthorityStatus (ar_authority_scope request) r.1.1.1 (ar_lease_ttl_ms request)
         r.1.1.2 r.1.2) (set_authority_leases r.2 impl)
  end.

(** The state a verdict leaves. *)
Definition carried_out (clock : Clock) (peer logical : Peer) (envelope : Envelope)
    (impl : Impl) (v : verdict) (impl' : Impl) : Prop :=
  match v with
  | Deliver => impl' = runtime_emit (envelope_event logical envelope) impl
  | Report error message =>
    impl' = runtime_emit (error_event peer envelope error message) impl
  | Answer => answered clock peer envelope impl impl' ∧ im_trace impl' = im_trace impl
  end.

(** The time to live has not passed; 0 stands for no limit. *)
Definition unexpired (now_ms : Z) (envelope : Envelope) : Prop :=
  env_ttl_ms envelope = 0 ∨ now_ms <= env_created_at_ms envelope + env_ttl_ms envelope.

Lemma bound_inj logical envelope impl session session' :
  bound logical envelope impl session → bound logical envelope impl session' →
  session = session'.
Proof. intros [H _] [H' _]. congruence. Qed.

Lemma judged_unique now peer logical envelope impl v v' :
  judged now peer logical envelope impl v → judged now peer logical envelope impl v' → v = v'.
Proof.
  destruct 1 as [Hno|s Hs Hn|s Hs Hn Ha|s Hs Hn Ha Hm|s Hs Hn Ha Hm];
    destruct 1 as [Hno'|s' Hs' Hn'|s' Hs' Hn' Ha'|s' Hs' Hn' Ha' Hm'|s' Hs' Hn' Ha' Hm'];
    try done; try (by destruct (Hno _ Hs')); try (by destruct (Hno' _ Hs));
    pose proof (bound_inj _ _ _ _ _ Hs Hs') as <-; done.
Qed.

(** The two checks under the mutex. *)
Lemma envelope_checks_spec logical envelope impl :
  match envelope_checks logical envelope impl with
  | (false, _) => ∀ session, ¬ bound logical envelope impl session
  | (true, supported) => ∃ session, bound logical envelope impl session
                         ∧ (supported = true ↔ negotiated envelope session)
  end.
Proof.
  unfold envelope_checks, bound. destruct (im_sessions impl !! _) as [it|].
  2: { intros session [? _]. done. }
  destruct (_ && _) eqn:E.
  - rewrite andb_true_iff, !bool_decide_eq_true in E. destruct E as [Hst Hsrc].
    destruct (matches _ _ _ _) eqn:Em.
    + exists it. split; [done|]. unfold negotiated. by rewrite orb_true_iff.
    + intros session (_ & _ & _ & Hm). congruence.
  - intros session ([= <-] & Hst & Hsrc & _).
    rewrite Hst, Hsrc, !bool_decide_true in E by done. done.
Qed.

Lemma authority_handles clock peer envelope impl :
  (runtime_handle_authority clock peer envelope impl).1 = true ↔ asks_authority envelope.
Proof.
  unfold runtime_handle_authority, asks_authority.
  destruct (decide (env_family envelope = FamilyAuthority)) as [Hf|Hf].
  2: { rewrite bool_decide_false by done. cbn. naive_solver. }
  rewrite bool_decide_true by done. cbn [negb orb].
  destruct (Z.eqb_spec (env_operation envelope) AuthorityOperation.kStatus) as [Ho|Ho]; cbn.
  - naive_solver.
  - destruct (authority_request envelope) as [[request uid]|]; naive_solver.
Qed.

Lemma authority_answers clock peer envelope impl :
  asks_authority envelope →
  answered clock peer envelope impl (runtime_handle_authority clock peer envelope impl).2.
Proof.
  intros [Hf Ho]. unfold runtime_handle_authority, answered.
  rewrite bool_decide_true by done. rewrite (proj2 (Z.eqb_neq _ _)) by done. cbn [negb orb].
  by destruct (authority_request envelope) as [[request uid]|].
Qed.

(** The detail of a refused action. *)
Lemma action_detail clock peer envelope impl :
  (runtime_action_authorized clock peer envelope impl).1 = false →
  (runtime_action_authorized clock peer envelope impl).2
  = if bool_decide (single_entity (env_target envelope) = None)
    then "actions require exactly one entity target"
    else "no active authority lease for entity and profile scope".
Proof.
  unfold runtime_action_authorized. destruct (_ || _); [done|].
  destruct (single_entity _) as [uid|]; [|done].
  rewrite bool_decide_false by done. by destruct (holds_lease _ _ _ _ _).
Qed.

Lemma authority_quiet clock peer envelope impl :
  (runtime_handle_authority clock peer envelope impl).1 = false →
  (runtime_handle_authority clock peer envelope impl).2 = impl.
Proof.
  unfold runtime_handle_authority. destruct (_ || _); [done|].
  by destruct (authority_request envelope) as [[request uid]|].
Qed.

Lemma authority_trace clock peer envelope impl :
  im_trace (runtime_handle_authority clock peer envelope impl).2 = im_trace impl.
Proof.
  unfold runtime_handle_authority. destruct (_ || _); [done|].
  destruct (authority_request envelope) as [[request uid]|]; cbn [snd].
  - by rewrite (q_trace _ _ (quiet_send_status _ _ _ _ _)).
  - apply (q_trace _ _ (quiet_send_status _ _ _ _ _)).
Qed.

Lemma message_judged clock peer envelope impl :
  env_family envelope ≠ FamilySession →
  let logical := logical_peer peer impl in
  ∃ v, judged (runtime_steady_now clock) peer logical envelope impl v
  ∧ carried_out clock peer logical envelope impl v
      (runtime_handle_envelope clock peer envelope impl).
Proof.
  intros Hf. cbv zeta. unfold runtime_handle_envelope. rewrite bool_decide_false by done.
  unfold handle_message. set (logical := logical_peer peer impl).
  pose proof (envelope_checks_spec logical envelope impl) as Hc.
  destruct (envelope_checks logical envelope impl) as [[] supported]; cbn [fst snd negb].
  2: { by eexists; split; [apply judged_stranger|]. }
  destruct Hc as (session & Hb & Hsup). destruct supported; cbn [negb].
  2: { eexists; split; [apply (judged_unsupported _ _ _ _ _ session); [done|]|done].
       intros Hn%Hsup. done. }
  pose proof (proj1 Hsup eq_refl) as Hn. pose proof (authority_handles clock peer envelope impl) as Ha.
  destruct (runtime_handle_authority clock peer envelope impl).1 eqn:Eh.
  { exists Answer. split; [apply (judged_authority _ _ _ _ _ session); [done..|by apply Ha]|].
    split; [apply authority_answers; by apply Ha|apply authority_trace]. }
  assert (Hnot : ¬ asks_authority envelope) by (intros H; by apply Ha in H).
  rewrite authority_quiet by done.
  pose proof (action_authorized_holder clock peer envelope impl) as Hact.
  pose proof (action_detail clock peer envelope impl) as Hdetail.
  destruct (runtime_action_authorized clock peer envelope impl).1; cbn [negb].
  - exists Deliver. split; [|done]. apply (judged_deliver _ _ _ _ _ session); try done.
    exact (proj1 Hact eq_refl).
  - rewrite Hdetail by done. eexists. split.
    + apply (judged_action _ _ _ _ _ session); try done.
      intros Hm. discriminate (proj2 Hact Hm).
    + done.
Qed.

(** C4 What becomes of every message that is not of the session family follows from five
    rules, exactly one of which applies, in this order: without an active session that
    is bound to the sender and a target that includes this endpoint it is reported as
    unauthorized; a type the session did not negotiate is reported as unsupported; an
    authority request is answered by one status, without an event; a goal or a cancel
    whose sender does not hold the authority over its single target is reported as
    unauthorized; anything else is delivered, once, to every subscriber, as coming from
    the control peer.  Each verdict determines the whole state that follows.  Of actions
    the property speaks while their time to live lasts; docs/wire-v2.md has the core
    check it, the code does not ([expired_action_delivered]). *)
Theorem message_delivered_iff clock peer envelope impl :
  env_family envelope ≠ FamilySession →
  (env_family envelope = FamilyAction → unexpired (runtime_now_ms clock) envelope) →
  let logical := logical_peer peer impl in
  ∃ v, judged (runtime_steady_now clock) peer logical envelope impl v
  ∧ (∀ v', judged (runtime_steady_now clock) peer logical envelope impl v' → v' = v)
  ∧ carried_out clock peer logical envelope impl v
      (runtime_handle_envelope clock peer envelope impl).
Proof.
  intros Hf _. destruct (message_judged clock peer envelope impl Hf) as (v & Hv & Hc).
  exists v. split; [done|]. split; [|done]. intros v' Hv'. by eapply judged_unique.
Qed.

(** (finding) An action is delivered after its time to live, although docs/wire-v2.md
    says that the core checks it: no rule looks at it. *)
Theorem expired_action_delivered clock peer envelope impl session :
  let logical := logical_peer peer impl in
  env_family envelope = FamilyAction → ¬ unexpired (runtime_now_ms clock) envelope →
  bound logical envelope impl session → negotiated envelope session →
  may_act (runtime_steady_now clock) peer envelope impl →
  runtime_handle_envelope clock peer envelope impl
  = runtime_emit (envelope_event logical envelope) impl.
Proof.
  intros logical Hf _ Hb Hn Hm.
  destruct (message_judged clock peer envelope impl) as (v & Hv & Hc); [by rewrite Hf|].
  assert (Hd : judged (runtime_steady_now clock) peer logical envelope impl Deliver).
  { apply (judged_deliver _ _ _ _ _ session); try done. intros [Ha _]. congruence. }
  by rewrite (judged_unique _ _ _ _ _ _ _ Hv Hd) in Hc.
Qed.

(** ** Losing a peer *)
Lemma foldr_delete_lookup {A} (m : gmap string A) (keys : list string) k :
  foldr delete m keys !! k = if decide (k ∈ keys) then None else m !! k.
Proof.
  induction keys as [|key keys IH]; cbn [foldr].
  { by rewrite decide_False by apply not_elem_of_nil. }
  destruct (decide (key = k)) as [->|Hne].
  - rewrite lookup_delete_eq, decide_True; [done|apply list_elem_of_here].
  - rewrite lookup_delete_ne, IH by done.
    destruct (decide (k ∈ keys)); destruct (decide (k ∈ key :: keys)) as [Hin|Hin]; try done.
    + exfalso. apply Hin. by apply list_elem_of_further.
    + apply elem_of_cons in Hin as [->|]; done.
Qed.

(** Emitting a sequence of events changes the trace only. *)
Lemma emit_all {A} (event : A → RuntimeEvent) l impl :
  foldl (λ impl x, runtime_emit (event x) impl) impl l
  = set_trace (im_trace impl ++ ((λ x, (elements (im_handlers impl), event x)) <$> l)) impl.
Proof.
  revert impl. induction l as [|x l IH]; intros impl; cbn [foldl fmap list_fmap].
  - rewrite app_nil_r. by destruct impl.
  - rewrite IH. unfold runtime_emit. cbn. by rewrite <- app_assoc.
Qed.

(** The rest of the state once a control peer is gone. *)
Lemma drop_control_section_spec peer impl :
  let impl' := drop_control_section peer impl in
  (∀ key, im_sessions impl' !! key
     = if decide (key.1 = peer) then None else im_sessions impl !! key)
  ∧ (∀ key lease, im_authority_leases impl' !! key = Some lease ↔
       im_authority_leases impl !! key = Some lease ∧ al_peer_id lease ≠ peer)
  ∧ (∀ lane, im_lane_owner impl' !! lane
       = if decide (lane ∈ lossy_lanes (peer_sessions peer impl)) then None
         else im_lane_owner impl !! lane).
Proof.
  unfold drop_control_section. cbn. split_and!.
  - intros key. destruct (decide (key.1 = peer)) as [Hk|Hk].
    + apply map_lookup_filter_None_2. right. intros x _ Hx. by apply Hx.
    + destruct (im_sessions impl !! key) as [s|] eqn:E.
      * by apply map_lookup_filter_Some_2.
      * apply map_lookup_filter_None_2. by left.
  - intros key lease. by rewrite map_lookup_filter_Some.
  - intros lane. apply foldr_delete_lookup.
Qed.

(** The connection that is closed with a lost control peer: the lane of the last of its
    sessions that has one. *)
Definition closed_lane (peer : string) (impl : Impl) : option handle :=
  lane ← last (lossy_lanes (peer_sessions peer impl)); im_connections impl !! lane.

Definition stopped (c : RuntimeConnection) : RuntimeConnection :=
  mkRuntimeConnection (rc_peer c) false (rc_send c) (rc_receive_buffer c).

Lemma stop_connection_heap connection impl h :
  im_heap (stop_connection connection impl) !! h
  = if decide (h = connection) then stopped <$> im_heap impl !! h else im_heap impl !! h.
Proof.
  unfold stop_connection. destruct (decide (h = connection)) as [->|Hne].
  - destruct (im_heap impl !! connection) as [c|] eqn:E; cbn; [|by rewrite E].
    by rewrite lookup_insert_eq.
  - destruct (im_heap impl !! connection) as [c|] eqn:E; cbn; [|done].
    by rewrite lookup_insert_ne.
Qed.

(** C19 What the end of a control connection does, exactly.  The sessions filed under
    its id are removed, and only those; so are the leases filed under its id, so that
    none of its sessions holds an authority any more; the lanes of those sessions lose
    their owner; of these lanes the one of the last such session is closed; and every
    subscriber is told about each lost session, once, in order.  Leases, sessions, lane
    owners and connections under other ids stay as they are: also the leases asked for
    over a lane, which are filed under the lane's id, and the connections of the other
    lanes (both findings). *)
Theorem drop_control_peer peer impl :
  im_lane_owner impl !! peer_id peer = None →
  let impl' := runtime_drop_peer_state peer impl in
  (∀ key, im_sessions impl' !! key
     = if decide (key.1 = peer_id peer) then None else im_sessions impl !! key)
  ∧ (∀ key lease, im_authority_leases impl' !! key = Some lease ↔
       im_authority_leases impl !! key = Some lease ∧ al_peer_id lease ≠ peer_id peer)
  ∧ (∀ clock session_id uid scope,
       has_authority clock (peer_id peer) session_id uid scope impl' = false)
  ∧ (∀ lane, im_lane_owner impl' !! lane
       = if decide (lane ∈ lossy_lanes (peer_sessions (peer_id peer) impl)) then None
         else im_lane_owner impl !! lane)
  ∧ im_connections impl' = im_connections impl
  ∧ (∀ h, im_heap impl' !! h
       = if decide (closed_lane (peer_id peer) impl = Some h)
         then stopped <$> im_heap impl !! h else im_heap impl !! h)
  ∧ im_trace impl' = im_trace impl
      ++ ((λ entry, (elements (im_handlers impl),
             mkRuntimeEvent EventSession peer default_Envelope (with_state kLost entry.2)
               kOk EmptyString false)) <$> peer_sessions (peer_id peer) impl).
Proof.
  intros Hlane. unfold runtime_drop_peer_state. rewrite Hlane. cbv zeta.
  destruct (drop_control_section_spec (peer_id peer) impl) as (Hs & Hl & Ho).
  set (dropped := drop_control_section (peer_id peer) impl) in *.
  set (closed := match last _ with Some _ => _ | None => _ end).
  assert (Hq : quiet dropped closed).
  { unfold closed. destruct (last _) as [lane|]; [|reflexivity].
    destruct (im_connections dropped !! lane); [apply quiet_stop|reflexivity]. }
  assert (Hheap : ∀ h, im_heap closed !! h
    = if decide (closed_lane (peer_id peer) impl = Some h)
      then stopped <$> im_heap impl !! h else im_heap impl !! h).
  { intros h. unfold closed, closed_lane. destruct (last _) as [lane|]; cbn; [|done].
    destruct (im_connections impl !! lane) as [c|]; [|done].
    rewrite stop_connection_heap. change (im_heap dropped) with (im_heap impl).
    destruct (decide (h = c)); destruct (decide (Some c = Some h)); congruence. }
  unfold emit_session.
  rewrite (emit_all (λ entry, mkRuntimeEvent EventSession peer default_Envelope
             (with_state kLost entry.2) kOk EmptyString false)). cbn.
  rewrite (q_sessions _ _ Hq), (q_authority_leases _ _ Hq), (q_trace _ _ Hq), (q_handlers _ _ Hq),
    (q_lane_owner _ _ Hq), (q_connections _ _ Hq).
  split_and!; try done.
  intros clock session_id uid scope. unfold has_authority, holds_lease. cbn.
  rewrite (q_authority_leases _ _ Hq).
  destruct (im_authority_leases dropped !! _) as [lease|] eqn:E; [|done].
  apply Hl in E as [_ Hne]. apply andb_false_iff. right.
  unfold owns. by rewrite bool_decide_false.
Qed.

(** When a lane connection ends, its session lives on without it: the session that
    used the lane falls back to the control connection, the lane is forgotten, and
    nothing else changes; in particular the leases requested over the lane, which
    are filed under the lane's own id, stay (finding). *)
Theorem drop_lane_peer peer owner impl :
  im_lane_owner impl !! peer_id peer = Some owner →
  let impl' := runtime_drop_peer_state peer impl in
  (∀ session, im_sessions impl !! owner = Some session →
     im_sessions impl' !! owner
     = Some (if decide (si_lossy_peer_id session = peer_id peer)
             then with_lossy_peer_id EmptyString session else session))
  ∧ (∀ key, key ≠ owner → im_sessions impl' !! key = im_sessions impl !! key)
  ∧ im_lane_owner impl' = delete (peer_id peer) (im_lane_owner impl)
  ∧ im_authority_leases impl' = im_authority_leases impl
  ∧ im_trace impl' = im_trace impl.
Proof.
  intros Hlane. unfold runtime_drop_peer_state. rewrite Hlane. unfold drop_lane_section.
  destruct (im_sessions impl !! owner) as [session|] eqn:Es; cbn; [|by rewrite ?Es; split_and!].
  destruct (decide (si_lossy_peer_id session = peer_id peer)) as [Hp|Hp].
  - rewrite (bool_decide_true (si_lossy_peer_id session = _)) by done. cbn. split_and!; try done.
    + intros s [= <-]. rewrite lookup_insert_eq. by rewrite decide_True.
    + intros key Hk. by rewrite lookup_insert_ne.
  - rewrite (bool_decide_false (si_lossy_peer_id session = _)) by done. cbn. split_and!; try done.
    intros s [= <-]. by rewrite Es, decide_False.
Qed.

(** ** Binding a lane *)

(** A lane is bound only for a peer that knows the secret and is connected, to an
    active session of the same id whose remote endpoint is the sender and which has
    no other lane; then exactly that session and the owner of that lane change.  A
    refused request changes nothing. *)
Theorem lane_bind_guarded clock peer envelope impl :
  let r := handle_lane_bind clock peer envelope impl in
  (r.1 = true →
     decode_text (env_payload envelope) = Some (cfg_shared_secret (im_config impl))
     ∧ is_Some (im_connections impl !! peer_id peer)
     ∧ ∃ key session,
         im_sessions impl !! key = Some session
         ∧ si_session_id session = env_session_id envelope ∧ si_state session = kActive
         ∧ si_remote_endpoint_uid session = src_endpoint_uid (env_source envelope)
         ∧ (si_lossy_peer_id session = EmptyString ∨ si_lossy_peer_id session = peer_id peer)
         ∧ im_sessions r.2 = <[key := with_lossy_peer_id (peer_id peer) session]>
                               (im_sessions impl)
         ∧ im_lane_owner r.2 = <[peer_id peer := (key.1, env_session_id envelope)]>
                                 (im_lane_owner impl))
  ∧ (r.1 = false → (∀ id, im_sessions impl !! (EmptyString, id) = None) → r.2 = impl).
Proof.
  cbv zeta. unfold handle_lane_bind. destruct (bool_decide (decode_text _ = _)) eqn:Hsec; [|done].
  cbn [negb]. unfold lane_bind_section.
  destruct (im_connections impl !! peer_id peer) eqn:Hc; [|done].
  destruct (list_find _ _) as [[i [key session]]|] eqn:Ef; [|done]. cbn [fst snd].
  apply list_find_Some in Ef as (Hi & (Hid & Hst & Hsrc & Hlossy) & _). cbn in *.
  assert (Hkey : im_sessions impl !! key = Some session).
  { apply elem_of_map_to_list. by eapply list_elem_of_lookup_2. }
  destruct (decide (key.1 = EmptyString)) as [Hempty|Hempty];
    [rewrite bool_decide_true by done|rewrite bool_decide_false by done]; cbn [fst snd].
  - split; [done|]. intros _ Hno. destruct key as [k id]. cbn in Hempty. subst k.
    by rewrite Hno in Hkey.
  - split; [|done]. intros _. apply bool_decide_eq_true in Hsec. split; [done|].
    split; [done|]. exists key, session. split_and!; try done.
    + by rewrite (q_sessions _ _ (quiet_send_session _ _ _ _ _ _ _ _)).
    + by rewrite (q_lane_owner _ _ (quiet_send_session _ _ _ _ _ _ _ _)).
Qed.

(** ** Witnesses *)

Definition ground_config : RuntimeConfig :=
  mkRuntimeConfig "ground-1" "Ground station" []
    [mkProfileDescriptor "yunlink.telemetry" 1 2 "digest"] [] ["swarm-a"%string] None
    "secret" 9696 (16 * 1024 * 1024 + 65536).

Definition uav_profiles : list ProfileDescriptor :=
  [mkProfileDescriptor "yunlink.telemetry" 1 1 "older"; mkProfileDescriptor "custom.cam" 2 0 "c"].

Lemma invalid_until_authenticated_witness :
  si_state (session_run ground_config "tcp://10.0.0.2:40001"
    [session_envelope (mkClock 1 1) "uav-1" 7 3 SessionOperation.kProfiles "session.profiles"
       (encode_profile_list uav_profiles) 0;
     session_envelope (mkClock 1 1) "uav-1" 8 3 SessionOperation.kReady "session.ready" [] 0;
     session_envelope (mkClock 1 1) "uav-1" 9 3 SessionOperation.kAuthenticate
       "session.authenticate" (encode_text "guess") 0]
    (with_state kInvalid default_SessionInfo)) = kInvalid.
Proof.
  apply invalid_until_authenticated; [reflexivity|].
  repeat (apply Forall_cons_2; [vm_compute; reflexivity|]). apply Forall_nil_2.
Defined.

Lemma ready_without_authenticate_witness :
  let message operation payload :=
    session_envelope (mkClock 1 1) "uav-1" 1 3 operation "session" payload 0 in
  let session := session_run ground_config "tcp://10.0.0.2:40001"
    [message SessionOperation.kProfiles (encode_profile_list uav_profiles);
     message SessionOperation.kReady []] default_SessionInfo in
  si_state session = kActive ∧ si_authenticated session = true.
Proof. apply ready_without_authenticate; [discriminate|vm_compute; reflexivity]. Defined.

Lemma handshake_activates_witness :
  let message operation payload :=
    session_envelope (mkClock 1 1) "uav-1" 1 3 operation "session" payload 0 in
  let session := session_run ground_config "tcp://10.0.0.2:40001"
    [message SessionOperation.kHello (encode_text "uav-1");
     message SessionOperation.kAuthenticate (encode_text "secret");
     message SessionOperation.kProfiles (encode_profile_list uav_profiles);
     message SessionOperation.kReady []] default_SessionInfo in
  session = mkSessionInfo 3 "tcp://10.0.0.2:40001" "uav-1" kActive true
    (negotiate_profiles (cfg_profiles ground_config) uav_profiles).1
    (negotiate_profiles (cfg_profiles ground_config) uav_profiles).2 EmptyString.
Proof.
  apply (handshake_activates ground_config); vm_compute; reflexivity.
Defined.

(** A runtime with one active session and its lane. *)
Definition uav_peer : Peer := mkPeer "tcp://10.0.0.2:40001" "10.0.0.2" 40001.
Definition uav_lane : Peer := mkPeer "tcp://10.0.0.2:40002" "10.0.0.2" 40002.

Definition uav_session : SessionInfo :=
  mkSessionInfo 3 "tcp://10.0.0.2:40001" "uav-1" kActive true
    (negotiate_profiles (cfg_profiles ground_config) uav_profiles).1 ["custom.cam"%string]
    "tcp://10.0.0.2:40002".

Definition ground_connection (peer : Peer) : RuntimeConnection :=
  mkRuntimeConnection peer true (empty_send_state (16 * 1024 * 1024 + 65536)) [].

Definition ground_runtime : Impl :=
  mkImpl ground_config true 1 1
    (<[0%nat := ground_connection uav_peer]> (<[1%nat := ground_connection uav_lane]> ∅))
    (<["tcp://10.0.0.2:40001"%string := 0%nat]> (<["tcp://10.0.0.2:40002"%string := 1%nat]> ∅))
    (<[("tcp://10.0.0.2:40001"%string, 3) := uav_session]> ∅)
    (<["tcp://10.0.0.2:40002"%string := ("tcp://10.0.0.2:40001"%string, 3)]> ∅)
    (<[("uav-1"%string, "flight"%string) := mkAuthorityLease "tcp://10.0.0.2:40001" 3 5000]> ∅)
    2 {[ 1 ]} [].

Definition telemetry_envelope : Envelope :=
  let e := session_envelope (mkClock 1 1) "uav-1" 20 3 1 "state" [] 0 in
  {| env_protocol_major := env_protocol_major e;
     env_header_version := env_header_version e;
     env_flags := 0; env_header_len := 0; env_payload_len := 0;
     env_qos_class := kBestEffort;
     env_family := FamilyStream;
     env_operation := 1;
     env_schema_version := env_schema_version e;
     env_session_id := 3; env_message_id := 20; env_correlation_id := 0;
     env_source := mkSourceIdentity "uav-1" EmptyString;
     env_target := target_broadcast;
     env_type := mkTypeRef "yunlink.telemetry" 1 1 "state";
     env_created_at_ms := 1; env_ttl_ms := 5000; env_payload := [];
     env_security := mkSecurityContext 0 []; env_checksum := 0 |}.

(** Telemetry over the lane is delivered as coming from the control peer. *)
Example telemetry_delivered :
  im_trace (runtime_handle_envelope (mkClock 1 1) uav_lane telemetry_envelope ground_runtime)
  = [([1], envelope_event uav_peer telemetry_envelope)].
Proof. vm_compute. reflexivity. Qed.

Lemma message_delivered_iff_witness :
  let logical := logical_peer uav_lane ground_runtime in
  ∃ v, judged 1 uav_lane logical telemetry_envelope ground_runtime v
  ∧ (∀ v', judged 1 uav_lane logical telemetry_envelope ground_runtime v' → v' = v)
  ∧ carried_out (mkClock 1 1) uav_lane logical telemetry_envelope ground_runtime v
      (runtime_handle_envelope (mkClock 1 1) uav_lane telemetry_envelope ground_runtime).
Proof.
  apply (message_delivered_iff (mkClock 1 1) uav_lane telemetry_envelope ground_runtime);
    discriminate.
Defined.

(** The runtime with an entity of its own, whose authority the peer holds. *)
Definition entity_runtime : Impl :=
  set_authority_leases
    (<[("arm"%string, "yunlink.telemetry"%string)
       := mkAuthorityLease "tcp://10.0.0.2:40001" 3 5000]> ∅)
    (set_config
       (mkRuntimeConfig "ground-1" "Ground station"
          [mkEntityDescriptor "arm" "arm" "Arm" EmptyString ∅ [] AvailabilityOnline]
          (cfg_profiles ground_config) [] [] None "secret" 9696
          (16 * 1024 * 1024 + 65536)) ground_runtime).

(** A goal for that entity, created at 1000 with two seconds to live. *)
Definition goal_envelope : Envelope :=
  {| env_protocol_major := kProtocolMajor; env_header_version := kHeaderVersion;
     env_flags := 0; env_header_len := 0; env_payload_len := 0;
     env_qos_class := kReliableOrdered;
     env_family := FamilyAction;
     env_operation := ActionOperation.kGoal;
     env_schema_version := kSchemaVersion;
     env_session_id := 3; env_message_id := 21; env_correlation_id := 0;
     env_source := mkSourceIdentity "uav-1" EmptyString;
     env_target := target_entity "arm";
     env_type := mkTypeRef "yunlink.telemetry" 1 1 "goal";
     env_created_at_ms := 1000; env_ttl_ms := 2000; env_payload := [];
     env_security := mkSecurityContext 0 []; env_checksum := 0 |}.

Lemma expired_action_delivered_witness :
  runtime_handle_envelope (mkClock 9000 1) uav_peer goal_envelope entity_runtime
  = runtime_emit (envelope_event uav_peer goal_envelope) entity_runtime.
Proof.
  apply (expired_action_delivered (mkClock 9000 1) uav_peer goal_envelope entity_runtime
           uav_session).
  - reflexivity.
  - intros [H|H]; vm_compute in H; [discriminate|by apply H].
  - vm_compute. by split_and!.
  - right. vm_compute. reflexivity.
  - intros _ _. exists "arm"%string. split; vm_compute; reflexivity.
Defined.

Lemma drop_control_peer_witness :
  let impl' := runtime_drop_peer_state uav_peer ground_runtime in
  (∀ key, im_sessions impl' !! key
     = if decide (key.1 = peer_id uav_peer) then None else im_sessions ground_runtime !! key)
  ∧ (∀ key lease, im_authority_leases impl' !! key = Some lease ↔
       im_authority_leases ground_runtime !! key = Some lease
       ∧ al_peer_id lease ≠ peer_id uav_peer)
  ∧ (∀ clock session_id uid scope,
       has_authority clock (peer_id uav_peer) session_id uid scope impl' = false)
  ∧ (∀ lane, im_lane_owner impl' !! lane
       = if decide (lane ∈ lossy_lanes (peer_sessions (peer_id uav_peer) ground_runtime))
         then None else im_lane_owner ground_runtime !! lane)
  ∧ im_connections impl' = im_connections ground_runtime
  ∧ (∀ h, im_heap impl' !! h
       = if decide (closed_lane (peer_id uav_peer) ground_runtime = Some h)
         then stopped <$> im_heap ground_runtime !! h else im_heap ground_runtime !! h)
  ∧ im_trace impl' = im_trace ground_runtime
      ++ ((λ entry, (elements (im_handlers ground_runtime),
             mkRuntimeEvent EventSession uav_peer default_Envelope (with_state kLost entry.2)
               kOk EmptyString false)) <$> peer_sessions (peer_id uav_peer) ground_runtime).
Proof. apply drop_control_peer. vm_compute. reflexivity. Defined.

Lemma drop_lane_peer_witness :
  let owner := ("tcp://10.0.0.2:40001"%string, 3) in
  let impl' := runtime_drop_peer_state uav_lane ground_runtime in
  (∀ session, im_sessions ground_runtime !! owner = Some session →
     im_sessions impl' !! owner
     = Some (if decide (si_lossy_peer_id session = peer_id uav_lane)
             then with_lossy_peer_id EmptyString session else session))
  ∧ (∀ key, key ≠ owner → im_sessions impl' !! key = im_sessions ground_runtime !! key)
  ∧ im_lane_owner impl' = delete (peer_id uav_lane) (im_lane_owner ground_runtime)
  ∧ im_authority_leases impl' = im_authority_leases ground_runtime
  ∧ im_trace impl' = im_trace ground_runtime.
Proof. apply drop_lane_peer. vm_compute. reflexivity. Defined.
