(* ===== verification/Runtime.v ===== *)
(** * Runtime: the operations of the API and the threads of a connection

    [src/runtime/v2/runtime_api.cpp], [src/runtime/v2/runtime.cpp], the threads of
    [src/runtime/v2/io/runtime_receive.cpp] and [src/runtime/v2/runtime_network.cpp].
    What the network does is an argument: whether the acceptor opens, how a
    connection attempt ends, the address of an accepted socket, the bytes a read
    returns, and what [write_some] takes. *)

From Stdlib Require Import ZArith Lia String Ascii Strings.Byte.
From stdpp Require Import base gmap strings list fin_maps pretty.
From S2P Require Import Prelude StdMap Codec WireTypes WireCodec CoreMessages Framing SendQueue SocketWrite RuntimeCommon Authority Session.
Local Open Scope string_scope.
Local Open Scope Z_scope.

(** Decimal output of an unsigned integer ([operator<<], [std::to_string]). *)
Definition decimal (n : Z) : string := pretty (Z.to_N n).

Definition runtime_peer_id (ip : string) (port : Z) : string :=
  "tcp://" +:+ ip +:+ ":" +:+ decimal port.

(** ** runtime_api.cpp *)

Definition latest_key (envelope : Envelope) : string :=
  decimal (env_session_id envelope) +:+ ":"
  +:+ decimal (MessageFamily_value (env_family envelope)) +:+ ":"
  +:+ src_entity_uid (env_source envelope) +:+ ":"
  +:+ decimal (TargetScope_value (ts_scope (env_target envelope))) +:+ ":"
  +:+ foldr (λ uid key, uid +:+ "," +:+ key) EmptyString (ts_uids (env_target envelope))
  +:+ ":" +:+ tr_profile_id (env_type envelope) +:+ ":" +:+ decimal (tr_major (env_type envelope))
  +:+ ":" +:+ decimal (tr_minor (env_type envelope)) +:+ ":" +:+ tr_type_name (env_type envelope).

Definition with_entities (entities : list EntityDescriptor) (c : RuntimeConfig) :
    RuntimeConfig :=
  mkRuntimeConfig (cfg_endpoint_uid c) (cfg_display_name c) entities (cfg_profiles c)
    (cfg_required_profiles c) (cfg_group_uids c) (cfg_action_authority_scope_resolver c)
    (cfg_shared_secret c) (cfg_tcp_listen_port c) (cfg_max_buffer_bytes_per_peer c).

(** The critical section of [set_entities]. *)
Definition set_entities_section (entities : list EntityDescriptor) (impl : Impl) : Impl :=
  let entity_uids := ent_uid <$> entities in
  set_config (with_entities entities (im_config impl))
    (set_authority_leases
       (filter (λ entry, entry.1.1 ∈ entity_uids) (im_authority_leases impl)) impl).

Definition set_entities (entities : list EntityDescriptor) (impl : Impl) : ErrorCode * Impl :=
  if existsb (λ entity, negb (valid_uid (ent_uid entity))) entities
  then (kInvalidArgument, impl)
  else (kOk, set_entities_section entities impl).

(** [Runtime::session]. *)
Definition session (peer_id : string) (session_id : Z) (impl : Impl) : option SessionInfo :=
  im_sessions impl !! (peer_id, session_id).

(** [Runtime::sessions]. *)
Definition sessions (impl : Impl) : list SessionInfo :=
  snd <$> map_to_list (im_sessions impl).

Definition session_supports_profile (peer_id : string) (session_id : Z)
    (profile_id : string) (major minimum_minor : Z) (impl : Impl) : bool :=
  match im_sessions impl !! (peer_id, session_id) with
  | Some it => supports_profile it profile_id major minimum_minor
  | None => false
  end.

Definition session_has_lossy_lane (peer_id : string) (session_id : Z) (impl : Impl) : bool :=
  match im_sessions impl !! (peer_id, session_id) with
  | None => false
  | Some session =>
    if negb (bool_decide (si_state session = kActive))
       || bool_decide (si_lossy_peer_id session = EmptyString)
    then false
    else
    match im_connections impl !! si_lossy_peer_id session with
    | None => false
    | Some lane =>
      match im_heap impl !! lane with
      | Some c => rc_running c
      | None => false
      end
    end
  end.

(** [Runtime::send]. *)
Definition send (clock : Clock) (peer_id : string) (envelope : Envelope) (impl : Impl) :
    ErrorCode * Impl :=
  if negb (bool_decide (env_family envelope = FamilySession))
     && negb (is_core (env_type envelope))
     && negb (session_supports_profile peer_id (env_session_id envelope)
                (tr_profile_id (env_type envelope)) (tr_major (env_type envelope))
                (tr_minor (env_type envelope)) impl)
  then (kUnsupported, impl)
  else
  match runtime_connection_for_send impl peer_id (env_session_id envelope)
          (env_qos_class envelope) with
  | None => (kNotFound, impl)
  | Some connection =>
    let bytes := WireCodec.encode (runtime_now_ms clock) envelope true in
    if bool_decide (bytes = []) then (kEncodeError, impl)
    else
    let r := connection_enqueue connection bytes (env_qos_class envelope)
               (if bool_decide (env_qos_class envelope = kReliableLatest)
                then latest_key envelope else EmptyString) impl in
    (if r.1 then kOk else kRejected, r.2)
  end.

(** [Runtime::publish]; the handle is the one stored when the result is [kOk]. *)
Definition publish_envelope (clock : Clock) (endpoint_uid : string) (message_id : Z)
    (session_id : Z) (family : MessageFamily) (operation : Z) (target : TargetSelector)
    (type : TypeRef) (payload : Bytes) (correlation_id ttl_ms : Z) (qos : QosClass)
    (source_entity_uid : string) : Envelope :=
  {| env_protocol_major := kProtocolMajor;
     env_header_version := kHeaderVersion;
     env_flags := 0;
     env_header_len := 0;
     env_payload_len := 0;
     env_qos_class := qos;
     env_family := family;
     env_operation := operation;
     env_schema_version := kSchemaVersion;
     env_session_id := session_id;
     env_message_id := message_id;
     env_correlation_id := correlation_id;
     env_source := mkSourceIdentity endpoint_uid source_entity_uid;
     env_target := target;
     env_type := type;
     env_created_at_ms := runtime_now_ms clock;
     env_ttl_ms := ttl_ms;
     env_payload := payload;
     env_security := mkSecurityContext 0 [];
     env_checksum := 0 |}.

Definition publish (clock : Clock) (peer_id : string) (session_id : Z)
    (family : MessageFamily) (operation : Z) (target : TargetSelector) (type : TypeRef)
    (payload : Bytes) (correlation_id ttl_ms : Z) (qos : QosClass)
    (source_entity_uid : string) (impl : Impl) : ErrorCode * option MessageHandle * Impl :=
  let id := fetch_message_id impl in
  let envelope := publish_envelope clock (cfg_endpoint_uid (im_config impl)) id.1 session_id
    family operation target type payload correlation_id ttl_ms qos source_entity_uid in
  let r := send clock peer_id envelope id.2 in
  (r.1,
   if bool_decide (r.1 = kOk)
   then Some (mkMessageHandle session_id (env_message_id envelope) correlation_id) else None,
   r.2).

(** [subscribe] of a callable handler, and [unsubscribe]. *)
Definition subscribe (impl : Impl) : Z * Impl :=
  let token := im_next_subscription impl in
  (token, set_subscriptions (uint64 (token + 1)) ({[ token ]} ∪ im_handlers impl) impl).
Definition unsubscribe (token : Z) (impl : Impl) : Impl :=
  set_subscriptions (im_next_subscription impl) (im_handlers impl ∖ {[ token ]}) impl.

(** ** runtime.cpp: connections *)

(** A connection object as [accept] and [connect_peer] set it up. *)
Definition new_connection (peer : Peer) (max_queued : Z) : RuntimeConnection :=
  mkRuntimeConnection peer true (empty_send_state max_queued) [].

Definition link_event (peer : Peer) (up : bool) : RuntimeEvent :=
  mkRuntimeEvent EventLink peer default_Envelope default_SessionInfo kOk EmptyString up.

(** Files a new connection object under the id of its peer; the handle is a new
    one. *)
Definition add_connection (peer : Peer) (impl : Impl) : handle * Impl :=
  let connection := fresh (dom (im_heap impl)) in
  let c := new_connection peer (cfg_max_buffer_bytes_per_peer (im_config impl)) in
  (connection,
   set_connections (<[peer_id peer := connection]> (im_connections impl))
     (set_heap (<[connection := c]> (im_heap impl)) impl)).

(** The accept thread, once a socket from [ip] and [port] is accepted. *)
Definition accept (ip : string) (port : Z) (impl : Impl) : Impl :=
  let peer := mkPeer (runtime_peer_id ip port) ip port in
  runtime_emit (link_event peer true) (add_connection peer impl).2.

(** [close_connection]: the threads it joins end through [receive_exit]. *)
Definition close_connection (connection : handle) (impl : Impl) : Impl :=
  stop_connection connection impl.

Definition connection_running (impl : Impl) (connection : handle) : bool :=
  match im_heap impl !! connection with
  | Some c => rc_running c
  | None => false
  end.

(** [reap_closed_connections]: its objects are stopped already. *)
Definition reap_closed_connections (impl : Impl) : Impl :=
  set_connections
    (filter (λ entry, connection_running impl entry.2 = true) (im_connections impl)) impl.

(** What [accept] on the acceptor and [remote_endpoint] on the new socket give. *)
Inductive Accepted := AcceptFailed | RemoteUnknown | AcceptedFrom (ip : string) (port : Z).

(** A pass of the accept thread; [None] is its end.  A failed [accept] is retried,
    after a pause when it only found nothing to accept. *)
Definition accept_pass (accepted : Accepted) (impl : Impl) : option Impl :=
  if negb (im_running impl) then None
  else
  let impl := reap_closed_connections impl in
  match accepted with
  | AcceptFailed | RemoteUnknown => Some impl
  | AcceptedFrom ip port => Some (accept ip port impl)
  end.

(** How a connection attempt ends. *)
Inductive Dial := DialOpenFailed | DialTimedOut | DialRefused | DialConnected.

Definition dial_error (dial : Dial) : option ErrorCode :=
  match dial with
  | DialOpenFailed => Some kInternal
  | DialTimedOut => Some kTimeout
  | DialRefused => Some kNotFound
  | DialConnected => None
  end.

(** *** connect_with_timeout *)

(** The handlers [io.run()] calls, in either order: the connection's with its error,
    and the timer's, which was cancelled or expired. *)
Inductive SocketError := NoError | WouldBlock | TimedOut | OtherError.
Inductive Completion := ConnectDone (error : SocketError) | TimerDone (cancelled : bool).

(** [result] and [timed_out] after a handler. *)
Definition complete (s : SocketError * bool) (completion : Completion) : SocketError * bool :=
  match completion with
  | ConnectDone error => (error, s.2)
  | TimerDone cancelled => (s.1, if cancelled then s.2 else true)
  end.

Definition connect_with_timeout (completions : list Completion) : SocketError :=
  let s := foldl complete (WouldBlock, false) completions in
  if s.2 then TimedOut else s.1.

(** What [connect_peer] makes of the error. *)
Definition dial_of (error : SocketError) : Dial :=
  match error with
  | NoError => DialConnected
  | TimedOut => DialTimedOut
  | WouldBlock | OtherError => DialRefused
  end.

(** The part of [connect_peer] after its look at [connections]. *)
Definition dial_new (dial : Dial) (peer : Peer) (impl : Impl) :
    ErrorCode * option Peer * Impl :=
  match dial_error dial with
  | Some error => (error, None, impl)
  | None =>
    (kOk, Some peer, runtime_emit (link_event peer true) (add_connection peer impl).2)
  end.

Section network.
(** [asio::ip::make_address] accepts the text. *)
Variable make_address : string → bool.

(** [Runtime::connect_peer]; the peer is the one stored in [*out]. *)
Definition connect_peer (dial : Dial) (ip : string) (port : Z) (impl : Impl) :
    ErrorCode * option Peer * Impl :=
  if negb (im_running impl) then (kRejected, None, impl)
  else if negb (make_address ip) || (port =? 0) then (kInvalidArgument, None, impl)
  else
  let peer := mkPeer (runtime_peer_id ip port) ip port in
  match im_connections impl !! peer_id peer with
  | Some existing =>
    match im_heap impl !! existing with
    | Some c =>
      if rc_running c then (kOk, Some (rc_peer c), impl)
      else dial_new dial peer (close_connection existing
             (set_connections (delete (peer_id peer) (im_connections impl)) impl))
    | None => dial_new dial peer impl
    end
  | None => dial_new dial peer impl
  end.
End network.

(** The critical section of [close_peer]: the object taken out of [connections] and
    the lane to close next.  The last session of the peer with a lane decides. *)
Definition close_peer_section (peer : string) (impl : Impl) :
    option (handle * string) * Impl :=
  match im_connections impl !! peer with
  | None => (None, impl)
  | Some connection =>
    let impl := set_connections (delete peer (im_connections impl)) impl in
    let lossy_peer_id :=
      default EmptyString (last (lossy_lanes (peer_sessions peer impl))) in
    let impl := set_sessions
      (map_imap (λ key s, Some (if bool_decide (key.1 = peer)
                                then with_lossy_peer_id EmptyString s else s))
         (im_sessions impl)) impl in
    let impl :=
      match im_lane_owner impl !! peer with
      | Some lane => drop_lane_section peer lane impl
      | None => impl
      end in
    let impl :=
      if bool_decide (lossy_peer_id = EmptyString) then impl
      else set_lane_owner (delete lossy_peer_id (im_lane_owner impl)) impl in
    (Some (connection, lossy_peer_id), impl)
  end.

(** [close_peer] calls itself on the lane; each call that goes on takes one
    connection out of the map. *)
Fixpoint close_peer_fuel (fuel : nat) (peer : string) (impl : Impl) : option Impl :=
  match fuel with
  | O => None
  | S fuel =>
    let r := close_peer_section peer impl in
    match r.1 with
    | None => Some r.2
    | Some (connection, lossy_peer_id) =>
      let impl := close_connection connection r.2 in
      if bool_decide (lossy_peer_id = EmptyString) || bool_decide (lossy_peer_id = peer)
      then Some impl
      else close_peer_fuel fuel lossy_peer_id impl
    end
  end.

Definition close_peer (peer : string) (impl : Impl) : option Impl :=
  close_peer_fuel (S (size (im_connections impl))) peer impl.

(** *** Lanes *)

(** The checks of [bind_lossy_lane] before it connects: an error code or the address
    to connect to; [kOk] when the session has a lane already. *)
Definition bind_lossy_lane_target (make_address : string → bool) (peer : string)
    (session_id : Z) (impl : Impl) : ErrorCode + string * Z :=
  if negb (im_running impl) || (session_id =? 0) then inl kInvalidArgument
  else
  match session peer session_id impl with
  | None => inl kNotFound
  | Some info =>
    if negb (bool_decide (si_state info = kActive)) then inl kNotFound
    else if negb (bool_decide (si_lossy_peer_id info = EmptyString)) then inl kOk
    else
    match im_connections impl !! peer with
    | None => inl kNotFound
    | Some control =>
      match im_heap impl !! control with
      | None => inl kNotFound
      | Some c =>
        if negb (make_address (peer_ip (rc_peer c))) || (peer_port (rc_peer c) =? 0)
        then inl kInvalidArgument
        else inr (peer_ip (rc_peer c), peer_port (rc_peer c))
      end
    end
  end.

Definition lane_peer_id (peer : string) : string := peer +:+ "#lossy".

(** The section that files the lane's connection and its owner. *)
Definition add_lane (peer : string) (session_id : Z) (ip : string) (port : Z)
    (impl : Impl) : handle * Impl :=
  let r := add_connection (mkPeer (lane_peer_id peer) ip port) impl in
  (r.1, set_lane_owner (<[lane_peer_id peer := (peer, session_id)]> (im_lane_owner r.2)) r.2).

(** [bind_lossy_lane] up to the wait for the answer: [inl] is its result, [inr] the
    state in which it starts to wait. *)
Definition bind_lossy_lane_start (make_address : string → bool) (clock : Clock)
    (dial : Dial) (peer : string) (session_id : Z) (impl : Impl) :
    (ErrorCode * option Impl) + Impl :=
  match bind_lossy_lane_target make_address peer session_id impl with
  | inl error => inl (error, Some impl)
  | inr (ip, port) =>
    match dial_error dial with
    | Some error => inl (error, Some impl)
    | None =>
      let r := add_lane peer session_id ip port impl in
      let id := fetch_message_id r.2 in
      let bind := session_envelope clock (cfg_endpoint_uid (im_config impl)) id.1 session_id
        SessionOperation.kLaneBind "session.lane_bind"
        (encode_text (cfg_shared_secret (im_config impl))) 0 in
      let sent := connection_enqueue r.1 (WireCodec.encode (runtime_now_ms clock) bind true)
                    kReliableOrdered EmptyString id.2 in
      if negb sent.1 then inl (kRejected, close_peer (lane_peer_id peer) sent.2)
      else inr sent.2
    end
  end.

(** One look of the wait, and its end after 200 of them. *)
Definition bind_lossy_lane_poll (peer : string) (session_id : Z) (impl : Impl) : bool :=
  match session peer session_id impl with
  | Some remote => negb (bool_decide (si_lossy_peer_id remote = EmptyString))
  | None => false
  end.
Definition bind_lossy_lane_timeout (peer : string) (impl : Impl) :
    ErrorCode * option Impl :=
  (kTimeout, close_peer (lane_peer_id peer) impl).

(** *** start and stop *)

Definition config_acceptable (config : RuntimeConfig) : bool :=
  valid_uid (cfg_endpoint_uid config)
  && forallb (λ entity, valid_uid (ent_uid entity)) (cfg_entities config)
  && forallb (λ profile, valid_profile_id (pd_profile_id profile)
                && negb (pd_major profile =? 0)) (cfg_profiles config).

(** Which calls on the acceptor fail.  They share one [error], which every call sets
    anew, and [start] looks at it after [open], [bind], [non_blocking] and
    [local_endpoint] only. *)
Record AcceptorErrors := mkAcceptorErrors {
  ae_open : bool;
  ae_set_option : bool;
  ae_bind : bool;
  ae_listen : bool;
  ae_non_blocking : bool;
  ae_local_endpoint : bool;
}.

Definition acceptor_failed (errors : AcceptorErrors) : bool :=
  let error := ae_open errors in
  if error then true else
  let error := ae_set_option errors in
  let error := ae_bind errors in
  if error then true else
  let error := ae_listen errors in
  let error := ae_non_blocking errors in
  if error then true else
  let error := ae_local_endpoint errors in
  error.

(** [Runtime::start]. *)
Definition start (acceptor : AcceptorErrors) (config : RuntimeConfig) (impl : Impl) :
    ErrorCode * Impl :=
  if im_running impl then (kOk, impl)
  else if negb (config_acceptable config) then (kInvalidArgument, impl)
  else
  let impl := set_config config impl in
  if acceptor_failed acceptor then (kInternal, impl) else (kOk, set_running true impl).

(** [Runtime::stop]: [lane_owner] is not cleared here, the threads that end do it. *)
Definition stop (impl : Impl) : Impl :=
  if negb (im_running impl) then impl
  else
  let impl := set_running false impl in
  let closed := (map_to_list (im_connections impl)).*2 in
  let impl := set_authority_leases ∅ (set_sessions ∅ (set_connections ∅ impl)) in
  foldr close_connection impl closed.

(** ** The threads of a connection *)

Definition with_receive_buffer (buffer : Bytes) (c : RuntimeConnection) :
    RuntimeConnection :=
  mkRuntimeConnection (rc_peer c) (rc_running c) (rc_send c) buffer.
Definition with_send (s : SendState) (c : RuntimeConnection) : RuntimeConnection :=
  mkRuntimeConnection (rc_peer c) (rc_running c) s (rc_receive_buffer c).

(** What the receive loop does with what came out of the buffer. *)
Definition receive_dispatch (clock : Clock) (peer : Peer) (impl : Impl)
    (event : ReceiveEvent) : Impl :=
  match event with
  | ReceiveDropped =>
    runtime_emit (error_event peer default_Envelope kDecodeError
                    "receive buffer dropped lossy frames") impl
  | ReceiveLimit =>
    runtime_emit (error_event peer default_Envelope kDecodeError
                    "receive buffer limit exceeded") impl
  | ReceiveRejected code =>
    runtime_emit (error_event peer default_Envelope code "wire frame rejected") impl
  | ReceiveEnvelope envelope => runtime_handle_envelope clock peer envelope impl
  end.

(** An iteration of [runtime_receive_loop] whose read returned [chunk], and whether
    the loop goes on.  Only this thread uses the buffer, and taking a frame depends
    on nothing the handlers change, so the frames are taken first. *)
Definition runtime_receive (clock : Clock) (connection : handle) (chunk : Bytes)
    (impl : Impl) : option (bool * Impl) :=
  match im_heap impl !! connection with
  | None => None
  | Some c =>
    match receive_chunk (cfg_max_buffer_bytes_per_peer (im_config impl))
            (runtime_now_ms clock) (rc_receive_buffer c) chunk with
    | None => None
    | Some (events, buffer, goes_on) =>
      let impl := set_heap (<[connection := with_receive_buffer buffer c]> (im_heap impl))
                    impl in
      Some (goes_on, foldl (receive_dispatch clock (rc_peer c)) impl events)
    end
  end.

(** The end of [runtime_receive_loop]. *)
Definition receive_exit (connection : handle) (impl : Impl) : Impl :=
  match im_heap impl !! connection with
  | None => impl
  | Some c =>
    runtime_emit (link_event (rc_peer c) false)
      (runtime_drop_peer_state (rc_peer c) (stop_connection connection impl))
  end.

(** The text of the error event of [runtime_send_loop]. *)
Definition write_failure (lossy_channel : bool) (frame : OutboundFrame)
    (result : SocketWriteResult) (queued_bytes : Z) : string :=
  "socket write failed: channel=" +:+ (if lossy_channel then "lossy" else "control")
  +:+ " session_id="
  +:+ decimal (if 28 <=? frame_size frame
               then default 0 (read_u64 (of_bytes frame) 20) else 0)
  +:+ " bytes_written=" +:+ decimal (swr_bytes_written result)
  +:+ " frame_bytes=" +:+ decimal (frame_size frame)
  +:+ " queued_bytes=" +:+ decimal queued_bytes
  +:+ " qos=" +:+ decimal (QosClass_value (of_qos frame))
  +:+ " reason=" +:+ swr_error result.

(** An iteration of [runtime_send_loop]: what the socket takes, and whether the loop
    goes on. *)
Definition runtime_send (env : SocketEnv) (connection : handle) (impl : Impl) :
    option (Bytes * bool * Impl) :=
  match im_heap impl !! connection with
  | None => None
  | Some c =>
    if negb (rc_running c) then Some ([], false, impl)
    else
    match take_next_frame (rc_send c) with
    | None => Some ([], true, impl)
    | Some (frame, s) =>
      let impl := set_heap (<[connection := with_send s c]> (im_heap impl)) impl in
      match send_frame env frame with
      | None => None
      | Some (SendClosed result, wire) =>
        let message := write_failure (runtime_is_lane_peer impl (peer_id (rc_peer c)))
                         frame result (queued_bytes s) in
        Some (wire, false,
          stop_connection connection
            (runtime_emit (error_event (rc_peer c) default_Envelope kInternal message) impl))
      | Some (_, wire) => Some (wire, true, impl)
      end
    end
  end.

(** ** The connection objects *)

(** Every filed handle is an object whose peer has the id it is filed under, and the
    queues of every object are consistent and bounded. *)
Record connections_ok (impl : Impl) : Prop := {
  co_filed id connection : im_connections impl !! id = Some connection →
    ∃ c, im_heap impl !! connection = Some c ∧ peer_id (rc_peer c) = id;
  co_send connection c : im_heap impl !! connection = Some c →
    send_wf (rc_send c)
    ∧ max_queued_bytes (rc_send c) = cfg_max_buffer_bytes_per_peer (im_config impl);
}.

(** *** send *)

(** What an accepted or a refused frame leaves in the queues of its connection, and why
    it was refused: the connection was stopped, or its reliable frames leave no room. *)
Definition sent_on (ok : bool) (bytes : Bytes) (qos : QosClass) (key : string)
    (connection : handle) (impl impl' : Impl) : Prop :=
  ∃ c s, im_heap impl !! connection = Some c ∧ send_wf s
  ∧ enqueued ok bytes qos key (rc_send c) s
  ∧ (ok = true → rc_running c = true)
  ∧ (ok = false → bytes = [] ∨ rc_running c = false
     ∨ enqueue_limit (rc_send c) qos
       < queue_size (send_queue (rc_send c) 0) + queue_size (send_queue (rc_send c) 1)
         + vsize bytes)
  ∧ impl' = set_heap (<[connection := with_send s c]> (im_heap impl)) impl.

Lemma connection_enqueue_spec connection c bytes qos key impl :
  im_heap impl !! connection = Some c → send_wf (rc_send c) →
  let r := connection_enqueue connection bytes qos key impl in
  sent_on r.1 bytes qos key connection impl r.2.
Proof.
  intros Hc Hwf. unfold connection_enqueue. rewrite Hc. cbn.
  destruct (enqueue_spec (rc_running c) bytes qos key (rc_send c) Hwf)
    as (ok & s' & Hr & Hwf' & Henq & Hno).
  assert (Hrun : ok = true → rc_running c = true).
  { intros ->. destruct (rc_running c); [done|]. unfold runtime_enqueue in Hr.
    by rewrite orb_true_r in Hr. }
  rewrite Hr. cbn. exists c, s'. done.
Qed.

(** The envelope needs no profile, or its session negotiated one that covers its type. *)
Definition permitted (peer : string) (envelope : Envelope) (impl : Impl) : Prop :=
  env_family envelope = FamilySession ∨ is_core (env_type envelope) = true
  ∨ ∃ session, im_sessions impl !! (peer, env_session_id envelope) = Some session
    ∧ supports_profile session (tr_profile_id (env_type envelope))
        (tr_major (env_type envelope)) (tr_minor (env_type envelope)) = true.

(** The connection for the envelope: the lane of its session, when the traffic may be
    dropped and the session has a lane, the control connection otherwise. *)
Definition routed (peer : string) (envelope : Envelope) (impl : Impl) (connection : handle) :
    Prop :=
  ∃ name, im_connections impl !! name = Some connection
  ∧ ((name = peer
      ∧ (qos_may_drop (env_qos_class envelope) = true →
         ∀ session, im_sessions impl !! (peer, env_session_id envelope) = Some session →
         si_lossy_peer_id session = EmptyString))
     ∨ (name ≠ EmptyString ∧ qos_may_drop (env_qos_class envelope) = true
        ∧ ∃ session, im_sessions impl !! (peer, env_session_id envelope) = Some session
          ∧ si_lossy_peer_id session = name)).

Lemma routed_iff peer envelope impl connection :
  runtime_connection_for_send impl peer (env_session_id envelope) (env_qos_class envelope)
  = Some connection ↔ routed peer envelope impl connection.
Proof.
  unfold runtime_connection_for_send, routed.
  destruct (qos_may_drop (env_qos_class envelope)).
  2: { split; [intros H; exists peer; naive_solver|]. intros (n & Hn & [[-> _]|(_ & ? & _)]); done. }
  destruct (im_sessions impl !! _) as [session|].
  2: { split; [intros H; exists peer; naive_solver|].
       intros (n & Hn & [[-> _]|(_ & _ & ? & ? & _)]); done. }
  case_bool_decide as Hl; split.
  - intros H. exists peer. split; [done|]. left. split; [done|]. by intros _ ? [= <-].
  - intros (n & Hn & [[-> _]|(Hne & _ & ? & [= <-] & <-)]); done.
  - intros H. eexists. split; [done|]. right. eauto.
  - intros (n & Hn & [[-> He]|(_ & _ & ? & [= <-] & <-)]); [|done].
    by destruct (Hl (He eq_refl _ eq_refl)).
Qed.

Lemma permitted_iff peer envelope impl :
  negb (bool_decide (env_family envelope = FamilySession))
  && negb (is_core (env_type envelope))
  && negb (session_supports_profile peer (env_session_id envelope)
             (tr_profile_id (env_type envelope)) (tr_major (env_type envelope))
             (tr_minor (env_type envelope)) impl) = false ↔ permitted peer envelope impl.
Proof.
  unfold permitted, session_supports_profile.
  rewrite !andb_false_iff, !negb_false_iff, bool_decide_eq_true.
  destruct (im_sessions impl !! _) as [session|]; naive_solver.
Qed.

(** C18 What [send] does in every case, by the first of these that applies: a type that
    no negotiated profile of the session covers is answered [kUnsupported]; a session
    without a connection for this kind of traffic, [kNotFound]; an envelope that cannot
    be encoded, [kEncodeError]; in these cases nothing changes.  Otherwise the encoded
    envelope is offered to the queues of one connection, the lane's for traffic that
    may be dropped when its session has one and the control connection's otherwise, and
    nothing else changes; the answer is [kOk] when the queues took it, which needs a
    running connection, and [kRejected] when the connection was stopped or the bound
    left no room, without the loss of a reliable frame. *)
Theorem send_correct clock peer envelope impl :
  connections_ok impl →
  let r := send clock peer envelope impl in
  let bytes := WireCodec.encode (runtime_now_ms clock) envelope true in
  let key := if bool_decide (env_qos_class envelope = kReliableLatest)
             then latest_key envelope else EmptyString in
  (¬ permitted peer envelope impl → r = (kUnsupported, impl))
  ∧ (permitted peer envelope impl →
     (∀ connection, ¬ routed peer envelope impl connection) → r = (kNotFound, impl))
  ∧ (∀ connection, permitted peer envelope impl → routed peer envelope impl connection →
     (bytes = [] → r = (kEncodeError, impl))
     ∧ (bytes ≠ [] → ∃ ok : bool, r.1 = (if ok then kOk else kRejected)
        ∧ sent_on ok bytes (env_qos_class envelope) key connection impl r.2)).
Proof.
  intros Hok. cbv zeta. unfold send.
  pose proof (permitted_iff peer envelope impl) as Hp. destruct (_ && _ && _) eqn:E.
  { split; [done|]. split; [intros Hper|intros connection Hper]; discriminate (proj2 Hp Hper). }
  split; [intros Hper; by destruct (Hper (proj1 Hp eq_refl))|].
  split; [intros _ Hno|intros connection].
  { destruct (runtime_connection_for_send _ _ _ _) as [h|] eqn:Er; [|done].
    apply routed_iff in Er. by destruct (Hno h). }
  intros _ Hr%routed_iff. rewrite Hr.
  set (bytes := WireCodec.encode (runtime_now_ms clock) envelope true).
  split; intros Hb; [by rewrite bool_decide_true|]. rewrite bool_decide_false by done.
  destruct (co_filed impl Hok _ connection Hr) as (c & Hc & _).
  pose proof (connection_enqueue_spec connection c bytes (env_qos_class envelope)
    (if bool_decide (env_qos_class envelope = kReliableLatest)
     then latest_key envelope else EmptyString) impl Hc (proj1 (co_send impl Hok _ _ Hc))) as Hs.
  cbn zeta in Hs. destruct (connection_enqueue _ _ _ _ _) as [ok impl']; cbn in *; eauto.
Qed.

(** *** close_peer *)
Lemma close_peer_section_connections peer impl :
  im_connections (close_peer_section peer impl).2 = delete peer (im_connections impl).
Proof.
  unfold close_peer_section, drop_lane_section. destruct (im_connections impl !! peer) eqn:E.
  - cbn. repeat match goal with
    | |- context [match ?m !! ?k with _ => _ end] => destruct (m !! k); cbn
    | |- context [if ?b then _ else _] => destruct b; cbn
    end; done.
  - cbn. by rewrite delete_id.
Qed.

Lemma close_peer_section_some peer impl r :
  (close_peer_section peer impl).1 = Some r → im_connections impl !! peer = Some r.1.
Proof.
  unfold close_peer_section. destruct (im_connections impl !! peer); [|done].
  by intros [= <-].
Qed.

Lemma close_connection_connections connection impl :
  im_connections (close_connection connection impl) = im_connections impl.
Proof. apply (q_connections _ _ (quiet_stop _ _)). Qed.

Lemma close_peer_fuel_spec fuel peer impl :
  (size (im_connections impl) < fuel)%nat →
  ∃ impl', close_peer_fuel fuel peer impl = Some impl'
  ∧ im_connections impl' ⊆ delete peer (im_connections impl).
Proof.
  revert peer impl. induction fuel as [|fuel IH]; intros peer impl Hf; [lia|].
  cbn [close_peer_fuel]. pose proof (close_peer_section_connections peer impl) as Hconn.
  destruct (close_peer_section peer impl).1 as [[connection lossy]|] eqn:Er.
  2: { eexists. split; [done|]. by rewrite Hconn. }
  apply close_peer_section_some in Er. cbn in Er.
  set (impl1 := close_connection connection (close_peer_section peer impl).2).
  assert (H1 : im_connections impl1 = delete peer (im_connections impl)).
  { unfold impl1. by rewrite close_connection_connections. }
  destruct (_ || _); [eexists; split; [done|by rewrite H1]|].
  assert (Hsize : (size (im_connections impl1) < fuel)%nat).
  { pose proof (map_size_ne_0_lookup_2 _ _ (ex_intro _ _ Er)).
    rewrite H1, map_size_delete_Some by eauto. lia. }
  destruct (IH lossy impl1 Hsize) as (impl' & -> & Hsub). exists impl'. split; [done|].
  etransitivity; [exact Hsub|]. etransitivity; [apply delete_subseteq|]. by rewrite H1.
Qed.

(** [close_peer], which calls itself for the lane of the peer, always returns: each
    call that continues has taken a connection out of the table.  Afterwards the
    peer is not connected, and no connection has been added. *)
Theorem close_peer_terminates peer impl :
  ∃ impl', close_peer peer impl = Some impl'
  ∧ im_connections impl' !! peer = None
  ∧ im_connections impl' ⊆ im_connections impl.
Proof.
  unfold close_peer. destruct (close_peer_fuel_spec (S (size (im_connections impl))) peer impl)
    as (impl' & -> & Hsub); [lia|].
  exists impl'. split; [done|]. split.
  - eapply lookup_weaken_None; [|exact Hsub]. apply lookup_delete_eq.
  - etransitivity; [exact Hsub|]. apply delete_subseteq.
Qed.

(** *** set_entities, start and stop *)

(** Replacing the entities takes the authority over the removed ones away, and over
    nothing else: a lease survives, unchanged, exactly when its entity is still
    listed.  A list with an invalid uid is refused as a whole. *)
Theorem set_entities_correct entities impl :
  let r := set_entities entities impl in
  (r.1 = kOk ∧ Forall (λ entity, valid_uid (ent_uid entity) = true) entities
   ∧ cfg_entities (im_config r.2) = entities
   ∧ im_sessions r.2 = im_sessions impl
   ∧ ∀ key lease, im_authority_leases r.2 !! key = Some lease ↔
       im_authority_leases impl !! key = Some lease ∧ key.1 ∈ ent_uid <$> entities)
  ∨ (r.1 = kInvalidArgument ∧ r.2 = impl
     ∧ ∃ entity, entity ∈ entities ∧ valid_uid (ent_uid entity) = false).
Proof.
  cbv zeta. unfold set_entities. destruct (existsb _ entities) eqn:E.
  - right. split_and!; [done..|]. apply existsb_exists in E as (entity & Hin & Hv).
    exists entity. by rewrite list_elem_of_In, <- negb_true_iff.
  - left. split_and!; [done| |done|done|].
    + apply Forall_forall. intros entity Hin. apply not_false_iff_true. intros Hv.
      apply not_true_iff_false in E. apply E, existsb_exists. exists entity.
      by rewrite <- list_elem_of_In, Hv.
    + intros key lease. cbn. by rewrite map_lookup_filter_Some.
Qed.

Lemma stop_all_heap connections impl connection c :
  im_heap (foldr close_connection impl connections) !! connection = Some c →
  ∃ c', im_heap impl !! connection = Some c'
  ∧ (connection ∈ connections → rc_running c = false).
Proof.
  revert c. induction connections as [|h connections IH]; intros c; cbn [foldr].
  { intros Hc. exists c. split; [done|]. intros Hin. by apply not_elem_of_nil in Hin. }
  unfold close_connection at 1, stop_connection.
  destruct (im_heap (foldr close_connection impl connections) !! h) as [ch|] eqn:Eh; cbn.
  - intros [[<- <-]|[Hne Hc]]%lookup_insert_Some.
    + destruct (IH _ Eh) as (c' & Hc' & _). exists c'. done.
    + destruct (IH _ Hc) as (c' & Hc' & Hrun). exists c'. split; [done|].
      intros [->|Hin]%elem_of_cons; [done|auto].
  - intros Hc. destruct (IH _ Hc) as (c' & Hc' & Hrun). exists c'. split; [done|].
    intros [->|Hin]%elem_of_cons; [congruence|auto].
Qed.

Lemma stop_all_quiet connections impl : quiet impl (foldr close_connection impl connections).
Proof.
  induction connections as [|h connections IH]; cbn; [reflexivity|].
  etransitivity; [exact IH|]. apply quiet_stop.
Qed.

(** Starting: a running runtime is left alone; an unacceptable configuration changes
    nothing; one that is acceptable is stored, and the runtime runs when no checked
    call on the acceptor failed. *)
Theorem start_correct acceptor config impl :
  start acceptor config impl
  = if im_running impl then (kOk, impl)
    else if negb (config_acceptable config) then (kInvalidArgument, impl)
    else if ae_open acceptor || ae_bind acceptor || ae_non_blocking acceptor
            || ae_local_endpoint acceptor
    then (kInternal, set_config config impl)
    else (kOk, set_running true (set_config config impl)).
Proof.
  unfold start, acceptor_failed. destruct (im_running impl); [done|].
  destruct (negb _); [done|]. by destruct acceptor as [[] ? [] ? [] []].
Qed.

(** (finding) A failed [listen] goes unnoticed: its error is overwritten by the call
    after it, so [start] reports success and the runtime runs although no peer can
    connect to it. *)
Theorem listen_error_ignored config impl :
  im_running impl = false → config_acceptable config = true →
  let r := start (mkAcceptorErrors false false false true false false) config impl in
  r.1 = kOk ∧ im_running r.2 = true.
Proof. intros Hr Hc. cbv zeta. unfold start. by rewrite Hr, Hc. Qed.

(** Whatever order the two handlers are called in, an expired timer makes a timeout of
    the attempt, even when the connection was made, and a cancelled one leaves the
    connection's own error. *)
Theorem connect_with_timeout_correct error cancelled completions :
  completions ≡ₚ [ConnectDone error; TimerDone cancelled] →
  connect_with_timeout completions = if cancelled then error else TimedOut.
Proof.
  intros Hp. symmetry in Hp.
  apply Permutation_length_2_inv in Hp as [-> | ->]; by destruct cancelled.
Qed.

(** Stopping leaves a runtime that serves nobody: no connection, session or lease,
    and every connection object that was filed has been told to stop. *)
Theorem stop_clears impl :
  im_running impl = true →
  let impl' := stop impl in
  im_running impl' = false ∧ im_connections impl' = ∅ ∧ im_sessions impl' = ∅
  ∧ im_authority_leases impl' = ∅
  ∧ (∀ id connection, im_connections impl !! id = Some connection →
       connection_running impl' connection = false).
Proof.
  intros Hrun. cbv zeta. unfold stop. rewrite Hrun. cbn [negb].
  set (closed := _.*2). set (impl0 := set_authority_leases _ _).
  pose proof (stop_all_quiet closed impl0) as Hq.
  rewrite (q_running _ _ Hq), (q_connections _ _ Hq), (q_sessions _ _ Hq),
    (q_authority_leases _ _ Hq). split_and!; try done.
  intros id connection Hid. unfold connection_running.
  destruct (im_heap (foldr close_connection impl0 closed) !! connection) as [c|] eqn:E; [|done].
  destruct (stop_all_heap closed impl0 connection c E) as (_ & _ & Hc). apply Hc.
  unfold closed. apply list_elem_of_fmap. exists (id, connection). split; [done|].
  by apply elem_of_map_to_list.
Qed.

(** ** Findings *)

(** Two messages on different targets: the colon that separates the parts of a key is
    also allowed inside uids. *)
Definition state_message (entity_uid uid : string) : Envelope :=
  publish_envelope (mkClock 1 1) "ground-1" 5 3 FamilyStream 1 (target_entity uid)
    (mkTypeRef "yunlink.telemetry" 1 1 "state") [] 0 0 kReliableLatest entity_uid.

(** (finding) Latest-value keys are not unique: two valid messages of the same
    session from different entities to different targets have the same key, so that
    the second replaces the first in the queue although it is no newer value of it. *)
Theorem latest_key_ambiguous :
  let e1 := state_message "uav:2:a" "b" in
  let e2 := state_message "uav" "a:2:b" in
  encodable e1 = true ∧ encodable e2 = true
  ∧ env_source e1 ≠ env_source e2 ∧ env_target e1 ≠ env_target e2
  ∧ latest_key e1 = latest_key e2
  ∧ (let replaced := (send (mkClock 1 1) "tcp://10.0.0.2:40001" e2
        (send (mkClock 1 1) "tcp://10.0.0.2:40001" e1 ground_runtime).2) in
     replaced.1 = kOk
     ∧ ((λ c, of_bytes <$> send_queue (rc_send c) 1) <$> im_heap replaced.2 !! 0%nat)
       = Some [WireCodec.encode 1 e2 true]).
Proof. vm_compute. repeat split; discriminate. Qed.

(** A runtime with two active sessions of one peer and a connection for their lane. *)
Definition plain_session (id : Z) : SessionInfo :=
  with_lossy_peer_id EmptyString (with_identity id "tcp://10.0.0.2:40001" "uav-1" uav_session).

Definition two_sessions : Impl :=
  set_lane_owner ∅
    (set_sessions (<[("tcp://10.0.0.2:40001", 3) := plain_session 3]>
                     (<[("tcp://10.0.0.2:40001", 4) := plain_session 4]> ∅)) ground_runtime).

Definition lane_bind_message (session_id : Z) : Envelope :=
  session_envelope (mkClock 1 1) "uav-1" (30 + session_id) session_id
    SessionOperation.kLaneBind "session.lane_bind" (encode_text "secret") 0.

(** (finding) A lane can be bound to a second session while the first keeps its id:
    once that lane is lost, the first session still routes what may be dropped to a
    connection that no longer exists, so [send] fails although the session is active
    and its control connection is up. *)
Theorem lane_rebind_dangles :
  let bound := (handle_lane_bind (mkClock 1 1) uav_lane (lane_bind_message 4)
                 (handle_lane_bind (mkClock 1 1) uav_lane (lane_bind_message 3)
                    two_sessions).2).2 in
  let lost := reap_closed_connections (receive_exit 1 bound) in
  im_lane_owner bound !! "tcp://10.0.0.2:40002" = Some ("tcp://10.0.0.2:40001", 4)
  ∧ (si_state <$> session "tcp://10.0.0.2:40001" 3 lost) = Some kActive
  ∧ connection_running lost 0 = true
  ∧ (send (mkClock 1 1) "tcp://10.0.0.2:40001"
       (publish_envelope (mkClock 1 1) "ground-1" 5 3 FamilyStream 1 target_broadcast
          (mkTypeRef "yunlink.telemetry" 1 1 "state") [] 0 0 kBestEffort EmptyString) lost).1
    = kNotFound.
Proof. vm_compute. done. Qed.

(** (finding) Session ids are chosen by each side for itself, so a session the peer
    opened may carry the id the runtime uses next: [open_session] then replaces that
    session, active or not, by a new one in its handshake. *)
Theorem open_session_overwrites clock peer session impl :
  is_Some (im_connections impl !! peer) →
  im_sessions impl !! (peer, im_next_session_id impl) = Some session →
  let r := open_session clock peer impl in
  r.1 = im_next_session_id impl
  ∧ im_sessions r.2 !! (peer, r.1)
    = Some (mkSessionInfo r.1 peer EmptyString kHandshaking false ∅ [] EmptyString).
Proof.
  intros [connection Hc] _. unfold open_session. rewrite Hc. cbn.
  split; [done|]. rewrite !(q_sessions _ _ (quiet_send_session _ _ _ _ _ _ _ _)).
  cbn. by rewrite lookup_insert_eq.
Qed.

(** ** Witnesses *)
Lemma ground_runtime_ok : connections_ok ground_runtime.
Proof.
  assert (Hheap : ∀ connection c, im_heap ground_runtime !! connection = Some c →
    rc_send c = empty_send_state (16 * 1024 * 1024 + 65536) ∧ rc_receive_buffer c = []).
  { intros connection c. cbn.
    intros [[_ <-]|[_ [[_ <-]|[_ Hc]]%lookup_insert_Some]]%lookup_insert_Some; [done..|].
    by rewrite lookup_empty in Hc. }
  split.
  - intros id connection. cbn.
    intros [[<- <-]|[_ [[<- <-]|[_ Hc]]%lookup_insert_Some]]%lookup_insert_Some.
    + by exists (ground_connection uav_peer).
    + by exists (ground_connection uav_lane).
    + by rewrite lookup_empty in Hc.
  - intros connection c Hc. destruct (Hheap _ _ Hc) as [-> _]. split; [|done].
    apply empty_wf. lia.
Qed.

Lemma send_correct_witness :
  let envelope := telemetry_envelope in
  let peer := "tcp://10.0.0.2:40001" in
  let impl := ground_runtime in
  let r := send (mkClock 1 1) peer envelope impl in
  let bytes := WireCodec.encode 1 envelope true in
  let key := if bool_decide (env_qos_class envelope = kReliableLatest)
             then latest_key envelope else EmptyString in
  (¬ permitted peer envelope impl → r = (kUnsupported, impl))
  ∧ (permitted peer envelope impl →
     (∀ connection, ¬ routed peer envelope impl connection) → r = (kNotFound, impl))
  ∧ (∀ connection, permitted peer envelope impl → routed peer envelope impl connection →
     (bytes = [] → r = (kEncodeError, impl))
     ∧ (bytes ≠ [] → ∃ ok : bool, r.1 = (if ok then kOk else kRejected)
        ∧ sent_on ok bytes (env_qos_class envelope) key connection impl r.2)).
Proof.
  exact (send_correct (mkClock 1 1) "tcp://10.0.0.2:40001" telemetry_envelope ground_runtime
           ground_runtime_ok).
Defined.

Lemma stop_clears_witness :
  let impl' := stop ground_runtime in
  im_running impl' = false ∧ im_connections impl' = ∅ ∧ im_sessions impl' = ∅
  ∧ im_authority_leases impl' = ∅
  ∧ (∀ id connection, im_connections ground_runtime !! id = Some connection →
       connection_running impl' connection = false).
Proof. exact (stop_clears ground_runtime eq_refl). Defined.

Lemma listen_error_ignored_witness :
  let r := start (mkAcceptorErrors false false false true false false) ground_config
             (set_running false ground_runtime) in
  r.1 = kOk ∧ im_running r.2 = true.
Proof. apply listen_error_ignored; vm_compute; reflexivity. Defined.

Lemma connect_with_timeout_correct_witness :
  connect_with_timeout [ConnectDone NoError; TimerDone false] = TimedOut.
Proof.
  exact (connect_with_timeout_correct NoError false _ (reflexivity _)).
Defined.

Lemma open_session_overwrites_witness :
  let impl := set_next_session_id 3 ground_runtime in
  let r := open_session (mkClock 1 1) "tcp://10.0.0.2:40001" impl in
  r.1 = im_next_session_id impl
  ∧ im_sessions r.2 !! ("tcp://10.0.0.2:40001", r.1)
    = Some (mkSessionInfo r.1 "tcp://10.0.0.2:40001" EmptyString kHandshaking false ∅ []
              EmptyString).
Proof.
  apply (open_session_overwrites _ _ uav_session); [|vm_compute; reflexivity].
  exists 0%nat. vm_compute. reflexivity.
Defined.
