(* ===== verification/Concurrency.v ===== *)
(** * Concurrency: the runtime as a system of critical sections

    The threads of a runtime (the accept thread, a receive and a send thread per
    connection, and whoever calls the API) share the state under the runtime mutex,
    which each operation takes and releases several times.  [section] is one
    critical section, or one access to an atomic or to a queue under its own mutex;
    [operation] lists what threads and callers do to a runtime that has been started
    (calls that only read it, and [start] itself, are no operations), and
    [operation_sections] shows that each operation, run by itself, is a sequence of
    sections.  [reachable] lets sections of any
    threads follow one another in any order while time goes on, so an invariant of
    [reachable] holds whatever the interleaving. *)

From Stdlib Require Import ZArith Lia String Ascii Strings.Byte.
From stdpp Require Import base gmap strings list fin_maps relations.
From S2P Require Import Prelude StdMap Codec WireTypes WireCodec CoreMessages Framing SendQueue SocketWrite RuntimeCommon Authority Session Runtime.
Local Open Scope string_scope.
Local Open Scope Z_scope.

(** ** Critical sections *)

(** An envelope as [WireCodec::decode] accepts it. *)
Definition received (envelope : Envelope) : Prop :=
  encodable envelope = true ∧ envelope_typed envelope = true.

(** The update of [handle_session] under the mutex. *)
Definition session_section (peer : string) (envelope : Envelope) (impl : Impl) : Impl :=
  let key := (peer, env_session_id envelope) in
  set_sessions (<[key := su_session (session_update (im_config impl) peer envelope
                    (default default_SessionInfo (im_sessions impl !! key)))]>
                  (im_sessions impl)) impl.

(** The insertion of [open_session]. *)
Definition open_section (peer : string) (session_id : Z) (impl : Impl) : Impl :=
  set_sessions (<[(peer, session_id) :=
      mkSessionInfo session_id peer EmptyString kHandshaking false ∅ [] EmptyString]>
    (im_sessions impl)) impl.

(** One section, at the time [now] of the steady clock. *)
Inductive section (now : Z) (impl : Impl) : Impl → Prop :=
  | sec_emit event : section now impl (runtime_emit event impl)
  | sec_message_id : section now impl (fetch_message_id impl).2
  | sec_session_id : section now impl (fetch_session_id impl).2
  | sec_enqueue connection bytes qos key :
    section now impl (connection_enqueue connection bytes qos key impl).2
  | sec_dequeue connection c frame s :
    im_heap impl !! connection = Some c → take_next_frame (rc_send c) = Some (frame, s) →
    section now impl (set_heap (<[connection := with_send s c]> (im_heap impl)) impl)
  | sec_receive connection c buffer :
    im_heap impl !! connection = Some c →
    section now impl
      (set_heap (<[connection := with_receive_buffer buffer c]> (im_heap impl)) impl)
  | sec_stop connection : section now impl (stop_connection connection impl)
  | sec_connect peer : section now impl (add_connection peer impl).2
  | sec_lane_connect peer session_id ip port :
    section now impl (add_lane peer session_id ip port impl).2
  | sec_disconnect peer :
    section now impl (set_connections (delete peer (im_connections impl)) impl)
  | sec_reap : section now impl (reap_closed_connections impl)
  | sec_session peer envelope :
    received envelope → section now impl (session_section peer envelope impl)
  | sec_open peer session_id : section now impl (open_section peer session_id impl)
  | sec_lane_bind peer envelope : section now impl (lane_bind_section peer envelope impl).2
  | sec_lane_ready peer envelope :
    section now impl (handle_lane_ready peer envelope impl).2
  | sec_authority earlier peer envelope request uid :
    (* the clock is read before the mutex is taken *)
    earlier <= now → authority_request envelope = Some (request, uid) →
    section now impl
      (set_authority_leases
         (authority_update earlier peer (env_session_id envelope) (env_operation envelope)
            (uid, ar_authority_scope request) request (im_authority_leases impl)).2 impl)
  | sec_revoke peer session_id uids :
    section now impl (runtime_revoke_authority peer session_id uids impl)
  | sec_entities entities : section now impl (set_entities_section entities impl)
  | sec_close peer : section now impl (close_peer_section peer impl).2
  | sec_drop_control peer : section now impl (drop_control_section peer impl)
  | sec_drop_lane peer lane : section now impl (drop_lane_section peer lane impl)
  | sec_subscribe : section now impl (subscribe impl).2
  | sec_unsubscribe token : section now impl (unsubscribe token impl)
  | sec_not_running : section now impl (set_running false impl)
  | sec_clear :
    section now impl (set_authority_leases ∅ (set_sessions ∅ (set_connections ∅ impl))).

Definition sections (now : Z) : Impl → Impl → Prop := rtc (section now).

#[export] Hint Constructors section : yunlink.

Lemma sections_once now impl impl' : section now impl impl' → sections now impl impl'.
Proof. apply rtc_once. Qed.

(** ** Operations *)

(** What the threads of a runtime do between [start] and the end of [stop]: the
    calls of the API, the accept thread, and the passes of the receive and the send
    threads. *)
Inductive operation :=
  | OpOpenSession (peer : string)
  | OpSend (peer : string) (envelope : Envelope)
  | OpPublish (peer : string) (session_id : Z) (family : MessageFamily) (operation : Z)
      (target : TargetSelector) (type : TypeRef) (payload : Bytes)
      (correlation_id ttl_ms : Z) (qos : QosClass) (source_entity_uid : string)
  | OpSetEntities (entities : list EntityDescriptor)
  | OpSubscribe
  | OpUnsubscribe (token : Z)
  | OpRevokeAuthority (peer : string) (session_id : Z) (uids : list string)
  | OpConnect (make_address : string → bool) (dial : Dial) (ip : string) (port : Z)
  | OpBindLane (make_address : string → bool) (dial : Dial) (peer : string) (session_id : Z)
  | OpBindLaneTimeout (peer : string)
  | OpClosePeer (peer : string)
  | OpStop
  | OpAccept (ip : string) (port : Z)
  | OpReap
  | OpAcceptPass (accepted : Accepted)
  | OpReceive (connection : handle) (chunk : Bytes)
  | OpReceiveExit (connection : handle)
  | OpWrite (connection : handle) (env : SocketEnv).

Definition run_operation (clock : Clock) (op : operation) (impl : Impl) : option Impl :=
  match op with
  | OpOpenSession peer => Some (open_session clock peer impl).2
  | OpSend peer envelope => Some (send clock peer envelope impl).2
  | OpPublish peer session_id family operation target type payload correlation_id ttl_ms
      qos source_entity_uid =>
    Some (publish clock peer session_id family operation target type payload
            correlation_id ttl_ms qos source_entity_uid impl).2
  | OpSetEntities entities => Some (set_entities entities impl).2
  | OpSubscribe => Some (subscribe impl).2
  | OpUnsubscribe token => Some (unsubscribe token impl)
  | OpRevokeAuthority peer session_id uids =>
    Some (runtime_revoke_authority peer session_id uids impl)
  | OpConnect make_address dial ip port => Some (connect_peer make_address dial ip port impl).2
  | OpBindLane make_address dial peer session_id =>
    match bind_lossy_lane_start make_address clock dial peer session_id impl with
    | inl r => r.2
    | inr impl => Some impl
    end
  | OpBindLaneTimeout peer => (bind_lossy_lane_timeout peer impl).2
  | OpClosePeer peer => close_peer peer impl
  | OpStop => Some (stop impl)
  | OpAccept ip port => Some (accept ip port impl)
  | OpReap => Some (reap_closed_connections impl)
  | OpAcceptPass accepted => accept_pass accepted impl
  | OpReceive connection chunk => snd <$> runtime_receive clock connection chunk impl
  | OpReceiveExit connection => Some (receive_exit connection impl)
  | OpWrite connection env => snd <$> runtime_send env connection impl
  end.

(** ** Operations are sequences of sections *)

Section operations.
Context (now : Z).

Lemma sections_trans impl1 impl2 impl3 :
  sections now impl1 impl2 → sections now impl2 impl3 → sections now impl1 impl3.
Proof. apply transitivity. Qed.

Lemma sections_emit event impl impl' :
  sections now impl impl' → sections now impl (runtime_emit event impl').
Proof. intros Hs. eapply rtc_r; [exact Hs|constructor]. Qed.

Lemma sections_write peer bytes impl : sections now impl (write_to_peer peer bytes impl).
Proof.
  unfold write_to_peer. destruct (_ !! peer); [|reflexivity]. apply sections_once. constructor.
Qed.

Lemma sections_send_session clock peer session_id operation type_name payload corr impl :
  sections now impl
    (send_session clock peer session_id operation type_name payload corr impl).
Proof.
  unfold send_session. cbv zeta. eapply rtc_l; [apply sec_message_id|]. apply sections_write.
Qed.

Lemma sections_send_status clock peer request status impl :
  sections now impl (send_status clock peer request status impl).
Proof.
  unfold send_status. cbv zeta. eapply rtc_l; [apply sec_message_id|]. apply sections_write.
Qed.

Lemma sections_authority ms peer envelope impl :
  sections now impl (runtime_handle_authority (mkClock ms now) peer envelope impl).2.
Proof.
  unfold runtime_handle_authority. destruct (_ || _); [reflexivity|].
  destruct (authority_request envelope) as [[request uid]|] eqn:E; cbn [snd].
  - eapply rtc_l; [by eapply sec_authority; [reflexivity|]|]. apply sections_send_status.
  - apply sections_send_status.
Qed.

Lemma sections_envelope ms peer envelope impl :
  received envelope →
  sections now impl (runtime_handle_envelope (mkClock ms now) peer envelope impl).
Proof.
  intros Hr. unfold runtime_handle_envelope. destruct (bool_decide _).
  - destruct (env_operation envelope =? SessionOperation.kLaneBind).
    { unfold handle_lane_bind. destruct (negb _); [reflexivity|].
      destruct (lane_bind_section peer envelope impl).1 as [key|].
      - destruct (bool_decide _); cbn [snd]; [apply sections_once; constructor|].
        eapply rtc_l; [apply sec_lane_bind|]. apply sections_send_session.
      - apply sections_once. constructor. }
    destruct (env_operation envelope =? SessionOperation.kLaneReady).
    { apply sections_once. constructor. }
    unfold handle_session, emit_session. cbv zeta. eapply rtc_l; [by apply (sec_session _ _ (peer_id peer))|].
    eapply rtc_l; [apply sec_emit|].
    destruct (su_source_mismatch _); [reflexivity|].
    destruct (su_reply_profiles _); [eapply sections_trans; [apply sections_send_session|]|];
      (destruct (su_reply_ready _); [apply sections_send_session|reflexivity]).
  - unfold handle_message. cbv zeta.
    destruct (negb (envelope_checks _ _ _).1); [apply sections_emit; reflexivity|].
    destruct (negb (envelope_checks _ _ _).2); [apply sections_emit; reflexivity|].
    destruct (runtime_handle_authority _ _ _ _).1; [apply sections_authority|].
    destruct (negb _); apply sections_emit, sections_authority.
Qed.

Lemma sections_stop_all connections impl :
  sections now impl (foldr close_connection impl connections).
Proof.
  induction connections as [|h connections IH]; [reflexivity|]. cbn.
  eapply rtc_r; [exact IH|]. apply sec_stop.
Qed.

Lemma sections_close_peer_fuel fuel peer impl impl' :
  close_peer_fuel fuel peer impl = Some impl' → sections now impl impl'.
Proof.
  revert peer impl. induction fuel as [|fuel IH]; intros peer impl; [done|].
  cbn [close_peer_fuel]. destruct (close_peer_section peer impl).1 as [[connection lossy]|].
  - intros Hc. eapply rtc_l; [apply (sec_close _ _ peer)|].
    eapply rtc_l; [apply (sec_stop _ _ connection)|].
    destruct (_ || _); [by injection Hc as <-|]. by eapply IH.
  - intros [= <-]. apply sections_once. constructor.
Qed.

Lemma sections_drop_peer_state peer impl :
  sections now impl (runtime_drop_peer_state peer impl).
Proof.
  unfold runtime_drop_peer_state. destruct (im_lane_owner impl !! peer_id peer).
  { apply sections_once. constructor. }
  eapply rtc_l; [apply (sec_drop_control _ _ (peer_id peer))|].
  set (impl1 := drop_control_section _ _). generalize (peer_sessions (peer_id peer) impl).
  intros lost. set (impl2 := match last _ with Some _ => _ | None => _ end).
  apply (sections_trans _ impl2).
  { unfold impl2. destruct (last _) as [lane|]; [|reflexivity].
    destruct (im_connections impl1 !! lane); [|reflexivity].
    apply sections_once. constructor. }
  generalize impl2. clear. induction lost as [|entry lost IH]; intros impl; [reflexivity|].
  cbn [foldl]. eapply rtc_l; [apply sec_emit|]. apply IH.
Qed.

Lemma sections_connection_enqueue connection bytes qos key impl :
  sections now impl (connection_enqueue connection bytes qos key impl).2.
Proof. apply sections_once. constructor. Qed.

Lemma sections_send clock peer envelope impl :
  sections now impl (send clock peer envelope impl).2.
Proof.
  unfold send. destruct (_ && _ && _); [reflexivity|].
  destruct (runtime_connection_for_send _ _ _ _); [|reflexivity].
  destruct (bool_decide _); [reflexivity|]. apply sections_connection_enqueue.
Qed.

Lemma sections_connect make_address dial ip port impl :
  sections now impl (connect_peer make_address dial ip port impl).2.
Proof.
  unfold connect_peer. destruct (negb (im_running impl)); [reflexivity|].
  destruct (_ || _); [reflexivity|]. cbv zeta. set (peer := mkPeer _ _ _).
  assert (Hdial : ∀ impl, sections now impl (dial_new dial peer impl).2).
  { intros i. unfold dial_new. destruct (dial_error dial); cbn [snd]; [reflexivity|].
    eapply sections_emit, sections_once, sec_connect. }
  destruct (im_connections impl !! peer_id peer) as [h|]; [|apply Hdial].
  destruct (im_heap impl !! h) as [c|]; [|apply Hdial].
  destruct (rc_running c); [reflexivity|].
  eapply rtc_l; [apply (sec_disconnect _ _ (peer_id peer))|].
  eapply rtc_l; [apply (sec_stop _ _ h)|]. apply Hdial.
Qed.

Lemma sections_bind_lane make_address clock dial peer session_id impl :
  match bind_lossy_lane_start make_address clock dial peer session_id impl with
  | inl r => ∀ impl', r.2 = Some impl' → sections now impl impl'
  | inr impl' => sections now impl impl'
  end.
Proof.
  unfold bind_lossy_lane_start.
  destruct (bind_lossy_lane_target _ _ _ _) as [e|[ip port]].
  { intros impl' [= <-]. reflexivity. }
  destruct (dial_error dial) as [e|].
  { intros impl' [= <-]. reflexivity. }
  assert (Hadd : section now impl (add_lane peer session_id ip port impl).2) by constructor.
  destruct (add_lane peer session_id ip port impl) as [connection impl1]. cbn in Hadd.
  cbv zeta. cbn [fst snd]. generalize (WireCodec.encode (runtime_now_ms clock)
    (session_envelope clock (cfg_endpoint_uid (im_config impl)) (fetch_message_id impl1).1
       session_id SessionOperation.kLaneBind "session.lane_bind"
       (encode_text (cfg_shared_secret (im_config impl))) 0) true). intros bytes.
  pose proof (sections_connection_enqueue connection bytes kReliableOrdered EmptyString
    (fetch_message_id impl1).2) as Henq.
  assert (Hsent : sections now impl (connection_enqueue connection bytes kReliableOrdered
    EmptyString (fetch_message_id impl1).2).2).
  { eapply rtc_l; [exact Hadd|]. eapply rtc_l; [apply sec_message_id|]. exact Henq. }
  destruct (connection_enqueue _ _ _ _ _) as [[] impl2]; cbn [fst snd negb] in *; [done|].
  intros impl' Hc. eapply sections_trans; [exact Hsent|]. by eapply sections_close_peer_fuel.
Qed.
End operations.

(** *** Received envelopes *)
Lemma pop_frame_received max now buffer e buffer' :
  pop_frame max now buffer = Some (Some (PoppedEnvelope e), buffer') → received e.
Proof.
  unfold pop_frame. destruct (_ <? 4); [done|]. destruct (_ >=? _); [done|].
  destruct (_ <? 14); [done|]. set (buf := drop _ _).
  do 6 (match goal with |- context [load_u8 buf ?o] => destruct (load_u8 buf o); [|done] end;
        cbn [mbind option_bind]).
  unfold pop_sized. destruct (_ || _); [done|]. destruct (_ <? _); [done|].
  match goal with |- context [WireCodec.decode ?d now] => destruct (decode_spec d now)
    as (r & -> & _ & Hacc) end. cbn [mbind option_bind].
  case_bool_decide as Hok; [|done]. intros [= <- _].
  destruct (Hacc Hok). by split.
Qed.

Lemma drain_received fuel max now buffer ps buffer' e :
  drain fuel max now buffer = Some (ps, buffer') → PoppedEnvelope e ∈ ps → received e.
Proof.
  revert buffer ps buffer'. induction fuel as [|fuel IH]; intros buffer ps buffer'; cbn [drain].
  { done. }
  destruct (pop_frame max now buffer) as [[p buf]|] eqn:E; [|done]. cbn [mbind option_bind].
  destruct p as [p|]; [|intros [= <- _] Hin; by apply not_elem_of_nil in Hin].
  destruct (drain fuel max now buf) as [[rest buf']|] eqn:Ed; [|done].
  cbn [mbind option_bind fst snd]. intros [= <- _] [<-|Hin]%elem_of_cons.
  - by eapply pop_frame_received.
  - by eapply IH.
Qed.

Lemma receive_event_envelope ps e :
  ReceiveEnvelope e ∈ map receive_event ps → PoppedEnvelope e ∈ ps.
Proof.
  intros (p & Hp & Hin)%list_elem_of_In%in_map_iff. apply list_elem_of_In in Hin.
  destruct p; [done|]. by injection Hp as <-.
Qed.

Lemma receive_chunk_received max now buffer chunk events buffer' go e :
  receive_chunk max now buffer chunk = Some (events, buffer', go) →
  ReceiveEnvelope e ∈ events → received e.
Proof.
  unfold receive_chunk. destruct (_ >? _).
  - destruct (recover_receive_overflow _ _ _) as [[[] buf]|]; cbn [mbind option_bind]; [| |done].
    + destruct (drain _ _ _ buf) as [[ps buf']|] eqn:Ed; [|done]. cbn [mbind option_bind].
      intros [= <- _ _] [?|Hin]%elem_of_cons; [done|].
      eapply drain_received; [exact Ed|]. by apply receive_event_envelope.
    + intros [= <- _ _] Hin%list_elem_of_singleton. done.
  - destruct (drain _ _ _ _) as [[ps buf']|] eqn:Ed; [|done]. cbn [mbind option_bind].
    intros [= <- _ _] Hin. eapply drain_received; [exact Ed|]. by apply receive_event_envelope.
Qed.

Lemma sections_dispatch now ms peer events impl :
  (∀ e, ReceiveEnvelope e ∈ events → received e) →
  sections now impl (foldl (receive_dispatch (mkClock ms now) peer) impl events).
Proof.
  revert impl. induction events as [|ev events IH]; intros impl Hr; [reflexivity|].
  cbn [foldl]. eapply sections_trans.
  2: { apply IH. intros e Hin. apply Hr. by apply list_elem_of_further. }
  destruct ev; cbn [receive_dispatch]; try (apply sections_once; constructor).
  apply sections_envelope, Hr, list_elem_of_here.
Qed.

Lemma sections_receive now ms connection chunk impl r :
  runtime_receive (mkClock ms now) connection chunk impl = Some r → sections now impl r.2.
Proof.
  unfold runtime_receive. destruct (im_heap impl !! connection) as [c|] eqn:Hc; [|done].
  cbn [runtime_now_ms]. destruct (receive_chunk _ _ _ _) as [[[events buffer] go]|] eqn:E; [|done].
  intros [= <-]. cbn [snd]. eapply rtc_l; [by eapply sec_receive|].
  apply sections_dispatch. intros e. by eapply receive_chunk_received.
Qed.

Lemma sections_write_thread now env connection impl r :
  runtime_send env connection impl = Some r → sections now impl r.2.
Proof.
  unfold runtime_send. destruct (im_heap impl !! connection) as [c|] eqn:Hc; [|done].
  destruct (negb _); [intros [= <-]; reflexivity|].
  destruct (take_next_frame (rc_send c)) as [[frame s]|] eqn:E; [|intros [= <-]; reflexivity].
  assert (Hs : section now impl
    (set_heap (<[connection := with_send s c]> (im_heap impl)) impl)) by by eapply sec_dequeue.
  destruct (send_frame env frame) as [[[] wire]|]; [..|done]; intros [= <-]; cbn [snd].
  1,2: by apply sections_once.
  eapply rtc_l; [exact Hs|]. eapply rtc_l; [apply sec_emit|]. apply sections_once, sec_stop.
Qed.

(** Each of these operations, run by itself, is a sequence of the sections that [reachable]
    interleaves. *)
Lemma operation_sections ms now op impl impl' :
  run_operation (mkClock ms now) op impl = Some impl' → sections now impl impl'.
Proof.
  destruct op; cbn [run_operation]; try (intros [= <-]).
  - unfold open_session. destruct (im_connections impl !! peer); [|reflexivity]. cbn [snd].
    eapply rtc_l; [apply sec_session_id|].
    eapply rtc_l; [apply (sec_open _ _ peer (fetch_session_id impl).1)|].
    repeat (eapply sections_trans; [|apply sections_send_session]). reflexivity.
  - apply sections_send.
  - eapply rtc_l; [apply sec_message_id|]. apply sections_send.
  - unfold set_entities. destruct (existsb _ _); [reflexivity|]. apply sections_once, sec_entities.
  - apply sections_once, sec_subscribe.
  - apply sections_once, sec_unsubscribe.
  - apply sections_once, sec_revoke.
  - apply sections_connect.
  - pose proof (sections_bind_lane now make_address (mkClock ms now) dial peer session_id impl)
      as Hb.
    destruct (bind_lossy_lane_start _ _ _ _ _ _); [apply Hb|intros [= <-]; exact Hb].
  - apply sections_close_peer_fuel.
  - apply sections_close_peer_fuel.
  - unfold stop. destruct (negb _); [reflexivity|].
    eapply rtc_l; [apply sec_not_running|]. eapply rtc_l; [apply sec_clear|].
    apply sections_stop_all.
  - unfold accept. apply sections_emit, sections_once, sec_connect.
  - apply sections_once, sec_reap.
  - unfold accept_pass. destruct (negb _); [done|].
    destruct accepted as [| |ip port]; intros [= <-];
      (eapply rtc_l; [apply sec_reap|]); [reflexivity..|].
    unfold accept. apply sections_emit, sections_once, sec_connect.
  - intros (r & Hr & ->)%fmap_Some. by eapply sections_receive.
  - unfold receive_exit. destruct (im_heap impl !! connection); [|reflexivity].
    eapply rtc_l; [apply (sec_stop _ _ connection)|].
    apply sections_emit, sections_drop_peer_state.
  - intros (r & Hr & ->)%fmap_Some. by eapply sections_write_thread.
Qed.

(** ** Reachable states *)

(** A runtime started with [config], at time [now]: sections of any threads have
    followed one another while time went on. *)
Inductive reachable (config : RuntimeConfig) : Z → Impl → Prop :=
  | reach_start now : reachable config now (started config)
  | reach_section now now' impl impl' :
    reachable config now impl → now <= now' → section now' impl impl' →
    reachable config now' impl'.

(** A whole operation leads from a reachable state to a reachable state. *)
Lemma reachable_sections config now now' impl impl' :
  reachable config now impl → now <= now' → sections now' impl impl' →
  impl = impl' ∨ reachable config now' impl'.
Proof.
  intros Hr Hle Hs. revert now Hr Hle. induction Hs as [|impl1 impl2 impl3 H12 H23 IH];
    intros now Hr Hle; [by left|].
  right. assert (Hr2 : reachable config now' impl2) by by eapply reach_section.
  destruct (IH now' Hr2 ltac:(lia)) as [<-|]; done.
Qed.

(** ** The invariant *)

(** A negotiated profile is one this side offers, no newer than offered. *)
Definition profile_ok (profiles : list ProfileDescriptor) (id : string)
    (p : ProfileDescriptor) : Prop :=
  ∃ l, l ∈ profiles ∧ pd_profile_id l = id ∧ pd_profile_id p = id
  ∧ pd_major p = pd_major l ∧ pd_minor p <= pd_minor l.

(** A session in the table under [key]. *)
Record session_ok (profiles : list ProfileDescriptor) (key : string * Z)
    (s : SessionInfo) : Prop := {
  so_peer : si_peer_id s = key.1;
  so_id : si_session_id s = key.2;
  so_remote : si_remote_endpoint_uid s = EmptyString
              ∨ valid_uid (si_remote_endpoint_uid s) = true;
  so_active : si_state s = kActive →
              si_authenticated s = true ∧ valid_uid (si_remote_endpoint_uid s) = true;
  so_profiles id p : si_negotiated_profiles s !! id = Some p → profile_ok profiles id p;
}.

(** What an update of the table needs to keep of one session: everything but the
    session's state of authentication and its profiles. *)
Lemma session_operation_ok config envelope key s :
  session_ok (cfg_profiles config) key s → valid_uid (si_remote_endpoint_uid s) = true →
  session_ok (cfg_profiles config) key (su_session (session_operation config envelope s)).
Proof.
  intros [Hp Hi Hr Ha Hn] Hv. unfold session_operation.
  destruct (_ =? SessionOperation.kHello).
  { destruct (match _ with Some _ => _ | None => _ end); cbn; by split. }
  destruct (_ =? SessionOperation.kAuthenticate).
  { destruct (bool_decide _); cbn; by split. }
  destruct (_ =? SessionOperation.kProfiles).
  { destruct (decode_profile_list _) as [remotes|]; [|by split].
    assert (Hneg : ∀ id p, (negotiate_profiles (cfg_profiles config) remotes).1 !! id = Some p →
      profile_ok (cfg_profiles config) id p).
    { intros id p Hid. destruct (negotiate_profiles_spec (cfg_profiles config) remotes) as [Hs _].
      destruct (Hs id p Hid) as (l & r & Hl & _ & Hlid & Hrid & -> & Hne).
      destruct (negotiate_profile_spec l r) as [Hno|(_ & Hmaj & Hpid & Hpmaj & Hmin & _)].
      { by rewrite Hno in Hne. }
      exists l. rewrite Hmin. split_and!; try done; try congruence. lia. }
    case_bool_decide as Hinv; cbn in *; split; cbn; try done; auto. }
  destruct (_ =? SessionOperation.kReady); [|by split].
  destruct (decide (si_state s = kNegotiated)) as [Hst|Hst].
  { rewrite bool_decide_true by done. split; cbn; try done; auto. }
  rewrite bool_decide_false by done.
  destruct (decide (si_state s = kActive)) as [Hac|Hac].
  { rewrite bool_decide_true by done. by split. }
  rewrite bool_decide_false by done. by split.
Qed.

Lemma received_source envelope :
  received envelope → valid_uid (src_endpoint_uid (env_source envelope)) = true.
Proof.
  intros [He _]. unfold encodable, envelope_acceptable in He. by bool_hyps.
Qed.

Lemma session_update_ok config envelope peer s :
  received envelope →
  (s = default_SessionInfo
   ∨ session_ok (cfg_profiles config) (peer, env_session_id envelope) s) →
  session_ok (cfg_profiles config) (peer, env_session_id envelope)
    (su_session (session_update config peer envelope s)).
Proof.
  intros Hrec%received_source Hs. unfold session_update.
  assert (Hid : ∀ remote, valid_uid remote = true →
    session_ok (cfg_profiles config) (peer, env_session_id envelope)
      (with_identity (env_session_id envelope) peer remote s)).
  { intros remote Hrem. destruct Hs as [->|[Hp Hi Hr Ha Hn]].
    - split; [done|done|by right|done|]. intros id p Hid.
      by apply (lookup_empty_Some (M := stdmap string) id p) in Hid.
    - split; [done|done|by right| |done]. intros Hst. by destruct (Ha Hst). }
  destruct (decide (si_remote_endpoint_uid s = EmptyString)) as [He|He].
  { rewrite bool_decide_true by done. apply session_operation_ok; [by apply Hid|done]. }
  rewrite bool_decide_false by done. cbv zeta.
  assert (Hv : valid_uid (si_remote_endpoint_uid s) = true).
  { destruct Hs as [->|[_ _ [?|?] _ _]]; done. }
  specialize (Hid _ Hv).
  destruct (bool_decide _); cbn [su_session].
  - by apply session_operation_ok.
  - destruct Hid. by split.
Qed.

(** The sessions and the leases of a reachable state. *)
Definition sessions_ok (profiles : list ProfileDescriptor) (impl : Impl) : Prop :=
  ∀ key s, im_sessions impl !! key = Some s → session_ok profiles key s.

Definition leases_ok (now : Z) (impl : Impl) : Prop :=
  ∀ key lease, im_authority_leases impl !! key = Some lease →
    al_expires_at lease <= now + milliseconds kMaximumAuthorityLeaseMs.

Record runtime_ok (config : RuntimeConfig) (now : Z) (impl : Impl) : Prop := {
  ro_profiles : cfg_profiles (im_config impl) = cfg_profiles config;
  ro_max : cfg_max_buffer_bytes_per_peer (im_config impl)
           = cfg_max_buffer_bytes_per_peer config;
  ro_connections : connections_ok impl;
  ro_sessions : sessions_ok (cfg_profiles config) impl;
  ro_leases : leases_ok now impl;
}.

Lemma session_ok_lossy profiles key lossy s :
  session_ok profiles key s → session_ok profiles key (with_lossy_peer_id lossy s).
Proof. intros []. by split. Qed.

(** *** Connections *)
Lemma connections_ok_ext impl impl' :
  connections_ok impl → im_heap impl' = im_heap impl →
  im_connections impl' ⊆ im_connections impl →
  cfg_max_buffer_bytes_per_peer (im_config impl')
  = cfg_max_buffer_bytes_per_peer (im_config impl) →
  connections_ok impl'.
Proof.
  intros [Hf Hs] Hh Hc Hm. split; rewrite Hh.
  - intros id h Hid. apply Hf. by eapply lookup_weaken.
  - rewrite Hm. exact Hs.
Qed.

Lemma connections_ok_update impl connection c c' :
  connections_ok impl → im_heap impl !! connection = Some c →
  peer_id (rc_peer c') = peer_id (rc_peer c) → send_wf (rc_send c') →
  max_queued_bytes (rc_send c') = max_queued_bytes (rc_send c) →
  connections_ok (set_heap (<[connection := c']> (im_heap impl)) impl).
Proof.
  intros [Hf Hs] Hc Hp Hw Hm. split; cbn.
  - intros id h Hid. destruct (Hf id h Hid) as (ch & Hch & Hpid).
    destruct (decide (connection = h)) as [<-|Hne].
    + exists c'. rewrite lookup_insert_eq. split; [done|]. congruence.
    + exists ch. by rewrite lookup_insert_ne.
  - intros h ch [[<- <-]|[_ Hch]]%lookup_insert_Some; [|by apply (Hs h)].
    split; [done|]. rewrite Hm. by apply (Hs connection).
Qed.

Lemma connections_ok_add peer impl :
  connections_ok impl → 0 <= cfg_max_buffer_bytes_per_peer (im_config impl) < 2 ^ 62 →
  connections_ok (add_connection peer impl).2.
Proof.
  intros [Hf Hs] Hmax. unfold add_connection. cbn.
  set (h := fresh (dom (im_heap impl))).
  assert (Hh : im_heap impl !! h = None).
  { apply not_elem_of_dom. apply is_fresh. }
  split; cbn.
  - intros id k [[<- <-]|[Hne Hid]]%lookup_insert_Some.
    + eexists. by rewrite lookup_insert_eq.
    + destruct (Hf id k Hid) as (c & Hc & Hp). exists c.
      rewrite lookup_insert_ne; [done|]. congruence.
  - intros k c [[<- <-]|[_ Hc]]%lookup_insert_Some; [|by apply (Hs k)].
    split; [|done]. by apply empty_wf.
Qed.

Lemma connections_ok_enqueue connection bytes qos key impl :
  connections_ok impl → connections_ok (connection_enqueue connection bytes qos key impl).2.
Proof.
  intros Hok. destruct (im_heap impl !! connection) as [c|] eqn:Hc.
  - destruct (connection_enqueue_spec connection c bytes qos key impl Hc
      (proj1 (co_send _ Hok _ _ Hc))) as (c' & s & Hc' & Hw & Henq & _ & _ & ->).
    eapply connections_ok_update; try done. apply (enq_max _ _ _ _ _ _ Henq).
  - unfold connection_enqueue. by rewrite Hc.
Qed.

Lemma connections_ok_stop connection impl :
  connections_ok impl → connections_ok (stop_connection connection impl).
Proof.
  intros Hok. unfold stop_connection.
  destruct (im_heap impl !! connection) as [c|] eqn:Hc; [|done].
  eapply connections_ok_update; try done. exact (proj1 (co_send _ Hok _ _ Hc)).
Qed.

(** *** Sessions *)

Section sessions.
Context (profiles : list ProfileDescriptor).

Lemma sessions_ok_ext impl impl' :
  sessions_ok profiles impl → im_sessions impl' = im_sessions impl →
  sessions_ok profiles impl'.
Proof. intros Hs He key s. rewrite He. apply Hs. Qed.

Lemma sessions_ok_insert impl key s :
  sessions_ok profiles impl → session_ok profiles key s →
  sessions_ok profiles (set_sessions (<[key := s]> (im_sessions impl)) impl).
Proof. intros Hs Hk k s'. cbn. intros [[<- <-]|[_ ?]]%lookup_insert_Some; auto. Qed.

Lemma sessions_ok_open impl peer session_id :
  sessions_ok profiles impl → sessions_ok profiles (open_section peer session_id impl).
Proof.
  intros Hs. apply sessions_ok_insert; [done|]. split; [done|done|by left|done|].
  intros id p Hid. by apply (lookup_empty_Some (M := stdmap string) id p) in Hid.
Qed.

Lemma sessions_ok_lane_bind impl peer envelope :
  sessions_ok profiles impl → sessions_ok profiles (lane_bind_section peer envelope impl).2.
Proof.
  intros Hs. unfold lane_bind_section. destruct (im_connections impl !! _); [|done].
  destruct (list_find _ _) as [[i [key session]]|] eqn:Ef; [|done].
  apply list_find_Some in Ef as (Hi & _ & _).
  apply list_elem_of_lookup_2, elem_of_map_to_list in Hi.
  apply sessions_ok_insert; [done|]. by apply session_ok_lossy, Hs.
Qed.

Lemma sessions_ok_lane_ready impl peer envelope :
  sessions_ok profiles impl → sessions_ok profiles (handle_lane_ready peer envelope impl).2.
Proof.
  intros Hs. unfold handle_lane_ready. destruct (im_lane_owner impl !! _) as [owner|]; [|done].
  destruct (negb _); [done|]. destruct (im_sessions impl !! _) as [s|] eqn:E; [|done].
  destruct (negb _); [done|]. apply sessions_ok_insert; [done|]. by apply session_ok_lossy, Hs.
Qed.

Lemma sessions_ok_drop_lane impl peer lane :
  sessions_ok profiles impl → sessions_ok profiles (drop_lane_section peer lane impl).
Proof.
  intros Hs. unfold drop_lane_section. destruct (im_sessions impl !! lane) as [s|] eqn:E; [|done].
  destruct (bool_decide _); [|done].
  eapply sessions_ok_ext; [|reflexivity]. apply sessions_ok_insert; [done|].
  by apply session_ok_lossy, Hs.
Qed.

Lemma sessions_ok_close impl peer :
  sessions_ok profiles impl → sessions_ok profiles (close_peer_section peer impl).2.
Proof.
  intros Hs. unfold close_peer_section. destruct (im_connections impl !! peer); [|done].
  cbv zeta. cbn [snd].
  match goal with |- context [im_lane_owner ?i !! peer] => set (impl1 := i) end.
  assert (H1 : sessions_ok profiles impl1).
  { intros key s. cbn. rewrite map_lookup_imap. intros (s' & Hs' & [= <-])%bind_Some.
    destruct (bool_decide _); [apply session_ok_lossy|]; by apply Hs. }
  assert (H2 : sessions_ok profiles
    match im_lane_owner impl1 !! peer with
    | Some lane => drop_lane_section peer lane impl1
    | None => impl1
    end).
  { destruct (im_lane_owner impl1 !! peer); [by apply sessions_ok_drop_lane|done]. }
  destruct (bool_decide _); [exact H2|]. eapply sessions_ok_ext; [exact H2|reflexivity].
Qed.

Lemma sessions_ok_filter impl (P : (string * Z) * SessionInfo → Prop)
    `{!∀ x, Decision (P x)} :
  sessions_ok profiles impl →
  sessions_ok profiles (set_sessions (filter P (im_sessions impl)) impl).
Proof. intros Hs key s [? _]%map_lookup_filter_Some. by apply Hs. Qed.
End sessions.

(** *** Leases *)
Lemma leases_ok_subset now impl impl' :
  leases_ok now impl →
  (∀ key lease, im_authority_leases impl' !! key = Some lease →
     im_authority_leases impl !! key = Some lease) →
  leases_ok now impl'.
Proof. intros Hl Hsub key lease Hk. eapply Hl, Hsub, Hk. Qed.

Lemma leases_ok_time now now' impl : leases_ok now impl → now <= now' → leases_ok now' impl.
Proof. intros Hl Hle key lease Hk. specialize (Hl key lease Hk). lia. Qed.

Lemma leases_ok_authority earlier now peer envelope request uid impl :
  earlier <= now → leases_ok now impl → authority_request envelope = Some (request, uid) →
  leases_ok now (set_authority_leases
    (authority_update earlier peer (env_session_id envelope) (env_operation envelope)
       (uid, ar_authority_scope request) request (im_authority_leases impl)).2 impl).
Proof.
  intros Hle Hl Hr key lease. cbn. intros [Hk| ->]%authority_update_expiry; [by eapply Hl|].
  unfold authority_request in Hr. destruct (CoreMessages.decode _); [|done].
  destruct (single_entity _); [|done]. destruct (_ || _) eqn:E; [done|].
  injection Hr as -> ->. rewrite !orb_false_iff, Z.gtb_ltb, Z.ltb_ge in E.
  destruct E as [_ E]. unfold milliseconds. lia.
Qed.

(** *** Every section keeps the invariant *)

(** The fields a section leaves alone, by cases on what it looks up. *)
Ltac untouched :=
  unfold runtime_emit, fetch_message_id, fetch_session_id, connection_enqueue,
    stop_connection, add_connection, add_lane, reap_closed_connections, session_section,
    open_section, lane_bind_section, handle_lane_ready, runtime_revoke_authority,
    set_entities_section, close_peer_section, drop_control_section, drop_lane_section,
    subscribe, unsubscribe;
  cbv zeta; repeat case_match; try reflexivity.

(** A section that leaves connections, sessions and leases alone, one by one. *)
Ltac same_connections :=
  let H := fresh in intros H; eapply connections_ok_ext; [exact H|untouched..].
Ltac same_sessions :=
  let H := fresh in intros H; eapply sessions_ok_ext; [exact H|untouched].
Ltac same_leases :=
  let H := fresh in
  intros H; eapply leases_ok_subset; [exact H|]; intros ? ? <-; symmetry; untouched.

Lemma section_heap_ok config now impl impl' :
  runtime_ok config now impl →
  0 <= cfg_max_buffer_bytes_per_peer (im_config impl) < 2 ^ 62 →
  section now impl impl' → connections_ok impl'.
Proof.
  intros Hok Hmax Hsec. pose proof (ro_connections _ _ _ Hok) as Hc.
  destruct Hsec; try (revert Hc; same_connections; fail).
  - by apply connections_ok_enqueue.
  - pose proof (take_next_spec (rc_send c) (proj1 (co_send _ Hc _ _ H))) as Ht.
    rewrite H0 in Ht. destruct Ht as (Hw & Hm & _). by eapply connections_ok_update.
  - eapply connections_ok_update; try done. exact (proj1 (co_send _ Hc _ _ H)).
  - by apply connections_ok_stop.
  - by apply connections_ok_add.
  - eapply connections_ok_ext; [by apply (connections_ok_add
      (mkPeer (lane_peer_id peer) ip port) impl)|reflexivity..].
  - eapply connections_ok_ext; [done|done|apply delete_subseteq|done].
  - eapply connections_ok_ext; [done|done|apply map_filter_subseteq|done].
  - eapply connections_ok_ext; [done|untouched| |untouched].
    rewrite close_peer_section_connections. apply delete_subseteq.
  - eapply connections_ok_ext; [done|done|apply map_empty_subseteq|done].
Qed.

Lemma section_sessions_ok config now impl impl' :
  runtime_ok config now impl → section now impl impl' →
  sessions_ok (cfg_profiles config) impl'.
Proof.
  intros Hok Hsec. pose proof (ro_sessions _ _ _ Hok) as Hs.
  destruct Hsec; try (revert Hs; same_sessions; fail).
  - apply sessions_ok_insert; [done|]. rewrite <- (ro_profiles _ _ _ Hok).
    apply session_update_ok; [done|].
    destruct (im_sessions impl !! _) as [s|] eqn:E; [right|by left].
    rewrite (ro_profiles _ _ _ Hok). by apply Hs.
  - by apply sessions_ok_open.
  - by apply sessions_ok_lane_bind.
  - by apply sessions_ok_lane_ready.
  - by apply sessions_ok_close.
  - eapply sessions_ok_ext; [|reflexivity]. by apply (sessions_ok_filter _
      (set_lane_owner _ impl)).
  - by apply sessions_ok_drop_lane.
  - intros key s. cbn. by rewrite lookup_empty.
Qed.

Lemma section_leases_ok config now impl impl' :
  runtime_ok config now impl → section now impl impl' → leases_ok now impl'.
Proof.
  intros Hok Hsec. pose proof (ro_leases _ _ _ Hok) as Hl.
  destruct Hsec; try (revert Hl; same_leases; fail).
  - by apply leases_ok_authority.
  - eapply leases_ok_subset; [done|]. by intros key lease [? _]%map_lookup_filter_Some.
  - eapply leases_ok_subset; [done|]. by intros key lease [? _]%map_lookup_filter_Some.
  - eapply leases_ok_subset; [done|]. by intros key lease [? _]%map_lookup_filter_Some.
  - intros key lease. cbn. by rewrite lookup_empty.
Qed.

Lemma section_config now impl impl' :
  section now impl impl' →
  cfg_profiles (im_config impl') = cfg_profiles (im_config impl)
  ∧ cfg_max_buffer_bytes_per_peer (im_config impl')
    = cfg_max_buffer_bytes_per_peer (im_config impl).
Proof. destruct 1; split; untouched. Qed.

Lemma runtime_ok_time config now now' impl :
  runtime_ok config now impl → now <= now' → runtime_ok config now' impl.
Proof. intros [] Hle. split; try done. by eapply leases_ok_time. Qed.

Lemma section_ok config now impl impl' :
  0 <= cfg_max_buffer_bytes_per_peer config < 2 ^ 62 →
  runtime_ok config now impl → section now impl impl' → runtime_ok config now impl'.
Proof.
  intros Hmax Hok Hsec. pose proof (section_config _ _ _ Hsec) as [Hp Hm].
  assert (Hmax' : 0 <= cfg_max_buffer_bytes_per_peer (im_config impl) < 2 ^ 62).
  { by rewrite (ro_max _ _ _ Hok). }
  split.
  - rewrite Hp. apply (ro_profiles _ _ _ Hok).
  - rewrite Hm. apply (ro_max _ _ _ Hok).
  - by eapply section_heap_ok.
  - by eapply section_sessions_ok.
  - by eapply section_leases_ok.
Qed.

Lemma started_ok config now : runtime_ok config now (started config).
Proof.
  by split.
Qed.

Lemma reachable_ok config now impl :
  0 <= cfg_max_buffer_bytes_per_peer config < 2 ^ 62 →
  reachable config now impl → runtime_ok config now impl.
Proof.
  intros Hmax. induction 1 as [now|now now' impl impl' _ IH Hle Hsec]; [apply started_ok|].
  eapply section_ok; [done| |done]. by eapply runtime_ok_time.
Qed.

(** ** Properties *)

(** C7 However its threads interleave, a runtime's session table stays sound: every
    session is filed under its own peer and id; an active one has passed
    authentication as the code records it and is bound to a valid endpoint; and every
    negotiated profile is one this side configured, no newer than configured. *)
Theorem reachable_sessions config now impl key s :
  0 <= cfg_max_buffer_bytes_per_peer config < 2 ^ 62 →
  reachable config now impl → im_sessions impl !! key = Some s →
  (si_peer_id s, si_session_id s) = key
  ∧ (si_state s = kActive →
       si_authenticated s = true ∧ valid_uid (si_remote_endpoint_uid s) = true)
  ∧ (∀ id p, si_negotiated_profiles s !! id = Some p →
       profile_ok (cfg_profiles config) id p).
Proof.
  intros Hmax Hr Hs. destruct (ro_sessions _ _ _ (reachable_ok _ _ _ Hmax Hr) key s Hs).
  split_and!; try done. destruct key. cbn in *. congruence.
Qed.

(** C21 No authority outlives its holder by more than an hour: in every reachable state
    each lease expires at most [kMaximumAuthorityLeaseMs] from now, so an hour without
    a renewal leaves nobody in control. *)
Theorem reachable_leases config now impl key lease later peer session_id clock_ms :
  0 <= cfg_max_buffer_bytes_per_peer config < 2 ^ 62 →
  reachable config now impl → im_authority_leases impl !! key = Some lease →
  al_expires_at lease <= now + milliseconds kMaximumAuthorityLeaseMs
  ∧ (now + milliseconds kMaximumAuthorityLeaseMs <= later →
     has_authority (mkClock clock_ms later) peer session_id key.1 key.2 impl = false).
Proof.
  intros Hmax Hr Hl. pose proof (ro_leases _ _ _ (reachable_ok _ _ _ Hmax Hr) key lease Hl) as He.
  split; [done|]. intros Hlater. unfold has_authority, holds_lease.
  destruct key. cbn [fst snd runtime_steady_now]. rewrite Hl.
  destruct (Z.ltb_spec later (al_expires_at lease)); [lia|done].
Qed.

(** C22 However its threads interleave, the connection table and the queues stay
    consistent: every filed connection is an object of the peer it is filed under, and
    the bytes queued for any connection never exceed the configured bound, the share
    reserved for control frames included. *)
Theorem reachable_connections config now impl :
  0 <= cfg_max_buffer_bytes_per_peer config < 2 ^ 62 →
  reachable config now impl →
  (∀ id connection, im_connections impl !! id = Some connection →
     ∃ c, im_heap impl !! connection = Some c ∧ peer_id (rc_peer c) = id)
  ∧ (∀ connection c, im_heap impl !! connection = Some c →
       send_wf (rc_send c)
       ∧ queued_bytes (rc_send c) <= cfg_max_buffer_bytes_per_peer config).
Proof.
  intros Hmax Hr. destruct (reachable_ok _ _ _ Hmax Hr) as [_ Hm [Hf Hs] _ _]. split; [done|].
  intros h c Hc. destruct (Hs h c Hc) as [Hw Hq]. split; [done|].
  rewrite <- Hm, <- Hq. apply (wf_bound _ Hw).
Qed.

(** *** Witnesses *)

(** A run: a peer connects, its session messages arrive, it claims an authority. *)
Definition claim_envelope : Envelope :=
  publish_envelope (mkClock 1 1) "uav-1" 9 3 FamilyAuthority AuthorityOperation.kClaim
    (target_entity "uav-1") (mkTypeRef "yunlink.core" 2 0 "authority.request")
    (CoreMessages.encode (mkAuthorityRequest "flight" 2000 false)) 0 0 kReliableOrdered
    EmptyString.

Definition profiles_envelope : Envelope :=
  session_envelope (mkClock 1 1) "uav-1" 7 3 SessionOperation.kProfiles "session.profiles"
    (encode_profile_list uav_profiles) 0.

Definition connected : Impl := (add_connection uav_peer (started ground_config)).2.
Definition with_session : Impl := session_section (peer_id uav_peer) profiles_envelope connected.
Definition with_lease : Impl :=
  set_authority_leases
    (authority_update 7 (peer_id uav_peer) 3 AuthorityOperation.kClaim
       ("uav-1", "flight") (mkAuthorityRequest "flight" 2000 false)
       (im_authority_leases with_session)).2 with_session.

Lemma with_lease_reachable : reachable ground_config 7 with_lease.
Proof.
  apply (reach_section _ 5 7 with_session); [|lia|].
  - apply (reach_section _ 5 5 connected); [|lia|].
    + apply (reach_section _ 5 5 (started ground_config)); [constructor|lia|constructor].
    + apply sec_session. split; vm_compute; reflexivity.
  - apply (sec_authority 7 with_session 7 (peer_id uav_peer) claim_envelope
      (mkAuthorityRequest "flight" 2000 false) "uav-1"); [lia|]. vm_compute. reflexivity.
Qed.

Lemma reachable_sessions_witness :
  let key := ("tcp://10.0.0.2:40001", 3) in
  let s := su_session (session_update ground_config (peer_id uav_peer) profiles_envelope
             default_SessionInfo) in
  (si_peer_id s, si_session_id s) = key
  ∧ (si_state s = kActive →
       si_authenticated s = true ∧ valid_uid (si_remote_endpoint_uid s) = true)
  ∧ (∀ id p, si_negotiated_profiles s !! id = Some p →
       profile_ok (cfg_profiles ground_config) id p).
Proof.
  intros key s. apply (reachable_sessions ground_config 7 with_lease key s).
  - cbn. lia.
  - exact with_lease_reachable.
  - vm_compute. reflexivity.
Defined.

Lemma reachable_leases_witness :
  let lease := mkAuthorityLease "tcp://10.0.0.2:40001" 3 (7 + milliseconds 2000) in
  al_expires_at lease <= 7 + milliseconds kMaximumAuthorityLeaseMs
  ∧ (7 + milliseconds kMaximumAuthorityLeaseMs <= 7 + milliseconds kMaximumAuthorityLeaseMs →
     has_authority (mkClock 1 (7 + milliseconds kMaximumAuthorityLeaseMs))
       "tcp://10.0.0.2:40001" 3 "uav-1" "flight" with_lease = false).
Proof.
  intros lease. apply (reachable_leases ground_config 7 with_lease ("uav-1", "flight") lease).
  - cbn. lia.
  - exact with_lease_reachable.
  - vm_compute. reflexivity.
Defined.

Lemma reachable_connections_witness :
  (∀ id connection, im_connections with_lease !! id = Some connection →
     ∃ c, im_heap with_lease !! connection = Some c ∧ peer_id (rc_peer c) = id)
  ∧ (∀ connection c, im_heap with_lease !! connection = Some c →
       send_wf (rc_send c)
       ∧ queued_bytes (rc_send c) <= cfg_max_buffer_bytes_per_peer ground_config).
Proof.
  apply (reachable_connections ground_config 7 with_lease).
  - cbn. lia.
  - exact with_lease_reachable.
Defined.

