(* ===== verification/Capi.v ===== *)
(** * Capi: the C interface of the runtime

    [src/c/v2/runtime.cpp], with the structures of [yunlink/c/yunlink_v2.h].  A pointer
    is an [option]: [None] is the null pointer, and [Some] holds what can be read
    behind it, so a [StringView] is the readable bytes together with the length the
    caller claims.  A runtime pointer is an [option Impl].  A function returns its
    result code, what it stores through its out pointers ([None] when such a pointer
    is null) and the runtime.  [yunlink_v2_runtime_t] holds nothing but the runtime.

    A function that is given views is [None] when it reads past the end of what is
    behind one of them, which is undefined behaviour in C++: nothing in the interface
    checks a length against the data. *)

From Stdlib Require Import ZArith Lia String Ascii Strings.Byte.
From stdpp Require Import base gmap strings list fin_maps pretty relations.
From S2P Require Import Prelude StdMap Codec WireTypes WireCodec CoreMessages RuntimeCommon Authority Session Runtime Concurrency.
Local Open Scope string_scope.
Local Open Scope list_scope.
Local Open Scope Z_scope.

(** ** Structures of yunlink_v2.h *)

Record StringView := mkStringView { sv_data : option string; sv_len : Z }.
Record BytesView := mkBytesView { bv_data : option Bytes; bv_len : Z }.

Record ProfileView := mkProfileView {
  pv_profile_id : StringView;
  pv_major : Z;
  pv_minor : Z;
  pv_schema_digest : StringView;
}.

Record TypeRefView := mkTypeRefView {
  tv_profile_id : StringView;
  tv_major : Z;
  tv_minor : Z;
  tv_type_name : StringView;
}.

Record CConfig := mkCConfig {
  cc_struct_size : Z;
  cc_endpoint_uid : StringView;
  cc_display_name : StringView;
  cc_shared_secret : StringView;
  cc_tcp_listen_port : Z;
  cc_profiles : option (list ProfileView);
  cc_profile_count : Z;
  cc_required_profiles : option (list ProfileView);
  cc_required_profile_count : Z;
}.

(** [yunlink_v2_peer]: two arrays of [char], of 256 and 64 elements. *)
Record CPeer := mkCPeer { cp_id : Bytes; cp_ip : Bytes; cp_port : Z }.
Definition kPeerIdSize : Z := 256.
Definition kPeerIpSize : Z := 64.

Record TargetView := mkTargetView {
  tgv_scope : Z;
  tgv_uids : option (list StringView);
  tgv_uid_count : Z;
}.

Record CEvent := mkCEvent {
  ce_kind : Z;
  ce_peer_id : StringView;
  ce_link_up : Z;
  ce_error_code : Z;
  ce_message : StringView;
  ce_session_state : Z;
  ce_session_authenticated : Z;
  ce_session_id : Z;
  ce_family : Z;
  ce_operation : Z;
  ce_qos_class : Z;
  ce_message_id : Z;
  ce_correlation_id : Z;
  ce_created_at_ms : Z;
  ce_ttl_ms : Z;
  ce_source_endpoint_uid : StringView;
  ce_source_entity_uid : StringView;
  ce_target : TargetView;
  ce_type_ref : TypeRefView;
  ce_payload : BytesView;
}.

Definition YUNLINK_V2_ABI_VERSION : Z := 2.

(** ** The helpers of runtime.cpp *)

Definition is_null {A} (pointer : option A) : bool :=
  match pointer with Some _ => false | None => true end.

(** [*out = value], unless [out] is null. *)
Definition store {A} (out : option A) (value : A) : option A := (λ _, value) <$> out.

(** The [count] elements behind a pointer; [None] when there are fewer. *)
Definition array {A} (values : option (list A)) (count : Z) : option (list A) :=
  if count <=? vsize (default [] values)
  then Some (take (Z.to_nat count) (default [] values)) else None.

Definition copy (value : StringView) : option string :=
  match sv_data value with
  | Some data =>
    if sv_len value =? 0 then Some EmptyString
    else if sv_len value <=? ssize data
    then Some (String.substring 0 (Z.to_nat (sv_len value)) data) else None
  | None => Some EmptyString
  end.

Definition view (value : string) : StringView := mkStringView (Some value) (ssize value).

(** A [bool] as a [uint8_t]. *)
Definition flag (b : bool) : Z := if b then 1 else 0.

Definition result (code : ErrorCode) : Z := ErrorCode_value code.

Definition copy_profile (value : ProfileView) : option ProfileDescriptor :=
  profile_id ← copy (pv_profile_id value);
  schema_digest ← copy (pv_schema_digest value);
  mret (mkProfileDescriptor profile_id (pv_major value) (pv_minor value) schema_digest).

(** The result is [Some None] where the function returns [false]. *)
Definition copy_profiles (values : option (list ProfileView)) (count : Z) :
    option (option (list ProfileDescriptor)) :=
  if xorb (is_null values) (count =? 0) then Some None
  else values ← array values count; Some <$> mapM copy_profile values.

(** As [copy_profiles]. *)
Definition copy_target (value : TargetView) : option (option TargetSelector) :=
  if (tgv_scope value <? 1) || (4 <? tgv_scope value)
     || xorb (is_null (tgv_uids value)) (tgv_uid_count value =? 0)
  then Some None
  else
    views ← array (tgv_uids value) (tgv_uid_count value);
    uids ← mapM copy views;
    mret (Some (mkTargetSelector (TargetScope_cast (tgv_scope value)) uids)).

Definition copy_type (value : TypeRefView) : option TypeRef :=
  profile_id ← copy (tv_profile_id value);
  type_name ← copy (tv_type_name value);
  mret (mkTypeRef profile_id (tv_major value) (tv_minor value) type_name).

(** The array [target] of [size] characters after [copy_fixed]. *)
Definition copy_fixed (size : Z) (target : Bytes) (value : string) : Bytes :=
  let count := Z.to_nat (Z.min (ssize value) (size - 1)) in
  take count (bytes_of value) ++ [x00] ++ drop (S count) target.

(** [std::memcpy] of a string and its terminating NUL to the front of a buffer. *)
Definition copy_text (value : string) (out : Bytes) : Bytes :=
  bytes_of value ++ [x00] ++ drop (S (String.length value)) out.

(** ** The functions of runtime.cpp *)

Definition yunlink_v2_abi_version : Z := YUNLINK_V2_ABI_VERSION.

(** The default member initialisers of [RuntimeConfig]. *)
Definition default_RuntimeConfig : RuntimeConfig :=
  mkRuntimeConfig "yunlink-endpoint" "yunlink-endpoint" [] [] [] [] None
    "yunlink-default-secret" 9696 (16 * 1024 * 1024 + 65536).

Definition yunlink_v2_runtime_create : option Impl :=
  Some (mkImpl default_RuntimeConfig false 1 1 ∅ ∅ ∅ ∅ ∅ 1 ∅ []).

(** The destructor of [Runtime] stops it; [None] is the null pointer. *)
Definition yunlink_v2_runtime_destroy (runtime : option Impl) : option Impl :=
  stop <$> runtime.

(** The configuration [yunlink_v2_runtime_start] fills in; [Some None] when a list of
    profiles contradicts its count. *)
Definition native_config (config : CConfig) : option (option RuntimeConfig) :=
  endpoint_uid ← copy (cc_endpoint_uid config);
  display_name ← copy (cc_display_name config);
  shared_secret ← copy (cc_shared_secret config);
  profiles ← copy_profiles (cc_profiles config) (cc_profile_count config);
  match profiles with
  | None => mret None
  | Some profiles =>
    required ← copy_profiles (cc_required_profiles config) (cc_required_profile_count config);
    mret (required ← required;
      mret (mkRuntimeConfig endpoint_uid display_name [] profiles required [] None
              shared_secret (cc_tcp_listen_port config)
              (cfg_max_buffer_bytes_per_peer default_RuntimeConfig)))
  end.

(** [sizeof_config] is [sizeof(yunlink_v2_runtime_config_t)]. *)
Definition yunlink_v2_runtime_start (sizeof_config : Z) (acceptor : AcceptorErrors)
    (runtime : option Impl) (config : option CConfig) : option (Z * option Impl) :=
  match runtime, config with
  | Some impl, Some config =>
    if cc_struct_size config <? sizeof_config then Some (result kInvalidArgument, runtime)
    else
    native ← native_config config;
    match native with
    | None => Some (result kInvalidArgument, runtime)
    | Some native =>
      let r := start acceptor native impl in Some (result r.1, Some r.2)
    end
  | _, _ => Some (result kInvalidArgument, runtime)
  end.

Definition yunlink_v2_runtime_stop (runtime : option Impl) : option Impl := stop <$> runtime.

(** [port] is the one the acceptor stored. *)
Definition yunlink_v2_runtime_listening_port (port : Z) (runtime : option Impl) : Z :=
  match runtime with None => 0 | Some _ => port end.

Definition entity_of (uid : string) : EntityDescriptor :=
  mkEntityDescriptor uid EmptyString EmptyString EmptyString ∅ [] AvailabilityUnknown.

Definition yunlink_v2_runtime_set_entity_uids (runtime : option Impl)
    (entity_uids : option (list StringView)) (entity_count : Z) : option (Z * option Impl) :=
  match runtime with
  | None => Some (result kInvalidArgument, runtime)
  | Some impl =>
    if xorb (is_null entity_uids) (entity_count =? 0)
    then Some (result kInvalidArgument, runtime)
    else
    views ← array entity_uids entity_count;
    uids ← mapM copy views;
    let r := set_entities (entity_of <$> uids) impl in
    Some (result r.1, Some r.2)
  end.

Section calls.
(** [asio::ip::make_address] accepts the text. *)
Context (make_address : string → bool).

Definition out_peer_of (peer : Peer) : CPeer :=
  mkCPeer (copy_fixed kPeerIdSize (replicate (Z.to_nat kPeerIdSize) x00) (peer_id peer))
    (copy_fixed kPeerIpSize (replicate (Z.to_nat kPeerIpSize) x00) (peer_ip peer))
    (peer_port peer).

Definition yunlink_v2_runtime_connect (dial : Dial) (runtime : option Impl)
    (ip : StringView) (port : Z) (out_peer : option CPeer) :
    option (Z * option CPeer * option Impl) :=
  match runtime with
  | None => Some (result kInvalidArgument, out_peer, runtime)
  | Some impl =>
    ip ← copy ip;
    let r := connect_peer make_address dial ip port impl in
    Some (result r.1.1,
     match r.1.2 with
     | Some peer =>
       if bool_decide (r.1.1 = kOk) then store out_peer (out_peer_of peer) else out_peer
     | None => out_peer
     end,
     Some r.2)
  end.

(** The inner [None] is a [close_peer] that does not return ([close_peer_terminates]). *)
Definition yunlink_v2_runtime_close_peer (runtime : option Impl) (peer_id : StringView) :
    option (option (option Impl)) :=
  match runtime with
  | None => Some (Some None)
  | Some impl => peer_id ← copy peer_id; Some (Some <$> close_peer peer_id impl)
  end.

Definition yunlink_v2_runtime_open_session (clock : Clock) (runtime : option Impl)
    (peer_id : StringView) : option (Z * option Impl) :=
  match runtime with
  | None => Some (0, runtime)
  | Some impl =>
    peer_id ← copy peer_id;
    let r := open_session clock peer_id impl in Some (r.1, Some r.2)
  end.

(** Up to the wait for the peer's answer: [inl] is the result, [inr] the runtime in
    which the call waits. *)
Definition yunlink_v2_runtime_bind_lossy_lane (clock : Clock) (dial : Dial)
    (runtime : option Impl) (peer_id : StringView) (session_id : Z) :
    option ((Z * option (option Impl)) + Impl) :=
  match runtime with
  | None => Some (inl (result kInvalidArgument, Some runtime))
  | Some impl =>
    peer_id ← copy peer_id;
    Some match bind_lossy_lane_start make_address clock dial peer_id session_id impl with
         | inl r => inl (result r.1, Some <$> r.2)
         | inr waiting => inr waiting
         end
  end.

Definition yunlink_v2_runtime_session_has_lossy_lane (runtime : option Impl)
    (peer_id : StringView) (session_id : Z) : option Z :=
  match runtime with
  | None => Some 0
  | Some impl =>
    peer_id ← copy peer_id; Some (flag (session_has_lossy_lane peer_id session_id impl))
  end.

(** [out_uid] is the caller's buffer; the function knows its capacity only. *)
Definition yunlink_v2_runtime_session_endpoint_uid (runtime : option Impl)
    (peer_id : StringView) (session_id : Z) (out_uid : option Bytes)
    (out_uid_capacity : Z) : option (Z * option Bytes) :=
  match runtime, out_uid with
  | Some impl, Some out =>
    if out_uid_capacity =? 0 then Some (result kInvalidArgument, out_uid)
    else
    peer_id ← copy peer_id;
    match session peer_id session_id impl with
    | None => Some (result kNotFound, out_uid)
    | Some info =>
      let uid := si_remote_endpoint_uid info in
      if bool_decide (uid = EmptyString) then Some (result kNotFound, out_uid)
      else if out_uid_capacity <? ssize uid + 1 then Some (result kInvalidArgument, out_uid)
      else Some (result kOk, Some (copy_text uid out))
    end
  | _, _ => Some (result kInvalidArgument, out_uid)
  end.

Definition native_payload (payload : BytesView) : option Bytes :=
  if 0 <? bv_len payload then array (bv_data payload) (bv_len payload) else Some [].

Definition yunlink_v2_runtime_publish (clock : Clock) (runtime : option Impl)
    (peer_id : StringView) (session_id family operation : Z) (target : TargetView)
    (type_ref : TypeRefView) (payload : BytesView) (correlation_id ttl_ms qos_class : Z)
    (source_entity_uid : StringView) (out_handle : option MessageHandle) :
    option (Z * option MessageHandle * option Impl) :=
  match runtime with
  | None => Some (result kInvalidArgument, out_handle, runtime)
  | Some impl =>
    if (is_null (bv_data payload) && negb (bv_len payload =? 0)) || (family <? 1)
       || (9 <? family) || (qos_class <? 1) || (4 <? qos_class)
    then Some (result kInvalidArgument, out_handle, runtime)
    else
    target ← copy_target target;
    match target with
    | None => Some (result kInvalidArgument, out_handle, runtime)
    | Some native_target =>
      native_type ← copy_type type_ref;
      native_payload ← native_payload payload;
      peer_id ← copy peer_id;
      source_entity_uid ← copy source_entity_uid;
      let r := publish clock peer_id session_id (MessageFamily_cast family) operation
                 native_target native_type native_payload correlation_id
                 ttl_ms (QosClass_cast qos_class) source_entity_uid impl in
      Some (result r.1.1,
       match r.1.2 with
       | Some handle => store out_handle handle
       | None => out_handle
       end,
       Some r.2)
    end
  end.

(** ** Events *)

(** Whether [data()] of an empty vector is a null pointer is up to the standard
    library. *)
Context (null_when_empty : bool).

Definition vector_data {A} (values : list A) : option (list A) :=
  if null_when_empty && bool_decide (values = []) then None else Some values.

Definition view_bytes (value : Bytes) : BytesView :=
  mkBytesView (vector_data value) (vsize value).

Definition target_view (value : TargetSelector) : TargetView :=
  mkTargetView (TargetScope_value (ts_scope value)) (vector_data (view <$> ts_uids value))
    (vsize (ts_uids value)).

Definition type_view (value : TypeRef) : TypeRefView :=
  mkTypeRefView (view (tr_profile_id value)) (tr_major value) (tr_minor value)
    (view (tr_type_name value)).

(** What the handler of [yunlink_v2_runtime_subscribe] passes to the callback. *)
Definition event_of (value : RuntimeEvent) : CEvent := {|
  ce_kind := RuntimeEventKind_value (ev_kind value);
  ce_peer_id := view (peer_id (ev_peer value));
  ce_link_up := flag (ev_link_up value);
  ce_error_code := ErrorCode_value (ev_error value);
  ce_message := view (ev_message value);
  ce_session_state := SessionState_value (si_state (ev_session value));
  ce_session_authenticated := flag (si_authenticated (ev_session value));
  ce_session_id := if bool_decide (ev_kind value = EventEnvelope)
                   then env_session_id (ev_envelope value)
                   else si_session_id (ev_session value);
  ce_family := MessageFamily_value (env_family (ev_envelope value));
  ce_operation := env_operation (ev_envelope value);
  ce_qos_class := QosClass_value (env_qos_class (ev_envelope value));
  ce_message_id := env_message_id (ev_envelope value);
  ce_correlation_id := env_correlation_id (ev_envelope value);
  ce_created_at_ms := env_created_at_ms (ev_envelope value);
  ce_ttl_ms := env_ttl_ms (ev_envelope value);
  ce_source_endpoint_uid := view (src_endpoint_uid (env_source (ev_envelope value)));
  ce_source_entity_uid := view (src_entity_uid (env_source (ev_envelope value)));
  ce_target := target_view (env_target (ev_envelope value));
  ce_type_ref := type_view (env_type (ev_envelope value));
  ce_payload := view_bytes (env_payload (ev_envelope value));
|}.

Definition yunlink_v2_runtime_subscribe (callback_null : bool) (runtime : option Impl) :
    Z * option Impl :=
  match runtime with
  | Some impl =>
    if callback_null then (0, runtime)
    else let r := subscribe impl in (r.1, Some r.2)
  | None => (0, runtime)
  end.

(** The events a subscription has been called with, in order. *)
Definition callback_events (token : Z) (impl : Impl) : list CEvent :=
  (λ entry, event_of entry.2) <$> filter (λ entry, token ∈ entry.1) (im_trace impl).

Definition yunlink_v2_runtime_unsubscribe (runtime : option Impl) (token : Z) :
    option Impl := unsubscribe token <$> runtime.

Definition yunlink_v2_runtime_session_has_profile (runtime : option Impl)
    (peer_id : StringView) (session_id : Z) (profile_id : StringView) (major : Z) :
    option Z :=
  match runtime with
  | None => Some 0
  | Some impl =>
    peer_id ← copy peer_id;
    match session peer_id session_id impl with
    | Some info => profile_id ← copy profile_id; Some (flag (has_profile info profile_id major))
    | None => Some 0
    end
  end.

Definition yunlink_v2_runtime_session_supports_profile (runtime : option Impl)
    (peer_id : StringView) (session_id : Z) (profile_id : StringView)
    (major minimum_minor : Z) : option Z :=
  match runtime with
  | None => Some 0
  | Some impl =>
    peer_id ← copy peer_id;
    profile_id ← copy profile_id;
    Some (flag (session_supports_profile peer_id session_id profile_id major minimum_minor impl))
  end.
End calls.

(** ** Copies of views *)
Lemma substring_full (s : string) : String.substring 0 (String.length s) s = s.
Proof. induction s as [|a s IH]; [done|]. simpl. by rewrite IH. Qed.

Lemma substring_append (s rest : string) :
  String.substring 0 (String.length s) (s +:+ rest) = s.
Proof. induction s as [|a s IH]; [by destruct rest|]. simpl. by rewrite IH. Qed.

(** A view is of a text: the text is at the front of its data, and its length is that of
    the text. *)
Definition views (value : StringView) (text : string) : Prop :=
  match sv_data value with
  | Some data => sv_len value = ssize text ∧ ∃ rest, data = text +:+ rest
  | None => text = EmptyString
  end.

Lemma copy_views value text : views value text → copy value = Some text.
Proof.
  unfold views, copy. destruct (sv_data value) as [data|]; [|by intros ->].
  intros [Hl [rest ->]]. rewrite Hl. destruct (Z.eqb_spec (ssize text) 0) as [E|_].
  { by destruct text. }
  rewrite (proj2 (Z.leb_le _ _)).
  - by rewrite Nat2Z.id, substring_append.
  - change (text +:+ rest) with (String.append text rest).
    assert (∀ t r, (String.length t <= String.length (String.append t r))%nat) as Hle.
    { intros t r. induction t; simpl; lia. }
    specialize (Hle text rest). lia.
Qed.

Lemma views_view s : views (view s) s.
Proof.
  split; [done|]. exists EmptyString. change (s = String.append s EmptyString).
  induction s as [|a s IH]; [done|]. exact (f_equal (String a) IH).
Qed.

Lemma copy_view s : copy (view s) = Some s.
Proof. apply copy_views, views_view. Qed.

Arguments copy : simpl never.
Arguments view : simpl never.

Lemma copy_all l (texts : list string) : Forall2 views l texts → mapM copy l = Some texts.
Proof. intros H. apply mapM_Some. eapply Forall2_impl; [exact H|]. apply copy_views. Qed.

Lemma views_all (l : list string) : Forall2 views (view <$> l) l.
Proof. apply Forall2_fmap_l, Forall_Forall2_diag, Forall_forall. intros s _. apply views_view. Qed.

Lemma array_take {A} (l rest : list A) : array (Some (l ++ rest)) (vsize l) = Some l.
Proof.
  unfold array. change (default [] (Some (l ++ rest))) with (l ++ rest). rewrite (proj2 (Z.leb_le _ _)) by (rewrite length_app; lia).
  by rewrite Nat2Z.id, take_app_length.
Qed.

Lemma array_vector_data {A} ne (l : list A) : array (vector_data ne l) (vsize l) = Some l.
Proof.
  unfold vector_data. destruct (ne && bool_decide (l = [])) eqn:E.
  - by apply andb_true_iff in E as [_ ->%bool_decide_eq_true_1].
  - rewrite <- (app_nil_r l) at 1. apply array_take.
Qed.

Lemma copy_type_view t : copy_type (type_view t) = Some t.
Proof. destruct t. unfold copy_type, type_view. cbn. by rewrite !copy_view. Qed.

(** A target survives the round trip, unless it lists nothing and the pointer to its
    empty vector is not null. *)
Lemma copy_target_view ne t :
  copy_target (target_view ne t)
  = Some (if ne || negb (bool_decide (ts_uids t = [])) then Some t else None).
Proof.
  destruct t as [scope uids]. unfold copy_target, target_view. cbn [tgv_scope tgv_uids tgv_uid_count ts_scope ts_uids].
  replace ((TargetScope_value scope <? 1) || (4 <? TargetScope_value scope)) with false
    by by destruct scope.
  rewrite TargetScope_cast_value. destruct uids as [|uid uids].
  - by destruct ne.
  - rewrite orb_true_r. rewrite <- (length_fmap view (uid :: uids)) at 2.
    rewrite array_vector_data. cbn [mbind option_bind].
    rewrite (copy_all _ _ (views_all _)).
    unfold vector_data. rewrite andb_false_r. cbn [is_null xorb].
    by rewrite (proj2 (Z.eqb_neq _ _)) by (simpl; lia).
Qed.

Lemma native_payload_view ne payload :
  native_payload (view_bytes ne payload) = Some payload.
Proof.
  unfold native_payload, view_bytes. cbn [bv_data bv_len]. rewrite array_vector_data.
  by destruct payload.
Qed.

Lemma view_bytes_readable ne payload :
  is_null (bv_data (view_bytes ne payload))
  && negb (bv_len (view_bytes ne payload) =? 0) = false.
Proof.
  unfold view_bytes, vector_data. cbn [bv_data bv_len].
  destruct payload; [apply andb_false_r|by rewrite andb_false_r].
Qed.

(** ** Strings in character arrays *)

Fixpoint until_nul (bs : Bytes) : Bytes :=
  match bs with
  | b :: bs => if bool_decide (b = x00) then [] else b :: until_nul bs
  | [] => []
  end.

(** The C string at the front of an array. *)
Definition c_string (bs : Bytes) : string := string_of (until_nul bs).

Definition nul_free (s : string) : Prop := x00 ∉ bytes_of s.

#[export] Instance nul_free_dec s : Decision (nul_free s).
Proof. unfold nul_free. apply _. Defined.

Lemma until_nul_app bs rest : x00 ∉ bs → until_nul (bs ++ [x00] ++ rest) = bs.
Proof.
  induction bs as [|b bs IH]; [done|]. intros [Hb Hbs]%not_elem_of_cons. simpl.
  rewrite bool_decide_eq_false_2 by congruence. f_equal. by apply IH.
Qed.

Lemma c_string_app s rest : nul_free s → c_string (bytes_of s ++ [x00] ++ rest) = s.
Proof.
  intros Hs. unfold c_string. rewrite until_nul_app by done.
  apply string_of_list_byte_of_string.
Qed.

Lemma bytes_of_append (s t : string) : bytes_of (s +:+ t) = bytes_of s ++ bytes_of t.
Proof.
  unfold String.list_byte_of_string. rewrite <- map_app. f_equal.
  induction s as [|a s IH]; [done|]. simpl. by rewrite IH.
Qed.

Lemma length_append (s t : string) :
  String.length (s +:+ t) = (String.length s + String.length t)%nat.
Proof. by rewrite <- !length_bytes_of, bytes_of_append, length_app. Qed.

Lemma nul_free_append s t : nul_free s → nul_free t → nul_free (s +:+ t).
Proof. unfold nul_free. rewrite bytes_of_append. set_solver. Qed.

Lemma nul_free_uid uid : valid_uid uid = true → nul_free uid.
Proof.
  unfold valid_uid. case_if; [done|]. intros Hall. rewrite forallb_forall in Hall.
  intros Hin%list_elem_of_In. by apply Hall in Hin.
Qed.

Lemma copy_fixed_fits size target value :
  ssize value < size → nul_free value → c_string (copy_fixed size target value) = value.
Proof.
  intros Hs Hn. unfold copy_fixed. rewrite Z.min_l by lia. rewrite Nat2Z.id.
  rewrite take_ge by (rewrite length_bytes_of; lia). by apply c_string_app.
Qed.

Lemma length_copy_fixed size target value :
  0 < size → vsize target = size → vsize (copy_fixed size target value) = size.
Proof.
  intros Hs Ht. unfold copy_fixed. set (count := Z.to_nat _).
  assert (Z.of_nat count <= ssize value ∧ Z.of_nat count <= size - 1) by (unfold count; lia).
  rewrite !length_app, length_take, length_drop, length_bytes_of. cbn [length]. lia.
Qed.

(** The array always holds a terminating NUL. *)
Lemma copy_fixed_terminated size target value : x00 ∈ copy_fixed size target value.
Proof. unfold copy_fixed. rewrite !elem_of_app, list_elem_of_singleton. by right; left. Qed.

Lemma length_copy_text value out :
  ssize value < vsize out → length (copy_text value out) = length out.
Proof.
  intros. unfold copy_text. rewrite !length_app, length_drop, length_bytes_of. cbn [length]. lia.
Qed.

(** *** Decimal numbers *)
Lemma pretty_N_char_not_nul x s : x00 ∉ bytes_of s → x00 ∉ bytes_of (String (pretty_N_char x) s).
Proof.
  intros Hs. change (x00 ∉ (byte_of_ascii (pretty_N_char x) :: bytes_of s)).
  apply not_elem_of_cons. split; [|done].
  unfold pretty_N_char. by repeat case_match.
Qed.

Lemma pretty_N_go_fits k x s :
  (x < 2 ^ N.of_nat k)%N → x00 ∉ bytes_of s →
  (x00 ∉ bytes_of (pretty_N_go x s))
  ∧ (String.length (pretty_N_go x s) <= String.length s + k)%nat.
Proof.
  revert x s. induction k as [|k IH]; intros x s Hx Hs.
  { assert (x = 0%N) as -> by (cbn in Hx; lia). rewrite pretty_N_go_0. split; [done|lia]. }
  destruct (decide (x = 0%N)) as [->|Hx0]; [rewrite pretty_N_go_0; split; [done|lia]|].
  rewrite pretty_N_go_step by lia.
  destruct (IH (x `div` 10)%N (String (pretty_N_char (x `mod` 10)) s)) as [Hn Hl].
  - apply N.Div0.div_lt_upper_bound. rewrite Nat2N.inj_succ, N.pow_succ_r' in Hx. lia.
  - by apply pretty_N_char_not_nul.
  - split; [done|]. simpl String.length in Hl. lia.
Qed.

Lemma decimal_fits n :
  in_uint 16 n = true → nul_free (decimal n) ∧ ssize (decimal n) <= 16.
Proof.
  intros Hn%in_uint_range. unfold decimal, pretty, pretty_N.
  destruct (decide (Z.to_N n = 0%N)) as [_|_]; [split; [by apply (bool_decide_unpack _)|done]|].
  destruct (pretty_N_go_fits 16 (Z.to_N n) EmptyString) as [Hf Hl]; [|apply not_elem_of_nil|].
  - change (2 ^ N.of_nat 16)%N with (Z.to_N (2 ^ 16)). lia.
  - split; [done|]. simpl in Hl. lia.
Qed.

Lemma runtime_peer_id_fits ip port :
  nul_free ip → ssize ip < kPeerIpSize → in_uint 16 port = true →
  nul_free (runtime_peer_id ip port) ∧ ssize (runtime_peer_id ip port) < kPeerIdSize.
Proof.
  intros Hip Hl [Hn Hd]%decimal_fits. unfold runtime_peer_id.
  assert (nul_free "tcp://" ∧ nul_free ":") as [? ?] by (split; by apply (bool_decide_unpack _)).
  split; [by repeat apply nul_free_append|].
  rewrite !length_append. unfold kPeerIpSize, kPeerIdSize in *. simpl (String.length "tcp://"). simpl (String.length ":"). lia.
Qed.

(** ** What the interface guarantees *)

(** C26 An event can be passed on: when a callback publishes what it was handed, the
    runtime receives exactly the family, operation, target, type, payload, time to live,
    QoS class and source of the envelope, and its answer comes back unchanged.  The one
    exception is an event without target uids (a broadcast) where the standard library
    gives an empty vector a pointer that is not null: such a target is refused. *)
Theorem event_relayed ne clock impl peer session_id e correlation_id out_handle :
  let envelope := ev_envelope e in
  let c := event_of ne e in
  let r := publish clock peer session_id (env_family envelope) (env_operation envelope)
             (env_target envelope) (env_type envelope) (env_payload envelope)
             correlation_id (env_ttl_ms envelope) (env_qos_class envelope)
             (src_entity_uid (env_source envelope)) impl in
  yunlink_v2_runtime_publish clock (Some impl) (view peer) session_id (ce_family c)
    (ce_operation c) (ce_target c) (ce_type_ref c) (ce_payload c) correlation_id
    (ce_ttl_ms c) (ce_qos_class c) (ce_source_entity_uid c) out_handle
  = Some
      (if ne || negb (bool_decide (ts_uids (env_target envelope) = []))
       then (ErrorCode_value r.1.1,
             match r.1.2 with Some handle => store out_handle handle | None => out_handle end,
             Some r.2)
       else (ErrorCode_value kInvalidArgument, out_handle, Some impl)).
Proof.
  cbv zeta. unfold yunlink_v2_runtime_publish. set (envelope := ev_envelope e).
  cbn [event_of ce_family ce_operation ce_target ce_type_ref ce_payload ce_ttl_ms
    ce_qos_class ce_source_entity_uid]. fold envelope.
  rewrite copy_target_view. cbn [mbind option_bind].
  rewrite native_payload_view, copy_type_view, !copy_view. cbn [mbind option_bind].
  rewrite MessageFamily_cast_value, QosClass_cast_value.
  rewrite view_bytes_readable.
  replace (MessageFamily_value (env_family envelope) <? 1) with false
    by by destruct (env_family envelope).
  replace (9 <? MessageFamily_value (env_family envelope)) with false
    by by destruct (env_family envelope).
  replace (QosClass_value (env_qos_class envelope) <? 1) with false
    by by destruct (env_qos_class envelope).
  replace (4 <? QosClass_value (env_qos_class envelope)) with false
    by by destruct (env_qos_class envelope).
  cbn [orb]. by destruct (_ || _).
Qed.

(** Starting a runtime made by the C interface, whose views lie within their data: the
    result is 0 exactly when the structure is as large as this version's, the two profile
    lists are consistent with their counts, the configuration is acceptable and no checked
    call on the acceptor fails; the runtime then is a started one with the configuration
    the caller described. *)
Theorem create_start sizeof_config acceptor config native :
  native_config config = Some native →
  ∃ r, yunlink_v2_runtime_start sizeof_config acceptor yunlink_v2_runtime_create (Some config)
       = Some r
  ∧ (r.1 = 0 ↔
     sizeof_config <= cc_struct_size config ∧ acceptor_failed acceptor = false
     ∧ ∃ native', native = Some native' ∧ config_acceptable native' = true)
  ∧ (r.1 = 0 → ∃ native', native = Some native' ∧ r.2 = Some (started native')).
Proof.
  intros En. cbn. destruct (Z.ltb_spec (cc_struct_size config) sizeof_config) as [Hlt|Hge].
  { eexists. split; [done|]. split; [|done]. split; [done|]. intros [? _]. lia. }
  rewrite En. cbn [mbind option_bind]. destruct native as [native|].
  2:{ eexists. split; [done|]. split; [|done]. split; [done|]. by intros (_ & _ & ? & ? & _). }
  unfold start. cbn [im_running]. eexists. split; [done|].
  destruct (config_acceptable native) eqn:Ea; cbn [negb].
  2:{ split; [|done]. split; [done|]. intros (_ & _ & ? & [= <-] & ?). congruence. }
  destruct (acceptor_failed acceptor).
  - split; [|done]. split; [done|]. by intros (_ & ? & _).
  - split; [split; [|done]|]; intros _; [by eauto|]. by exists native.
Qed.

(** *** Character arrays *)

(** The peer of a successful [connect_peer] is filed under its address. *)
Lemma connect_peer_filed make_address dial ip port impl out impl' :
  connections_ok impl →
  connect_peer make_address dial ip port impl = (kOk, out, impl') →
  ∃ peer, out = Some peer ∧ peer_id peer = runtime_peer_id ip port
  ∧ is_Some (im_connections impl' !! runtime_peer_id ip port).
Proof.
  intros [Hfiled _]. unfold connect_peer.
  destruct (negb _); [done|]. destruct (_ || _); [done|]. cbv zeta. cbn [peer_id].
  set (peer := mkPeer (runtime_peer_id ip port) ip port).
  assert (Hdial : ∀ i, dial_new dial peer i = (kOk, out, impl') →
    ∃ peer, out = Some peer ∧ peer_id peer = runtime_peer_id ip port
    ∧ is_Some (im_connections impl' !! runtime_peer_id ip port)).
  { intros i. unfold dial_new. destruct dial; cbn [dial_error]; [done..|].
    intros [= <- <-]. exists peer. split_and!; [done..|]. cbn. by rewrite lookup_insert_eq. }
  destruct (im_connections impl !! _) as [h|] eqn:Eh; [|apply Hdial].
  destruct (Hfiled _ _ Eh) as (c & Hc & Hid). rewrite Hc.
  destruct (rc_running c); [|apply Hdial]. intros [= <- <-].
  exists (rc_peer c). by rewrite Eh.
Qed.

(** The peer a successful connect hands out can be used: its two arrays keep their
    sizes and hold a terminating NUL, and the C string in [id] is, untruncated, the
    name under which the runtime has just filed the connection, for every address of
    fewer than 64 characters. *)
Theorem connected_peer_usable make_address dial impl ip address port out r :
  connections_ok impl → views ip address → nul_free address → ssize address < kPeerIpSize →
  in_uint 16 port = true →
  yunlink_v2_runtime_connect make_address dial (Some impl) ip port (Some out) = Some r →
  r.1.1 = ErrorCode_value kOk →
  ∃ peer impl', r.1.2 = Some peer ∧ r.2 = Some impl'
  ∧ vsize (cp_id peer) = kPeerIdSize ∧ vsize (cp_ip peer) = kPeerIpSize
  ∧ x00 ∈ cp_ip peer
  ∧ c_string (cp_id peer) = runtime_peer_id address port
  ∧ is_Some (im_connections impl' !! c_string (cp_id peer)).
Proof.
  intros Hok Hv Hn Hl Hp. unfold yunlink_v2_runtime_connect. rewrite (copy_views _ _ Hv).
  cbn [mbind option_bind]. cbv zeta.
  destruct (connect_peer make_address dial address port impl) as [[code o] impl'] eqn:E.
  cbn [fst snd]. intros [= <-]. cbn [fst snd]. intros Hcode. assert (code = kOk) as -> by by destruct code.
  destruct (connect_peer_filed _ _ _ _ _ _ _ Hok E) as (peer & -> & Hid & Hfiled).
  destruct (runtime_peer_id_fits address port Hn Hl Hp) as [Hnul Hsize].
  exists (out_peer_of peer), impl'. split; [done|]. split; [done|].
  assert (Hstring : c_string (cp_id (out_peer_of peer)) = runtime_peer_id address port).
  { unfold out_peer_of. cbn [cp_id]. rewrite Hid. by apply copy_fixed_fits. }
  split_and!; [..|done|by rewrite Hstring].
  - apply length_copy_fixed; [done|]. rewrite length_replicate. done.
  - apply length_copy_fixed; [done|]. rewrite length_replicate. done.
  - apply copy_fixed_terminated.
Qed.

(** C34 A caller that provides [kMaxUidBytes + 1] characters can always read who is at
    the other end of an active session of a running runtime, as a C string equal to the
    uid the session is bound to.  For every runtime, buffer and session id, and every
    view that does not claim more than its data, the call returns, keeps the size of the
    caller's buffer, and one that fails leaves the buffer as it was. *)
Theorem endpoint_uid_read :
  (∀ runtime name peer session_id out,
     views name peer →
     ∃ code buffer,
       yunlink_v2_runtime_session_endpoint_uid runtime name session_id (Some out) (vsize out)
       = Some (code, Some buffer)
     ∧ length buffer = length out ∧ (code ≠ ErrorCode_value kOk → buffer = out))
  ∧ (∀ config now impl name peer session_id info out,
       0 <= cfg_max_buffer_bytes_per_peer config < 2 ^ 62 →
       reachable config now impl → views name peer →
       session peer session_id impl = Some info → si_state info = kActive →
       kMaxUidBytes < vsize out →
       ∃ buffer,
         yunlink_v2_runtime_session_endpoint_uid (Some impl) name session_id (Some out)
           (vsize out) = Some (ErrorCode_value kOk, Some buffer)
         ∧ c_string buffer = si_remote_endpoint_uid info).
Proof.
  unfold yunlink_v2_runtime_session_endpoint_uid. split.
  - intros [impl|] name peer session_id out Hv; [|by eexists _, out].
    destruct (_ =? 0); [by eexists _, out|]. rewrite (copy_views _ _ Hv).
    cbn [mbind option_bind].
    destruct (session _ _ _) as [info|]; [|by eexists _, out]. cbv zeta.
    destruct (bool_decide _); [by eexists _, out|].
    destruct (Z.ltb_spec (vsize out) (ssize (si_remote_endpoint_uid info) + 1));
      [by eexists _, out|].
    eexists _, _. split; [done|]. split; [|done]. apply length_copy_text. lia.
  - intros config now impl name peer session_id info out Hmax Hr Hv Hs Ha Hout.
    destruct (ro_sessions _ _ _ (reachable_ok _ _ _ Hmax Hr) _ _ Hs) as [_ _ _ Hact _].
    destruct (Hact Ha) as [_ Huid]. pose proof (valid_uid_length _ Huid) as Hl.
    unfold kMaxUidBytes in *. rewrite (proj2 (Z.eqb_neq _ _)) by lia.
    rewrite (copy_views _ _ Hv). cbn [mbind option_bind]. rewrite Hs. cbv zeta.
    rewrite bool_decide_eq_false_2 by (intros E; rewrite E in Huid; done).
    rewrite (proj2 (Z.ltb_ge _ _)) by lia. eexists. split; [done|].
    apply c_string_app. by apply nul_free_uid.
Qed.

(** The arguments [yunlink_v2_runtime_publish] goes on with. *)
Definition publishable (family qos_class : Z) (target : TargetView) (payload : BytesView) :
    bool :=
  valid_family family && valid_qos qos_class && valid_scope (tgv_scope target)
  && negb (is_null (bv_data payload) && negb (bv_len payload =? 0))
  && negb (xorb (is_null (tgv_uids target)) (tgv_uid_count target =? 0)).

(** A type view, a list of views and a payload are of the given values. *)
Definition views_type (value : TypeRefView) (t : TypeRef) : Prop :=
  views (tv_profile_id value) (tr_profile_id t) ∧ tv_major value = tr_major t
  ∧ tv_minor value = tr_minor t ∧ views (tv_type_name value) (tr_type_name t).
Definition views_uids (value : TargetView) (uids : list string) : Prop :=
  ∃ first rest, default [] (tgv_uids value) = first ++ rest
  ∧ tgv_uid_count value = vsize first ∧ Forall2 views first uids.
Definition views_payload (value : BytesView) (payload : Bytes) : Prop :=
  ∃ rest, default [] (bv_data value) = payload ++ rest ∧ bv_len value = vsize payload.

Lemma views_type_copy value t : views_type value t → copy_type value = Some t.
Proof.
  intros (Hp & Hma & Hmi & Hn). unfold copy_type.
  rewrite (copy_views _ _ Hp), (copy_views _ _ Hn). cbn. rewrite Hma, Hmi. by destruct t.
Qed.

Lemma array_first {A} (values : option (list A)) first rest :
  default [] values = first ++ rest → array values (vsize first) = Some first.
Proof. intros E. unfold array. rewrite E. apply (array_take first rest). Qed.

Lemma views_payload_native value payload :
  views_payload value payload → native_payload value = Some payload.
Proof.
  intros (rest & E & Hl). unfold native_payload. rewrite Hl.
  destruct (Z.ltb_spec 0 (vsize payload)); [by eapply array_first|].
  destruct payload; [done|]. cbn [length] in *. lia.
Qed.


(** *** Witnesses *)
(** A session that has gone through its four messages. *)
Definition after_message (operation : Z) (name : string) (payload : Bytes) (impl : Impl) : Impl :=
  session_section (peer_id uav_peer)
    (session_envelope (mkClock 1 1) "uav-1" 7 3 operation name payload 0) impl.

Definition with_active : Impl :=
  after_message SessionOperation.kReady "session.ready" []
    (after_message SessionOperation.kProfiles "session.profiles"
       (encode_profile_list uav_profiles)
       (after_message SessionOperation.kAuthenticate "session.authenticate"
          (encode_text "secret")
          (after_message SessionOperation.kHello "session.hello" (encode_text "uav-1")
             connected))).

Lemma with_active_reachable : reachable ground_config 5 with_active.
Proof.
  assert (Hstep : ∀ operation name payload impl,
    received (session_envelope (mkClock 1 1) "uav-1" 7 3 operation name payload 0) →
    reachable ground_config 5 impl →
    reachable ground_config 5 (after_message operation name payload impl)).
  { intros operation name payload impl He Hr.
    apply (reach_section _ 5 5 impl); [done|lia|]. by constructor. }
  do 4 (apply Hstep; [split; vm_compute; reflexivity|]).
  apply (reach_section _ 5 5 (started ground_config)); [constructor|lia|constructor].
Qed.

Lemma endpoint_uid_read_witness :
  ∃ buffer,
    yunlink_v2_runtime_session_endpoint_uid (Some with_active) (view (peer_id uav_peer)) 3
      (Some (replicate 129 x00)) 129 = Some (0, Some buffer)
    ∧ c_string buffer = "uav-1".
Proof.
  pose proof (proj2 endpoint_uid_read ground_config 5 with_active (view (peer_id uav_peer))
    (peer_id uav_peer) 3
    (default default_SessionInfo (im_sessions with_active !! (peer_id uav_peer, 3)))
    (replicate 129 x00)) as H.
  apply H.
  - cbn. lia.
  - exact with_active_reachable.
  - apply views_view.
  - vm_compute. reflexivity.
  - vm_compute. reflexivity.
  - vm_compute. reflexivity.
Defined.

(** A publish of one byte to the peer of that session, and one of an unknown family. *)
Definition one_target : TargetView := mkTargetView 2 (Some [view "uav-1"]) 1.
Definition one_type : TypeRefView := mkTypeRefView (view "yunlink.telemetry") 1 0 (view "state").


Definition blank_peer : CPeer := mkCPeer [] [] 0.

Lemma connected_peer_usable_witness :
  ∃ r, yunlink_v2_runtime_connect (λ _, true) DialConnected (Some ground_runtime)
         (view "10.0.0.9") 9696 (Some blank_peer) = Some r
  ∧ ∃ peer impl', r.1.2 = Some peer ∧ r.2 = Some impl'
  ∧ vsize (cp_id peer) = kPeerIdSize ∧ vsize (cp_ip peer) = kPeerIpSize
  ∧ x00 ∈ cp_ip peer
  ∧ c_string (cp_id peer) = runtime_peer_id "10.0.0.9" 9696
  ∧ is_Some (im_connections impl' !! c_string (cp_id peer)).
Proof.
  eexists. split; [reflexivity|].
  apply (connected_peer_usable (λ _, true) DialConnected ground_runtime
    (view "10.0.0.9") "10.0.0.9" 9696 blank_peer).
  - exact ground_runtime_ok.
  - apply views_view.
  - by apply (bool_decide_unpack _).
  - reflexivity.
  - reflexivity.
  - reflexivity.
  - vm_compute. reflexivity.
Defined.
