(* ===== verification/DiscoveryCapi.v ===== *)
(** * DiscoveryCapi: the C interface of discovery

    [src/c/v2/discovery.cpp]: queries are written into a buffer of the caller, replies
    become an opaque advertisement that is read member by member.  The views and the
    treatment of pointers are those of [Capi]; an advertisement pointer is an
    [option DiscoveryAdvertisement]. *)

From Stdlib Require Import ZArith Lia String Ascii Strings.Byte.
From stdpp Require Import base gmap strings list fin_maps.
From S2P Require Import Prelude StdMap Codec WireTypes WireCodec CoreMessages Discovery Capi.
Local Open Scope string_scope.
Local Open Scope list_scope.
Local Open Scope Z_scope.

(** ** Structures of yunlink_v2.h *)

Record KeyValueView := mkKeyValueView { kv_key : StringView; kv_value : StringView }.

Record DiscoveryEntityView := mkDiscoveryEntityView {
  dev_entity_uid : StringView;
  dev_kind : StringView;
  dev_display_name : StringView;
  dev_availability : Z;
  dev_agent_id : Z;
}.

(** ** discovery.cpp *)

Abbreviation Advertisement := (option DiscoveryAdvertisement).

(** [copy] of discovery.cpp, which has no case of its own for an empty view; [None] as in
    [Capi.copy]. *)
Definition copy_string (value : StringView) : option string :=
  match sv_data value with
  | Some data =>
    if sv_len value <=? ssize data
    then Some (String.substring 0 (Z.to_nat (sv_len value)) data) else None
  | None => Some EmptyString
  end.

Definition empty_view : StringView := mkStringView None 0.

(** The element at an index the function has compared with the size. *)
Definition element_at {A} (values : list A) (index : Z) : option A :=
  if vsize values <=? index then None else values !! Z.to_nat index.

(** Either stores a view of the element and returns 1, or returns 0. *)
Definition fetch {A B} (element : option A) (view_of : A → B) (out : option B) :
    Z * option B :=
  match out, element with
  | Some _, Some value => (1, store out (view_of value))
  | _, _ => (0, out)
  end.

Definition attribute_view (entry : string * string) : KeyValueView :=
  mkKeyValueView (view entry.1) (view entry.2).

Definition attribute_at (values : stdmap string string) (index : Z)
    (out : option KeyValueView) : Z * option KeyValueView :=
  fetch (element_at (map_to_list values) index) attribute_view out.

Definition yunlink_v2_discovery_encode_query (nonce response_window_ms format_version : Z)
    (shared_secret : StringView) (out_bytes : option Bytes) (out_capacity : Z)
    (out_size : option Z) : option (Z * option Bytes * option Z) :=
  if is_null out_size then Some (ErrorCode_value kInvalidArgument, out_bytes, out_size)
  else
  secret ← copy_string shared_secret;
  let encoded := encode_discovery_query
    (mkDiscoveryQuery nonce response_window_ms format_version) secret in
  if bool_decide (encoded = []) then
    Some (ErrorCode_value kEncodeError, out_bytes, store out_size 0)
  else
  match out_bytes with
  | None => Some (ErrorCode_value kInvalidArgument, out_bytes, store out_size (vsize encoded))
  | Some buffer =>
    if out_capacity <? vsize encoded
    then Some (ErrorCode_value kInvalidArgument, out_bytes, store out_size (vsize encoded))
    else Some (ErrorCode_value kOk, Some (encoded ++ drop (length encoded) buffer),
               store out_size (vsize encoded))
  end.

Definition yunlink_v2_discovery_decode_reply (bytes : BytesView)
    (shared_secret : StringView) (expected_nonce : Z) : option Advertisement :=
  if is_null (bv_data bytes) || (bv_len bytes =? 0) then Some None
  else
  source ← array (bv_data bytes) (bv_len bytes);
  secret ← copy_string shared_secret;
  Some (decode_discovery_reply source secret expected_nonce).

Definition yunlink_v2_discovery_endpoint_uid (advertisement : Advertisement) : StringView :=
  match advertisement with Some value => view (da_endpoint_uid value) | None => empty_view end.

Definition yunlink_v2_discovery_display_name (advertisement : Advertisement) : StringView :=
  match advertisement with Some value => view (da_display_name value) | None => empty_view end.

Definition yunlink_v2_discovery_tcp_port (advertisement : Advertisement) : Z :=
  match advertisement with Some value => da_tcp_listen_port value | None => 0 end.

Definition yunlink_v2_discovery_started_at_ms (advertisement : Advertisement) : Z :=
  match advertisement with Some value => da_started_at_ms value | None => 0 end.

Definition yunlink_v2_discovery_sequence (advertisement : Advertisement) : Z :=
  match advertisement with Some value => da_sequence value | None => 0 end.

Definition yunlink_v2_discovery_capability_count (advertisement : Advertisement) : Z :=
  match advertisement with Some value => vsize (da_capabilities value) | None => 0 end.

Definition yunlink_v2_discovery_capability_at (advertisement : Advertisement) (index : Z) :
    StringView :=
  match advertisement with
  | Some value =>
    match element_at (da_capabilities value) index with
    | Some capability => view capability
    | None => empty_view
    end
  | None => empty_view
  end.

Definition yunlink_v2_discovery_profile_count (advertisement : Advertisement) : Z :=
  match advertisement with Some value => vsize (da_profiles value) | None => 0 end.

Definition profile_view (profile : ProfileDescriptor) : ProfileView :=
  mkProfileView (view (pd_profile_id profile)) (pd_major profile) (pd_minor profile)
    (view (pd_schema_digest profile)).

Definition yunlink_v2_discovery_profile_at (advertisement : Advertisement) (index : Z)
    (out_profile : option ProfileView) : Z * option ProfileView :=
  match advertisement with
  | Some value => fetch (element_at (da_profiles value) index) profile_view out_profile
  | None => (0, out_profile)
  end.

Definition yunlink_v2_discovery_attribute_count (advertisement : Advertisement) : Z :=
  match advertisement with
  | Some value => vsize (map_to_list (da_attributes value))
  | None => 0
  end.

Definition yunlink_v2_discovery_attribute_at (advertisement : Advertisement) (index : Z)
    (out_attribute : option KeyValueView) : Z * option KeyValueView :=
  match advertisement with
  | Some value => attribute_at (da_attributes value) index out_attribute
  | None => (0, out_attribute)
  end.

Definition yunlink_v2_discovery_entity_count (advertisement : Advertisement) : Z :=
  match advertisement with Some value => vsize (da_entities value) | None => 0 end.

Definition entity_view (entity : DiscoveryEntitySummary) : DiscoveryEntityView :=
  mkDiscoveryEntityView (view (des_entity_uid entity)) (view (des_kind entity))
    (view (des_display_name entity)) (Availability_value (des_availability entity))
    (des_agent_id entity).

Definition yunlink_v2_discovery_entity_at (advertisement : Advertisement) (index : Z)
    (out_entity : option DiscoveryEntityView) : Z * option DiscoveryEntityView :=
  match advertisement with
  | Some value => fetch (element_at (da_entities value) index) entity_view out_entity
  | None => (0, out_entity)
  end.

Definition yunlink_v2_discovery_entity_attribute_count (advertisement : Advertisement)
    (entity_index : Z) : Z :=
  match advertisement with
  | Some value =>
    match element_at (da_entities value) entity_index with
    | Some entity => vsize (map_to_list (des_attributes entity))
    | None => 0
    end
  | None => 0
  end.

Definition yunlink_v2_discovery_entity_attribute_at (advertisement : Advertisement)
    (entity_index attribute_index : Z) (out_attribute : option KeyValueView) :
    Z * option KeyValueView :=
  match advertisement with
  | Some value =>
    match element_at (da_entities value) entity_index with
    | Some entity => attribute_at (des_attributes entity) attribute_index out_attribute
    | None => (0, out_attribute)
    end
  | None => (0, out_attribute)
  end.

(** ** A client that reads an advertisement through the interface *)

(** The elements a client collects with a counter and an accessor by index; [None] when
    the accessor fails for one of them. *)
Definition collect {A} (count : Z) (at_index : Z → option A) : option (list A) :=
  mapM (λ i, at_index (Z.of_nat i)) (seq 0 (Z.to_nat count)).

(** What an accessor stored, when it returned 1. *)
Definition fetched {A} (r : Z * option A) : option A := if r.1 =? 1 then r.2 else None.

Definition no_profile_view : ProfileView := mkProfileView empty_view 0 0 empty_view.
Definition no_attribute_view : KeyValueView := mkKeyValueView empty_view empty_view.
Definition no_entity_view : DiscoveryEntityView :=
  mkDiscoveryEntityView empty_view empty_view empty_view 0 0.

Definition read_attribute (r : Z * option KeyValueView) : option (string * string) :=
  entry ← fetched r;
  key ← copy (kv_key entry);
  value ← copy (kv_value entry);
  Some (key, value).

Definition read_entity_summary (advertisement : Advertisement) (index : Z) :
    option DiscoveryEntitySummary :=
  entity ← fetched (yunlink_v2_discovery_entity_at advertisement index (Some no_entity_view));
  entity_uid ← copy (dev_entity_uid entity);
  kind ← copy (dev_kind entity);
  display_name ← copy (dev_display_name entity);
  attributes ← collect (yunlink_v2_discovery_entity_attribute_count advertisement index)
    (λ i, read_attribute (yunlink_v2_discovery_entity_attribute_at advertisement index i
            (Some no_attribute_view)));
  Some (mkDiscoveryEntitySummary entity_uid kind display_name
    (Availability_cast (dev_availability entity)) (dev_agent_id entity)
    (list_to_map attributes)).

Definition read_back (advertisement : Advertisement) : option DiscoveryAdvertisement :=
  endpoint_uid ← copy (yunlink_v2_discovery_endpoint_uid advertisement);
  display_name ← copy (yunlink_v2_discovery_display_name advertisement);
  capabilities ← collect (yunlink_v2_discovery_capability_count advertisement)
    (λ i, copy (yunlink_v2_discovery_capability_at advertisement i));
  profiles ← collect (yunlink_v2_discovery_profile_count advertisement)
    (λ i, profile ← fetched (yunlink_v2_discovery_profile_at advertisement i
            (Some no_profile_view));
          copy_profile profile);
  attributes ← collect (yunlink_v2_discovery_attribute_count advertisement)
    (λ i, read_attribute (yunlink_v2_discovery_attribute_at advertisement i
            (Some no_attribute_view)));
  entities ← collect (yunlink_v2_discovery_entity_count advertisement)
    (read_entity_summary advertisement);
  Some (mkDiscoveryAdvertisement endpoint_uid display_name
    (yunlink_v2_discovery_tcp_port advertisement) capabilities profiles
    (list_to_map attributes) entities
    (yunlink_v2_discovery_started_at_ms advertisement)
    (yunlink_v2_discovery_sequence advertisement)).

(** ** Lemmas *)

(** Collecting finds every element of the list the accessor looks into. *)
Lemma collect_elements {A B} (values : list A) (at_index : Z → option B) (f : A → B) :
  (∀ i x, element_at values i = Some x → 0 <= i → at_index i = Some (f x)) →
  collect (vsize values) at_index = Some (f <$> values).
Proof.
  intros Hat. unfold collect. rewrite Nat2Z.id.
  assert (Hsuffix : ∀ pre rest, values = pre ++ rest →
    mapM (λ i, at_index (Z.of_nat i)) (seq (length pre) (length rest)) = Some (f <$> rest)).
  { intros pre rest. revert pre. induction rest as [|x rest IH]; intros pre Hv; [done|].
    cbn [seq length]. rewrite fmap_cons.
    assert (Hx : at_index (Z.of_nat (length pre)) = Some (f x)).
    { apply Hat; [|lia]. unfold element_at. rewrite Hv, length_app.
      rewrite (proj2 (Z.leb_gt _ _)) by (cbn [length]; lia).
      rewrite Nat2Z.id. by apply list_lookup_middle. }
    specialize (IH (pre ++ [x])). rewrite length_app, Nat.add_comm in IH.
    cbn. rewrite Hx. cbn. change (S (length pre)) with (length [x] + length pre)%nat.
    rewrite IH by by rewrite <- app_assoc. done. }
  by apply (Hsuffix []).
Qed.

Lemma collect_all {A} (values : list A) (at_index : Z → option A) :
  (∀ i x, element_at values i = Some x → at_index i = Some x) →
  collect (vsize values) at_index = Some values.
Proof.
  intros Hat. rewrite (collect_elements values at_index id) by eauto. by rewrite list_fmap_id.
Qed.

Lemma fetched_fetch {A B} (element : option A) (view_of : A → B) out :
  fetched (fetch element view_of (Some out)) = view_of <$> element.
Proof. by destruct element. Qed.

Lemma read_attributes (values : stdmap string string) at_index :
  (∀ i, at_index i = attribute_at values i (Some no_attribute_view)) →
  collect (vsize (map_to_list values)) (λ i, read_attribute (at_index i))
  = Some (map_to_list values).
Proof.
  intros Hat. apply collect_all.
  intros i [key value] Hi. rewrite Hat. unfold read_attribute, attribute_at.
  rewrite fetched_fetch, Hi. cbn. by rewrite !copy_view.
Qed.

Lemma read_entity_at value i entity :
  element_at (da_entities value) i = Some entity → read_entity_summary (Some value) i = Some entity.
Proof.
  intros Hi. unfold read_entity_summary, yunlink_v2_discovery_entity_at.
  rewrite fetched_fetch, Hi.
  unfold yunlink_v2_discovery_entity_attribute_count, yunlink_v2_discovery_entity_attribute_at.
  rewrite Hi. cbn. rewrite !copy_view. cbn. rewrite read_attributes by done. cbn.
  rewrite Availability_cast_value, list_to_map_to_list. by destruct entity.
Qed.

Lemma copy_string_views value text : views value text → copy_string value = Some text.
Proof.
  intros Hv. pose proof (copy_views _ _ Hv) as Hc. unfold copy_string, copy, views in *.
  destruct (sv_data value) as [data|]; [|by rewrite Hv].
  destruct (Z.eqb_spec (sv_len value) 0) as [E|_]; [|done].
  injection Hc as <-. rewrite E. cbn. by destruct data.
Qed.

(** The accessors lose nothing. *)
Lemma read_back_all value : read_back (Some value) = Some value.
Proof.
  unfold read_back. cbn [yunlink_v2_discovery_endpoint_uid yunlink_v2_discovery_display_name
    yunlink_v2_discovery_tcp_port yunlink_v2_discovery_capability_count
    yunlink_v2_discovery_profile_count yunlink_v2_discovery_attribute_count
    yunlink_v2_discovery_entity_count yunlink_v2_discovery_started_at_ms
    yunlink_v2_discovery_sequence].
  rewrite !copy_view. cbn [mbind option_bind].
  rewrite (collect_all (da_capabilities value)).
  2:{ intros i x Hi. unfold yunlink_v2_discovery_capability_at. by rewrite Hi, copy_view. }
  cbn [mbind option_bind]. rewrite (collect_all (da_profiles value)).
  2:{ intros i [p ma mi d] Hi. unfold yunlink_v2_discovery_profile_at.
      rewrite fetched_fetch, Hi. unfold copy_profile. cbn. by rewrite !copy_view. }
  cbn [mbind option_bind]. rewrite read_attributes by done. cbn [mbind option_bind].
  rewrite (collect_all (da_entities value)) by (intros; by apply read_entity_at).
  cbn [mbind option_bind]. rewrite list_to_map_to_list. by destruct value.
Qed.

(** ** What the interface guarantees *)

(** The bytes of a query. *)
Definition kQueryBytes : Z := 22.

Lemma length_encode_query query secret :
  sendable query = true → vsize (encode_discovery_query query secret) = kQueryBytes.
Proof.
  intros Hs. rewrite encode_query, length_app, length_write_be by done.
  unfold sendable in Hs. bool_hyps. by rewrite length_query.
Qed.

(** The two-call protocol of [yunlink_v2_discovery_encode_query] works: a call without
    a buffer, or with one too small, stores the size needed and writes nothing; a call
    with a buffer of that size writes, inside the buffer, a query that a responder with
    the secret decodes to the same nonce, window and format. *)
Theorem encode_query_two_calls nonce window format_version name secret size out :
  let query := mkDiscoveryQuery nonce window format_version in
  sendable query = true → views name secret →
  yunlink_v2_discovery_encode_query nonce window format_version name None 0
    (Some size) = Some (ErrorCode_value kInvalidArgument, None, Some kQueryBytes)
  ∧ (vsize out < kQueryBytes →
     yunlink_v2_discovery_encode_query nonce window format_version name (Some out)
       (vsize out) (Some size)
     = Some (ErrorCode_value kInvalidArgument, Some out, Some kQueryBytes))
  ∧ (kQueryBytes <= vsize out →
     ∃ buffer,
       yunlink_v2_discovery_encode_query nonce window format_version name (Some out)
         (vsize out) (Some size) = Some (ErrorCode_value kOk, Some buffer, Some kQueryBytes)
       ∧ length buffer = length out
       ∧ decode_discovery_query (take (Z.to_nat kQueryBytes) buffer) secret = Some query).
Proof.
  intros query Hs Hv. unfold yunlink_v2_discovery_encode_query. cbn [is_null].
  rewrite (copy_string_views _ _ Hv). cbn [mbind option_bind]. fold query.
  pose proof (length_encode_query query secret Hs) as Hl.
  pose proof (query_decodes query secret Hs) as Hd.
  set (encoded := encode_discovery_query query secret) in *. clearbody encoded.
  rewrite bool_decide_eq_false_2 by (intros ->; done).
  rewrite Hl. split_and!; [done| |].
  - intros Hout. by rewrite (proj2 (Z.ltb_lt _ _)).
  - intros Hout. rewrite (proj2 (Z.ltb_ge _ _)) by done. eexists. split; [done|]. split.
    + rewrite length_app, length_drop. unfold kQueryBytes in *. lia.
    + rewrite <- Hl, Nat2Z.id, take_app_length. done.
Qed.

(** C28 Discovery through the C interface loses nothing: the reply a responder sends to a
    query decodes to an advertisement whose accessors, read by count and index, rebuild
    the advertisement the reply's format carries, attributes and entities included; and
    whatever a reply decodes to, the accessors rebuild exactly that value.  No view they
    hand out claims more than its data. *)
Theorem discovery_read_back :
  (∀ query value secret,
     is_format (q_format_version query) = true → in_uint 64 (q_nonce query) = true →
     typed_advertisement value = true →
     let reply := encode_discovery_reply query value secret in
     reply ≠ [] →
     ∃ advertisement,
       yunlink_v2_discovery_decode_reply (mkBytesView (Some reply) (vsize reply))
         (view secret) (q_nonce query) = Some (Some advertisement)
       ∧ read_back (Some advertisement) = Some (carried (q_format_version query) value))
  ∧ (∀ value, read_back (Some value) = Some value).
Proof.
  split; [|apply read_back_all]. intros query value secret Hf Hn Ht reply Hne.
  exists (carried (q_format_version query) value). split; [|apply read_back_all].
  unfold yunlink_v2_discovery_decode_reply. cbn [bv_data bv_len is_null orb].
  assert ((vsize reply =? 0) = false) as ->.
  { apply Z.eqb_neq. intros E. apply Hne. apply nil_length_inv. lia. }
  rewrite (array_first (Some reply) reply []) by (symmetry; apply app_nil_r).
  rewrite (copy_string_views _ _ (views_view secret)). cbn [mbind option_bind].
  unfold reply. by rewrite reply_decodes.
Qed.

(** Nothing is read outside an advertisement: an accessor by index called with an
    index past the end, or on a null advertisement, stores nothing and reports so. *)
Theorem accessors_bounded advertisement index profile attribute entity :
  (yunlink_v2_discovery_capability_count advertisement <= index →
     yunlink_v2_discovery_capability_at advertisement index = empty_view)
  ∧ (yunlink_v2_discovery_profile_count advertisement <= index →
     yunlink_v2_discovery_profile_at advertisement index profile = (0, profile))
  ∧ (yunlink_v2_discovery_attribute_count advertisement <= index →
     yunlink_v2_discovery_attribute_at advertisement index attribute = (0, attribute))
  ∧ (yunlink_v2_discovery_entity_count advertisement <= index →
     yunlink_v2_discovery_entity_at advertisement index entity = (0, entity)
     ∧ yunlink_v2_discovery_entity_attribute_count advertisement index = 0
     ∧ ∀ i, yunlink_v2_discovery_entity_attribute_at advertisement index i attribute
            = (0, attribute)).
Proof.
  assert (Hpast : ∀ A (values : list A), vsize values <= index → element_at values index = None).
  { intros A values H. unfold element_at. by rewrite (proj2 (Z.leb_le _ _)). }
  assert (Hfetch : ∀ A B (view_of : A → B) out, fetch None view_of out = (0, out)).
  { by intros A B view_of []. }
  destruct advertisement as [value|]; [|done].
  split_and!; intros H; apply Hpast in H; cbn; unfold attribute_at; rewrite H; auto.
Qed.

Lemma encode_query_two_calls_witness :
  ∃ buffer,
    yunlink_v2_discovery_encode_query 44 250 4 (view sample_secret)
      (Some (replicate 32 x00)) 32 (Some 0) = Some (0, Some buffer, Some 22)
    ∧ length buffer = 32%nat
    ∧ decode_discovery_query (take 22 buffer) sample_secret = Some sample_query.
Proof.
  pose proof (encode_query_two_calls 44 250 4 (view sample_secret) sample_secret 0
    (replicate 32 x00)) as H.
  apply H; [reflexivity|apply views_view|]. vm_compute. discriminate.
Defined.

Lemma discovery_read_back_witness :
  ∃ advertisement,
    yunlink_v2_discovery_decode_reply (mkBytesView (Some sample_reply) (vsize sample_reply))
      (view sample_secret) 44 = Some (Some advertisement)
    ∧ read_back (Some advertisement) = Some sample_advertisement.
Proof.
  pose proof (proj1 discovery_read_back sample_query sample_advertisement sample_secret) as H.
  apply H; [reflexivity|reflexivity|vm_compute; reflexivity|].
  exact (bool_decide_eq_false_1 _ sample_reply_nonempty).
Defined.
