(* ===== verification/Handshake.v ===== *)
(** * Handshake: two runtimes open a session

    The protocol of [open_session] followed through both runtimes: the frames one side
    queues are the bytes the other side's receive thread reads, cut into reads in any
    way, and the answers travel back. *)

From Stdlib Require Import ZArith Lia String Ascii Strings.Byte.
From stdpp Require Import base gmap strings list fin_maps.
From S2P Require Import Prelude StdMap Codec WireTypes WireCodec CoreMessages Framing SendQueue.
From S2P Require Import RuntimeCommon Authority Session Runtime.
Local Open Scope string_scope.
Local Open Scope Z_scope.

(** ** Handling does not look into receive buffers *)

(** The state without the receive buffers. *)
Definition erase (impl : Impl) : Impl :=
  set_heap (with_receive_buffer [] <$> im_heap impl) impl.

Section erase.
Context (clock : Clock) (peer : Peer).

Lemma erase_enqueue connection bytes qos key impl :
  (connection_enqueue connection bytes qos key (erase impl)).2
  = erase (connection_enqueue connection bytes qos key impl).2.
Proof.
  unfold connection_enqueue, erase. cbn. rewrite lookup_fmap.
  destruct (im_heap impl !! connection) as [c|]; [|done]. cbn. by rewrite fmap_insert.
Qed.

Lemma erase_stop connection impl :
  stop_connection connection (erase impl) = erase (stop_connection connection impl).
Proof.
  unfold stop_connection, erase. cbn. rewrite lookup_fmap.
  destruct (im_heap impl !! connection) as [c|]; [|done]. cbn. by rewrite fmap_insert.
Qed.

Lemma erase_emit event impl : runtime_emit event (erase impl) = erase (runtime_emit event impl).
Proof. done. Qed.

Lemma erase_write id bytes impl :
  write_to_peer id bytes (erase impl) = erase (write_to_peer id bytes impl).
Proof.
  unfold write_to_peer. change (im_connections (erase impl)) with (im_connections impl).
  destruct (im_connections impl !! id); [|done]. apply erase_enqueue.
Qed.

Lemma erase_send_session id session_id operation type_name payload corr impl :
  send_session clock id session_id operation type_name payload corr (erase impl)
  = erase (send_session clock id session_id operation type_name payload corr impl).
Proof. unfold send_session. cbv zeta. by rewrite <- erase_write. Qed.

Lemma erase_send_status request status impl :
  send_status clock peer request status (erase impl)
  = erase (send_status clock peer request status impl).
Proof. unfold send_status. cbv zeta. by rewrite <- erase_write. Qed.

Lemma erase_authority envelope impl :
  runtime_handle_authority clock peer envelope (erase impl)
  = ((runtime_handle_authority clock peer envelope impl).1,
     erase (runtime_handle_authority clock peer envelope impl).2).
Proof.
  unfold runtime_handle_authority. destruct (_ || _); [done|].
  destruct (authority_request envelope) as [[request uid]|]; cbn [fst snd];
    by rewrite <- erase_send_status.
Qed.

Lemma erase_logical impl : logical_peer peer (erase impl) = logical_peer peer impl.
Proof.
  unfold logical_peer, erase. cbn. destruct (im_lane_owner impl !! _) as [owner|]; [|done].
  destruct (im_connections impl !! owner.1) as [h|]; [|done]. rewrite lookup_fmap.
  by destruct (im_heap impl !! h).
Qed.

(** The handling of an envelope is the same whatever the buffers hold. *)
Lemma erase_handle envelope impl :
  runtime_handle_envelope clock peer envelope (erase impl)
  = erase (runtime_handle_envelope clock peer envelope impl).
Proof.
  unfold runtime_handle_envelope. destruct (bool_decide _).
  - destruct (_ =? _).
    { unfold handle_lane_bind. change (im_config (erase impl)) with (im_config impl).
      destruct (negb _); [done|].
      assert (Hsec : lane_bind_section peer envelope (erase impl)
        = ((lane_bind_section peer envelope impl).1,
           erase (lane_bind_section peer envelope impl).2)).
      { unfold lane_bind_section. cbn. destruct (im_connections impl !! _); [|done].
        destruct (list_find _ _) as [[i [key s]]|]; done. }
      rewrite Hsec. cbn [fst snd]. destruct (lane_bind_section peer envelope impl).1; [|done].
      destruct (bool_decide _); [done|]. cbn [snd]. by rewrite erase_send_session. }
    destruct (_ =? _).
    { unfold handle_lane_ready. cbn. destruct (im_lane_owner impl !! _) as [owner|]; [|done].
      destruct (negb _); [done|]. destruct (im_sessions impl !! _); [|done].
      by destruct (negb _). }
    unfold handle_session. cbv zeta. change (im_config (erase impl)) with (im_config impl).
    change (im_sessions (erase impl)) with (im_sessions impl).
    set (u := session_update _ _ _ _). set (i1 := set_sessions _ impl).
    change (set_sessions _ (erase impl)) with (erase i1).
    destruct (su_source_mismatch u); [done|].
    destruct (su_reply_profiles u), (su_reply_ready u); unfold emit_session;
      rewrite ?erase_emit, ?erase_send_session; done.
  - unfold handle_message. rewrite erase_logical.
    change (envelope_checks ?l envelope (erase impl)) with (envelope_checks l envelope impl).
    destruct (negb _); [done|]. destruct (negb _); [done|].
    rewrite erase_authority. cbn [fst snd].
    destruct (runtime_handle_authority clock peer envelope impl).1; [done|].
    change (runtime_action_authorized clock peer envelope (erase ?i))
      with (runtime_action_authorized clock peer envelope i).
    by destruct (negb _).
Qed.

Lemma erase_dispatch event impl :
  receive_dispatch clock peer (erase impl) event
  = erase (receive_dispatch clock peer impl event).
Proof. destruct event; try done. apply erase_handle. Qed.

Lemma erase_dispatch_all events impl :
  foldl (receive_dispatch clock peer) (erase impl) events
  = erase (foldl (receive_dispatch clock peer) impl events).
Proof.
  revert impl. induction events as [|event events IH]; intros impl; [done|].
  cbn [foldl]. by rewrite erase_dispatch, IH.
Qed.
End erase.

(** ** Receiving a stream *)

(** The passes of the receive thread over successive reads. *)
Fixpoint runtime_receives (clock : Clock) (connection : handle) (chunks : list Bytes)
    (impl : Impl) : option (bool * Impl) :=
  match chunks with
  | [] => Some (true, impl)
  | chunk :: chunks =>
    match runtime_receive clock connection chunk impl with
    | None => None
    | Some (true, impl) => runtime_receives clock connection chunks impl
    | Some (false, impl) => Some (false, impl)
    end
  end.

Lemma quiet_receivers impl impl' : quiet impl impl' → receivers impl' = receivers impl.
Proof. apply q_heap. Qed.

Lemma handle_receivers clock peer envelope impl :
  receivers (runtime_handle_envelope clock peer envelope impl) = receivers impl
  ∧ im_config (runtime_handle_envelope clock peer envelope impl) = im_config impl.
Proof.
  assert (Hsend : ∀ id session_id operation type_name payload corr i i0,
    receivers i = receivers i0 → im_config i = im_config i0 →
    receivers (send_session clock id session_id operation type_name payload corr i)
    = receivers i0
    ∧ im_config (send_session clock id session_id operation type_name payload corr i)
      = im_config i0).
  { intros. pose proof (quiet_send_session clock id session_id operation type_name payload corr i)
      as []. split; congruence. }
  unfold runtime_handle_envelope. destruct (bool_decide _).
  - destruct (_ =? _).
    { unfold handle_lane_bind. destruct (negb _); [done|].
      assert (Hsec : receivers (lane_bind_section peer envelope impl).2 = receivers impl
        ∧ im_config (lane_bind_section peer envelope impl).2 = im_config impl).
      { unfold lane_bind_section. destruct (im_connections impl !! _); [|done].
        by destruct (list_find _ _) as [[i [key s]]|]. }
      destruct (lane_bind_section peer envelope impl).1; [|done].
      destruct (bool_decide _); [done|]. destruct Hsec. by apply Hsend. }
    destruct (_ =? _).
    { unfold handle_lane_ready. destruct (im_lane_owner impl !! _) as [owner|]; [|done].
      destruct (negb _); [done|]. destruct (im_sessions impl !! _); [|done].
      by destruct (negb _). }
    unfold handle_session. cbv zeta. set (u := session_update _ _ _ _).
    destruct (su_source_mismatch u); [done|].
    destruct (su_reply_profiles u), (su_reply_ready u); repeat apply Hsend; done.
  - unfold handle_message. destruct (negb _); [done|]. destruct (negb _); [done|].
    assert (Hauth : receivers (runtime_handle_authority clock peer envelope impl).2
                    = receivers impl
      ∧ im_config (runtime_handle_authority clock peer envelope impl).2 = im_config impl).
    { unfold runtime_handle_authority. destruct (_ || _); [done|].
      destruct (authority_request envelope) as [[request uid]|]; cbn [snd].
      all: match goal with |- context [send_status ?c ?p ?e ?s ?i] =>
        pose proof (quiet_send_status c p e s i) as Hq end;
        split; [exact (q_heap _ _ Hq)|exact (q_config _ _ Hq)]. }
    destruct (runtime_handle_authority clock peer envelope impl).1; [done|].
    by destruct (negb _).
Qed.

Lemma dispatch_receivers clock peer events impl :
  receivers (foldl (receive_dispatch clock peer) impl events) = receivers impl
  ∧ im_config (foldl (receive_dispatch clock peer) impl events) = im_config impl.
Proof.
  revert impl. induction events as [|event events IH]; intros impl; [done|]. cbn [foldl].
  destruct (IH (receive_dispatch clock peer impl event)) as [-> ->].
  destruct event; try done. apply handle_receivers.
Qed.

Lemma erase_set_buffer connection c buffer impl :
  im_heap impl !! connection = Some c →
  erase (set_heap (<[connection := with_receive_buffer buffer c]> (im_heap impl)) impl)
  = erase impl.
Proof.
  intros Hc. unfold erase, set_heap. cbn. f_equal. rewrite fmap_insert. apply insert_id.
  by rewrite lookup_fmap, Hc.
Qed.

Lemma lookup_receivers impl connection c :
  im_heap impl !! connection = Some c →
  receivers impl !! connection = Some (rc_peer c, rc_receive_buffer c).
Proof. intros Hc. unfold receivers. by rewrite lookup_fmap, Hc. Qed.

(** Receiving a stream handles the events of [receive_all] in order. *)
Lemma receives_events clock connection chunks impl c events buffer :
  im_heap impl !! connection = Some c →
  receive_all (cfg_max_buffer_bytes_per_peer (im_config impl)) (runtime_now_ms clock)
    (rc_receive_buffer c) chunks = Some (events, buffer, true) →
  ∃ impl', runtime_receives clock connection chunks impl = Some (true, impl')
  ∧ erase impl' = foldl (receive_dispatch clock (rc_peer c)) (erase impl) events.
Proof.
  revert impl c events. induction chunks as [|chunk chunks IH]; intros impl c events Hc.
  { intros [= <- _]. by exists impl. }
  cbn [receive_all runtime_receives]. unfold runtime_receive. rewrite Hc.
  destruct (receive_chunk _ _ _ _) as [[[events1 buffer1] go]|]; [|done].
  cbn [mbind option_bind fst snd]. destruct go; [|done].
  destruct (receive_all _ _ buffer1 chunks) as [[[events2 buffer2] go2]|] eqn:Eall; [|done].
  cbn [mbind option_bind fst snd]. intros [= <- -> ->].
  set (impl0 := set_heap _ impl). set (impl1 := foldl _ impl0 events1).
  destruct (dispatch_receivers clock (rc_peer c) events1 impl0) as [Hrecv Hconf].
  fold impl1 in Hrecv, Hconf.
  assert (Hc1 : ∃ c1, im_heap impl1 !! connection = Some c1 ∧ rc_peer c1 = rc_peer c
    ∧ rc_receive_buffer c1 = buffer1).
  { assert (H0 : receivers impl1 !! connection = Some (rc_peer c, buffer1)).
    { rewrite Hrecv. apply (lookup_receivers impl0 connection (with_receive_buffer buffer1 c)).
      unfold impl0. cbn. apply lookup_insert_eq. }
    unfold receivers in H0. rewrite lookup_fmap in H0.
    destruct (im_heap impl1 !! connection) as [c1|]; [|done]. injection H0 as Hp Hb.
    by exists c1. }
  destruct Hc1 as (c1 & Hc1 & Hp1 & Hb1).
  destruct (IH impl1 c1 events2 Hc1) as (impl' & Hr & He).
  { by rewrite Hconf, Hb1. }
  exists impl'. split; [exact Hr|]. rewrite He, Hp1, foldl_app. f_equal.
  unfold impl1. rewrite <- erase_dispatch_all. f_equal.
  unfold impl0. by apply erase_set_buffer.
Qed.

(** ** Session messages as frames *)

(** What both ends need of a configuration: [start] checks the uid and the profiles. *)
Record config_ready (config : RuntimeConfig) : Prop := {
  cr_uid : valid_uid (cfg_endpoint_uid config) = true;
  cr_profiles : wf_list wf_profile (cfg_profiles config) = true;
  cr_secret : wf_text (cfg_shared_secret config) = true;
  cr_max : cfg_max_buffer_bytes_per_peer config < 2 ^ 62;
}.

Section messages.
Context (clock : Clock) (uid : string) (message_id session_id operation : Z).
Context (type_name : string) (payload : Bytes) (corr : Z).
Context (Huid : valid_uid uid = true).
Context (Htype : 0 < ssize type_name <= 32).
Context (Hpayload : vsize payload <= kMaxPayloadBytes).

Definition message : Envelope :=
  session_envelope clock uid message_id session_id operation type_name payload corr.

Lemma message_encodable : encodable message = true.
Proof using Huid Htype Hpayload.
  pose proof (valid_uid_length uid Huid) as Hlen. unfold kMaxUidBytes in Hlen.
  unfold encodable, envelope_acceptable, message. cbn -[valid_uid valid_type_ref variable_size].
  rewrite Huid. cbn [andb].
  assert (Ht : valid_type_ref (session_type type_name) = true).
  { unfold valid_type_ref. cbn -[Z.leb Z.of_nat]. rewrite !andb_true_iff, Z.leb_le.
    unfold kMaxTypeNameBytes. split; [split; [|lia]|done].
    destruct type_name; [cbn in Htype; lia|done]. }
  rewrite Ht. cbn [andb]. rewrite !andb_true_iff, !Z.leb_le. split; [split; [done|done]|].
  unfold variable_size, uint16_max, kFixedHeaderSize. cbn -[Z.of_nat].
  change (ssize "yunlink.core") with 12. cbn -[Z.of_nat]. lia.
Qed.

Lemma message_size now : vsize (frame (fill_header now message)) <= 256 + vsize payload.
Proof using Huid Htype.
  pose proof (valid_uid_length uid Huid) as Hlen. unfold kMaxUidBytes in Hlen.
  rewrite length_frame, variable_size_fill. unfold variable_size, kFixedHeaderSize, kTrailerSize.
  cbn -[Z.of_nat]. change (ssize "yunlink.core") with 12. lia.
Qed.

Lemma message_sendable now max :
  in_uint 64 now = true → in_uint 64 (runtime_now_ms clock) = true →
  in_uint 64 message_id = true → in_uint 64 session_id = true → in_uint 64 corr = true →
  in_uint 8 operation = true → 256 + vsize payload <= max →
  sendable max (fill_header now message) = true.
Proof using Huid Htype Hpayload.
  intros Hnow Hclock Hmid Hsid Hcorr Hop Hmax.
  pose proof message_encodable as Henc.
  assert (Htyped : envelope_typed message = true).
  { unfold envelope_typed, message. cbn [session_envelope env_protocol_major env_header_version
      env_flags env_header_len env_payload_len env_operation env_schema_version env_session_id
      env_message_id env_correlation_id env_type env_created_at_ms env_ttl_ms env_security].
    by rewrite Hclock, Hmid, Hsid, Hcorr, Hop. }
  destruct (fill_header_lens now message Henc) as [Hh Hp].
  unfold sendable. rewrite encodable_fill, Henc, envelope_typed_fill by done.
  rewrite Hh, Hp. change (env_payload (fill_header now message)) with payload.
  rewrite !Z.eqb_refl. cbn [andb]. apply Z.leb_le.
  pose proof (message_size now). lia.
Qed.
End messages.

(** A session's update sees the fields the frame carries. *)
Lemma session_update_decoded config id now e s :
  session_update config id (decoded (fill_header now e)) s = session_update config id e s.
Proof. reflexivity. Qed.

(** ** The queue of a connection that carries session messages *)

(** The connection to [remote] is filed, runs, and has exactly [frames] queued. *)
Record outbox (impl : Impl) (connection : handle) (remote : Peer) (frames : list Bytes) :
    Prop := {
  ob_filed : im_connections impl !! peer_id remote = Some connection;
  ob_queue : ∃ c, im_heap impl !! connection = Some c ∧ rc_peer c = remote
    ∧ rc_running c = true ∧ send_wf (rc_send c)
    ∧ max_queued_bytes (rc_send c) = cfg_max_buffer_bytes_per_peer (im_config impl)
    ∧ send_queue (rc_send c) 1 = [] ∧ send_queue (rc_send c) 2 = []
    ∧ send_queue (rc_send c) 3 = []
    ∧ of_bytes <$> send_queue (rc_send c) 0 = frames;
}.

(** The bytes the send thread writes for them. *)
Definition total (frames : list Bytes) : Z := vsize (concat frames).

Lemma total_app frames frames' : total (frames ++ frames') = total frames + total frames'.
Proof. unfold total. rewrite concat_app, length_app. lia. Qed.

Lemma total_queue q : queue_size q = total (of_bytes <$> q).
Proof.
  unfold total. induction q as [|f q IH]; [done|]. cbn [fmap list_fmap concat].
  rewrite queue_size_cons, IH, length_app. unfold frame_size. lia.
Qed.

Lemma outbox_erase impl connection remote frames :
  outbox (erase impl) connection remote frames ↔ outbox impl connection remote frames.
Proof.
  split; intros [Hf (c & Hc & Hrest)]; (split; [exact Hf|]).
  - cbn in Hc. rewrite lookup_fmap in Hc. destruct (im_heap impl !! connection) as [c0|]; [|done].
    injection Hc as <-. exists c0. exact (conj eq_refl Hrest).
  - exists (with_receive_buffer [] c). split; [|exact Hrest].
    cbn. by rewrite lookup_fmap, Hc.
Qed.

(** A frame that fits is accepted and goes to the back. *)
Lemma outbox_enqueue impl connection remote frames bytes :
  outbox impl connection remote frames → bytes ≠ [] →
  total frames + vsize bytes <= cfg_max_buffer_bytes_per_peer (im_config impl) →
  outbox (connection_enqueue connection bytes kReliableOrdered EmptyString impl).2
    connection remote (frames ++ [bytes])
  ∧ (connection_enqueue connection bytes kReliableOrdered EmptyString impl).1 = true.
Proof.
  intros [Hf (c & Hc & Hp & Hrun & Hwf & Hm & H1 & H2 & H3 & H0)] Hb Hfit.
  destruct (enqueue_spec true bytes kReliableOrdered EmptyString (rc_send c) Hwf)
    as (ok & s & Hr & Hwf' & Henq & Hno).
  assert (ok = true) as ->.
  { destruct ok; [done|]. destruct (Hno eq_refl) as [?|[?|Hlt]]; [done|done|].
    unfold enqueue_limit in Hlt. rewrite bool_decide_true, H1 in Hlt by done.
    rewrite total_queue, H0, Hm in Hlt. cbn in Hlt. lia. }
  destruct Henq as [Hmax Hq0 Hq1 (q2 & q3 & Hs2 & Hs3 & _ & Hq2 & Hq3)].
  unfold added in *. cbn in Hq0, Hq1, Hq2, Hq3.
  unfold connection_enqueue. rewrite Hc, Hrun, Hr. cbn. split; [|done]. split; [exact Hf|].
  eexists. cbn. rewrite lookup_insert_eq. split; [done|]. cbn. split_and!; try done.
  - by rewrite Hmax.
  - by rewrite Hq1.
  - rewrite Hq2, app_nil_r. rewrite H2 in Hs2. by apply suffix_nil_inv in Hs2.
  - rewrite Hq3, app_nil_r. rewrite H3 in Hs3. by apply suffix_nil_inv in Hs3.
  - by rewrite Hq0, fmap_app, H0.
Qed.

(** [send_session] on it: the next message id, and the frame queued. *)
Lemma outbox_send_session clock impl connection remote frames session_id operation type_name
    payload corr :
  let uid := cfg_endpoint_uid (im_config impl) in
  let mid := im_next_message_id impl in
  let frame := frame (fill_header (runtime_now_ms clock)
    (message clock uid mid session_id operation type_name payload corr)) in
  let impl' := send_session clock (peer_id remote) session_id operation type_name payload
                 corr impl in
  outbox impl connection remote frames → valid_uid uid = true → 0 < ssize type_name <= 32 →
  vsize payload <= kMaxPayloadBytes →
  total frames + 256 + vsize payload <= cfg_max_buffer_bytes_per_peer (im_config impl) →
  outbox impl' connection remote (frames ++ [frame])
  ∧ quiet impl impl' ∧ im_next_message_id impl' = uint64 (mid + 1).
Proof.
  cbv zeta. intros Hout Huid Htype Hpay Hfit. split; [|split; [apply quiet_send_session|]].
  - unfold send_session, write_to_peer. cbv zeta. cbn [fst snd fetch_message_id].
    change (im_connections (set_next_message_id _ impl)) with (im_connections impl).
    rewrite (ob_filed _ _ _ _ Hout).
    change (session_envelope clock (cfg_endpoint_uid (im_config impl)) (im_next_message_id impl)
      session_id operation type_name payload corr)
      with (message clock (cfg_endpoint_uid (im_config impl)) (im_next_message_id impl)
        session_id operation type_name payload corr).
    rewrite encode_spec, message_encodable by done.
    pose proof (message_size clock (cfg_endpoint_uid (im_config impl)) (im_next_message_id impl)
      session_id operation type_name payload corr Huid Htype (runtime_now_ms clock)) as Hsize.
    apply outbox_enqueue; [|by pose proof (frame_min (fill_header (runtime_now_ms clock)
      (message clock (cfg_endpoint_uid (im_config impl)) (im_next_message_id impl) session_id
         operation type_name payload corr))) as Hmin; intros Hnil; rewrite Hnil in Hmin|].
    + destruct Hout as [Hf Hq]. split; [exact Hf|exact Hq].
    + change (im_config (set_next_message_id _ impl)) with (im_config impl). lia.
  - unfold send_session, write_to_peer. cbv zeta.
    destruct (im_connections _ !! _) as [h|]; [|done]. unfold connection_enqueue.
    by destruct (im_heap _ !! h).
Qed.

(** ** Answering session messages *)
Lemma length_encode_text v : wf_text v = true → vsize (encode_text v) = 2 + ssize v.
Proof.
  intros Hv. unfold encode_text. pose proof Hv as Hv'. unfold wf_text in Hv'.
  rewrite Z.gtb_ltb, Z.ltb_antisym, Hv'. cbn [negb].
  unfold append_text. erewrite emits_run; [|apply emits_seq; apply emits_bytes].
  cbn [andb]. rewrite length_app, length_bytes_of. cbn [length]. lia.
Qed.

Lemma wf_text_uid uid : valid_uid uid = true → wf_text uid = true.
Proof.
  intros Huid. pose proof (valid_uid_length uid Huid) as Hlen. unfold kMaxUidBytes in Hlen.
  unfold wf_text, uint16_max. bool_solve.
Qed.

(** The state of one end towards one peer and session. *)
Record serving (impl : Impl) (config : RuntimeConfig) (connection : handle) (remote : Peer)
    (session_id : Z) (s : option SessionInfo) (frames : list Bytes) (message_id : Z) :
    Prop := {
  sv_outbox : outbox impl connection remote frames;
  sv_config : im_config impl = config;
  sv_session : im_sessions impl !! (peer_id remote, session_id) = s;
  sv_message_id : im_next_message_id impl = message_id;
}.

Lemma serving_erase impl config connection remote session_id s frames message_id :
  serving (erase impl) config connection remote session_id s frames message_id
  ↔ serving impl config connection remote session_id s frames message_id.
Proof.
  split; intros [Ho Hc Hs Hm]; (split; [by apply outbox_erase|done..]).
Qed.

Section serving.
Context (config : RuntimeConfig) (connection : handle) (remote : Peer) (session_id : Z).
Context (clock from : Clock) (now : Z) (uid : string).

(** A message of the other end, as it arrives. *)
Definition arrival (message_id operation : Z) (type_name : string) (payload : Bytes)
    (corr : Z) : ReceiveEvent :=
  ReceiveEnvelope (decoded (fill_header now
    (message from uid message_id session_id operation type_name payload corr))).

(** The update of the session it causes. *)
Definition arrival_update (s : option SessionInfo) (message_id operation : Z)
    (type_name : string) (payload : Bytes) (corr : Z) : SessionUpdate :=
  session_update config (peer_id remote)
    (message from uid message_id session_id operation type_name payload corr)
    (default default_SessionInfo s).

Lemma dispatch_session impl message_id operation type_name payload corr :
  operation ≠ SessionOperation.kLaneBind → operation ≠ SessionOperation.kLaneReady →
  receive_dispatch clock remote impl (arrival message_id operation type_name payload corr)
  = handle_session clock remote (decoded (fill_header now
      (message from uid message_id session_id operation type_name payload corr))) impl.
Proof.
  intros Hb Hr. unfold arrival, receive_dispatch, runtime_handle_envelope.
  rewrite bool_decide_true by done.
  change (env_operation (decoded (fill_header now (message from uid message_id session_id
    operation type_name payload corr)))) with operation.
  destruct (Z.eqb_spec operation SessionOperation.kLaneBind); [done|].
  by destruct (Z.eqb_spec operation SessionOperation.kLaneReady).
Qed.

Lemma serve_update impl s frames mid u :
  serving impl config connection remote session_id s frames mid →
  serving (emit_session remote u
    (set_sessions (<[(peer_id remote, session_id) := u]> (im_sessions impl)) impl))
    config connection remote session_id (Some u) frames mid.
Proof.
  intros [[Hf Hq] Hc Hs Hm]. split; [split; [exact Hf|exact Hq]|exact Hc| |exact Hm].
  cbn. apply lookup_insert_eq.
Qed.

Lemma serve_silent impl s frames mid message_id operation type_name payload corr s' :
  serving impl config connection remote session_id s frames mid →
  operation ≠ SessionOperation.kLaneBind → operation ≠ SessionOperation.kLaneReady →
  arrival_update s message_id operation type_name payload corr
    = mkSessionUpdate s' false false false →
  serving (receive_dispatch clock remote impl
             (arrival message_id operation type_name payload corr))
    config connection remote session_id (Some s') frames mid.
Proof.
  intros Hsv Hb Hr Hu. rewrite dispatch_session by done. unfold handle_session.
  rewrite session_update_decoded. rewrite (sv_config _ _ _ _ _ _ _ _ Hsv).
  change (env_session_id (decoded _)) with session_id.
  rewrite (sv_session _ _ _ _ _ _ _ _ Hsv).
  fold (arrival_update s message_id operation type_name payload corr). rewrite Hu.
  cbn [su_session su_reply_profiles su_reply_ready su_source_mismatch].
  by apply serve_update with (s := s).
Qed.

(** The frame of one's own session message. *)
Definition own_frame (message_id operation : Z) (type_name : string) (payload : Bytes)
    (corr : Z) : Bytes :=
  frame (fill_header (runtime_now_ms clock)
    (message clock (cfg_endpoint_uid config) message_id session_id operation type_name payload
       corr)).

Context (Hconfig : config_ready config).

Lemma serve_send impl s frames mid operation type_name payload corr :
  serving impl config connection remote session_id s frames mid →
  0 < ssize type_name <= 32 → vsize payload <= kMaxPayloadBytes →
  total frames + 256 + vsize payload <= cfg_max_buffer_bytes_per_peer config →
  0 <= mid < 2 ^ 64 - 1 →
  serving (send_session clock (peer_id remote) session_id operation type_name payload corr impl)
    config connection remote session_id s
    (frames ++ [own_frame mid operation type_name payload corr]) (mid + 1).
Proof using Hconfig.
  intros [Ho Hc Hs Hm] Ht Hp Hfit Hmid.
  destruct (outbox_send_session clock impl connection remote frames session_id operation
    type_name payload corr Ho) as (Ho' & Hq & Hm'); rewrite ?Hc; try done; [apply Hconfig|].
  split.
  - unfold own_frame. rewrite <- Hc, <- Hm. exact Ho'.
  - by rewrite (q_config _ _ Hq).
  - by rewrite (q_sessions _ _ Hq).
  - rewrite Hm', Hm. apply uint_small, in_uint_range. lia.
Qed.

Lemma serve_reply impl s frames mid message_id operation type_name payload corr s' rp rr :
  serving impl config connection remote session_id s frames mid →
  operation ≠ SessionOperation.kLaneBind → operation ≠ SessionOperation.kLaneReady →
  message_id ≠ 0 → rp = negb rr →
  vsize (encode_profile_list (cfg_profiles config)) <= kMaxPayloadBytes →
  total frames + 256 + (if rr then 0 else vsize (encode_profile_list (cfg_profiles config)))
    <= cfg_max_buffer_bytes_per_peer config →
  0 <= mid < 2 ^ 64 - 1 →
  arrival_update s message_id operation type_name payload corr
    = mkSessionUpdate s' rp rr false →
  serving (receive_dispatch clock remote impl
             (arrival message_id operation type_name payload corr))
    config connection remote session_id (Some s')
    (frames ++ [if rr
       then own_frame mid SessionOperation.kReady "session.ready" [] message_id
       else own_frame mid SessionOperation.kProfiles "session.profiles"
              (encode_profile_list (cfg_profiles config)) message_id]) (mid + 1).
Proof using Hconfig.
  intros Hsv Hb Hr Hmid0 -> Hpay Hfit Hmid Hu. rewrite dispatch_session by done.
  unfold handle_session. rewrite session_update_decoded. rewrite (sv_config _ _ _ _ _ _ _ _ Hsv).
  change (env_session_id (decoded _)) with session_id.
  rewrite (sv_session _ _ _ _ _ _ _ _ Hsv).
  fold (arrival_update s message_id operation type_name payload corr). rewrite Hu.
  cbn [su_session su_reply_profiles su_reply_ready su_source_mismatch].
  assert (Hcorr : env_message_id (decoded (fill_header now (message from uid message_id session_id
    operation type_name payload corr))) = message_id).
  { cbn. by destruct (Z.eqb_spec message_id 0). }
  rewrite Hcorr.
  pose proof (serve_update impl s frames mid s' Hsv) as Hup.
  pose proof (sv_config _ _ _ _ _ _ _ _ Hup) as Hc.
  destruct rr; cbn [negb].
  - apply serve_send with (s := Some s'); try done; cbn [length]; unfold kMaxPayloadBytes; lia.
  - rewrite Hc. apply serve_send with (s := Some s'); try done.
Qed.
End serving.

(** ** Both ends *)

(** The room a buffer needs for the session messages of [config]: their texts and
    headers take less than [2 ^ 17] bytes, the profile list may be longer. *)
Definition room (config : RuntimeConfig) (max : Z) : Prop :=
  131072 + vsize (encode_profile_list (cfg_profiles config)) <= max.

(** A message: its operation, its type and its payload. *)
Abbreviation session_text := (Z * string * Bytes)%type.

(** The messages of [open_session]. *)
Definition opening (config : RuntimeConfig) : list session_text :=
  [(SessionOperation.kHello, "session.hello", encode_text (cfg_endpoint_uid config));
   (SessionOperation.kAuthenticate, "session.authenticate",
    encode_text (cfg_shared_secret config));
   (SessionOperation.kProfiles, "session.profiles",
    encode_profile_list (cfg_profiles config));
   (SessionOperation.kReady, "session.ready", [])].

(** Messages sent one after the other, and their frames, numbered from [mid]. *)
Definition send_all (clock : Clock) (peer : string) (session_id : Z) (ms : list session_text)
    (impl : Impl) : Impl :=
  foldl (λ impl m, send_session clock peer session_id m.1.1 m.1.2 m.2 0 impl) impl ms.

Fixpoint numbered (config : RuntimeConfig) (clock : Clock) (session_id mid : Z)
    (ms : list session_text) : list Bytes :=
  match ms with
  | [] => []
  | m :: ms =>
    own_frame config session_id clock mid m.1.1 m.1.2 m.2 0
    :: numbered config clock session_id (mid + 1) ms
  end.

(** What messages need of a queue. *)
Definition sizes (ms : list session_text) : Z := foldr (λ m n, 256 + vsize m.2 + n) 0 ms.

(** The answers of the other end. *)
Definition answer_frames (config : RuntimeConfig) (clock : Clock) (session_id mid corr : Z) :
    list Bytes :=
  [own_frame config session_id clock mid SessionOperation.kProfiles "session.profiles"
     (encode_profile_list (cfg_profiles config)) corr;
   own_frame config session_id clock (mid + 1) SessionOperation.kReady "session.ready" []
     (corr + 1)].

(** The session each end has at the end. *)
Definition active_session (session_id : Z) (peer remote_uid : string)
    (local remotes : list ProfileDescriptor) : SessionInfo :=
  mkSessionInfo session_id peer remote_uid kActive true (negotiate_profiles local remotes).1
    (negotiate_profiles local remotes).2 EmptyString.

Lemma own_frame_size config session_id clock mid operation type_name payload corr :
  config_ready config → 0 < ssize type_name <= 32 →
  vsize (own_frame config session_id clock mid operation type_name payload corr)
    <= 256 + vsize payload.
Proof. intros Hc Ht. apply message_size; [apply Hc|done]. Qed.

Lemma config_texts config :
  config_ready config →
  vsize (encode_text (cfg_endpoint_uid config)) <= 130
  ∧ vsize (encode_text (cfg_shared_secret config)) <= 65537.
Proof.
  intros [Huid _ Hs _]. rewrite !length_encode_text by auto using wf_text_uid.
  pose proof (valid_uid_length _ Huid) as Hl. unfold kMaxUidBytes in Hl.
  unfold wf_text, uint16_max in Hs. bool_hyps. lia.
Qed.

Lemma sizes_nonneg ms : 0 <= sizes ms.
Proof. induction ms as [|m ms' IH]; [done|]. cbn [sizes foldr]. fold (sizes ms'). lia. Qed.

Lemma serve_send_all config connection remote session_id clock ms impl s frames mid :
  config_ready config →
  serving impl config connection remote session_id s frames mid →
  Forall (λ m : session_text, 0 < ssize m.1.2 <= 32 ∧ vsize m.2 <= kMaxPayloadBytes) ms →
  total frames + sizes ms <= cfg_max_buffer_bytes_per_peer config →
  0 <= mid → mid + Z.of_nat (length ms) < 2 ^ 64 →
  serving (send_all clock (peer_id remote) session_id ms impl) config connection remote
    session_id s (frames ++ numbered config clock session_id mid ms)
    (mid + Z.of_nat (length ms))
  ∧ receivers (send_all clock (peer_id remote) session_id ms impl) = receivers impl.
Proof.
  intros Hready. revert impl frames mid. induction ms as [|[[op ty] payload] ms IH];
    intros impl frames mid Hsv Hms Hfit Hmid Hlast.
  { cbn [send_all foldl numbered length]. by rewrite app_nil_r, Z.add_0_r. }
  apply Forall_cons in Hms as [[Hty Hpay] Hms]. cbn [fst snd] in Hty, Hpay.
  cbn [sizes foldr snd] in Hfit. fold (sizes ms) in Hfit. cbn [length] in Hlast.
  pose proof (sizes_nonneg ms).
  assert (Hsv' := serve_send config connection remote session_id clock Hready impl s frames mid
    op ty payload 0 Hsv Hty Hpay ltac:(lia) ltac:(lia)).
  cbn [send_all foldl fst snd].
  destruct (IH _ _ _ Hsv' Hms) as [Hall Hrecv]; [|lia..|].
  { rewrite total_app. unfold total at 2. cbn [concat]. rewrite app_nil_r.
    pose proof (own_frame_size config session_id clock mid op ty payload 0 Hready Hty). lia. }
  split.
  - cbn [numbered fst snd length]. rewrite <- app_assoc in Hall.
    replace (mid + Z.of_nat (S (length ms))) with (mid + 1 + Z.of_nat (length ms)) by lia.
    exact Hall.
  - unfold send_all in Hrecv. rewrite Hrecv. apply quiet_receivers, quiet_send_session.
Qed.

Lemma open_session_sends clock peer impl connection :
  im_connections impl !! peer = Some connection →
  let sid := im_next_session_id impl in
  let impl0 := (fetch_session_id impl).2 in
  open_session clock peer impl
  = (sid, send_all clock peer sid (opening (im_config impl))
       (set_sessions (<[(peer, sid) :=
            mkSessionInfo sid peer EmptyString kHandshaking false ∅ [] EmptyString]>
          (im_sessions impl)) impl0)).
Proof.
  intros Hc. unfold open_session. rewrite Hc. cbv zeta. unfold send_all. cbn [opening foldl fst snd].
  by rewrite !(q_config _ _ (quiet_send_session _ _ _ _ _ _ _ _)).
Qed.

(** The opening side: four frames queued and a session in its handshake. *)
Lemma opening_side config clock connection remote impl mid :
  config_ready config → room config (cfg_max_buffer_bytes_per_peer config) →
  vsize (encode_profile_list (cfg_profiles config)) <= kMaxPayloadBytes →
  outbox impl connection remote [] → im_config impl = config →
  im_next_message_id impl = mid → 0 <= mid < 2 ^ 64 - 4 →
  let r := open_session clock (peer_id remote) impl in
  r.1 = im_next_session_id impl
  ∧ serving r.2 config connection remote r.1
      (Some (mkSessionInfo r.1 (peer_id remote) EmptyString kHandshaking false ∅ []
               EmptyString))
      (numbered config clock r.1 mid (opening config)) (mid + 4)
  ∧ receivers r.2 = receivers impl.
Proof.
  intros Hready Hroom Hpay Hout Hc Hm Hmid. unfold room in Hroom.
  destruct (config_texts config Hready) as [Hu Hs].
  rewrite (open_session_sends _ _ _ _ (ob_filed _ _ _ _ Hout)), Hc. cbv zeta. cbn [fst snd].
  set (sid := im_next_session_id impl). split; [done|].
  match goal with |- context [send_all _ _ _ _ ?i] => set (impl0 := i) end.
  assert (H0 : serving impl0 config connection remote sid
    (Some (mkSessionInfo sid (peer_id remote) EmptyString kHandshaking false ∅ [] EmptyString))
    [] mid).
  { destruct Hout as [Hf Hq]. split; [split; [exact Hf|exact Hq]|exact Hc| |exact Hm].
    unfold impl0. cbn. apply lookup_insert_eq. }
  destruct (serve_send_all config connection remote sid clock (opening config) impl0 _ [] mid
    Hready H0) as [Hsv Hr].
  - unfold opening, kMaxPayloadBytes in *. repeat (apply Forall_cons_2; [cbn; lia|]).
    apply Forall_nil_2.
  - unfold total. cbn [concat sizes opening foldr snd]. cbn [length]. lia.
  - lia.
  - cbn [opening length]. lia.
  - split; [exact Hsv|exact Hr].
Qed.

(** The arrival of numbered messages. *)
Fixpoint arrivals (uid : string) (clock : Clock) (session_id mid : Z)
    (ms : list session_text) : list ReceiveEvent :=
  match ms with
  | [] => []
  | m :: ms =>
    arrival session_id clock (runtime_now_ms clock) uid mid m.1.1 m.1.2 m.2 0
    :: arrivals uid clock session_id (mid + 1) ms
  end.

(** The answering side: an active session and two frames queued. *)
Lemma answering_side config other connection remote session_id clock from impl mid mid' :
  config_ready config → config_ready other →
  cfg_shared_secret other = cfg_shared_secret config →
  room config (cfg_max_buffer_bytes_per_peer config) →
  vsize (encode_profile_list (cfg_profiles config)) <= kMaxPayloadBytes →
  0 <= mid < 2 ^ 64 - 2 → 0 < mid' < 2 ^ 64 - 4 →
  serving impl config connection remote session_id None [] mid →
  serving (foldl (receive_dispatch clock remote) impl
             (arrivals (cfg_endpoint_uid other) from session_id mid' (opening other)))
    config connection remote session_id
    (Some (active_session session_id (peer_id remote) (cfg_endpoint_uid other)
             (cfg_profiles config) (cfg_profiles other)))
    (answer_frames config clock session_id mid (mid' + 2)) (mid + 2).
Proof.
  intros Hready Hother Hsecret Hroom Hpay Hmid Hmid' H0. unfold room in Hroom.
  set (uid := cfg_endpoint_uid other). set (sid := session_id).
  assert (Huid : uid ≠ EmptyString).
  { intros He. pose proof (valid_uid_length uid (cr_uid _ Hother)) as Hl. rewrite He in Hl.
    cbn in Hl. lia. }
  cbn [arrivals opening foldl fst snd].
  set (s1 := mkSessionInfo sid (peer_id remote) uid kHandshaking false ∅ [] EmptyString).
  set (s2 := mkSessionInfo sid (peer_id remote) uid kAuthenticated true ∅ [] EmptyString).
  set (s3 := mkSessionInfo sid (peer_id remote) uid kNegotiated true
    (negotiate_profiles (cfg_profiles config) (cfg_profiles other)).1
    (negotiate_profiles (cfg_profiles config) (cfg_profiles other)).2 EmptyString).
  assert (H1 := serve_silent config connection remote sid clock from (runtime_now_ms from) uid
    impl None [] mid mid' SessionOperation.kHello "session.hello" (encode_text uid) 0 s1 H0
    ltac:(done) ltac:(done)).
  specialize (H1 ltac:(unfold arrival_update; rewrite session_update_first by done;
    by apply operation_hello, Hother)).
  assert (H2 := serve_silent config connection remote sid clock from (runtime_now_ms from) uid
    _ _ _ _ (mid' + 1) SessionOperation.kAuthenticate "session.authenticate"
    (encode_text (cfg_shared_secret other)) 0 s2 H1 ltac:(done) ltac:(done)).
  specialize (H2 ltac:(unfold arrival_update; rewrite session_update_same by done;
    unfold message; rewrite operation_authenticate by apply Hother;
    by rewrite bool_decide_true by done)).
  assert (H3 := serve_reply config connection remote sid clock from (runtime_now_ms from) uid
    Hready _ _ _ _ (mid' + 2) SessionOperation.kProfiles "session.profiles"
    (encode_profile_list (cfg_profiles other)) 0 s3 true false H2 ltac:(done) ltac:(done)
    ltac:(lia) ltac:(done) Hpay).
  replace (mid' + 1 + 1) with (mid' + 2) by lia.
  specialize (H3 ltac:(cbn [total concat]; unfold total; cbn [concat length]; lia) ltac:(lia)).
  specialize (H3 ltac:(unfold arrival_update; rewrite session_update_same by done;
    unfold message; rewrite operation_profiles by apply Hother;
    by rewrite bool_decide_false by done)).
  assert (H4 := serve_reply config connection remote sid clock from (runtime_now_ms from) uid
    Hready _ _ _ _ (mid' + 3) SessionOperation.kReady "session.ready" [] 0
    (active_session sid (peer_id remote) uid (cfg_profiles config) (cfg_profiles other))
    false true H3 ltac:(done) ltac:(done) ltac:(lia) ltac:(done) Hpay).
  replace (mid' + 2 + 1) with (mid' + 3) by lia.
  pose proof (own_frame_size config sid clock mid SessionOperation.kProfiles "session.profiles"
    (encode_profile_list (cfg_profiles config)) (mid' + 2) Hready ltac:(cbn; lia)) as Hs.
  unfold answer_frames. replace (mid + 2) with (mid + 1 + 1) by lia.
  replace (mid' + 2 + 1) with (mid' + 3) in * by lia. apply H4; [|lia|].
  - unfold total. cbn [app concat]. rewrite app_nil_r. lia.
  - unfold arrival_update. rewrite session_update_same by done.
    unfold message. rewrite operation_ready. by rewrite bool_decide_true by done.
Qed.

(** The opening side again, with the answers. *)
Lemma closing_side config other connection remote session_id clock from impl frames mid mid'
    corr :
  config_ready config → config_ready other → 0 < corr → 0 < mid' →
  serving impl config connection remote session_id
    (Some (mkSessionInfo session_id (peer_id remote) EmptyString kHandshaking false ∅ []
             EmptyString)) frames mid →
  serving (foldl (receive_dispatch clock remote) impl
     [arrival session_id from (runtime_now_ms from) (cfg_endpoint_uid other) mid'
        SessionOperation.kProfiles "session.profiles"
        (encode_profile_list (cfg_profiles other)) corr;
      arrival session_id from (runtime_now_ms from) (cfg_endpoint_uid other) (mid' + 1)
        SessionOperation.kReady "session.ready" [] (corr + 1)])
    config connection remote session_id
    (Some (active_session session_id (peer_id remote) (cfg_endpoint_uid other)
             (cfg_profiles config) (cfg_profiles other))) frames mid.
Proof.
  intros Hready Hother Hcorr Hmid' H0. set (uid := cfg_endpoint_uid other).
  cbn [foldl].
  set (s1 := mkSessionInfo session_id (peer_id remote) uid kNegotiated false
    (negotiate_profiles (cfg_profiles config) (cfg_profiles other)).1
    (negotiate_profiles (cfg_profiles config) (cfg_profiles other)).2 EmptyString).
  eapply serve_silent with (s := Some s1); [|done..|].
  - eapply serve_silent; [exact H0|done..|]. unfold arrival_update, message.
    rewrite session_update_first by done. rewrite operation_profiles by apply Hother.
    rewrite bool_decide_false by done. by destruct (Z.eqb_spec corr 0); [lia|].
  - unfold arrival_update. rewrite session_update_same by done.
    unfold message. rewrite operation_ready. rewrite bool_decide_true by done.
    by destruct (Z.eqb_spec (corr + 1) 0); [lia|].
Qed.

(** ** Across the wire *)
Lemma receives_frames clock connection impl c vs chunks :
  im_heap impl !! connection = Some c → rc_receive_buffer c = [] →
  let max := cfg_max_buffer_bytes_per_peer (im_config impl) in
  Forall (λ v, sendable (max - kReceiveChunk) v = true) vs → kReceiveChunk <= max →
  Forall (λ chunk, vsize chunk <= kReceiveChunk) chunks →
  concat chunks = concat (frame <$> vs) →
  ∃ impl', runtime_receives clock connection chunks impl = Some (true, impl')
  ∧ erase impl' = foldl (receive_dispatch clock (rc_peer c)) (erase impl)
      (map (λ v, ReceiveEnvelope (decoded v)) vs).
Proof.
  intros Hc Hb max Hvs Hmax Hchunks Hstream.
  apply (receives_events clock connection chunks impl c _ []); [done|].
  rewrite Hb. by apply receive_all_frames.
Qed.

(** The filled envelopes of numbered messages: their frames and their arrivals. *)
Fixpoint envelopes (uid : string) (clock : Clock) (session_id mid : Z)
    (ms : list session_text) : list Envelope :=
  match ms with
  | [] => []
  | m :: ms =>
    fill_header (runtime_now_ms clock) (message clock uid mid session_id m.1.1 m.1.2 m.2 0)
    :: envelopes uid clock session_id (mid + 1) ms
  end.

Lemma numbered_envelopes config clock session_id mid ms :
  numbered config clock session_id mid ms
  = frame <$> envelopes (cfg_endpoint_uid config) clock session_id mid ms.
Proof.
  revert mid. induction ms as [|m ms IH]; intros mid; [done|].
  cbn [numbered envelopes fmap list_fmap]. by rewrite IH.
Qed.

Lemma arrivals_envelopes uid clock session_id mid ms :
  arrivals uid clock session_id mid ms
  = map (λ v, ReceiveEnvelope (decoded v)) (envelopes uid clock session_id mid ms).
Proof.
  revert mid. induction ms as [|m ms IH]; intros mid; [done|].
  cbn [arrivals envelopes map]. by rewrite IH.
Qed.

Lemma envelopes_sendable uid clock session_id mid ms max :
  valid_uid uid = true → in_uint 64 (runtime_now_ms clock) = true →
  in_uint 64 session_id = true → 0 <= mid → mid + Z.of_nat (length ms) < 2 ^ 64 →
  Forall (λ m : session_text, in_uint 8 m.1.1 = true ∧ 0 < ssize m.1.2 <= 32
    ∧ vsize m.2 <= kMaxPayloadBytes ∧ 256 + vsize m.2 <= max) ms →
  Forall (λ v, sendable max v = true) (envelopes uid clock session_id mid ms).
Proof.
  intros Huid Hclock Hsid. revert mid. induction ms as [|m ms IH]; intros mid Hmid Hlast Hms.
  { apply Forall_nil_2. }
  apply Forall_cons in Hms as [(Hop & Hty & Hpay & Hmax) Hms]. cbn [length] in Hlast.
  cbn [envelopes]. apply Forall_cons_2.
  - apply message_sendable; try done. apply in_uint_range. lia.
  - apply IH; [lia|lia|done].
Qed.

(** The bytes queued for a connection, in the order the send thread takes them. *)
Definition outgoing (impl : Impl) (connection : handle) : Bytes :=
  match im_heap impl !! connection with
  | Some c => concat (of_bytes <$> concat (send_queues (rc_send c)))
  | None => []
  end.

Lemma outbox_outgoing impl connection remote frames :
  outbox impl connection remote frames → outgoing impl connection = concat frames.
Proof.
  intros [_ (c & Hc & _ & _ & Hwf & _ & H1 & H2 & H3 & H0)]. unfold outgoing. rewrite Hc.
  destruct (wf_queues _ Hwf) as (q0 & q1 & q2 & q3 & Hq). rewrite Hq.
  unfold send_queue in *. rewrite Hq in *. cbn in H0, H1, H2, H3. subst q1 q2 q3.
  cbn [concat]. by rewrite !app_nil_r, H0.
Qed.

(** ** The theorem *)

(** One end of a fresh connection to [remote]. *)
Record endpoint (impl : Impl) (connection : handle) (remote : Peer) : Prop := {
  ep_outbox : outbox impl connection remote [];
  ep_receiver : receivers impl !! connection = Some (remote, []);
  ep_config : config_ready (im_config impl);
  ep_payload : vsize (encode_profile_list (cfg_profiles (im_config impl))) <= kMaxPayloadBytes;
  ep_ids : 0 < im_next_message_id impl < 2 ^ 64 - 4;
}.

Lemma opening_sendable config clock session_id mid max :
  config_ready config → room config max →
  vsize (encode_profile_list (cfg_profiles config)) <= kMaxPayloadBytes →
  in_uint 64 (runtime_now_ms clock) = true → in_uint 64 session_id = true →
  0 <= mid < 2 ^ 64 - 4 →
  Forall (λ v, sendable (max - kReceiveChunk) v = true)
    (envelopes (cfg_endpoint_uid config) clock session_id mid (opening config)).
Proof.
  intros Hready Hroom Hpay Hclock Hsid Hmid. unfold room in Hroom.
  destruct (config_texts config Hready) as [Hu Hs].
  apply envelopes_sendable; try done; [apply Hready|lia|cbn [opening length]; lia|].
  unfold opening, kMaxPayloadBytes, kReceiveChunk in *.
  repeat (apply Forall_cons_2; [split_and!; cbn; [done|lia..]|]). apply Forall_nil_2.
Qed.

Lemma endpoint_connection impl connection remote :
  receivers impl !! connection = Some (remote, []) →
  ∃ c, im_heap impl !! connection = Some c ∧ rc_peer c = remote ∧ rc_receive_buffer c = [].
Proof.
  unfold receivers. rewrite lookup_fmap. destruct (im_heap impl !! connection) as [c|]; [|done].
  intros [= <- <-]. eauto.
Qed.

(** The first leg: the opening bytes reach the other end. *)
Lemma answer_over_wire config clock clock' impl' connection' near session_id mid chunks :
  config_ready config → vsize (encode_profile_list (cfg_profiles config)) <= kMaxPayloadBytes →
  endpoint impl' connection' near →
  let config' := im_config impl' in
  cfg_shared_secret config = cfg_shared_secret config' →
  room config (cfg_max_buffer_bytes_per_peer config') →
  room config' (cfg_max_buffer_bytes_per_peer config') →
  in_uint 64 (runtime_now_ms clock) = true → in_uint 64 session_id = true →
  0 < mid < 2 ^ 64 - 4 → im_sessions impl' !! (peer_id near, session_id) = None →
  Forall (λ chunk, vsize chunk <= kReceiveChunk) chunks →
  concat chunks = concat (numbered config clock session_id mid (opening config)) →
  ∃ answered, runtime_receives clock' connection' chunks impl' = Some (true, answered)
  ∧ serving answered config' connection' near session_id
      (Some (active_session session_id (peer_id near) (cfg_endpoint_uid config)
               (cfg_profiles config') (cfg_profiles config)))
      (answer_frames config' clock' session_id (im_next_message_id impl') (mid + 2))
      (im_next_message_id impl' + 2).
Proof.
  intros Hc Hp [Ho' Hr' Hc' Hp' Hm'] config' Hsecret R2 R4 T1 Tid Hmid Hnone Hchunks Hbytes.
  rewrite numbered_envelopes in Hbytes.
  destruct (endpoint_connection impl' connection' near Hr') as (c' & Hh' & Hpeer' & Hbuf').
  destruct (receives_frames clock' connection' impl' c'
    (envelopes (cfg_endpoint_uid config) clock session_id mid (opening config))
    chunks Hh' Hbuf') as (answered & Ha & He); [|unfold room, kReceiveChunk in *; fold config'; lia
    |done|done|].
  { apply opening_sendable; try done. lia. }
  rewrite Hpeer', <- arrivals_envelopes in He.
  assert (H0 : serving (erase impl') config' connection' near session_id None []
    (im_next_message_id impl')).
  { apply serving_erase. by split. }
  pose proof (answering_side config' config connection' near session_id clock' clock _
    (im_next_message_id impl') mid Hc' Hc Hsecret R4 Hp' ltac:(lia) ltac:(lia) H0) as Hans.
  rewrite <- He in Hans. apply (proj1 (serving_erase _ _ _ _ _ _ _ _)) in Hans. eauto.
Qed.

(** The second leg: the answers come back. *)
Lemma close_over_wire config config' clock' later opened connection remote session_id frames
    mid mid' corr chunks :
  config_ready config → config_ready config' →
  vsize (encode_profile_list (cfg_profiles config')) <= kMaxPayloadBytes →
  room config' (cfg_max_buffer_bytes_per_peer config) →
  in_uint 64 (runtime_now_ms clock') = true → in_uint 64 session_id = true →
  0 < mid' < 2 ^ 64 - 4 → 0 < corr < 2 ^ 64 - 1 →
  receivers opened !! connection = Some (remote, []) →
  serving opened config connection remote session_id
    (Some (mkSessionInfo session_id (peer_id remote) EmptyString kHandshaking false ∅ []
             EmptyString)) frames mid →
  Forall (λ chunk, vsize chunk <= kReceiveChunk) chunks →
  concat chunks = concat (answer_frames config' clock' session_id mid' corr) →
  ∃ closed, runtime_receives later connection chunks opened = Some (true, closed)
  ∧ serving closed config connection remote session_id
      (Some (active_session session_id (peer_id remote) (cfg_endpoint_uid config')
               (cfg_profiles config) (cfg_profiles config'))) frames mid.
Proof.
  intros Hc Hc' Hp' R3 T2 Tid Hmid' Hcorr Hr Hopen Hchunks Hbytes.
  destruct (endpoint_connection opened connection remote Hr) as (c & Hh & Hpeer & Hbuf).
  set (answers := [fill_header (runtime_now_ms clock')
      (message clock' (cfg_endpoint_uid config') mid' session_id SessionOperation.kProfiles
         "session.profiles" (encode_profile_list (cfg_profiles config')) corr);
    fill_header (runtime_now_ms clock')
      (message clock' (cfg_endpoint_uid config') (mid' + 1) session_id SessionOperation.kReady
         "session.ready" [] (corr + 1))]).
  pose proof (sv_config _ _ _ _ _ _ _ _ Hopen) as Hconf.
  destruct (receives_frames later connection opened c answers chunks Hh Hbuf)
    as (closed & Hcl & Hce); rewrite ?Hconf.
  - unfold answers, room, kReceiveChunk, kMaxPayloadBytes in *.
    repeat (apply Forall_cons_2; [apply message_sendable; unfold kMaxPayloadBytes;
      first [done|apply Hc'|apply in_uint_range; lia|cbn; lia]|]).
    apply Forall_nil_2.
  - unfold room, kReceiveChunk in *. lia.
  - done.
  - exact Hbytes.
  - exists closed. split; [exact Hcl|]. rewrite Hpeer in Hce.
    pose proof (closing_side config config' connection remote session_id later clock'
      (erase opened) _ _ mid' corr Hc Hc' ltac:(lia) ltac:(lia)
      (proj2 (serving_erase _ _ _ _ _ _ _ _) Hopen)) as Hclose.
    unfold answers in Hce. cbn [map] in Hce. unfold arrival in Hclose. rewrite <- Hce in Hclose.
    by apply (proj1 (serving_erase _ _ _ _ _ _ _ _)) in Hclose.
Qed.

(** What the protocol asks of two endpoints that share a secret and have room for each
    other's messages, whatever they declare as required: both sessions become
    active. *)
Lemma handshake_active clock clock' later impl impl' connection connection' near remote
    chunks :
  endpoint impl connection remote → endpoint impl' connection' near →
  let config := im_config impl in
  let config' := im_config impl' in
  cfg_shared_secret config = cfg_shared_secret config' →
  room config (cfg_max_buffer_bytes_per_peer config) →
  room config (cfg_max_buffer_bytes_per_peer config') →
  room config' (cfg_max_buffer_bytes_per_peer config) →
  room config' (cfg_max_buffer_bytes_per_peer config') →
  in_uint 64 (runtime_now_ms clock) = true → in_uint 64 (runtime_now_ms clock') = true →
  in_uint 64 (im_next_session_id impl) = true →
  im_sessions impl' !! (peer_id near, im_next_session_id impl) = None →
  let opened := open_session clock (peer_id remote) impl in
  Forall (λ chunk, vsize chunk <= kReceiveChunk) chunks →
  concat chunks = outgoing opened.2 connection →
  ∃ answered, runtime_receives clock' connection' chunks impl' = Some (true, answered)
  ∧ im_sessions answered !! (peer_id near, opened.1)
    = Some (active_session opened.1 (peer_id near) (cfg_endpoint_uid config)
              (cfg_profiles config') (cfg_profiles config))
  ∧ ∀ chunks',
    Forall (λ chunk, vsize chunk <= kReceiveChunk) chunks' →
    concat chunks' = outgoing answered connection' →
    ∃ closed, runtime_receives later connection chunks' opened.2 = Some (true, closed)
    ∧ im_sessions closed !! (peer_id remote, opened.1)
      = Some (active_session opened.1 (peer_id remote) (cfg_endpoint_uid config')
                (cfg_profiles config) (cfg_profiles config')).
Proof.
  intros Hend Hend' config config' Hsecret R1 R2 R3 R4 T1 T2 Tid Hnone.
  destruct Hend as [Ho Hr Hc Hp Hm]. pose proof (ep_ids _ _ _ Hend') as Hm'.
  destruct (opening_side config clock connection remote impl (im_next_message_id impl) Hc R1 Hp Ho
    eq_refl eq_refl ltac:(lia)) as (Hsid & Hopen & Hrecv).
  cbv zeta. set (opened := open_session clock (peer_id remote) impl) in *.
  intros Hchunks Hbytes.
  rewrite (outbox_outgoing _ _ _ _ (sv_outbox _ _ _ _ _ _ _ _ Hopen)) in Hbytes.
  rewrite <- Hsid in Tid, Hnone.
  destruct (answer_over_wire config clock clock' impl' connection' near opened.1
    (im_next_message_id impl) chunks Hc Hp Hend' Hsecret R2 R4 T1 Tid ltac:(lia) Hnone Hchunks
    Hbytes) as (answered & Ha & Hans).
  exists answered. split; [exact Ha|]. split; [apply (sv_session _ _ _ _ _ _ _ _ Hans)|].
  intros chunks' Hchunks' Hbytes'.
  rewrite (outbox_outgoing _ _ _ _ (sv_outbox _ _ _ _ _ _ _ _ Hans)) in Hbytes'.
  rewrite <- Hrecv in Hr.
  destruct (close_over_wire config config' clock' later opened.2 connection remote opened.1 _ _
    (im_next_message_id impl') (im_next_message_id impl + 2) chunks' Hc (ep_config _ _ _ Hend')
    (ep_payload _ _ _ Hend') R3 T2 Tid Hm' ltac:(lia) Hr Hopen Hchunks' Hbytes')
    as (closed & Hcl & Hclosed).
  exists closed. split; [exact Hcl|]. apply (sv_session _ _ _ _ _ _ _ _ Hclosed).
Qed.

(** *** Required profiles *)

(** The two offers meet a required profile: both name it, and all they say under its id
    has its major version, is not older, and has one digest for equal versions. *)
Definition meets (local remotes : list ProfileDescriptor) (required : ProfileDescriptor) :
    Prop :=
  let id := pd_profile_id required in
  id ≠ EmptyString
  ∧ id ∈ pd_profile_id <$> local ∧ id ∈ pd_profile_id <$> remotes
  ∧ ∀ l r, l ∈ local → r ∈ remotes → pd_profile_id l = id → pd_profile_id r = id →
    pd_major l = pd_major required ∧ pd_major r = pd_major required
    ∧ pd_minor required <= pd_minor l ∧ pd_minor required <= pd_minor r
    ∧ (pd_minor l = pd_minor r → pd_schema_digest l = pd_schema_digest r).

Lemma negotiate_met (local remotes : list ProfileDescriptor) required l r :
  meets local remotes required → l ∈ local → r ∈ remotes →
  pd_profile_id l = pd_profile_id required → pd_profile_id r = pd_profile_id required →
  pd_profile_id (negotiate_profile l r).1 = pd_profile_id required
  ∧ pd_major (negotiate_profile l r).1 = pd_major required
  ∧ pd_minor required <= pd_minor (negotiate_profile l r).1.
Proof.
  intros (_ & _ & _ & Hall) Hl Hr Hlid Hrid.
  destruct (Hall l r Hl Hr Hlid Hrid) as (Hlm & Hrm & Hln & Hrn & Hd).
  unfold negotiate_profile. rewrite bool_decide_true, Hlm, Hrm, Z.eqb_refl by congruence.
  cbn [negb orb]. destruct (Z.eqb_spec (pd_minor l) (pd_minor r)) as [E|_]; cbn [andb].
  - rewrite bool_decide_true by auto. cbn. destruct (_ <=? _); split_and!; try done; lia.
  - cbn. destruct (_ <=? _); split_and!; try done; lia.
Qed.

(** A profile both offers name and that fits is negotiated. *)
Lemma negotiated_when_met (local remotes : list ProfileDescriptor) required :
  meets local remotes required →
  is_Some ((negotiate_profiles local remotes).1 !! pd_profile_id required).
Proof.
  intros Hm. unfold negotiate_profiles.
  cut (∀ todo acc, (∀ r, r ∈ todo → r ∈ remotes) →
    is_Some (acc.1 !! pd_profile_id required) ∨ pd_profile_id required ∈ pd_profile_id <$> todo →
    is_Some ((foldl (negotiate_step local) acc todo).1 !! pd_profile_id required)).
  { intros H. apply H; [done|]. right. apply Hm. }
  induction todo as [|r todo IH]; intros acc Hin Hor; cbn [foldl].
  { destruct Hor as [?|[]%elem_of_nil]. done. }
  apply IH; [set_solver|]. unfold negotiate_step.
  destruct (list_find _ local) as [[i l]|] eqn:E; cbn.
  - apply list_find_Some in E as (Hi & Hlid & _). apply list_elem_of_lookup_2 in Hi.
    destruct (decide (pd_profile_id r = pd_profile_id required)) as [Er|Er].
    + destruct (negotiate_met local remotes required l r Hm Hi) as (Hid & _);
        [set_solver|congruence|done|].
      rewrite bool_decide_false by (rewrite Hid; apply Hm). cbn. rewrite Er, lookup_insert_eq.
      left. by eexists.
    + case_bool_decide; cbn; rewrite ?lookup_insert_ne by done;
        destruct Hor as [?|[?|?]%elem_of_cons]; auto; congruence.
  - apply list_find_None in E. destruct Hor as [?|[Er|?]%elem_of_cons]; auto.
    exfalso. destruct Hm as (_ & (l & Hl & Hin')%list_elem_of_fmap & _).
    rewrite Forall_forall in E. apply (E l Hin'). congruence.
Qed.

(** The session of an endpoint supports the profiles the two offers meet. *)
Lemma active_supports session_id peer uid (local remotes : list ProfileDescriptor) required :
  meets local remotes required →
  supports_profile (active_session session_id peer uid local remotes)
    (pd_profile_id required) (pd_major required) (pd_minor required) = true.
Proof.
  intros Hm. unfold supports_profile. cbn [active_session si_negotiated_profiles].
  destruct (negotiated_when_met local remotes required Hm) as [p Hp]. rewrite Hp.
  destruct (negotiate_profiles_spec local remotes) as [Hs _].
  destruct (Hs _ _ Hp) as (l & r & Hl & Hr & Hlid & Hrid & -> & _).
  destruct (negotiate_met local remotes required l r Hm Hl Hr Hlid Hrid) as (_ & Hmaj & Hmin).
  rewrite Hmaj, Z.eqb_refl. by apply Z.leb_le.
Qed.

(** The two offers meet what the configuration requires. *)
Definition requirements_met (config other : RuntimeConfig) : Prop :=
  Forall (meets (cfg_profiles config) (cfg_profiles other)) (cfg_required_profiles config).

(** The session is usable for the endpoint: it is active, and every profile the
    configuration requires is there. *)
Definition usable (config : RuntimeConfig) (session : SessionInfo) : Prop :=
  si_state session = kActive ∧ si_authenticated session = true
  ∧ Forall (λ r, supports_profile session (pd_profile_id r) (pd_major r) (pd_minor r) = true)
      (cfg_required_profiles config).

Lemma active_usable config other session_id peer uid :
  requirements_met config other →
  usable config (active_session session_id peer uid (cfg_profiles config) (cfg_profiles other)).
Proof.
  intros Hm. split; [done|]. split; [done|]. eapply Forall_impl; [exact Hm|].
  intros r Hr. by apply active_supports.
Qed.

(** C3 The handshake works end to end.  Take two endpoints with equal secrets whose
    offers meet the profiles each of them requires, with room for each other's session
    messages in their buffers, fresh connections, clocks and session id within 64 bits,
    and no session of that id at the other side.  After one opens a session, and
    whatever way the queued bytes are cut into reads, the other side's session becomes
    usable, active with every profile it requires, and once its answers have come back
    so does the first side's.  Both hold exactly the profiles negotiated from the two
    configurations. *)
Theorem handshake_completes clock clock' later impl impl' connection connection' near remote
    chunks :
  endpoint impl connection remote → endpoint impl' connection' near →
  let config := im_config impl in
  let config' := im_config impl' in
  cfg_shared_secret config = cfg_shared_secret config' →
  requirements_met config config' → requirements_met config' config →
  room config (cfg_max_buffer_bytes_per_peer config) →
  room config (cfg_max_buffer_bytes_per_peer config') →
  room config' (cfg_max_buffer_bytes_per_peer config) →
  room config' (cfg_max_buffer_bytes_per_peer config') →
  in_uint 64 (runtime_now_ms clock) = true → in_uint 64 (runtime_now_ms clock') = true →
  in_uint 64 (im_next_session_id impl) = true →
  im_sessions impl' !! (peer_id near, im_next_session_id impl) = None →
  let opened := open_session clock (peer_id remote) impl in
  Forall (λ chunk, vsize chunk <= kReceiveChunk) chunks →
  concat chunks = outgoing opened.2 connection →
  ∃ answered session', runtime_receives clock' connection' chunks impl' = Some (true, answered)
  ∧ im_sessions answered !! (peer_id near, opened.1) = Some session'
  ∧ session' = active_session opened.1 (peer_id near) (cfg_endpoint_uid config)
                 (cfg_profiles config') (cfg_profiles config)
  ∧ usable config' session'
  ∧ ∀ chunks',
    Forall (λ chunk, vsize chunk <= kReceiveChunk) chunks' →
    concat chunks' = outgoing answered connection' →
    ∃ closed session, runtime_receives later connection chunks' opened.2 = Some (true, closed)
    ∧ im_sessions closed !! (peer_id remote, opened.1) = Some session
    ∧ session = active_session opened.1 (peer_id remote) (cfg_endpoint_uid config')
                  (cfg_profiles config) (cfg_profiles config')
    ∧ usable config session.
Proof.
  intros Hend Hend' config config' Hsecret M M' R1 R2 R3 R4 T1 T2 Tid Hnone opened Hc Hb.
  destruct (handshake_active clock clock' later impl impl' connection connection' near remote
    chunks Hend Hend' Hsecret R1 R2 R3 R4 T1 T2 Tid Hnone Hc Hb) as (answered & Ha & Hs & Hback).
  exists answered. eexists. do 3 (split; [done|]). split; [by apply active_usable|].
  intros chunks' Hc' Hb'. destruct (Hback chunks' Hc' Hb') as (closed & Hcl & Hs').
  exists closed. eexists. do 3 (split; [done|]). by apply active_usable.
Qed.

(** ** Witness *)

(** A vehicle, and a ground station, whose required profile is [required]. *)
Definition uav_config : RuntimeConfig :=
  mkRuntimeConfig "uav-1" "Vehicle" [] uav_profiles
    [mkProfileDescriptor "yunlink.telemetry" 1 1 EmptyString] [] None "secret" 9696
    (16 * 1024 * 1024 + 65536).
Definition requiring_config (required : ProfileDescriptor) : RuntimeConfig :=
  mkRuntimeConfig "ground-1" "Ground station" []
    [mkProfileDescriptor "yunlink.telemetry" 1 2 "digest"] [required] ["swarm-a"%string] None
    "secret" 9696 (16 * 1024 * 1024 + 65536).
Definition station_config : RuntimeConfig :=
  requiring_config (mkProfileDescriptor "yunlink.telemetry" 1 0 EmptyString).

(** A ground station that has connected to a vehicle, and the vehicle's side of the
    connection. *)
Definition vehicle_address : Peer := mkPeer "tcp://10.0.0.2:9696" "10.0.0.2" 9696.
Definition ground_address : Peer := mkPeer "tcp://10.0.0.1:40001" "10.0.0.1" 40001.
Definition ground_end : Impl := (add_connection vehicle_address (started station_config)).2.
Definition vehicle_end : Impl := (add_connection ground_address (started uav_config)).2.

Lemma added_endpoint config remote :
  config_ready config → vsize (encode_profile_list (cfg_profiles config)) <= kMaxPayloadBytes →
  0 <= cfg_max_buffer_bytes_per_peer config →
  endpoint (add_connection remote (started config)).2
    (add_connection remote (started config)).1 remote.
Proof.
  intros Hc Hp Hmax. pose proof (cr_max _ Hc) as Hmax'. split; try done.
  split; [cbn; by rewrite lookup_insert_eq|]. eexists. cbn.
  rewrite lookup_insert_eq. split; [done|]. split_and!; try done. by apply empty_wf.
Qed.

Lemma sample_configs_ready required :
  config_ready (requiring_config required) ∧ config_ready uav_config.
Proof. split; split; vm_compute; reflexivity. Qed.

Lemma requiring_endpoint required :
  endpoint (add_connection vehicle_address (started (requiring_config required))).2 0
    vehicle_address.
Proof.
  apply (added_endpoint (requiring_config required)); [apply sample_configs_ready|..];
    vm_compute; discriminate.
Qed.

Lemma vehicle_endpoint : endpoint vehicle_end 0 ground_address.
Proof.
  apply (added_endpoint uav_config); [apply (sample_configs_ready no_profile)|..];
    vm_compute; discriminate.
Qed.

Lemma sample_requirements :
  requirements_met station_config uav_config ∧ requirements_met uav_config station_config.
Proof.
  split; (apply Forall_cons_2; [|apply Forall_nil_2]); unfold meets; cbn;
    (split; [done|]; split; [set_solver|]; split; [set_solver|]);
    unfold uav_profiles; intros l r; rewrite !elem_of_cons, !elem_of_nil; intros;
    destruct_or?; subst; try done; cbn in *; split_and!; intros; try done; lia.
Qed.

Lemma handshake_completes_witness :
  let opened := open_session (mkClock 1000 1) "tcp://10.0.0.2:9696" ground_end in
  ∃ answered session',
    runtime_receives (mkClock 2000 1) 0 [outgoing opened.2 0] vehicle_end
    = Some (true, answered)
  ∧ im_sessions answered !! ("tcp://10.0.0.1:40001", opened.1) = Some session'
  ∧ session' = active_session opened.1 "tcp://10.0.0.1:40001" "ground-1"
                 (cfg_profiles uav_config) (cfg_profiles station_config)
  ∧ usable uav_config session'
  ∧ ∀ chunks',
    Forall (λ chunk, vsize chunk <= kReceiveChunk) chunks' →
    concat chunks' = outgoing answered 0 →
    ∃ closed session, runtime_receives (mkClock 1100 2) 0 chunks' opened.2 = Some (true, closed)
    ∧ im_sessions closed !! ("tcp://10.0.0.2:9696", opened.1) = Some session
    ∧ session = active_session opened.1 "tcp://10.0.0.2:9696" "uav-1"
                  (cfg_profiles station_config) (cfg_profiles uav_config)
    ∧ usable station_config session.
Proof.
  destruct sample_requirements as [M M']. intros opened.
  apply (handshake_completes (mkClock 1000 1) (mkClock 2000 1) (mkClock 1100 2) ground_end
    vehicle_end 0 0 ground_address vehicle_address _ (requiring_endpoint _) vehicle_endpoint
    eq_refl M M');
    try (vm_compute; (reflexivity || discriminate)).
  repeat constructor. vm_compute. discriminate.
Defined.

(** ** Required profiles are not looked at *)
Lemma run_shows (r : option (bool * Impl)) (back : Impl → option (bool * Impl)) key required :
  (a ← r; c ← back a.2; s ← im_sessions c.2 !! key;
   Some (a.1, c.1, si_state s, cfg_required_profiles (im_config c.2),
     supports_profile s (pd_profile_id required) (pd_major required) (pd_minor required)))
  = Some (true, true, kActive, [required], false) →
  ∃ answered closed session,
    r = Some (true, answered) ∧ back answered = Some (true, closed)
  ∧ im_sessions closed !! key = Some session
  ∧ required ∈ cfg_required_profiles (im_config closed)
  ∧ si_state session = kActive ∧ ¬ usable (im_config closed) session.
Proof.
  destruct r as [[go answered]|]; [|done]. cbn [mbind option_bind fst snd].
  destruct (back answered) as [[go' closed]|] eqn:E; [|done]. cbn [mbind option_bind fst snd].
  destruct (im_sessions closed !! key) as [session|] eqn:Es; [|done].
  cbn [mbind option_bind]. intros [= -> -> Hstate Hreq Hno].
  exists answered, closed, session. rewrite Hreq.
  split_and!; [done|exact E|exact Es|set_solver|done|].
  intros (_ & _ & Hall). rewrite Hreq, Forall_singleton in Hall. congruence.
Qed.

(** Nothing in the handshake reads [cfg_required_profiles]: a ground station that
    requires a profile the vehicle does not have ends with an active session without
    it, where docs/wire-v2.md says that a missing required profile prevents the session
    from becoming usable. *)
Theorem required_profiles_ignored :
  let required := mkProfileDescriptor "yunlink.control" 1 0 EmptyString in
  let station := (add_connection vehicle_address (started (requiring_config required))).2 in
  let opened := open_session (mkClock 1000 1) "tcp://10.0.0.2:9696" station in
  ∃ answered closed session,
    runtime_receives (mkClock 2000 1) 0 [outgoing opened.2 0] vehicle_end = Some (true, answered)
  ∧ runtime_receives (mkClock 1100 2) 0 [outgoing answered 0] opened.2 = Some (true, closed)
  ∧ im_sessions closed !! ("tcp://10.0.0.2:9696", opened.1) = Some session
  ∧ required ∈ cfg_required_profiles (im_config closed)
  ∧ si_state session = kActive ∧ ¬ usable (im_config closed) session.
Proof.
  intros required station opened.
  apply (run_shows _ (λ answered, runtime_receives (mkClock 1100 2) 0 [outgoing answered 0]
    opened.2)).
  vm_compute. reflexivity.
Qed.
